(* ===== verification/_CoqProject ===== *)
-Q . S2P
Prelude.v
Effects.v
Primality.v
Shamir.v
Text.v
Json.v
Streams.v
X402.v
Receipts.v
StreamRelayer.v
Merkle.v
Circuits.v
Coin.v
Proving.v
Committee.v
Matching.v
Rounds.v
Vault.v
Queue.v
Settler.v
CommitteeService.v
Rfq.v
Assets.v
Relayer.v
Sdk.v
Intents.v
Keys.v
Stellar.v
Browser.v
ProofPath.v
StellarCircuits.v
StellarMatch.v
Arc.v
Prover.v
Sql.v
Web.v
Footprint.v
Schemas.v
Store.v
Ids.v
ShadeView.v
Auth.v
Cctp.v
SdkRoutes.v
ApiUsers.v
ApiVaults.v
ApiRfq.v
ApiMpc.v
Api.v
ApiSafety.v
ApiProps.v
ApiFlows.v
Client.v
RootAudit.v
WebPages.v
Evm.v
ArcPool.v
ArcEscrow.v
ArcLedger.v
ArcSupply.v
ArcNotes.v
ArcFlow.v
ArcProps.v
