(* ===== verification/Prelude.v ===== *)
(** * ShadePay: a verification library

    ShadePay settles private payments in a shielded pool.  Agents stream
    payments as signed vouchers off-chain; notes are spent with Groth16 proofs;
    a committee matches encrypted swap intents without any single node seeing
    an amount; a job queue and a relayer carry the results to the chains; an
    RFQ desk and an encrypted note vault complete the picture, and an HTTP API
    over PostgreSQL is where users and solvers meet them.  This library models
    the TypeScript that carries this logic, with the circuits and the Arc
    contracts it must agree with, as executable definitions.

    ** The parts, and the files that model them

    - Foundations.  This file: results (a value or a thrown message), insertion
      ordered maps as JavaScript objects ([jmap]), the stable sort of
      [Array.prototype.sort], lists, hints and tactics.  [Primality]: the BN254
      modulus is prime, from a certificate.  [Text]: decimal, hexadecimal and
      base64 texts with their parsers.  [Json]: [JSON.stringify] and
      [JSON.parse] on values whose objects keep their key order.  [Effects]: the
      state-and-error monad of the workers and chain clients.
    - Payment channels.  [Streams]: vouchers and the payer and payee agents
      (packages/sdk/src/streams.ts, agents.ts).  [X402]: the voucher header and
      the gate of a paid resource (apps/api/src/x402.ts).  [Receipts]: receipts
      from escrow events (packages/sdk/src/receipts.ts).  [StreamRelayer]:
      which channels to close, in which batches
      (apps/relayer/src/stream-relayer.ts).
    - Shielded notes.  [Merkle]: the off-chain tree
      (packages/proving/src/bn254/merkle.ts), the contract's frontier
      (contracts/arc/src/IncrementalMerkleTree.sol) and the circuits' inclusion
      check.  [Circuits]: the constraints of the seven circuits
      circuits/*_bn254.  [Coin]: notes and the proof builders
      (packages/proving/src/bn254/coin.ts, poseidon.ts, prove.ts, stream.ts).
      [Proving]: builders against circuits.
    - The matching committee.  [Shamir]: secret sharing
      (packages/mpc-crypto/src/shamir.ts).  [Committee]: encrypted shares, the
      batch hash, threshold signatures (committee.ts).  [Matching]: netting and
      priced matching (apps/mpc-committee/src/coordinator.ts).  [Rounds]:
      sessions, the in-process and the networked round, the nodes' and the
      coordinators' handlers (state.ts, coordinator.ts, remote-coordinator.ts,
      node-server.ts).  [Keys]: the nodes' keys at rest and their loading
      (keys.ts).  [CommitteeService]: the combined and the networked service,
      from start to the persistence of signed batches (server.ts,
      coordinator-server.ts).
    - The browser.  [Sdk]: sharing, encryption and commitments
      (packages/sdk/src/mpc.ts).  [Intents]: the client of the API with its
      polling loops (packages/sdk/src/intents.ts).  [SdkRoutes]: deposit and
      exit routes over CCTP and the wallet adapters (packages/sdk/src/cctp.ts,
      wallets.ts).  [Client]: the SDK against the API and the committee.
      [Browser]: the chain clients of the web application (frontend/lib/arc.ts,
      cctp.ts, streampay.ts, freighter-withdraw.ts).  [WebPages]: its API client
      and the deposit, withdrawal and trade pages (frontend/lib/api.ts,
      token.ts, privy-wallets.ts, vault-hooks.ts, app/(app)/deposit and
      app/(app)/move).
    - Proofs on Stellar.  [Assets]: asset ids and the registry
      (packages/assets).  [ProofPath]: the proof builders over external
      programs (packages/proving/src/paths.ts, prove.ts, mpc-settlement.ts,
      mpc-priced.ts, compliance.ts, env.ts).  [StellarCircuits]: the BLS12-381
      circuits circuits/compliance_membership, mpc_priced_settlement and
      mpc_settlement, and the compliance gate.  [StellarMatch]: the settlement
      builders against their circuits.
    - Settlement.  [Queue]: the durable job queue (packages/queue/src/index.ts).
      [Settler]: persisting batches and dispatching one job per match
      (persist.ts, settler.ts).  [Relayer]: every job type of the worker
      (apps/relayer/src/worker.ts).  [Prover]: the proof jobs and the worker
      iteration (apps/prover/src/worker.ts).  [Stellar]: contract calls through
      the command line and the broadcast of signed transactions
      (packages/stellar-utils, stellar-actions).  [Arc]: service-signed calls,
      unsigned transactions and receipts on Arc (packages/arc-actions).  [Cctp]: attestation polling,
      validation of a user's burn, the inbound flows (packages/cctp,
      packages/cctp-utils).
    - Desk and wallet.  [Rfq]: quotes, atomic-swap terms, remittance receipts
      and the solver (packages/rfq, apps/solver).  [Vault]: vault envelopes,
      recovery wrappers, the plaintext gate and the note manager
      (packages/note-vault/src/index.ts, packages/sdk/src/notes.ts).
    - The API server (apps/api/src).  [Sql]: tables of rows with the columns,
      defaults and keys of db/migrations, and the statements.  [Web]: the monad
      of a handler (statements, jobs, outgoing calls, thrown status codes), the
      [Runtime] it runs in and the error handler (server.ts).  [Schemas]: the
      request schemas (schemas.ts, packages/rfq-types).  [Store]: every method
      of db.ts.  [Ids]: deterministic ids, stable hashing and note commitments
      (packages/shared-types/src/ids.ts, packages/note-crypto).  [ShadeView]:
      signed disclosure reports (shade-view.ts).  [Auth]: wallet logins,
      sessions and Privy tokens (auth.ts, packages/auth-privy).  [ApiUsers],
      [ApiVaults], [ApiRfq], [ApiMpc]: the routes of routes.ts.  [Api]: the
      table of routes and the dispatch.  [Footprint], [ApiSafety]: what a
      handler writes, and the invariants that follow.  [ApiProps], [ApiFlows]:
      the theorems about all routes, and about single flows.  [RootAudit]: the root
      auditor (apps/root-auditor) and the gate its findings close.
    - The Arc contracts (contracts/arc/src).  [Evm]: words with checked
      arithmetic, the context of a call, the code outside the repository,
      NullifierRegistry.sol and the threshold of CommitteeRegistry.sol.
      [ArcPool]: the state of the deployment ([World]) and ShieldedPool.sol.
      [ArcEscrow]: StreamEscrow.sol, the external calls ([Call], [exec]) and
      sequences of transactions ([run]), in which a call that reverts changes
      nothing and the outside may change the tokens.  [ArcLedger]: what a call
      spends and inserts.  [ArcSupply]: supplies, caps and balances.
      [ArcNotes]: the notes behind the proofs of a run, read off the witnesses
      with the public signals of the circuits' main components.  [ArcFlow]: the
      proof builders and the committee's batches against the contracts.
      [ArcProps]: the theorems about runs, with a small deployment.

    The parts meet as in the code: a round ([Rounds]) decrypts and reconstructs
    with [Committee] and [Shamir], matches with [Matching] and signs with
    [Committee]; [Settler] turns the signed batch into jobs of [Queue]; the
    [Relayer] claims them, verifies the batch against the committee read from
    the chain and submits; the notes it moves satisfy [Circuits] because [Coin]
    builds their inputs; a channel settlement consumes the voucher of
    [Streams].  The API enqueues into the same [Queue]; the burn it asks a user
    to sign is the one the relayer's validation ([Cctp]) accepts.

    ** Conventions

    A thrown error is [Err message] of [result]; a handler that mutates returns
    its new state beside its answer, so that effects made before an error are
    kept.  Bigints are [Z]; field arithmetic is reduced where the code reduces
    it, 128-bit and 32-bit layouts are explicit.  Texts and buffers are
    [string], the bytes of the UTF-8 text.  Random bytes, UUIDs, clock readings
    and the answers of remote services are arguments, in the order the code
    asks for them.

    Code outside the repository is a class whose instances are parameters of
    the definitions: [Eddsa] and [Poseidon] (circomlibjs), [Circomlib] and
    [Snarkjs], [Nacl] (tweetnacl and SHA-256), [WebCrypto], [NodeCrypto] and
    [Collation] (node:crypto, stellar-sdk, [localeCompare]), [Zod], [WalletLib],
    [Es256], [ChainLib] (zod, ethers signatures, WebCrypto's ES256, StrKey and
    calldata decoding), [CircomlibBls], [MerkleTool] and [WithdrawTool] (the
    Poseidon of the Stellar circuits and the command line tools that build
    trees and coins), [Erc20] (tokens and Circle's TokenMessenger),
    [Precompiles] (verifier contracts, Ed25519, SHA-256), [Deployed] (the
    addresses of the contracts), [Extractor] (the witness behind an accepted
    proof) and [Runtime] (clock, random draws, environment, answers
    to outgoing calls).  What the code
    relies on is in the matching [...Laws] class, each with a concrete instance
    next to the theorems that use it.  Collision resistance is never assumed:
    binding theorems conclude "equal, or here is a collision", and the theorems
    about notes "the books are right, or two of the hash inputs this run used
    collide or one hashes to zero" ([hash_accident]).

    ** What the theorems show

    - Matching committee: an honest round, in-process or with any two thirds of
      the nodes reachable, returns exactly the netting of the true amounts in a
      batch that verifies, and clears what it decrypted; in every reachable
      state the batches served verify ([Rounds]).  Netting is sound and maximal,
      priced matching respects every limit ([Matching]).  A batch is accepted
      exactly with two thirds of distinct members, quorums overlap, the hash
      binds its content and ignores the order ([Committee]).  Whatever the
      service does, only verified batches it signed reach the settler, and a
      batch that is persisted is dispatched ([CommitteeService]).  Shamir sharing
      reconstructs, is perfectly secret below the threshold and samples
      uniformly ([Shamir]).
    - From the browser to the batch: what the SDK builds, the API accepts and
      forwards, and an honest round matches by the true amounts ([Client]); the
      same file shows that the requests the SDK sends are refused for want of an
      idempotency key.  The deposit page's polling ends with a defined stage,
      and three of the pages' flows call routes the API does not have
      ([WebPages]).  A committee keeps its keys over restarts ([Keys]).
    - Notes: each builder whose guards pass yields inputs that satisfy its
      circuit, circuits conserve value as integers, inclusion proofs verify and
      the frontier computes the root of the full tree ([Proving], [Merkle]).
      The same-asset settlement circuit is shown not to conserve value.
    - Proofs on Stellar: the witness of a settlement, same-asset or priced,
      satisfies its circuit exactly when the spent notes are in the tree, the
      amounts match and the price holds; a compliance witness is built exactly
      for a label that is approved and not sanctioned, and the circuit accepts
      no other; the hash fields of a proof are those the contract computes
      ([StellarMatch], [StellarCircuits], [ProofPath], [Assets]).
    - Channels: a payer never exceeds budget or cap, a payee keeps the best
      valid voucher, the two agree, headers round-trip, the gate opens exactly
      when it should, receipts account for the whole cap, batching is complete.
    - Settlement: every row is handed out at most three times and to one worker
      at a time; dispatch is exactly-once; whatever its payload, a relayer job
      submits only settlements authorised by the on-chain committee.  The Arc
      branch is shown to reject every batch.
    - Desk and wallet: quotes are exact and signed over what they say, swap
      terms are bound by their hash, sealed vaults come back, and the plaintext
      gate and log redaction are exact.
    - API: whatever sequence of requests is handled, every row keeps the columns
      and keys of its table; no route but the public ones runs without an
      accepted identity; a critical audit finding blocks every spending route; a
      logged-out session stays dead; a login consumes a live nonce signed by the
      wallet; a settlement passes only with its whole lifecycle in the tables,
      which no sequence of requests can produce; vault routes touch only the
      caller's vaults; reports disclose only the caller's rows ([ApiProps],
      [ApiFlows]).  Proofs use the footprint of each handler: an invariant kept
      by every statement a handler may issue is kept by the handler.
    - Audit and chain clients: the auditor reads every deposit of its window,
      and a root that no honest registrar stores blocks every spend from then on
      ([RootAudit]); retries stop at the first success, the signing secret stays out of
      results and errors, a receipt read by kind of event is the one of the whole
      log ([Stellar], [Arc]).
    - Arc: over any sequence of transactions no nullifier is spent twice, the
      pool's tree is the tree of merkle.ts over the inserted leaves, and supply
      and open channels account for every deposit and exit.  With genuine
      verifiers, one escrow and no outflow of the pool's tokens, the value of
      the unspent notes never exceeds the supply nor the supply the balance;
      every unspent note can be withdrawn with the input the proof builder
      makes; every live channel can be settled or, after its window, reclaimed.
      The contract's threshold accepts the batches [verifySignedBatch] does.
      The payee of a settled quote is shown not to be bound ([ArcProps]).
    - Bridge and workers: a prepared burn passes the relayer's validation and
      everything that passes it has the expected terms; a note is registered
      only for an amount within the burn; polling ends; a prover empties its
      queue and stores only public parts of verified proofs.

    ** Fuel and bounds

    Loops that are not structural carry fuel.  [modinv_loop] runs with more
    steps than its remainders can halve; [randomFieldElement] consumes the list
    of draws; the priced matcher and the netting loops recurse on the remaining
    intents; [chunk_loop] has one unit of fuel per element, enough for every
    positive batch size, and [nonpositive_batch_size_diverges] shows no fuel is
    enough otherwise; the JSON parser is fuelled by the length of its text, and
    the round trips prove that this is enough.

    ** What is not modelled

    Not modelled: the other pages, components and hooks of the web front end,
    its passkeys and local caches, the command line scripts, deployment
    scripts, the Soroban contracts, StreamPay.sol and the generated verifiers.
    Of the Arc contracts: OpenZeppelin's role administration (the roles a caller
    holds are part of the context) and its events, plain getters, gas,
    and reentrancy (tokens and verifiers answer without calling back).  The
    same-asset settlement is modelled but excluded from the theorems about
    notes, because its circuit does not bound what it makes.  Of the API: the CORS hook,
    reply cookies and the endless event stream (one tick is modelled); of the
    Privy guard: the in-process cache of verification keys.  JSON number
    literals with a fraction or an exponent are rejected by the model of
    [JSON.parse].  PostgreSQL's transactions are single statements, as in the
    code. *)

From Stdlib Require Export ZArith Lia Permutation Sorted Ascii.
From stdpp Require Export base tactics option list sets gmap strings pretty numbers.
#[global] Open Scope Z_scope.

Set Warnings "-clear-no-such-hyp".
Create HintDb shade.
Create Rewrite HintDb shade.

(** ** Results: a returned value or a thrown error message *)

Inductive result (A : Type) : Type :=
| Ok (a : A)
| Err (msg : string).
Arguments Ok {A} a.
Arguments Err {A} msg.

Definition rbind {A B} (r : result A) (k : A -> result B) : result B :=
  match r with Ok a => k a | Err m => Err m end.

Declare Scope shade_scope.
Delimit Scope shade_scope with shade.
Notation "'let!' x ':=' c 'in' k" := (rbind c (fun x => k))
  (at level 10, x pattern, c at level 100, k at level 200) : shade_scope.
Notation "'throw_if' b 'with' m 'in' k" := (if b then Err m else k)
  (at level 10, b at level 100, m at level 100, k at level 200) : shade_scope.
#[global] Open Scope shade_scope.

Definition is_ok {A} (r : result A) : bool := match r with Ok _ => true | Err _ => false end.

Lemma rbind_Ok {A B} (r : result A) (k : A -> result B) b :
  rbind r k = Ok b <-> exists a, r = Ok a /\ k a = Ok b.
Proof.
  destruct r as [a|m]; cbn; [|by split; [|intros (? & ? & _)]].
  split; [by exists a|]. by intros (a' & [= ->] & ?).
Qed.

(** [l.map(f)] where [f] may throw: the first error wins. *)
Fixpoint rmap {A B} (f : A -> result B) (l : list A) : result (list B) :=
  match l with [] => Ok [] | a :: l => let! b := f a in let! bs := rmap f l in Ok (b :: bs) end.

Lemma rmap_Forall2 {A B} (f : A -> result B) l : Forall (fun a => exists b, f a = Ok b) l ->
  exists bs, rmap f l = Ok bs /\ Forall2 (fun a b => f a = Ok b) l bs.
Proof.
  induction 1 as [|a l [b Hb] _ (bs & E & F)]; [by exists []|]. exists (b :: bs). cbn [rmap]. rewrite Hb, E. by split; [|constructor].
Qed.

Lemma rmap_Err {A B} (f : A -> result B) l a e : a ∈ l -> f a = Err e -> exists e', rmap f l = Err e'.
Proof.
  intros Ha He. induction l as [|b l IH]; [by apply not_elem_of_nil in Ha|]. cbn [rmap]. apply elem_of_cons in Ha as [<-|Ha]; [rewrite He; by eexists|].
  destruct (f b); [|by eexists]. destruct (IH Ha) as [e' ->]. by eexists.
Qed.

(** Case analysis on every [match]/[if] the goal or a hypothesis still blocks on. *)
Ltac destruct_guard :=
  match goal with
  | H : context [ match ?x with _ => _ end ] |- _ =>
      lazymatch x with context [ match _ with _ => _ end ] => fail | _ => destruct x eqn:? end
  | |- context [ match ?x with _ => _ end ] =>
      lazymatch x with context [ match _ with _ => _ end ] => fail | _ => destruct x eqn:? end
  end.

Ltac guards := repeat (destruct_guard; simplify_eq/=; try done).

(** Turn boolean tests of the code into propositions. *)
Ltac breflect :=
  repeat match goal with
  | H : (_ && _)%bool = true |- _ => apply andb_prop in H as [? ?]
  | H : (_ || _)%bool = false |- _ => apply orb_false_elim in H as [? ?]
  | H : negb _ = true |- _ => apply negb_true_iff in H
  | H : negb _ = false |- _ => apply negb_false_iff in H
  | H : (_ <? _)%Z = true |- _ => apply Z.ltb_lt in H
  | H : (_ <? _)%Z = false |- _ => apply Z.ltb_ge in H
  | H : (_ <=? _)%Z = true |- _ => apply Z.leb_le in H
  | H : (_ <=? _)%Z = false |- _ => apply Z.leb_gt in H
  | H : (_ =? _)%Z = true |- _ => apply Z.eqb_eq in H
  | H : (_ =? _)%Z = false |- _ => apply Z.eqb_neq in H
  | H : (_ <? _)%nat = true |- _ => apply Nat.ltb_lt in H
  | H : (_ <? _)%nat = false |- _ => apply Nat.ltb_ge in H
  | H : (_ <=? _)%nat = true |- _ => apply Nat.leb_le in H
  | H : (_ <=? _)%nat = false |- _ => apply Nat.leb_gt in H
  | H : (_ =? _)%nat = true |- _ => apply Nat.eqb_eq in H
  | H : (_ =? _)%nat = false |- _ => apply Nat.eqb_neq in H
  | H : bool_decide _ = true |- _ => apply bool_decide_eq_true_1 in H
  | H : bool_decide _ = false |- _ => apply bool_decide_eq_false_1 in H
  end.

(** ** JavaScript [Map]s: association lists in insertion order *)

Section JMap.
Context {K V : Type} `{!EqDecision K}.

Definition jmap := list (K * V).

Fixpoint jget (k : K) (m : list (K * V)) : option V :=
  match m with
  | [] => None
  | (k', v) :: m' => if decide (k = k') then Some v else jget k m'
  end.

Definition jhas (k : K) (m : list (K * V)) : bool := bool_decide (is_Some (jget k m)).

(** [Map.prototype.set]: overwrite in place, or append at the end. *)
Fixpoint jset (k : K) (v : V) (m : list (K * V)) : list (K * V) :=
  match m with
  | [] => [(k, v)]
  | (k', v') :: m' => if decide (k = k') then (k', v) :: m' else (k', v') :: jset k v m'
  end.

Lemma jget_jset_eq k v m : jget k (jset k v m) = Some v.
Proof. induction m as [|[k' v'] m IH]; cbn; [by rewrite decide_True|]. repeat case_decide; cbn; by repeat case_decide. Qed.

Lemma jget_jset_ne k k' v m : k <> k' -> jget k' (jset k v m) = jget k' m.
Proof.
  intros Hne. induction m as [|[k2 v2] m IH]; cbn; [by rewrite decide_False|].
  repeat case_decide; cbn; repeat case_decide; naive_solver.
Qed.

Lemma jset_keys k v m :
  (jset k v m).*1 = if jhas k m then m.*1 else m.*1 ++ [k].
Proof.
  unfold jhas. induction m as [|[k' v'] m IH]; cbn; [done|].
  case_decide; cbn; subst; [done|]. rewrite IH. by case_bool_decide.
Qed.

Lemma jget_Some_elem k v m : jget k m = Some v -> (k, v) ∈ m.
Proof.
  induction m as [|[k' v'] m IH]; cbn; [done|]. case_decide; simplify_eq; set_solver.
Qed.

Lemma elem_jget k v m : NoDup m.*1 -> (k, v) ∈ m -> jget k m = Some v.
Proof.
  induction m as [|[k' v'] m IH]; cbn; [set_solver|].
  intros [Hni Hnd]%list.NoDup_cons [?|Hin]%elem_of_cons; simplify_eq; [by rewrite decide_True|].
  rewrite decide_False; [auto|]. intros ->. apply Hni. apply list_elem_of_fmap. by exists (k', v).
Qed.

Lemma jget_None k m : jget k m = None <-> k ∉ m.*1.
Proof. induction m as [|[k' v'] m IH]; cbn; [set_solver|]. case_decide; set_solver. Qed.

Lemma jhas_spec k m : jhas k m = true <-> k ∈ m.*1.
Proof.
  unfold jhas. rewrite bool_decide_eq_true, <- not_eq_None_Some, jget_None.
  split; [apply dec_stable|tauto].
Qed.

Lemma jset_nodup k v m : NoDup m.*1 -> NoDup (jset k v m).*1.
Proof.
  intros Hnd. rewrite jset_keys. destruct (jhas k m) eqn:E; [done|].
  apply list.NoDup_app. split_and!; [done| |apply NoDup_singleton].
  intros x Hx Hk. apply list_elem_of_singleton in Hk as ->.
  apply jhas_spec in Hx. congruence.
Qed.

Lemma jset_elem k v m k' v' : (k', v') ∈ jset k v m -> (k' = k /\ v' = v) \/ (k', v') ∈ m.
Proof.
  induction m as [|[k2 v2] m IH]; cbn; [set_solver|]. case_decide; set_solver.
Qed.

Lemma jset_fresh k v m : k ∉ m.*1 -> jset k v m = m ++ [(k, v)].
Proof.
  induction m as [|[k' v'] m IH]; cbn; intros H; [done|]. apply not_elem_of_cons in H as [? ?].
  rewrite decide_False by done. by rewrite IH.
Qed.
End JMap.

(** Setting entries with fresh keys, one after the other, appends them. *)
Lemma jset_all_fresh {K V} `{!EqDecision K} (l m : list (K * V)) : NoDup (m ++ l).*1 ->
  fold_left (fun m kv => jset kv.1 kv.2 m) l m = (m ++ l)%list.
Proof.
  revert m. induction l as [|[k v] l IH]; intros m Hm; cbn [fold_left fst snd]; [by rewrite app_nil_r|].
  rewrite fmap_app in Hm. pose proof Hm as (_ & Hd & _)%list.NoDup_app. rewrite jset_fresh; [|intros Hk; apply (Hd k Hk); by left].
  rewrite IH; [by rewrite <- app_assoc|]. by rewrite <- app_assoc, fmap_app.
Qed.

Lemma jget_map {K V W} `{!EqDecision K} (f : V -> W) (k : K) (m : list (K * V)) :
  jget k (map (fun kv => (kv.1, f kv.2)) m) = f <$> jget k m.
Proof. induction m as [|[k' v] m IH]; [done|]. cbn. by case_decide. Qed.

(** A loop whose items each touch only the entry of their own key. *)
Section Keyed.
Context {A K V : Type} `{!EqDecision K} (key : A -> K).

Definition find_key (k : K) (l : list A) : option A := List.find (fun a => bool_decide (key a = k)) l.

Lemma find_key_own l i a : NoDup (map key l) -> l !! i = Some a -> find_key (key a) l = Some a.
Proof.
  revert i. induction l as [|b l IH]; intros i Hnd Hi; [done|]. cbn [map] in Hnd.
  apply list.NoDup_cons in Hnd as [Hne Hnd]. unfold find_key. cbn [List.find]. destruct i as [|i]; cbn in Hi.
  { injection Hi as ->. by rewrite bool_decide_true. }
  rewrite bool_decide_false; [by eapply IH|]. intros E. apply Hne. rewrite E.
  apply list_elem_of_fmap_2. by eapply list_elem_of_lookup_2.
Qed.

Lemma find_key_None k l : k ∉ map key l -> find_key k l = None.
Proof.
  intros Hk. unfold find_key. destruct (List.find _ l) as [a|] eqn:E; [|done]. exfalso. apply Hk.
  apply find_some in E as [Hin Hid]. apply bool_decide_eq_true in Hid as <-.
  by apply list_elem_of_fmap_2, list_elem_of_In.
Qed.

Lemma fold_keyed (upd : list (K * V) -> A -> list (K * V)) (f : A -> option V -> option V) l m k :
  (forall m a k, jget k (upd m a) = if decide (key a = k) then f a (jget k m) else jget k m) ->
  NoDup (map key l) ->
  jget k (fold_left upd l m) = match find_key k l with Some a => f a (jget k m) | None => jget k m end.
Proof.
  intros Hupd. revert m. induction l as [|a l IH]; intros m Hnd; [done|]. cbn [map] in Hnd.
  apply list.NoDup_cons in Hnd as [Hne Hnd]. cbn [fold_left]. rewrite IH, Hupd by done.
  unfold find_key. cbn [List.find]. destruct (decide (key a = k)) as [<-|Hn].
  - rewrite bool_decide_true by done. fold (find_key (key a) l). by rewrite find_key_None.
  - by rewrite bool_decide_false.
Qed.
End Keyed.
Arguments jmap : clear implicits.
#[export] Hint Resolve jset_nodup : shade.
#[export] Hint Rewrite @jget_jset_eq : shade.
#[export] Hint Rewrite @jget_jset_ne using done : shade.

(** ** [Array.prototype.sort]: a stable sort driven by the comparator's sign *)

Section Sort.
Context {A : Type} (lt : A -> A -> bool).

Fixpoint sort_ins (x : A) (l : list A) : list A :=
  match l with
  | [] => [x]
  | y :: t => if lt x y then x :: y :: t else y :: sort_ins x t
  end.

Definition js_sort (l : list A) : list A := fold_left (fun acc x => sort_ins x acc) l [].

Lemma sort_ins_perm x l : sort_ins x l ≡ₚ x :: l.
Proof.
  induction l as [|y t IH]; cbn; [done|]. destruct (lt x y); [done|].
  rewrite IH. by constructor.
Qed.

Lemma js_sort_fold_perm l acc : fold_left (fun acc x => sort_ins x acc) l acc ≡ₚ l ++ acc.
Proof.
  revert acc. induction l as [|x l IH]; intros acc; cbn; [done|].
  rewrite IH, sort_ins_perm. apply Permutation_sym, Permutation_middle.
Qed.

Lemma js_sort_perm l : js_sort l ≡ₚ l.
Proof. unfold js_sort. rewrite js_sort_fold_perm. by rewrite app_nil_r. Qed.

Lemma js_sort_elem x l : x ∈ js_sort l <-> x ∈ l.
Proof. by rewrite js_sort_perm. Qed.

Lemma js_sort_length l : length (js_sort l) = length l.
Proof. by rewrite js_sort_perm. Qed.

(** The comparator is a strict weak order: the result is sorted. *)
Hypothesis lt_asym : forall x y, lt x y = true -> lt y x = false.
Hypothesis lt_ntrans : forall x y z, lt x y = false -> lt y z = false -> lt x z = false.

Definition nlt (x y : A) : Prop := lt y x = false.

Lemma sort_ins_sorted x l : StronglySorted nlt l -> StronglySorted nlt (sort_ins x l).
Proof.
  induction 1 as [|y t Hs IH Hy]; cbn; [repeat constructor|].
  destruct (lt x y) eqn:E.
  - constructor; [by constructor|]. constructor; [by apply lt_asym|].
    eapply list.Forall_impl; [exact Hy|]. intros z Hz. unfold nlt in *.
    eapply lt_ntrans; [exact Hz|]. by apply lt_asym.
  - constructor; [done|]. rewrite sort_ins_perm. by constructor.
Qed.

Lemma js_sort_sorted l : StronglySorted nlt (js_sort l).
Proof.
  unfold js_sort. assert (StronglySorted nlt []) as Hn by constructor. revert Hn.
  generalize (@nil A). induction l as [|x l IH]; intros acc Hacc; cbn; [done|].
  by apply IH, sort_ins_sorted.
Qed.

(** When incomparable elements of the list are equal, two sorted permutations
    coincide. *)
Definition separated (l : list A) : Prop :=
  forall x y, x ∈ l -> y ∈ l -> lt x y = false -> lt y x = false -> x = y.

Lemma sorted_perm_eq l l' :
  separated l -> l ≡ₚ l' -> StronglySorted nlt l -> StronglySorted nlt l' -> l = l'.
Proof.
  revert l'. induction l as [|x l IH]; intros l' Hsep Hp Hs Hs'.
  - by apply Permutation_nil_l in Hp.
  - destruct l' as [|y l']; [by apply Permutation_nil_r in Hp|].
    inversion Hs as [|? ? Hs1 Hx]; inversion Hs' as [|? ? Hs1' Hy]; subst.
    assert (x ∈ y :: l') as Hin by (rewrite <- Hp; set_solver).
    assert (y ∈ x :: l) as Hin' by (rewrite Hp; set_solver).
    assert (x = y) as ->.
    { rewrite list.Forall_forall in Hx, Hy.
      pose proof Hin as Hin2. apply elem_of_cons in Hin2 as [|Hin2]; [done|].
      pose proof Hin' as Hin3. apply elem_of_cons in Hin3 as [|Hin3]; [done|].
      apply Hsep; [set_solver|done|exact (Hy _ Hin2)|exact (Hx _ Hin3)]. }
    f_equal. apply IH; auto; [|by apply Permutation_cons_inv in Hp].
    intros a b Ha Hb. apply Hsep; set_solver.
Qed.

Lemma js_sort_perm_invariant l l' : separated l -> l ≡ₚ l' -> js_sort l = js_sort l'.
Proof.
  intros Hsep Hp. apply sorted_perm_eq; [| |apply js_sort_sorted..].
  - intros x y Hx Hy. apply Hsep; by apply js_sort_elem.
  - by rewrite !js_sort_perm.
Qed.
End Sort.

Lemma StronglySorted_weaken {A} (R R' : A -> A -> Prop) l :
  (forall x y, R x y -> R' x y) -> StronglySorted R l -> StronglySorted R' l.
Proof.
  intros Himp. induction 1 as [|x l Hs IH Hx]; constructor; [done|].
  eapply list.Forall_impl; [exact Hx|]. eauto.
Qed.

(** ** Strings ordered by code unit (JavaScript's [<] on strings) *)

Fixpoint str_ltb (s t : string) : bool :=
  match s, t with
  | _, EmptyString => false
  | EmptyString, String _ _ => true
  | String a s', String b t' =>
      if (N_of_ascii a <? N_of_ascii b)%N then true
      else if (N_of_ascii b <? N_of_ascii a)%N then false
      else str_ltb s' t'
  end.

Lemma str_ltb_asym s t : str_ltb s t = true -> str_ltb t s = false.
Proof.
  revert t. induction s as [|a s IH]; intros [|b t]; cbn; try done.
  destruct (N.ltb_spec (N_of_ascii a) (N_of_ascii b)), (N.ltb_spec (N_of_ascii b) (N_of_ascii a)); try done; try lia.
  apply IH.
Qed.

Lemma str_ltb_ntrans x y z : str_ltb x y = false -> str_ltb y z = false -> str_ltb x z = false.
Proof.
  revert y z. induction x as [|a x IH]; intros [|b y] [|c z]; cbn; try done.
  destruct (N.ltb_spec (N_of_ascii a) (N_of_ascii b)); [done|].
  destruct (N.ltb_spec (N_of_ascii b) (N_of_ascii a)), (N.ltb_spec (N_of_ascii b) (N_of_ascii c)),
    (N.ltb_spec (N_of_ascii c) (N_of_ascii b)), (N.ltb_spec (N_of_ascii a) (N_of_ascii c)),
    (N.ltb_spec (N_of_ascii c) (N_of_ascii a)); try done; try lia.
  apply IH.
Qed.

Lemma str_ltb_total s t : str_ltb s t = false -> str_ltb t s = false -> s = t.
Proof.
  revert t. induction s as [|a s IH]; intros [|b t]; cbn; try done.
  destruct (N.ltb_spec (N_of_ascii a) (N_of_ascii b)), (N.ltb_spec (N_of_ascii b) (N_of_ascii a)); try done; try lia.
  intros. f_equal; [|by apply IH].
  rewrite <- (ascii_N_embedding a), <- (ascii_N_embedding b). f_equal. lia.
Qed.

(** ** Small arithmetic of the sources *)

(** [Math.ceil(n * 2 / 3)], the committee threshold. *)
Definition ceil_two_thirds (n : nat) : nat := ((2 * n + 2) / 3)%nat.

Lemma ceil_two_thirds_spec n :
  (2 * n <= 3 * ceil_two_thirds n)%nat /\ (3 * ceil_two_thirds n < 2 * n + 3)%nat.
Proof.
  unfold ceil_two_thirds.
  pose proof (Nat.div_mod (2 * n + 2) 3 ltac:(lia)).
  pose proof (Nat.mod_upper_bound (2 * n + 2) 3 ltac:(lia)). lia.
Qed.
