(* ===== verification/Effects.v ===== *)
(** The state-and-error monad of the workers and chain clients.

    A computation takes the state, records what it does in it, and returns a
    value or throws; what was done before a throw stays done.  [Relayer],
    [Prover] and [Cctp] instantiate the state with their own record of external
    calls. *)

From S2P Require Import Prelude.

Section Effects.
Context {W : Type}.

Definition SE (A : Type) : Type := W -> W * result A.
Definition ret {A} (a : A) : SE A := fun w => (w, Ok a).
Definition throw {A} (e : string) : SE A := fun w => (w, Err e).
Definition bindM {A B} (c : SE A) (k : A -> SE B) : SE B :=
  fun w => match c w with (w, Ok a) => k a w | (w, Err e) => (w, Err e) end.
Definition lift {A} (r : result A) : SE A := fun w => (w, r).
(** [try { c } catch { return d }] *)
Definition catch {A} (c : SE A) (d : string -> SE A) : SE A :=
  fun w => match c w with (w, Ok a) => (w, Ok a) | (w, Err e) => d e w end.

Lemma bindM_Ok {A B} (c : SE A) (k : A -> SE B) w w' b : bindM c k w = (w', Ok b) ->
  exists a w1, c w = (w1, Ok a) /\ k a w1 = (w', Ok b).
Proof. unfold bindM. destruct (c w) as [w1 [a|e]]; [|done]. intros H. by exists a, w1. Qed.

End Effects.
Arguments SE W A : clear implicits.

Notation "'run!' x ':=' c 'in' k" := (bindM c (fun x => k))
  (at level 10, x pattern, c at level 100, k at level 200) : shade_scope.
