(* ===== verification/Primality.v ===== *)
(** Primality of the BN254 scalar-field modulus.

    The Shamir and proof-input code computes modulo the BN254 scalar prime; its
    arithmetic is only meaningful because that modulus is prime.  This file
    proves primality from a certificate in the style of Pocklington: a base [a]
    with [a^(N-1) = 1 (mod N)] and, for every prime [q] of a large factored part
    of [N-1], [gcd (a^((N-1)/q) - 1, N) = 1].  Everything is over the Standard
    Library's [Z]; the powers are computed by repeated squaring under
    [vm_compute]. *)

From Stdlib Require Import ZArith List Lia Wf_nat.
Import ListNotations.
Local Open Scope Z_scope.

(** ** Modular exponentiation by repeated squaring *)

Fixpoint powm_pos (n a : Z) (e : positive) : Z :=
  match e with
  | xH => a mod n
  | xO e' => let h := powm_pos n a e' in (h * h) mod n
  | xI e' => let h := powm_pos n a e' in ((h * h) mod n * a) mod n
  end.

Definition powm (n a e : Z) : Z :=
  match e with Zpos p => powm_pos n a p | _ => 1 mod n end.

Lemma powm_pos_spec n a e : 0 < n -> powm_pos n a e = a ^ Zpos e mod n.
Proof.
  intros Hn. induction e as [e IH|e IH|]; cbn [powm_pos].
  - rewrite IH, Pos2Z.inj_xI, <- Z.mul_mod, Z.mul_mod_idemp_l by lia.
    f_equal. rewrite <- Z.pow_add_r by lia.
    replace (2 * Zpos e + 1) with ((Zpos e + Zpos e) + 1) by lia.
    now rewrite (Z.pow_add_r a _ 1), Z.pow_1_r by lia.
  - rewrite IH, Pos2Z.inj_xO, <- Z.mul_mod by lia.
    f_equal. rewrite <- Z.pow_add_r by lia. f_equal. lia.
  - now rewrite Z.pow_1_r.
Qed.

Lemma powm_spec n a e : 0 < n -> 0 <= e -> powm n a e = a ^ e mod n.
Proof.
  intros Hn He. destruct e as [|e|e]; cbn [powm]; [reflexivity| |lia].
  now apply powm_pos_spec.
Qed.

(** ** The order of a unit modulo [m] *)

Section Order.
Context (m a : Z) (Hm : 1 < m).

Definition is_unit_exp (d : nat) : Prop := (0 < d)%nat /\ a ^ Z.of_nat d mod m = 1.

Lemma unit_exp_dec d : is_unit_exp d \/ ~ is_unit_exp d.
Proof.
  unfold is_unit_exp. destruct (Nat.eq_dec d 0) as [->|H]; [right; lia|].
  destruct (Z.eq_dec (a ^ Z.of_nat d mod m) 1); [left; lia|right; tauto].
Qed.

Definition is_order (d : nat) : Prop :=
  is_unit_exp d /\ forall d', is_unit_exp d' -> (d <= d')%nat.

Lemma order_exists e : is_unit_exp e -> exists d, is_order d.
Proof.
  intros He.
  destruct (dec_inh_nat_subset_has_unique_least_element is_unit_exp unit_exp_dec
              (ex_intro _ e He)) as (d & [Hd Hmin] & _).
  exists d. split; auto.
Qed.

Lemma pow_mod_add i j : a ^ Z.of_nat (i + j) mod m
                        = ((a ^ Z.of_nat i mod m) * (a ^ Z.of_nat j mod m)) mod m.
Proof. rewrite Nat2Z.inj_add, Z.pow_add_r by lia. now rewrite Z.mul_mod by lia. Qed.

Lemma pow_mul_order d k : is_order d -> a ^ Z.of_nat (d * k) mod m = 1.
Proof.
  intros [[_ Hd] _]. induction k as [|k IH].
  - rewrite Nat.mul_0_r. cbn. apply Z.mod_small. lia.
  - rewrite Nat.mul_succ_r, pow_mod_add, IH, Hd. apply Z.mod_small. lia.
Qed.

Lemma order_divides d e : is_order d -> is_unit_exp e -> Nat.divide d e.
Proof.
  intros Ho [He He1]. pose proof Ho as [[Hd0 _] Hmin].
  exists (e / d)%nat.
  assert (e = d * (e / d) + e mod d)%nat as Hdiv by (apply Nat.div_mod; lia).
  assert (e mod d < d)%nat as Hr by (apply Nat.mod_upper_bound; lia).
  destruct (Nat.eq_dec (e mod d) 0) as [Hz|Hz]; [lia|exfalso].
  assert (is_unit_exp (e mod d)) as Hu.
  { split; [lia|]. rewrite Hdiv, pow_mod_add, pow_mul_order, Z.mul_1_l, Z.mod_mod in He1 by (auto; lia).
    exact He1. }
  specialize (Hmin _ Hu). lia.
Qed.

(** The powers below the order are pairwise distinct and non-zero, so the
    order is at most [m - 1]. *)
Lemma order_lt d : is_order d -> Z.of_nat d < m.
Proof.
  intros Ho. pose proof Ho as [[Hd0 Hd1] Hmin].
  set (pw := fun i => a ^ Z.of_nat i mod m).
  assert (forall i, (i <= d)%nat -> (pw i * pw (d - i)%nat) mod m = 1) as Hinv.
  { intros i Hi. unfold pw. rewrite <- pow_mod_add.
    replace (i + (d - i))%nat with d by lia. exact Hd1. }
  assert (forall i j, (i < j < d)%nat -> pw i <> pw j) as Hne.
  { intros i j Hij E. specialize (Hinv i ltac:(lia)).
    rewrite E in Hinv. unfold pw in Hinv. rewrite <- pow_mod_add in Hinv.
    replace (j + (d - i))%nat with (d + (j - i))%nat in Hinv by lia.
    rewrite pow_mod_add, Hd1, Z.mul_1_l, Z.mod_mod in Hinv by lia.
    assert (is_unit_exp (j - i)) as Hu by (split; [lia|exact Hinv]).
    specialize (Hmin _ Hu). lia. }
  set (l := map (fun i => Z.to_nat (pw i)) (seq 0 d)).
  assert (forall i, 0 <= pw i < m) as Hb by (intros; apply Z.mod_pos_bound; lia).
  assert (NoDup l) as Hnd.
  { unfold l. apply NoDup_map_NoDup_ForallPairs; [|apply seq_NoDup].
    intros i j Hi Hj E. apply in_seq in Hi, Hj.
    apply Z2Nat.inj in E; [|apply Hb..].
    destruct (Nat.lt_trichotomy i j) as [|[|]]; [|assumption|].
    - now apply Hne in E; [|lia].
    - symmetry in E. now apply Hne in E; [|lia]. }
  assert (incl l (seq 1 (Z.to_nat m - 1))) as Hincl.
  { intros x Hx. apply in_map_iff in Hx as (i & <- & Hi). apply in_seq in Hi. apply in_seq.
    assert (pw i <> 0) as Hnz.
    { intros E. specialize (Hinv i ltac:(lia)). rewrite E, Z.mul_0_l, Z.mod_0_l in Hinv; lia. }
    specialize (Hb i). lia. }
  apply NoDup_incl_length in Hincl; [|exact Hnd].
  unfold l in Hincl. rewrite length_map, !length_seq in Hincl. lia.
Qed.
End Order.

(** ** The certificate check and its soundness *)

Definition cert_ok (n a : Z) (qs : list Z) : bool :=
  let f := fold_right Z.mul 1 qs in
  ((1 <? n) && (n <? f * f) && (powm n a (n - 1) =? 1)
   && forallb (fun q => ((n - 1) mod q =? 0)
                        && (Z.gcd (powm n a ((n - 1) / q) - 1) n =? 1)) qs)%bool.

Lemma prime_divides_order n a m q d :
  1 < m -> (m | n) -> Z.prime q -> (n - 1) mod q = 0 -> 1 < n ->
  Z.gcd (powm n a ((n - 1) / q) - 1) n = 1 ->
  is_unit_exp m a (Z.to_nat (n - 1)) ->
  is_order m a d -> (q | Z.of_nat d).
Proof.
  intros Hm Hmn Hq Hqn Hn Hg Hu Ho.
  pose proof (Z.prime_ge_2 _ Hq) as Hq2.
  destruct (order_divides m a Hm d _ Ho Hu) as [k Hk].
  assert (n - 1 = Z.of_nat k * Z.of_nat d) as Hk' by lia.
  assert (q | Z.of_nat k * Z.of_nat d) as Hdiv
    by (rewrite <- Hk'; apply Z.mod_divide; lia).
  apply Z.divide_prime_mul in Hdiv as [Hqk|]; [exfalso|assumption|assumption].
  destruct Hqk as [k' Hk2].
  assert ((n - 1) / q = Z.of_nat d * k') as Hquot.
  { rewrite Hk', Hk2. replace (k' * q * Z.of_nat d) with (Z.of_nat d * k' * q) by ring.
    apply Z.div_mul; lia. }
  assert (0 <= k') as Hk0 by nia.
  assert (a ^ ((n - 1) / q) mod m = 1) as H1.
  { rewrite Hquot, <- (Z2Nat.id k' Hk0), <- Nat2Z.inj_mul. now apply pow_mul_order. }
  rewrite powm_spec in Hg by (try apply Z.div_pos; lia).
  assert (m | a ^ ((n - 1) / q) mod n - 1) as Hd1.
  { apply Z.mod_divide; [lia|].
    now rewrite <- Zminus_mod_idemp_l, Z.mod_mod_divide, H1 by assumption. }
  assert (m | 1) as Hone by (rewrite <- Hg; apply Z.gcd_greatest; assumption).
  apply Z.divide_1_r_nonneg in Hone; lia.
Qed.

Lemma prime_coprime_product q qs :
  Z.prime q -> Forall Z.prime qs -> ~ In q qs -> Z.coprime q (fold_right Z.mul 1 qs).
Proof.
  intros Hq Hp Hni. induction Hp as [|q' qs Hq' Hp IH]; cbn; [apply Z.coprime_1_r|].
  apply Z.coprime_mul_r.
  - apply Z.coprime_prime_l; [assumption|]. intros Hd.
    apply Z.divide_prime_prime in Hd; auto. subst. apply Hni. now left.
  - apply IH. intros Hin. apply Hni. now right.
Qed.

Lemma primes_product_pos qs : Forall Z.prime qs -> 0 < fold_right Z.mul 1 qs.
Proof.
  induction 1 as [|q qs Hq _ IH]; cbn; [lia|].
  apply Z.prime_ge_2 in Hq. nia.
Qed.

Lemma primes_product_divides qs x :
  NoDup qs -> Forall Z.prime qs -> Forall (fun q => (q | x)) qs -> (fold_right Z.mul 1 qs | x).
Proof.
  intros Hnd. revert x. induction Hnd as [|q qs Hni Hnd IH]; cbn; intros x Hp Hx.
  - apply Z.divide_1_l.
  - inversion Hp as [|? ? Hq Hp']; inversion Hx as [|? ? Hqx Hx']; subst.
    destruct (IH x Hp' Hx') as [c ->].
    apply Z.mul_divide_mono_r.
    apply (Z.gauss q (fold_right Z.mul 1 qs) c); [now rewrite Z.mul_comm|].
    now apply prime_coprime_product.
Qed.

(** Soundness: a base and a list of distinct primes that pass the check prove
    the modulus prime. *)
Theorem pocklington n a qs :
  NoDup qs -> Forall Z.prime qs -> cert_ok n a qs = true -> Z.prime n.
Proof.
  intros Hnd Hp Hc. unfold cert_ok in Hc. cbv zeta in Hc.
  rewrite !Bool.andb_true_iff, forallb_forall, Z.ltb_lt, Z.ltb_lt, Z.eqb_eq in Hc.
  destruct Hc as (((Hn & Hf) & Ha) & Hqs).
  split; [assumption|]. intros x Hx Hxn.
  assert (exists m, 1 < m /\ (m | n) /\ m * m <= n) as (m & Hm & Hmn & Hmm).
  { destruct Hxn as [y Hy].
    destruct (Z_le_gt_dec x y).
    - exists x. repeat split; [lia|exists y; lia|nia].
    - exists y. repeat split; [nia|exists x; lia|nia]. }
  assert (is_unit_exp m a (Z.to_nat (n - 1))) as Hu.
  { split; [lia|]. rewrite Z2Nat.id by lia. rewrite powm_spec in Ha by lia.
    rewrite <- (Z.mod_mod_divide _ n m), Ha by assumption. apply Z.mod_small. lia. }
  destruct (order_exists m a _ Hu) as [d Ho].
  pose proof (order_lt m a Hm d Ho) as Hlt.
  assert (fold_right Z.mul 1 qs | Z.of_nat d) as Hdiv.
  { apply primes_product_divides; [assumption..|].
    rewrite Forall_forall in Hp |- *. intros q Hq. specialize (Hqs q Hq).
    rewrite Bool.andb_true_iff, !Z.eqb_eq in Hqs. destruct Hqs.
    now apply (prime_divides_order n a m q d); auto. }
  apply Z.divide_pos_le in Hdiv; [|destruct Ho as [[? _] _]; lia].
  pose proof (primes_product_pos qs Hp). nia.
Qed.

(** Small primes by trial division. *)
Definition trial_prime (n : Z) : bool :=
  ((1 <? n) && forallb (fun d => negb (n mod (Z.of_nat d + 2) =? 0)
                             || (n <=? Z.of_nat d + 2)) (seq 0 (Z.to_nat n)))%bool.

Lemma trial_prime_sound n : trial_prime n = true -> Z.prime n.
Proof.
  unfold trial_prime. rewrite Bool.andb_true_iff, forallb_forall, Z.ltb_lt.
  intros [Hn Hall]. split; [assumption|]. intros x Hx Hdiv.
  specialize (Hall (Z.to_nat (x - 2))).
  rewrite in_seq, Z2Nat.id, Bool.orb_true_iff, Z.leb_le in Hall by lia.
  destruct Hall as [Hall|]; [lia| |lia].
  replace (x - 2 + 2) with x in Hall by lia.
  apply Z.mod_divide in Hdiv; [|lia]. now rewrite Hdiv in Hall.
Qed.

(** One certificate step: the listed primes are discharged by hypothesis or by
    trial division, the arithmetic by [vm_compute]. *)
Ltac trial := apply trial_prime_sound; vm_compute; reflexivity.

Ltac certify a qs :=
  apply (pocklington _ a qs);
  [ repeat constructor; cbn; intuition discriminate
  | repeat (apply Forall_cons; [first [assumption | trial]|]); apply Forall_nil
  | vm_compute; reflexivity ].

(** The scalar-field prime of BN254, as written in the sources. *)
Definition bn254_r : Z :=
  21888242871839275222246405745257275088548364400416034343698204186575808495617.

Lemma bn254_r_prime : Z.prime bn254_r.
Proof.
  assert (Z.prime 639533339) by certify 2 [1637; 853].
  assert (Z.prime 65865678001877903) by certify 2 [639533339].
  assert (Z.prime 13818364434197438864469338081) by certify 2 [65865678001877903].
  assert (Z.prime 93001) by certify 2 [31; 5; 3].
  assert (Z.prime 12048837557) by certify 2 [93001; 661].
  assert (Z.prime 5156902474397) by certify 2 [12048837557].
  assert (Z.prime 1670836401704629) by certify 2 [5156902474397].
  certify 2 [13818364434197438864469338081; 1670836401704629].
Qed.
