(* ===== verification/Shamir.v ===== *)
(** Shamir secret sharing over the BN254 scalar field
    (src/packages/mpc-crypto/src/shamir.ts).

    [modp], [modinv], [randomFieldElement], [shamirSplit], [shamirReconstruct]
    and the share codecs are the source's functions; random draws are an
    explicit list of 256-bit integers.  The theorems: [modinv] terminates and
    inverts, the rejection sampling is exactly uniform, and reconstruction from
    any [threshold] distinct shares returns the secret. *)

From Stdlib Require Import ZArith Lia.
From S2P Require Import Prelude Primality.

Definition P : Z := bn254_r.

Lemma P_prime : Z.prime P.
Proof. exact bn254_r_prime. Qed.

Lemma P_gt_2_16 : 65536 < P.
Proof. reflexivity. Qed.

#[global] Opaque P.

Lemma P_pos : 0 < P.
Proof. pose proof P_gt_2_16. lia. Qed.
#[export] Hint Resolve P_pos : shade.

(** ** Congruence modulo [P], with setoid rewriting *)

Definition eqP (a b : Z) : Prop := (P | a - b).
Infix "≡p" := eqP (at level 70, no associativity) : shade_scope.

Lemma eqP_iff_mod a b : a ≡p b <-> a mod P = b mod P.
Proof.
  pose proof P_pos. unfold eqP. rewrite <- Z.mod_divide by lia. split; intros E.
  - replace a with (a - b + b) by lia. by rewrite Zplus_mod, E, Z.add_0_l, Z.mod_mod by lia.
  - by rewrite Zminus_mod, E, Z.sub_diag, Z.mod_0_l by lia.
Qed.

#[global] Instance eqP_equiv : Equivalence eqP.
Proof.
  split; red; intros *; rewrite !eqP_iff_mod; [done|by intros ->|by intros -> ->].
Qed.

#[global] Instance eqP_add : Proper (eqP ==> eqP ==> eqP) Z.add.
Proof.
  intros a a' Ha b b' Hb. rewrite eqP_iff_mod in *.
  rewrite Zplus_mod, Ha, Hb. by rewrite <- Zplus_mod.
Qed.
#[global] Instance eqP_sub : Proper (eqP ==> eqP ==> eqP) Z.sub.
Proof.
  intros a a' Ha b b' Hb. rewrite eqP_iff_mod in *.
  rewrite Zminus_mod, Ha, Hb. by rewrite <- Zminus_mod.
Qed.
#[global] Instance eqP_mul : Proper (eqP ==> eqP ==> eqP) Z.mul.
Proof.
  intros a a' Ha b b' Hb. rewrite eqP_iff_mod in *.
  rewrite Zmult_mod, Ha, Hb. by rewrite <- Zmult_mod.
Qed.
#[global] Instance eqP_opp : Proper (eqP ==> eqP) Z.opp.
Proof. intros a a' Ha. rewrite <- !Z.sub_0_l. by rewrite Ha. Qed.

Lemma eqP_mod a : a mod P ≡p a.
Proof. rewrite eqP_iff_mod, Z.mod_mod; [done|]. pose proof P_pos. lia. Qed.

Lemma eqP_divide a : a ≡p 0 <-> (P | a).
Proof. unfold eqP. by rewrite Z.sub_0_r. Qed.

Lemma eqP_sub_0 a b : a - b ≡p 0 <-> a ≡p b.
Proof.
  split; intros H.
  - replace a with (a - b + b) by lia. rewrite H. done.
  - rewrite H. by rewrite Z.sub_diag.
Qed.

Lemma eqP_mul_0 a b : a * b ≡p 0 -> a ≡p 0 \/ b ≡p 0.
Proof. rewrite !eqP_divide. apply Z.divide_prime_mul, P_prime. Qed.

(** ** Field operations of the source *)

Definition modp (x : Z) : Z := Z.rem (Z.rem x P + P) P.

Lemma modp_mod x : modp x = x mod P.
Proof.
  unfold modp. pose proof P_pos as HP.
  pose proof (Z.rem_bound_abs x P ltac:(lia)) as Hb.
  rewrite Z.rem_mod_nonneg by lia.
  rewrite <- (Z.mod_add x (- Z.quot x P + 1)) by lia.
  f_equal. pose proof (Z.quot_rem' x P). lia.
Qed.

Lemma modp_eqP x : modp x ≡p x.
Proof. rewrite modp_mod. apply eqP_mod. Qed.

Lemma modp_bounds x : 0 <= modp x < P.
Proof. rewrite modp_mod. apply Z.mod_pos_bound, P_pos. Qed.
#[export] Hint Resolve modp_bounds : shade.

(** The extended-gcd loop; [None] is fuel exhaustion. *)
Fixpoint modinv_loop (fuel : nat) (old_r r old_s s : Z) : option Z :=
  match fuel with
  | O => None
  | S fuel =>
      if r =? 0 then Some old_s
      else let q := Z.quot old_r r in
           modinv_loop fuel r (old_r - q * r) s (old_s - q * s)
  end.

Definition modinv_fuel : nat := 512.

Definition modinv (a : Z) : Z :=
  modp (default 0 (modinv_loop modinv_fuel (modp a) P 1 0)).

Lemma modinv_loop_terminates fuel old_r r old_s s :
  0 <= r <= old_r -> (r = 0 /\ 1 <= Z.of_nat fuel \/ Z.log2 old_r + Z.log2 r + 2 <= Z.of_nat fuel) ->
  is_Some (modinv_loop fuel old_r r old_s s).
Proof.
  revert old_r r old_s s. induction fuel as [|fuel IH]; intros old_r r old_s s Hr Hf.
  { pose proof (Z.log2_nonneg old_r). pose proof (Z.log2_nonneg r). lia. }
  cbn. destruct (Z.eqb_spec r 0) as [->|Hr0]; [by eexists|].
  destruct Hf as [|Hf]; [lia|].
  rewrite Z.quot_div_nonneg by lia.
  assert (old_r - old_r / r * r = old_r mod r) as -> by (rewrite Z.mod_eq; lia).
  pose proof (Z.mod_pos_bound old_r r ltac:(lia)) as Hb.
  apply IH; [lia|].
  destruct (Z.eq_dec (old_r mod r) 0) as [->|Hm].
  - left. pose proof (Z.log2_nonneg old_r). pose proof (Z.log2_nonneg r). lia.
  - right. assert (Z.log2 (old_r mod r) < Z.log2 old_r); [|lia].
    assert (1 <= old_r / r) by (apply Z.div_le_lower_bound; lia).
    assert (2 * (old_r mod r) <= old_r).
    { rewrite (Z.div_mod old_r r) at 2 by lia. nia. }
    pose proof (Z.log2_le_mono (2 * (old_r mod r)) old_r ltac:(lia)) as Hle.
    rewrite Z.log2_double in Hle by lia. lia.
Qed.

Lemma modinv_loop_spec fuel a old_r r old_s s res :
  0 <= r -> 0 <= old_r ->
  old_r ≡p old_s * a -> r ≡p s * a -> Z.gcd old_r r = 1 ->
  modinv_loop fuel old_r r old_s s = Some res -> res * a ≡p 1.
Proof.
  revert old_r r old_s s. induction fuel as [|fuel IH]; intros old_r r old_s s Hr Ho E1 E2 Hg; cbn; [done|].
  destruct (Z.eqb_spec r 0) as [->|Hr0].
  - intros [= <-]. rewrite Z.gcd_0_r, Z.abs_eq in Hg by lia. by rewrite <- E1, Hg.
  - rewrite Z.quot_div_nonneg by lia. apply IH; [|done|done| |].
    + rewrite Z.mul_comm, <- Z.mod_eq by lia. apply Z.mod_pos_bound. lia.
    + replace ((old_s - old_r / r * s) * a) with (old_s * a - old_r / r * (s * a)) by ring.
      by rewrite <- E1, <- E2.
    + rewrite <- Hg, (Z.gcd_comm old_r). rewrite (Z.mul_comm _ r), <- Z.mod_eq by lia.
      rewrite Z.gcd_comm. apply Z.gcd_mod. lia.
Qed.

Lemma P_log2 : Z.log2 P = 253.
Proof. reflexivity. Qed.

Lemma modinv_loop_first n a :
  modinv_loop (S n) (modp a) P 1 0 = modinv_loop n P (modp a) 0 1.
Proof.
  pose proof (modp_bounds a) as Hb. cbn [modinv_loop].
  destruct (Z.eqb_spec P 0) as [E|_]; [lia|].
  rewrite Z.quot_small by lia. by rewrite !Z.mul_0_l, !Z.sub_0_r.
Qed.

Lemma modinv_terminates a : is_Some (modinv_loop modinv_fuel (modp a) P 1 0).
Proof.
  unfold modinv_fuel. rewrite (modinv_loop_first 511). pose proof (modp_bounds a) as Hb.
  apply modinv_loop_terminates; [lia|].
  pose proof (Z.log2_le_mono (modp a) P ltac:(lia)). rewrite P_log2 in *.
  right. lia.
Qed.

Lemma modinv_inverts a : ~ a ≡p 0 -> modinv a * a ≡p 1.
Proof.
  intros Ha. unfold modinv. destruct (modinv_terminates a) as [s Hs]. rewrite Hs. cbn [default].
  rewrite modp_eqP. unfold modinv_fuel in Hs. rewrite (modinv_loop_first 511) in Hs. rewrite <- (modp_eqP a).
  pose proof (modp_bounds a). pose proof P_pos.
  eapply modinv_loop_spec; [..|exact Hs]; [lia|lia| |by rewrite Z.mul_1_l|].
  - rewrite Z.mul_0_l. apply eqP_divide, Z.divide_refl.
  - apply Z.coprime_prime_l; [apply P_prime|]. intros Hd. apply Ha.
    rewrite <- (modp_eqP a). by apply eqP_divide.
Qed.

#[global] Opaque modp modinv.

(** ** Rejection sampling *)

Definition REJECTION_LIMIT : Z := (2 ^ 256 / P) * P.

(** The do-while of [randomFieldElement] over the supply of 32-byte draws. *)
Fixpoint randomFieldElement (draws : list Z) : option (Z * list Z) :=
  match draws with
  | [] => None
  | raw :: rest =>
      if REJECTION_LIMIT <=? raw then randomFieldElement rest
      else Some (Z.rem raw P, rest)
  end.

Lemma REJECTION_LIMIT_eq : REJECTION_LIMIT = 5 * P.
Proof. reflexivity. Qed.

Lemma randomFieldElement_range draws v rest :
  Forall (fun d => 0 <= d) draws -> randomFieldElement draws = Some (v, rest) -> 0 <= v < P.
Proof.
  pose proof P_pos. induction 1 as [|d draws Hd _ IH]; cbn; [done|].
  destruct (REJECTION_LIMIT <=? d); [done|]. intros [= <- _].
  rewrite Z.rem_mod_nonneg by lia. apply Z.mod_pos_bound. lia.
Qed.

(** The accepted 256-bit draws that map to a field element [v] are exactly the
    five [v + jP]: every element has the same number of preimages. *)
Lemma sampling_preimages raw v rest :
  0 <= raw < 2 ^ 256 -> 0 <= v < P ->
  randomFieldElement (raw :: rest) = Some (v, rest) /\ raw < REJECTION_LIMIT
  <-> exists j, 0 <= j < 5 /\ raw = v + j * P.
Proof.
  intros Hraw Hv. cbn. rewrite REJECTION_LIMIT_eq. split.
  - intros [H Hlt]. destruct (Z.leb_spec (5 * P) raw); [lia|]. simplify_eq.
    exists (raw / P). rewrite Z.rem_mod_nonneg by lia.
    pose proof (Z.div_mod raw P ltac:(lia)). split; [|lia].
    split; [apply Z.div_pos; lia|]. apply Z.div_lt_upper_bound; lia.
  - intros (j & Hj & ->). destruct (Z.leb_spec (5 * P) (v + j * P)); [nia|].
    rewrite Z.rem_mod_nonneg, Z.mod_add, Z.mod_small by nia. split; [done|nia].
Qed.

(** ** Shares *)

Record Share := mkShare { x : Z; y : Z }.

Fixpoint draw_coeffs (n : nat) (draws : list Z) : option (list Z * list Z) :=
  match n with
  | O => Some ([], draws)
  | S n => match randomFieldElement draws with
           | None => None
           | Some (c, draws) => match draw_coeffs n draws with
                                | None => None
                                | Some (cs, draws) => Some (c :: cs, draws)
                                end
           end
  end.

(** Horner evaluation, highest coefficient first, reduced at every step. *)
Definition horner (coeffs : list Z) (x : Z) : Z :=
  fold_right (fun c y => modp (y * x + c)) 0 coeffs.

(** [None] when the supply of draws runs out. *)
Definition shamirSplit (secret : Z) (threshold total : nat) (draws : list Z)
  : option (result (list Share)) :=
  if (threshold <? 2)%nat || (total <? threshold)%nat then Some (Err "invalid threshold")
  else match draw_coeffs (threshold - 1) draws with
       | None => None
       | Some (cs, _) =>
           let coeffs := modp secret :: cs in
           Some (Ok (map (fun i => let x := Z.of_nat i + 1 in mkShare x (horner coeffs x)) (seq 0 total)))
       end.

Definition share_at (shares : list Share) (i : nat) : Share := nth i shares (mkShare 0 0).

(** Inner loop of [shamirReconstruct]: numerator and denominator for share [i]. *)
Definition basis (shares : list Share) (i : nat) : Z * Z :=
  fold_left (fun '(num, den) j =>
    if (i =? j)%nat then (num, den)
    else (modp (num * modp (- (share_at shares j).(x))),
          modp (den * ((share_at shares i).(x) - (share_at shares j).(x)))))
    (seq 0 (length shares)) (1, 1).

Definition shamirReconstruct (shares : list Share) : Z :=
  fold_left (fun secret i =>
    let '(num, den) := basis shares i in
    modp (secret + modp ((share_at shares i).(y) * modp (num * modinv den))))
    (seq 0 (length shares)) 0.

(** ** Polynomials as coefficient lists, lowest degree first *)

Definition peval (p : list Z) (z : Z) : Z := fold_right (fun c v => v * z + c) 0 p.

Fixpoint padd (p q : list Z) : list Z :=
  match p, q with
  | [], _ => q
  | _, [] => p
  | a :: p, b :: q => (a + b) :: padd p q
  end.

Definition pscale (k : Z) (p : list Z) : list Z := map (Z.mul k) p.

(** [p * (X - c)] *)
Definition pmul_lin (p : list Z) (c : Z) : list Z := padd (0 :: p) (pscale (- c) p).

Lemma peval_cons c p z : peval (c :: p) z = peval p z * z + c.
Proof. done. Qed.

Lemma peval_nil z : peval [] z = 0.
Proof. done. Qed.

#[local] Arguments peval : simpl never.
#[local] Hint Rewrite peval_cons peval_nil : shade.

Lemma peval_padd p q z : peval (padd p q) z = peval p z + peval q z.
Proof.
  revert q. induction p as [|a p IH]; intros [|b q]; cbn; autorewrite with shade; [lia..|].
  rewrite IH. ring.
Qed.

Lemma peval_pscale k p z : peval (pscale k p) z = k * peval p z.
Proof.
  induction p as [|a p IH]; cbn; autorewrite with shade; [ring|].
  fold (pscale k p). rewrite IH. ring.
Qed.

Lemma peval_pmul_lin p c z : peval (pmul_lin p c) z = peval p z * (z - c).
Proof. unfold pmul_lin. rewrite peval_padd, peval_pscale, peval_cons. ring. Qed.

Lemma length_padd p q : length (padd p q) = (length p `max` length q)%nat.
Proof. revert q. induction p as [|a p IH]; intros [|b q]; cbn; [done..|]. by rewrite IH. Qed.

Lemma length_pmul_lin p c : length (pmul_lin p c) = S (length p).
Proof. unfold pmul_lin, pscale. rewrite length_padd, length_map. cbn [length]. lia. Qed.

(** Synthetic division by [X - c]. *)
Fixpoint pquot (p : list Z) (c : Z) : list Z :=
  match p with
  | [] => []
  | _ :: p' => match p' with [] => [] | _ => peval p' c :: pquot p' c end
  end.

Lemma peval_pquot p c z : peval p z = peval p c + (z - c) * peval (pquot p c) z.
Proof.
  induction p as [|a p IH]; cbn [pquot]; [autorewrite with shade; ring|].
  destruct p as [|b p]; [autorewrite with shade; ring|].
  remember (b :: p) as p' eqn:Hp'. rewrite !peval_cons, IH. ring.
Qed.

Lemma length_pquot p c : length (pquot p c) = pred (length p).
Proof.
  induction p as [|a p IH]; [done|]. destruct p as [|b p]; [done|].
  cbn [pquot length pred] in *. by rewrite IH.
Qed.

(** A polynomial with at least as many roots as coefficients vanishes. *)
Lemma many_roots (rs : list Z) p z :
  (length p <= length rs)%nat ->
  ForallOrdPairs (fun a b => ~ a ≡p b) rs ->
  Forall (fun r => peval p r ≡p 0) rs -> peval p z ≡p 0.
Proof.
  revert p. induction rs as [|r rs IH]; intros p Hlen Hd Hr.
  { destruct p; [done|cbn in Hlen; lia]. }
  inversion Hd as [|? ? Hne Hd']; inversion Hr as [|? ? Hr0 Hr']; subst.
  rewrite (peval_pquot p r), Hr0, Z.add_0_l.
  rewrite (IH (pquot p r)); [by rewrite Z.mul_0_r|rewrite length_pquot; cbn in Hlen; lia|done|].
  rewrite list.Forall_forall in *. intros r' Hin. specialize (Hr' r' Hin). specialize (Hne r' Hin). cbn in *.
  rewrite (peval_pquot p r), Hr0, Z.add_0_l in Hr'.
  apply eqP_mul_0 in Hr' as [H0|]; [|done].
  exfalso. apply Hne. symmetry. by apply eqP_sub_0.
Qed.

(** ** Lagrange interpolation at zero *)

Section Lagrange.
Context (shares : list Share).
Local Abbreviation n := (length shares).
Local Abbreviation xs j := ((share_at shares j).(x)).

Definition prodlin (js : list nat) (i : nat) (z : Z) : Z :=
  fold_right (fun j acc => if (i =? j)%nat then acc else acc * (z - xs j)) 1 js.

Definition bpoly (js : list nat) (i : nat) : list Z :=
  fold_right (fun j p => if (i =? j)%nat then p else pmul_lin p (xs j)) [1] js.

Lemma prodlin_cons j js i z :
  prodlin (j :: js) i z = if (i =? j)%nat then prodlin js i z else prodlin js i z * (z - xs j).
Proof. done. Qed.

Lemma bpoly_cons j js i :
  bpoly (j :: js) i = if (i =? j)%nat then bpoly js i else pmul_lin (bpoly js i) (xs j).
Proof. done. Qed.

#[local] Arguments prodlin : simpl never.
#[local] Arguments bpoly : simpl never.

Lemma peval_bpoly js i z : peval (bpoly js i) z = prodlin js i z.
Proof.
  induction js as [|j js IH]; [done|]. rewrite bpoly_cons, prodlin_cons.
  destruct (i =? j)%nat; [done|]. by rewrite peval_pmul_lin, IH.
Qed.

Lemma length_bpoly js i : (length (bpoly js i) + length (filter (fun j => i = j) js) = S (length js))%nat.
Proof.
  induction js as [|j js IH]; [done|]. rewrite bpoly_cons, filter_cons.
  destruct (Nat.eqb_spec i j); case_decide; try done; [cbn; lia|].
  rewrite length_pmul_lin. cbn. lia.
Qed.

Lemma prodlin_zero js i m : m ∈ js -> m <> i -> prodlin js i (xs m) = 0.
Proof.
  intros Hin Hne. induction js as [|j js IH]; [set_solver|]. rewrite prodlin_cons.
  apply elem_of_cons in Hin as [<-|Hin].
  - destruct (Nat.eqb_spec i m); [lia|]. rewrite Z.sub_diag. ring.
  - rewrite IH by done. by destruct (i =? j)%nat.
Qed.

Lemma prodlin_nonzero js i :
  (forall j, j ∈ js -> j <> i -> ~ xs i ≡p xs j) -> ~ prodlin js i (xs i) ≡p 0.
Proof.
  intros Hd. induction js as [|j js IH].
  - rewrite eqP_divide. change (prodlin [] i (xs i)) with 1. intros Hdiv. apply Z.divide_pos_le in Hdiv; [|done]. pose proof P_gt_2_16. lia.
  - rewrite prodlin_cons. destruct (Nat.eqb_spec i j) as [->|Hne].
    + apply IH. set_solver.
    + intros [H|H]%eqP_mul_0; [revert H; apply IH; set_solver|].
      apply (proj1 (eqP_sub_0 _ _)) in H. revert H. apply Hd; [set_solver|done].
Qed.

Lemma basis_fold js i num den a b :
  num ≡p a -> den ≡p b ->
  let '(num', den') := fold_left (fun '(num, den) j =>
    if (i =? j)%nat then (num, den)
    else (modp (num * modp (- xs j)), modp (den * (xs i - xs j)))) js (num, den) in
  num' ≡p a * prodlin js i 0 /\ den' ≡p b * prodlin js i (xs i).
Proof.
  revert num den a b. induction js as [|j js IH]; intros num den a b Ha Hb; cbn [fold_left].
  { change (prodlin [] i 0) with 1. change (prodlin [] i (xs i)) with 1. by rewrite !Z.mul_1_r. }
  rewrite !prodlin_cons.
  destruct (i =? j)%nat; [by apply IH|].
  specialize (IH (modp (num * modp (- xs j))) (modp (den * (xs i - xs j)))
                (a * (0 - xs j)) (b * (xs i - xs j))).
  destruct (fold_left _ js _) as [num' den'].
  destruct IH as [IHn IHd]; [rewrite (modp_eqP (num * _)), (modp_eqP (- _)), Ha; by replace (0 - xs j) with (- xs j) by lia|by rewrite (modp_eqP (den * _)), Hb|].
  split.
  - rewrite IHn. by replace (a * (0 - xs j) * prodlin js i 0) with (a * (prodlin js i 0 * (0 - xs j))) by ring.
  - rewrite IHd. by replace (b * (xs i - xs j) * prodlin js i (xs i)) with (b * (prodlin js i (xs i) * (xs i - xs j))) by ring.
Qed.

Lemma basis_spec i :
  let '(num, den) := basis shares i in
  num ≡p prodlin (seq 0 n) i 0 /\ den ≡p prodlin (seq 0 n) i (xs i).
Proof.
  unfold basis. pose proof (basis_fold (seq 0 n) i 1 1 1 1 ltac:(done) ltac:(done)) as H.
  destruct (fold_left _ _ _) as [num den]. by rewrite !Z.mul_1_l in H.
Qed.

(** Coordinates are pairwise distinct modulo [P]. *)
Definition distinct_xs : Prop :=
  forall i j, (i < n)%nat -> (j < n)%nat -> i <> j -> ~ xs i ≡p xs j.

(** The coefficient the source multiplies share [i] with. *)
Definition coef (i : nat) : Z := let '(num, den) := basis shares i in num * modinv den.

Definition interp (js : list nat) : list Z :=
  fold_right (fun i p =>
    padd (pscale ((share_at shares i).(y) * modinv (basis shares i).2) (bpoly (seq 0 n) i)) p) [] js.

Lemma peval_interp_zero js :
  peval (interp js) 0 ≡p fold_right (fun i acc => (share_at shares i).(y) * coef i + acc) 0 js.
Proof.
  induction js as [|i js IH]; [done|]. cbn [interp fold_right]. fold (interp js).
  rewrite peval_padd, peval_pscale, peval_bpoly, IH. unfold coef.
  pose proof (basis_spec i) as Hb. destruct (basis shares i) as [num den]. destruct Hb as [Hn _]. cbn.
  rewrite <- Hn.
  replace ((share_at shares i).(y) * modinv den * num)
    with ((share_at shares i).(y) * (num * modinv den)) by ring.
  reflexivity.
Qed.

Lemma peval_interp_at js m :
  distinct_xs -> NoDup js -> (m < n)%nat -> (forall i, i ∈ js -> (i < n)%nat) ->
  peval (interp js) (xs m) ≡p if decide (m ∈ js) then (share_at shares m).(y) else 0.
Proof.
  intros Hd Hnd Hm Hjs. induction Hnd as [|i js Hni Hnd IH]; [done|].
  cbn [interp fold_right]. fold (interp js).
  rewrite peval_padd, peval_pscale, peval_bpoly, IH by set_solver.
  destruct (decide (m = i)) as [->|Hne].
  - rewrite (decide_False (P := i ∈ js)), (decide_True (P := i ∈ i :: js)) by set_solver.
    pose proof (basis_spec i) as Hb. destruct (basis shares i) as [num den]. destruct Hb as [_ Hden]. cbn.
    assert (~ den ≡p 0) as Hnz.
    { rewrite Hden. apply prodlin_nonzero. intros j Hj Hij. apply elem_of_seq in Hj. apply Hd; lia. }
    rewrite <- Hden, <- Z.mul_assoc, (modinv_inverts den Hnz). by rewrite Z.mul_1_r, Z.add_0_r.
  - rewrite prodlin_zero by (rewrite ?elem_of_seq; lia || done).
    rewrite Z.mul_0_r, Z.add_0_l. repeat case_decide; set_solver.
Qed.

Lemma length_interp js : (forall i, i ∈ js -> (i < n)%nat) -> (length (interp js) <= n)%nat.
Proof.
  induction js as [|i js IH]; intros Hjs; [cbn; lia|].
  cbn [interp fold_right]. fold (interp js). rewrite length_padd. unfold pscale. rewrite length_map.
  specialize (IH ltac:(set_solver)).
  pose proof (length_bpoly (seq 0 n) i) as Hl. rewrite length_seq in Hl.
  assert (i ∈ filter (fun j => i = j) (seq 0 n)) as Hin.
  { apply list_elem_of_filter. split; [done|]. apply elem_of_seq. specialize (Hjs i). set_solver by lia. }
  destruct (filter _ _); [set_solver|]. cbn in Hl. lia.
Qed.

Lemma reconstruct_sum :
  shamirReconstruct shares ≡p fold_right (fun i acc => (share_at shares i).(y) * coef i + acc) 0 (seq 0 n).
Proof.
  unfold shamirReconstruct.
  enough (forall js s, fold_left (fun secret i =>
      let '(num, den) := basis shares i in
      modp (secret + modp ((share_at shares i).(y) * modp (num * modinv den)))) js s
    ≡p s + fold_right (fun i acc => (share_at shares i).(y) * coef i + acc) 0 js) as H by apply H.
  induction js as [|i js IH]; intros s; cbn; [by rewrite Z.add_0_r|].
  rewrite IH. unfold coef at 2. destruct (basis shares i) as [num den].
  rewrite (modp_eqP (s + _)), (modp_eqP (_ * modp _)), (modp_eqP (num * _)). by rewrite Z.add_assoc.
Qed.

(** Reconstruction from the values of any polynomial with at most as many
    coefficients as shares returns its value at zero. *)
Lemma reconstruct_poly (f : list Z) :
  distinct_xs -> (length f <= n)%nat ->
  (forall i, (i < n)%nat -> (share_at shares i).(y) ≡p peval f (xs i)) ->
  shamirReconstruct shares ≡p peval f 0.
Proof.
  intros Hd Hlen Hy. symmetry. apply eqP_sub_0.
  rewrite reconstruct_sum, <- peval_interp_zero.
  replace (peval f 0 - peval (interp (seq 0 n)) 0)
    with (peval (padd f (pscale (-1) (interp (seq 0 n)))) 0)
    by (rewrite peval_padd, peval_pscale; ring).
  apply (many_roots (map (fun i => xs i) (seq 0 n))).
  - rewrite length_map, length_seq, length_padd. unfold pscale. rewrite length_map.
    assert (length (interp (seq 0 n)) <= n)%nat; [|lia].
    apply length_interp. intros i Hi%elem_of_seq. lia.
  - assert (forall a b, (a + b <= n)%nat ->
      ForallOrdPairs (fun u v => ~ u ≡p v) (map (fun i => xs i) (seq a b))) as H; [|apply H; lia].
    intros a b. revert a. induction b as [|b IH]; intros a Hab; cbn; constructor; [|apply IH; lia].
    rewrite list.Forall_forall. intros r (j & -> & Hj)%list_elem_of_fmap.
    apply elem_of_seq in Hj. apply Hd; lia.
  - rewrite list.Forall_forall. intros r (j & -> & Hj)%list_elem_of_fmap. apply elem_of_seq in Hj.
    rewrite peval_padd, peval_pscale, (peval_interp_at (seq 0 n)); [|done|apply NoDup_seq|lia|].
    + rewrite decide_True by (apply elem_of_seq; lia). rewrite Hy by lia.
      by replace (peval f (xs j) + -1 * peval f (xs j)) with 0 by ring.
    + intros i Hi. apply elem_of_seq in Hi. lia.
Qed.
End Lagrange.

(** ** Splitting and reconstructing *)

Lemma horner_peval cs z : horner cs z ≡p peval cs z.
Proof.
  induction cs as [|c cs IH]; [done|]. cbn [horner fold_right]. fold (horner cs z).
  by rewrite modp_eqP, peval_cons, IH.
Qed.

Lemma horner_bounds c cs z : 0 <= horner (c :: cs) z < P.
Proof. cbn [horner fold_right]. apply modp_bounds. Qed.

Lemma eqP_small a b : 0 <= a < P -> 0 <= b < P -> a ≡p b -> a = b.
Proof. rewrite eqP_iff_mod. intros. rewrite <- (Z.mod_small a P), <- (Z.mod_small b P) by lia. done. Qed.

Lemma eqP_reduced a b : 0 <= b < P -> a ≡p b -> modp a = b.
Proof. intros Hb E. apply eqP_small; [apply modp_bounds|done|]. by rewrite modp_eqP. Qed.

Lemma draw_coeffs_length n draws cs rest : draw_coeffs n draws = Some (cs, rest) -> length cs = n.
Proof.
  revert draws cs rest. induction n as [|n IH]; intros draws cs rest; cbn; [by intros [= <- _]|].
  destruct (randomFieldElement draws) as [[c d]|]; [|done].
  destruct (draw_coeffs n d) as [[cs' d']|] eqn:E; [|done]. intros [= <- _]. cbn. by erewrite IH.
Qed.

Lemma shamirSplit_Ok secret threshold total draws shares :
  shamirSplit secret threshold total draws = Some (Ok shares) ->
  (2 <= threshold <= total)%nat /\
  exists cs, length cs = (threshold - 1)%nat /\
    shares = map (fun i => mkShare (Z.of_nat i + 1) (horner (modp secret :: cs) (Z.of_nat i + 1))) (seq 0 total).
Proof.
  unfold shamirSplit. destruct (_ || _) eqn:E; [done|]. breflect.
  destruct (draw_coeffs _ _) as [[cs rest]|] eqn:Hd; [|done]. intros [= <-].
  split; [lia|]. exists cs. by apply draw_coeffs_length in Hd.
Qed.

Lemma share_at_map f (l : list nat) i :
  (i < length l)%nat -> share_at (map f l) i = f (nth i l 0%nat).
Proof.
  intros Hi. unfold share_at. rewrite nth_indep with (d' := f 0%nat) by (by rewrite length_map). apply map_nth.
Qed.

Lemma split_share_at secret cs total i :
  (i < total)%nat ->
  share_at (map (fun i => mkShare (Z.of_nat i + 1) (horner (modp secret :: cs) (Z.of_nat i + 1))) (seq 0 total)) i
  = mkShare (Z.of_nat i + 1) (horner (modp secret :: cs) (Z.of_nat i + 1)).
Proof. intros Hi. rewrite share_at_map by (by rewrite length_seq). by rewrite seq_nth. Qed.

Lemma small_distinct a b : 0 <= a < P -> 0 <= b < P -> a <> b -> ~ a ≡p b.
Proof. intros Ha Hb Hne E. by apply Hne, eqP_small. Qed.

(** Coordinates of a sub-selection [idx] of the shares [1 .. total]. *)
Lemma selection_distinct (ys : nat -> Z) (idx : list nat) (total : nat) :
  NoDup idx -> Forall (fun i => (i < total)%nat) idx -> Z.of_nat total < P ->
  distinct_xs (map (fun i => mkShare (Z.of_nat i + 1) (ys i)) idx).
Proof.
  intros Hnd Hb Ht i j Hi Hj Hne. rewrite length_map in Hi, Hj.
  rewrite !share_at_map by done. cbn. rewrite list.Forall_forall in Hb.
  assert (forall k, (k < length idx)%nat -> (nth k idx 0%nat < total)%nat) as Hk.
  { intros k Hk. apply Hb. by apply list_elem_of_In, nth_In. }
  pose proof (Hk i Hi). pose proof (Hk j Hj).
  apply small_distinct; [lia..|]. intros E.
  assert (nth i idx 0%nat = nth j idx 0%nat) as E' by lia.
  apply Hne. apply NoDup_ListNoDup in Hnd. by apply (proj1 (NoDup_nth idx 0%nat) Hnd).
Qed.

Lemma reconstruct_bounds shares : 0 <= shamirReconstruct shares < P.
Proof.
  unfold shamirReconstruct. generalize (seq 0 (length shares)).
  enough (forall js s, 0 <= s < P -> 0 <= fold_left (fun secret i =>
      let '(num, den) := basis shares i in
      modp (secret + modp ((share_at shares i).(y) * modp (num * modinv den)))) js s < P) as H
    by (intros js; apply H; pose proof P_pos; lia).
  induction js as [|i js IH]; intros s Hs; cbn; [done|].
  apply IH. destruct (basis shares i). apply modp_bounds.
Qed.

(** Any selection of at least [threshold] distinct shares reconstructs. *)
Lemma reconstruct_selection secret threshold total draws shares idx :
  shamirSplit secret threshold total draws = Some (Ok shares) ->
  Z.of_nat total < P -> 0 <= secret < P ->
  NoDup idx -> Forall (fun i => (i < total)%nat) idx -> (threshold <= length idx)%nat ->
  shamirReconstruct (map (share_at shares) idx) = secret.
Proof.
  intros Hs Ht Hsec Hnd Hb Hlen. apply shamirSplit_Ok in Hs as (Hth & cs & Hcs & ->).
  set (g := fun i => mkShare (Z.of_nat i + 1) (horner (modp secret :: cs) (Z.of_nat i + 1))).
  assert (map (share_at (map g (seq 0 total))) idx = map g idx) as ->.
  { apply map_ext_in. intros i Hi%list_elem_of_In. apply split_share_at.
    rewrite list.Forall_forall in Hb. by apply Hb. }
  destruct idx as [|i0 idx]; [cbn in Hlen; lia|]. set (sel := map g (i0 :: idx)) in *.
  assert (shamirReconstruct sel ≡p secret) as E.
  { rewrite (reconstruct_poly sel (modp secret :: cs)).
    - rewrite peval_cons, Z.mul_0_r, Z.add_0_l. apply modp_eqP.
    - by apply (selection_distinct _ _ total).
    - unfold sel. rewrite length_map. cbn in *. lia.
    - intros i Hi. unfold sel in *. rewrite length_map in Hi. rewrite share_at_map by done. cbn [x y g]. apply horner_peval. }
  apply eqP_small; [|done|done]. apply reconstruct_bounds.
Qed.

(** Reduced coefficients of [l], padded with zeros to [k] entries. *)
Fixpoint pad (k : nat) (l : list Z) : list Z :=
  match k with
  | O => []
  | S k => match l with [] => 0 :: pad k [] | a :: l => modp a :: pad k l end
  end.

Lemma pad_length k l : length (pad k l) = k.
Proof. revert l. induction k as [|k IH]; intros [|a l]; cbn; by rewrite ?IH. Qed.

Lemma pad_bounds k l : Forall (fun c => 0 <= c < P) (pad k l).
Proof.
  pose proof P_pos. revert l. induction k as [|k IH]; intros [|a l]; cbn; constructor; auto using modp_bounds; lia.
Qed.

Lemma peval_pad k l z : (length l <= k)%nat -> peval (pad k l) z ≡p peval l z.
Proof.
  revert l. induction k as [|k IH]; intros [|a l] Hl; cbn in *; [done|lia| |];
    autorewrite with shade; rewrite IH by (cbn; lia).
  - rewrite peval_nil. by rewrite Z.mul_0_l.
  - by rewrite modp_eqP.
Qed.

Lemma distinct_xs_cons p l :
  (forall j, (j < length l)%nat -> ~ p.(x) ≡p (share_at l j).(x)) ->
  distinct_xs l -> distinct_xs (p :: l).
Proof.
  intros Hp Hl [|i] [|j]; cbn; intros Hi Hj Hne; [lia|apply Hp; lia| |apply Hl; lia].
  intros E. apply (Hp i); [lia|]. by symmetry.
Qed.

(** There is a polynomial with at most [length pts] coefficients through
    pairwise distinct points. *)
Lemma interpolation_exists pts :
  distinct_xs pts -> exists p, (length p <= length pts)%nat /\
    forall i, (i < length pts)%nat -> peval p (share_at pts i).(x) ≡p (share_at pts i).(y).
Proof.
  intros Hd. exists (interp pts (seq 0 (length pts))). split.
  - apply length_interp. intros i Hi%elem_of_seq. lia.
  - intros i Hi. rewrite peval_interp_at; [|done|apply NoDup_seq|done|intros j Hj%elem_of_seq; lia].
    by rewrite decide_True by (apply elem_of_seq; lia).
Qed.

(** Perfect secrecy: fewer than [threshold] shares are consistent with every
    candidate secret. *)
Lemma fewer_shares_consistent secret threshold total draws shares idx candidate :
  shamirSplit secret threshold total draws = Some (Ok shares) ->
  Z.of_nat total < P -> 0 <= candidate < P ->
  NoDup idx -> Forall (fun i => (i < total)%nat) idx -> (length idx < threshold)%nat ->
  exists cs, length cs = (threshold - 1)%nat /\ Forall (fun c => 0 <= c < P) cs /\
    forall i, i ∈ idx -> (share_at shares i).(y) = horner (modp candidate :: cs) ((share_at shares i).(x)).
Proof.
  intros Hs Ht Hc Hnd Hb Hlen. apply shamirSplit_Ok in Hs as (Hth & cs & Hcs & ->).
  set (ys := fun i => horner (modp secret :: cs) (Z.of_nat i + 1)).
  set (sel := map (fun i => mkShare (Z.of_nat i + 1) (ys i)) idx).
  assert (length sel = length idx) as Hsel by apply length_map.
  rewrite list.Forall_forall in Hb.
  destruct (interpolation_exists (mkShare 0 candidate :: sel)) as (p & Hlp & Hp).
  { apply distinct_xs_cons; [|by apply (selection_distinct _ _ total); [|apply list.Forall_forall|]].
    intros j Hj. rewrite Hsel in Hj. unfold sel. rewrite share_at_map by done. cbn.
    assert (nth j idx 0%nat < total)%nat by (apply Hb; by apply list_elem_of_In, nth_In).
    apply small_distinct; lia. }
  exists (pad (threshold - 1) (tail p)).
  split_and!; [apply pad_length|apply pad_bounds|]. intros i Hi.
  rewrite split_share_at by auto. cbn [x y].
  apply eqP_small; [apply horner_bounds..|]. rewrite (horner_peval (modp candidate :: _)), peval_cons.
  rewrite peval_pad, (modp_eqP candidate) by (destruct p; cbn in *; lia).
  apply list_elem_of_lookup in Hi as [k Hk]. pose proof (lookup_lt_Some _ _ _ Hk) as Hkl.
  specialize (Hp (S k) ltac:(cbn; lia)) as Hpk. specialize (Hp 0%nat ltac:(cbn; lia)) as Hp0.
  change (share_at (_ :: sel) (S k)) with (share_at sel k) in Hpk.
  unfold sel in Hpk. rewrite share_at_map in Hpk by done.
  rewrite (nth_lookup_Some _ _ _ _ Hk) in Hpk. cbn [x y] in Hpk, Hp0. fold (ys i). rewrite <- Hpk.
  change (share_at (_ :: sel) 0) with (mkShare 0 candidate) in Hp0. cbn [x y] in Hp0. rewrite <- Hp0.
  destruct p as [|a p]; cbn [tail]; autorewrite with shade; [done|].
  by rewrite Z.mul_0_r, Z.add_0_l.
Qed.

(** ** Properties *)

(** C12: threshold reconstruction: any selection of at least [threshold] distinct
    shares, in any order, reconstructs exactly the secret that was split, for
    every secret of the field, every threshold and number of shares
    [shamirSplit] allows, and every random polynomial it draws. *)
Theorem shamir_reconstructs (secret : Z) (threshold total : nat) (draws : list Z) (shares : list Share) (idx : list nat) :
  shamirSplit secret threshold total draws = Some (Ok shares) ->
  Z.of_nat total < P -> 0 <= secret < P ->
  NoDup idx -> Forall (fun i => (i < total)%nat) idx -> (threshold <= length idx)%nat ->
  shamirReconstruct (map (share_at shares) idx) = secret.
Proof. apply reconstruct_selection. Qed.

Definition ex_shares : list Share := [mkShare 1 49; mkShare 2 56; mkShare 3 63].

Lemma shamir_reconstructs_witness :
  shamirReconstruct (map (share_at ex_shares) [2%nat; 0%nat]) = 42.
Proof.
  apply (shamir_reconstructs 42 2 3 [2 ^ 256 - 1; 7] ex_shares [2%nat; 0%nat]).
  - vm_compute. reflexivity.
  - vm_compute. reflexivity.
  - vm_compute. split; [discriminate|reflexivity].
  - repeat constructor; rewrite ?elem_of_cons, ?elem_of_nil; intros H; repeat destruct H as [H|H]; done.
  - repeat constructor.
  - cbn. lia.
Defined.



(** The coefficients are exactly uniform: every field element is the image
    of the same number, five, of accepted 256-bit draws. *)
Theorem sampling_uniform (raw v : Z) (rest : list Z) :
  0 <= raw < 2 ^ 256 -> 0 <= v < P ->
  randomFieldElement (raw :: rest) = Some (v, rest) /\ raw < REJECTION_LIMIT
  <-> exists j, 0 <= j < 5 /\ raw = v + j * P.
Proof. apply sampling_preimages. Qed.

Lemma sampling_uniform_witness :
  randomFieldElement [11 + 3 * P] = Some (11, []) /\ 11 + 3 * P < REJECTION_LIMIT.
Proof.
  apply (sampling_uniform (11 + 3 * P) 11 []).
  - vm_compute. split; [discriminate|reflexivity].
  - vm_compute. split; [discriminate|reflexivity].
  - exists 3. split; [lia|reflexivity].
Defined.
