(* ===== verification/Text.v ===== *)
(** Text encodings the sources rely on: decimal bigints, hexadecimal, base64 and
    JSON.

    JavaScript strings and Node buffers are both modelled as [string], the
    sequence of bytes of the UTF-8 text.  Each printer comes with the parser the
    sources use for it and a round-trip lemma.  Departures from the language:
    JSON numbers are integers (a literal with a fraction or an exponent is
    rejected by [JSON_parse]), and escaped surrogate pairs are not combined. *)

From S2P Require Import Prelude.

Local Open Scope string_scope.
Local Open Scope Z_scope.

(** ** Characters *)

Definition digit_char (d : Z) : ascii := ascii_of_N (Z.to_N (48 + d)).

Definition digit_val (c : ascii) : option Z :=
  let n := Z.of_N (N_of_ascii c) in
  if (48 <=? n) && (n <=? 57) then Some (n - 48) else None.

Lemma digit_char_val d : 0 <= d < 10 -> digit_val (digit_char d) = Some d.
Proof.
  intros Hd. unfold digit_val, digit_char. rewrite N_ascii_embedding by lia. rewrite Z2N.id by lia.
  destruct (Z.leb_spec 48 (48 + d)); [|lia]. destruct (Z.leb_spec (48 + d) 57); [|lia].
  cbn. f_equal. lia.
Qed.

Definition is_ws (c : ascii) : bool :=
  let n := N_of_ascii c in ((n =? 32) || ((9 <=? n) && (n <=? 13)))%N.

Fixpoint str_forall (f : ascii -> bool) (s : string) : bool :=
  match s with EmptyString => true | String c s => f c && str_forall f s end.

Lemma str_forall_app f s t : str_forall f (s +:+ t) = str_forall f s && str_forall f t.
Proof. induction s as [|c s IH]; [done|]. simpl. by rewrite IH, andb_assoc. Qed.

Fixpoint trim_left (s : string) : string :=
  match s with
  | String c s' => if is_ws c then trim_left s' else s
  | EmptyString => s
  end.

(** A string that is all white space from here on is dropped. *)
Fixpoint trim_right (s : string) : string :=
  match s with
  | EmptyString => EmptyString
  | String c s' => if str_forall is_ws s then EmptyString else String c (trim_right s')
  end.

Definition trim (s : string) : string := trim_right (trim_left s).

Lemma trim_id s : str_forall (fun c => negb (is_ws c)) s = true -> trim s = s.
Proof.
  unfold trim. destruct s as [|c s]; cbn; [done|]. intros [Hc Hs]%andb_prop.
  apply negb_true_iff in Hc. rewrite Hc. cbn. rewrite Hc. cbn. f_equal.
  induction s as [|d s IH]; cbn in *; [done|]. apply andb_prop in Hs as [Hd Hs].
  apply negb_true_iff in Hd. rewrite Hd. cbn. by rewrite IH.
Qed.

(** ** Decimal bigints: [bigint.toString()] and [BigInt(string)] *)

Fixpoint dec_digits (fuel : nat) (n : Z) (acc : string) : string :=
  match fuel with
  | O => acc
  | S fuel =>
      let acc' := String (digit_char (n mod 10)) acc in
      if n / 10 =? 0 then acc' else dec_digits fuel (n / 10) acc'
  end.

Definition dec_nonneg (n : Z) : string := dec_digits (S (Z.to_nat (Z.log2 n))) n "".

Definition toString (z : Z) : string :=
  if z <? 0 then "-" +:+ dec_nonneg (- z) else dec_nonneg z.

Fixpoint parse_digits (s : string) (acc : Z) : option Z :=
  match s with
  | EmptyString => Some acc
  | String c s => match digit_val c with Some d => parse_digits s (acc * 10 + d) | None => None end
  end.

Definition hex_val (c : ascii) : option Z :=
  let n := Z.of_N (N_of_ascii c) in
  if (48 <=? n) && (n <=? 57) then Some (n - 48)
  else if (97 <=? n) && (n <=? 102) then Some (n - 87)
  else if (65 <=? n) && (n <=? 70) then Some (n - 55)
  else None.

Fixpoint parse_hex (s : string) (acc : Z) : option Z :=
  match s with
  | EmptyString => Some acc
  | String c s => match hex_val c with Some d => parse_hex s (acc * 16 + d) | None => None end
  end.

(** [BigInt(s)]: white space trimmed, the empty string is zero, a sign only
    before decimal digits, a [0x] prefix for hexadecimal; [None] is the thrown
    SyntaxError. *)
Definition BigInt (s : string) : option Z :=
  match trim s with
  | EmptyString => Some 0
  | String "0" (String "x" (String _ _ as h)) | String "0" (String "X" (String _ _ as h)) => parse_hex h 0
  | String "-" (String _ _ as d) => option_map Z.opp (parse_digits d 0)
  | String "+" (String _ _ as d) => parse_digits d 0
  | d => parse_digits d 0
  end.

Definition is_digit (c : ascii) : bool := bool_decide (is_Some (digit_val c)).

Lemma digit_char_is_digit d : 0 <= d < 10 -> is_digit (digit_char d) = true.
Proof. intros Hd. apply bool_decide_eq_true. rewrite digit_char_val by done. by eexists. Qed.

Lemma dec_digits_parse fuel n acc :
  0 <= n < 10 ^ Z.of_nat fuel -> (0 < fuel)%nat ->
  parse_digits (dec_digits fuel n acc) 0 = parse_digits acc n.
Proof.
  revert n acc. induction fuel as [|fuel IH]; intros n acc Hn Hf; [lia|]. cbn [dec_digits].
  pose proof (Z.mod_pos_bound n 10 ltac:(lia)) as Hm.
  pose proof (Z.div_mod n 10 ltac:(lia)) as Hdm.
  destruct (Z.eqb_spec (n / 10) 0) as [E|E].
  - cbn [parse_digits]. rewrite digit_char_val by lia. f_equal. lia.
  - rewrite Nat2Z.inj_succ, Z.pow_succ_r in Hn by lia.
    destruct fuel as [|fuel]; [rewrite Z.div_small in E; lia|].
    rewrite IH; [|split; [apply Z.div_pos|apply Z.div_lt_upper_bound]; lia|lia].
    cbn [parse_digits]. rewrite digit_char_val by lia. f_equal. lia.
Qed.

Lemma dec_digits_digits fuel n acc :
  0 <= n -> str_forall is_digit acc = true -> str_forall is_digit (dec_digits fuel n acc) = true.
Proof.
  revert n acc. induction fuel as [|fuel IH]; intros n acc Hn Ha; [done|]. cbn [dec_digits].
  pose proof (Z.mod_pos_bound n 10 ltac:(lia)) as Hm.
  assert (str_forall is_digit (String (digit_char (n mod 10)) acc) = true) as Hs.
  { cbn. by rewrite Ha, digit_char_is_digit. }
  destruct (n / 10 =? 0); [done|]. apply IH; [|done]. apply Z.div_pos; lia.
Qed.

Lemma dec_digits_nonempty fuel n acc : acc <> "" -> dec_digits fuel n acc <> "".
Proof.
  revert n acc. induction fuel as [|fuel IH]; intros n acc Ha; [done|]. cbn [dec_digits].
  destruct (n / 10 =? 0); [done|]. by apply IH.
Qed.

Lemma dec_nonneg_spec n :
  0 <= n -> dec_nonneg n <> "" /\ str_forall is_digit (dec_nonneg n) = true /\
  parse_digits (dec_nonneg n) 0 = Some n.
Proof.
  intros Hn. unfold dec_nonneg. split_and!.
  - cbn [dec_digits]. destruct (n / 10 =? 0); [done|]. by apply dec_digits_nonempty.
  - by apply dec_digits_digits.
  - apply dec_digits_parse; [|lia]. split; [done|].
    destruct (Z.eq_dec n 0) as [->|Hn0]; [done|].
    pose proof (Z.log2_spec n ltac:(lia)) as [_ Hl]. pose proof (Z.log2_nonneg n).
    rewrite Nat2Z.inj_succ, Z2Nat.id by lia. eapply Z.lt_le_trans; [exact Hl|].
    apply Z.pow_le_mono_l. lia.
Qed.

Lemma digit_cases c : is_digit c = true ->
  c = "0"%char \/ c = "1"%char \/ c = "2"%char \/ c = "3"%char \/ c = "4"%char \/
  c = "5"%char \/ c = "6"%char \/ c = "7"%char \/ c = "8"%char \/ c = "9"%char.
Proof.
  destruct c as [[] [] [] [] [] [] [] []]; intros H; try (vm_compute in H; discriminate H); clear H;
    repeat (first [reflexivity | left; reflexivity | right]).
Qed.

Lemma digits_no_ws s : str_forall is_digit s = true -> str_forall (fun c => negb (is_ws c)) s = true.
Proof.
  induction s as [|c s IH]; cbn; [done|]. intros [Hc Hs]%andb_prop. rewrite IH by done.
  destruct (digit_cases c Hc) as [->|[->|[->|[->|[->|[->|[->|[->|[->| ->]]]]]]]]]; done.
Qed.

Lemma BigInt_digits s : s <> "" -> str_forall is_digit s = true -> BigInt s = parse_digits s 0.
Proof.
  intros Hne Hd. unfold BigInt. rewrite trim_id by (by apply digits_no_ws).
  destruct s as [|c s]; [done|]. cbn in Hd. apply andb_prop in Hd as [Hc Hs].
  destruct s as [|c2 s2].
  - destruct (digit_cases c Hc) as [->|[->|[->|[->|[->|[->|[->|[->|[->| ->]]]]]]]]]; done.
  - cbn in Hs. apply andb_prop in Hs as [Hc2 _].
    destruct (digit_cases c Hc) as [->|[->|[->|[->|[->|[->|[->|[->|[->| ->]]]]]]]]]; try done.
    destruct (digit_cases c2 Hc2) as [->|[->|[->|[->|[->|[->|[->|[->|[->| ->]]]]]]]]]; done.
Qed.

Lemma BigInt_minus s : s <> "" -> str_forall is_digit s = true ->
  BigInt ("-" +:+ s) = option_map Z.opp (parse_digits s 0).
Proof.
  intros Hne Hd. unfold BigInt. change ("-" +:+ s) with (String "-" s).
  rewrite trim_id by (simpl; by rewrite digits_no_ws).
  by destruct s as [|c s].
Qed.

(** Round trip of the decimal wire form. *)
Lemma BigInt_toString z : BigInt (toString z) = Some z.
Proof.
  unfold toString. destruct (Z.ltb_spec z 0).
  - destruct (dec_nonneg_spec (- z)) as (Hne & Hd & Hp); [lia|].
    rewrite BigInt_minus, Hp by done. cbn. f_equal. lia.
  - destruct (dec_nonneg_spec z) as (Hne & Hd & Hp); [lia|]. by rewrite BigInt_digits.
Qed.

#[global] Instance toString_inj : Inj (=) (=) toString.
Proof. intros a b E. apply (f_equal BigInt) in E. rewrite !BigInt_toString in E. congruence. Qed.
#[export] Hint Rewrite BigInt_toString : shade.

(** ** Hexadecimal: [Buffer.toString("hex")] and [Buffer.from(_, "hex")] *)

Definition byte_val (c : ascii) : Z := Z.of_N (N_of_ascii c).
Definition byte_of (n : Z) : ascii := ascii_of_N (Z.to_N n).

Lemma byte_val_range c : 0 <= byte_val c < 256.
Proof. unfold byte_val. pose proof (N_ascii_bounded c). lia. Qed.

Lemma byte_of_val c : byte_of (byte_val c) = c.
Proof. unfold byte_of, byte_val. by rewrite N2Z.id, ascii_N_embedding. Qed.

Lemma byte_val_of n : 0 <= n < 256 -> byte_val (byte_of n) = n.
Proof. intros Hn. unfold byte_of, byte_val. rewrite N_ascii_embedding by lia. lia. Qed.

Definition hex_char (d : Z) : ascii := if d <? 10 then byte_of (48 + d) else byte_of (87 + d).

Fixpoint hex_encode (s : string) : string :=
  match s with
  | EmptyString => ""
  | String c s => String (hex_char (byte_val c / 16)) (String (hex_char (byte_val c mod 16)) (hex_encode s))
  end.

(** Decoding stops at the first pair that is not hexadecimal. *)
Fixpoint hex_decode (s : string) : string :=
  match s with
  | String a (String b s) =>
      match hex_val a, hex_val b with
      | Some u, Some v => String (byte_of (16 * u + v)) (hex_decode s)
      | _, _ => ""
      end
  | _ => ""
  end.

Lemma hex_byte c :
  hex_val (hex_char (byte_val c / 16)) = Some (byte_val c / 16) /\
  hex_val (hex_char (byte_val c mod 16)) = Some (byte_val c mod 16).
Proof. destruct c as [[] [] [] [] [] [] [] []]; vm_compute; done. Qed.

Lemma hex_decode_encode s : hex_decode (hex_encode s) = s.
Proof.
  induction s as [|c s IH]; [done|]. cbn [hex_encode hex_decode].
  destruct (hex_byte c) as [-> ->]. rewrite IH. f_equal.
  rewrite <- (byte_of_val c) at 3. f_equal. pose proof (Z.div_mod (byte_val c) 16). lia.
Qed.

Lemma hex_decode_0x s : hex_decode ("0x" +:+ s) = "".
Proof. done. Qed.

Lemma hex_encode_not_0x s t : hex_encode s <> "0x" +:+ t.
Proof.
  destruct s as [|c s]; [done|]. cbn. intros [= _ E].
  destruct (hex_byte c) as [_ Hb]. rewrite E in Hb. done.
Qed.

#[global] Instance hex_encode_inj : Inj (=) (=) hex_encode.
Proof. intros a b E. rewrite <- (hex_decode_encode a), <- (hex_decode_encode b). by rewrite E. Qed.

(** ** Base64: [Buffer.toString("base64")] and [Buffer.from(_, "base64")] *)

Definition b64_table : string := "ABCDEFGHIJKLMNOPQRSTUVWXYZabcdefghijklmnopqrstuvwxyz0123456789+/".

Definition b64_char (d : Z) : ascii := default "A"%char (String.get (Z.to_nat d) b64_table).

(** Both alphabets are accepted, any other character is skipped. *)
Definition b64_val (c : ascii) : option Z :=
  let n := byte_val c in
  if (65 <=? n) && (n <=? 90) then Some (n - 65)
  else if (97 <=? n) && (n <=? 122) then Some (n - 71)
  else if (48 <=? n) && (n <=? 57) then Some (n + 4)
  else if (n =? 43) || (n =? 45) then Some 62
  else if (n =? 47) || (n =? 95) then Some 63
  else None.

Fixpoint base64_encode (s : string) : string :=
  match s with
  | EmptyString => ""
  | String a EmptyString =>
      let a := byte_val a in
      String (b64_char (a / 4)) (String (b64_char (a mod 4 * 16)) "==")
  | String a (String b EmptyString) =>
      let a := byte_val a in let b := byte_val b in
      String (b64_char (a / 4)) (String (b64_char (a mod 4 * 16 + b / 16))
        (String (b64_char (b mod 16 * 4)) "="))
  | String a (String b (String c s)) =>
      let a := byte_val a in let b := byte_val b in let c := byte_val c in
      String (b64_char (a / 4)) (String (b64_char (a mod 4 * 16 + b / 16))
        (String (b64_char (b mod 16 * 4 + c / 64)) (String (b64_char (c mod 64)) (base64_encode s))))
  end.

Fixpoint b64_sextets (s : string) : list Z :=
  match s with
  | EmptyString => []
  | String c s => if Ascii.eqb c "="%char then [] else
      match b64_val c with Some d => d :: b64_sextets s | None => b64_sextets s end
  end.

Fixpoint b64_bytes (l : list Z) : string :=
  match l with
  | w :: x :: y :: z :: l =>
      String (byte_of (w * 4 + x / 16)) (String (byte_of (x mod 16 * 16 + y / 4))
        (String (byte_of (y mod 4 * 64 + z)) (b64_bytes l)))
  | [w; x; y] => String (byte_of (w * 4 + x / 16)) (String (byte_of (x mod 16 * 16 + y / 4)) "")
  | [w; x] => String (byte_of (w * 4 + x / 16)) ""
  | _ => ""
  end.

Definition base64_decode (s : string) : string := b64_bytes (b64_sextets s).

Lemma b64_char_spec d : 0 <= d < 64 ->
  b64_val (b64_char d) = Some d /\ Ascii.eqb (b64_char d) "="%char = false.
Proof.
  assert (Forall (fun d => b64_val (b64_char d) = Some d /\ Ascii.eqb (b64_char d) "="%char = false)
            (Z.of_nat <$> seq 0 64)) as HF by (vm_compute; repeat constructor).
  intros Hd. apply (proj1 (list.Forall_forall _ _) HF).
  apply list_elem_of_fmap. exists (Z.to_nat d). split; [lia|]. apply elem_of_seq. lia.
Qed.

Lemma b64_sextets_char d s : 0 <= d < 64 -> b64_sextets (String (b64_char d) s) = d :: b64_sextets s.
Proof. intros Hd. cbn [b64_sextets]. by destruct (b64_char_spec d Hd) as [-> ->]. Qed.

Lemma byte_of_eq n c : n = byte_val c -> byte_of n = c.
Proof. intros ->. apply byte_of_val. Qed.

Lemma base64_decode_encode s : base64_decode (base64_encode s) = s.
Proof.
  unfold base64_decode.
  induction s as [[|a [|b [|c s]]] IH] using (induction_ltof1 _ String.length); unfold ltof in IH; [done|..];
    cbn [base64_encode]; pose proof (byte_val_range a);
    try (pose proof (byte_val_range b)); try (pose proof (byte_val_range c));
    rewrite !b64_sextets_char by (Z.to_euclidean_division_equations; lia).
  - cbn [b64_sextets]. cbn. f_equal. apply byte_of_eq. Z.to_euclidean_division_equations; lia.
  - cbn [b64_sextets]. cbn. repeat f_equal; apply byte_of_eq; Z.to_euclidean_division_equations; lia.
  - cbn [b64_bytes]. rewrite IH by (cbn; lia).
    repeat f_equal; apply byte_of_eq; Z.to_euclidean_division_equations; lia.
Qed.
