(* ===== verification/Json.v ===== *)
(** JSON values, [JSON.stringify] and [JSON.parse].

    Objects keep their keys in insertion order, as JavaScript objects with
    non-numeric keys do.  [JSON_parse] inverts [stringify] on every value whose
    objects have distinct keys, which also makes [stringify] injective: this is
    what lets hashes over canonical JSON bind every field. *)

From S2P Require Import Prelude Text.
Local Open Scope string_scope.
Local Open Scope Z_scope.

Inductive json : Type :=
| JNull
| JBool (b : bool)
| JNum (z : Z)
| JStr (s : string)
| JArr (l : list json)
| JObj (l : list (string * json)).

Fixpoint json_ind' (Q : json -> Prop)
    (Hnull : Q JNull) (Hbool : forall b, Q (JBool b)) (Hnum : forall z, Q (JNum z))
    (Hstr : forall s, Q (JStr s)) (Harr : forall l, Forall Q l -> Q (JArr l))
    (Hobj : forall l, Forall (fun kv => Q kv.2) l -> Q (JObj l)) (v : json) : Q v :=
  let rec := json_ind' Q Hnull Hbool Hnum Hstr Harr Hobj in
  match v with
  | JNull => Hnull
  | JBool b => Hbool b
  | JNum z => Hnum z
  | JStr s => Hstr s
  | JArr l => Harr l ((fix go (l : list json) : Forall Q l := match l with
                       | [] => List.Forall_nil _
                       | v :: l => List.Forall_cons _ _ _ (rec v) (go l) end) l)
  | JObj l => Hobj l ((fix go (l : list (string * json)) : Forall (fun kv => Q kv.2) l := match l with
                       | [] => List.Forall_nil _
                       | kv :: l => List.Forall_cons _ _ _ (rec kv.2) (go l) end) l)
  end.

(** ** Printing *)

Definition dq : ascii := "034".
Definition bs : ascii := "092".

Definition escape_char (c : ascii) : string :=
  let n := byte_val c in
  if n =? 34 then String bs (String dq "")
  else if n =? 92 then String bs (String bs "")
  else if n =? 8 then String bs "b"
  else if n =? 9 then String bs "t"
  else if n =? 10 then String bs "n"
  else if n =? 12 then String bs "f"
  else if n =? 13 then String bs "r"
  else if n <? 32 then String bs ("u00" +:+ hex_encode (String c ""))
  else String c "".

Fixpoint escape (s : string) : string :=
  match s with EmptyString => "" | String c s => escape_char c +:+ escape s end.

Definition quote (s : string) : string := String dq (escape s +:+ String dq "").

Fixpoint join (sep : string) (l : list string) : string :=
  match l with
  | [] => ""
  | [s] => s
  | s :: l => s +:+ sep +:+ join sep l
  end.

Fixpoint stringify (v : json) : string :=
  match v with
  | JNull => "null"
  | JBool true => "true"
  | JBool false => "false"
  | JNum z => toString z
  | JStr s => quote s
  | JArr l => "[" +:+ join "," (map stringify l) +:+ "]"
  | JObj l => "{" +:+ join "," (map (fun kv => quote kv.1 +:+ ":" +:+ stringify kv.2) l) +:+ "}"
  end.

(** ** Parsing *)

Definition is_jws (c : ascii) : bool :=
  let n := byte_val c in (n =? 32) || (n =? 9) || (n =? 10) || (n =? 13).

Fixpoint skip_ws (s : string) : string :=
  match s with String c r => if is_jws c then skip_ws r else s | _ => s end.

(** UTF-8 bytes of a code unit. *)
Definition utf8 (n : Z) : string :=
  if n <? 128 then String (byte_of n) ""
  else if n <? 2048 then String (byte_of (192 + n / 64)) (String (byte_of (128 + n mod 64)) "")
  else String (byte_of (224 + n / 4096)) (String (byte_of (128 + n / 64 mod 64)) (String (byte_of (128 + n mod 64)) "")).

Definition simple_escape (c : ascii) : option ascii :=
  let n := byte_val c in
  if n =? 34 then Some dq else if n =? 92 then Some bs else if n =? 47 then Some "/"%char
  else if n =? 98 then Some "008"%char else if n =? 102 then Some "012"%char
  else if n =? 110 then Some "010"%char else if n =? 114 then Some "013"%char
  else if n =? 116 then Some "009"%char else None.

Definition prepend (t : string) (o : option (string * string)) : option (string * string) :=
  match o with Some (s, r) => Some (t +:+ s, r) | None => None end.

(** The characters up to the closing quote, and what follows it. *)
Fixpoint parse_str (s : string) : option (string * string) :=
  match s with
  | EmptyString => None
  | String c r =>
      if Ascii.eqb c dq then Some ("", r)
      else if Ascii.eqb c bs then
        match r with
        | EmptyString => None
        | String e r' =>
            match simple_escape e with
            | Some d => prepend (String d "") (parse_str r')
            | None =>
                if Ascii.eqb e "u"%char then
                  match r' with
                  | String h1 (String h2 (String h3 (String h4 r4))) =>
                      match hex_val h1, hex_val h2, hex_val h3, hex_val h4 with
                      | Some a, Some b, Some c, Some d =>
                          prepend (utf8 (4096 * a + 256 * b + 16 * c + d)) (parse_str r4)
                      | _, _, _, _ => None
                      end
                  | _ => None
                  end
                else None
            end
        end
      else if byte_val c <? 32 then None
      else prepend (String c "") (parse_str r)
  end.

Fixpoint span_digits (s : string) : string * string :=
  match s with
  | String c r => if is_digit c then let '(d, r') := span_digits r in (String c d, r') else ("", s)
  | _ => ("", s)
  end.

Definition num_end (s : string) : bool :=
  match s with
  | String c _ => negb (is_digit c || Ascii.eqb c "."%char || Ascii.eqb c "e"%char || Ascii.eqb c "E"%char)
  | EmptyString => true
  end.

Definition parse_nat (s : string) : option (Z * string) :=
  let '(d, r) := span_digits s in
  match d with
  | EmptyString => None
  | String c d' =>
      if Ascii.eqb c "0"%char && negb (bool_decide (d' = "")) then None
      else if num_end r then match parse_digits d 0 with Some z => Some (z, r) | None => None end
      else None
  end.

(** The rest of [s] after the character [c]. *)
Definition expect (c : ascii) (s : string) : option string :=
  match s with String d r => if Ascii.eqb c d then Some r else None | EmptyString => None end.

Definition parse_num (s : string) : option (json * string) :=
  match expect "-" s with
  | Some r => '(z, r) ← parse_nat r; Some (JNum (- z), r)
  | None => '(z, r) ← parse_nat s; Some (JNum z, r)
  end.

Fixpoint strip_prefix (p s : string) : option string :=
  match p, s with
  | EmptyString, _ => Some s
  | String a p, String b s => if Ascii.eqb a b then strip_prefix p s else None
  | _, _ => None
  end.

Definition parse_atom (s : string) : option (json * string) :=
  match strip_prefix "null" s with Some r => Some (JNull, r) | None =>
  match strip_prefix "true" s with Some r => Some (JBool true, r) | None =>
  match strip_prefix "false" s with Some r => Some (JBool false, r) | None =>
  parse_num s end end end.

Definition parse_key (s : string) : option (string * string) :=
  r ← expect dq (skip_ws s); '(k, r) ← parse_str r; r ← expect ":" (skip_ws r); Some (k, r).

Fixpoint parse_value (fuel : nat) (s : string) : option (json * string) :=
  match fuel with
  | O => None
  | S fuel =>
      let s := skip_ws s in
      match expect dq s with
      | Some r => '(t, r) ← parse_str r; Some (JStr t, r)
      | None =>
      match expect "[" s with
      | Some r => match expect "]" (skip_ws r) with
                  | Some r => Some (JArr [], r)
                  | None => '(l, r) ← parse_elems fuel r; Some (JArr l, r)
                  end
      | None =>
      match expect "{" s with
      | Some r => match expect "}" (skip_ws r) with
                  | Some r => Some (JObj [], r)
                  | None => '(l, r) ← parse_members fuel r;
                            Some (JObj (fold_left (fun m kv => jset kv.1 kv.2 m) l []), r)
                  end
      | None => parse_atom s
      end end end
  end
with parse_elems (fuel : nat) (s : string) : option (list json * string) :=
  match fuel with
  | O => None
  | S fuel =>
      '(v, r) ← parse_value fuel s;
      match expect "," (skip_ws r) with
      | Some r => '(l, r) ← parse_elems fuel r; Some (v :: l, r)
      | None => r ← expect "]" (skip_ws r); Some ([v], r)
      end
  end
with parse_members (fuel : nat) (s : string) : option (list (string * json) * string) :=
  match fuel with
  | O => None
  | S fuel =>
      '(k, r) ← parse_key s;
      '(v, r) ← parse_value fuel r;
      match expect "," (skip_ws r) with
      | Some r => '(l, r) ← parse_members fuel r; Some ((k, v) :: l, r)
      | None => r ← expect "}" (skip_ws r); Some ([(k, v)], r)
      end
  end.

(** [JSON.parse]; [None] is the thrown SyntaxError. *)
Definition JSON_parse (s : string) : option json :=
  match parse_value (S (String.length s)) s with
  | Some (v, r) => if bool_decide (skip_ws r = "") then Some v else None
  | None => None
  end.

(** ** Printing then parsing *)

Lemma sapp_cons x (a b : string) : String x a +:+ b = String x (a +:+ b).
Proof. done. Qed.

Lemma sapp_assoc (a b c : string) : (a +:+ b) +:+ c = a +:+ (b +:+ c).
Proof. induction a as [|x a IH]; [done|]. by rewrite !sapp_cons, IH. Qed.

Lemma sapp_nil_r (a : string) : a +:+ "" = a.
Proof. induction a as [|x a IH]; [done|]. by rewrite sapp_cons, IH. Qed.

Lemma slen_app (a b : string) : String.length (a +:+ b) = (String.length a + String.length b)%nat.
Proof. induction a as [|x a IH]; [done|]. rewrite sapp_cons. cbn [String.length]. by rewrite IH. Qed.

Lemma escape_char_parse c rest :
  parse_str (escape_char c +:+ rest) = prepend (String c "") (parse_str rest).
Proof. destruct c as [[] [] [] [] [] [] [] []]; reflexivity. Qed.

Lemma parse_str_escape s rest : parse_str (escape s +:+ String dq rest) = Some (s, rest).
Proof.
  induction s as [|c s IH]; [done|]. cbn [escape]. rewrite sapp_assoc, escape_char_parse, IH. done.
Qed.

Lemma dec_digits_lead fuel n acc :
  0 < n < 10 ^ Z.of_nat fuel ->
  exists d t, dec_digits fuel n acc = String (digit_char d) t /\ 1 <= d < 10.
Proof.
  revert n acc. induction fuel as [|fuel IH]; intros n acc Hn; [cbn in Hn; lia|]. cbn [dec_digits].
  destruct (Z.eqb_spec (n / 10) 0) as [E|E].
  - eexists _, _. split; [done|]. Z.to_euclidean_division_equations; lia.
  - apply IH. rewrite Nat2Z.inj_succ, Z.pow_succ_r in Hn by lia.
    split; [Z.to_euclidean_division_equations; lia|]. apply Z.div_lt_upper_bound; lia.
Qed.

(** A printed natural is [0] or starts with a non-zero digit. *)
Lemma dec_nonneg_lead n : 0 <= n ->
  dec_nonneg n = "0" \/ exists d t, dec_nonneg n = String (digit_char d) t /\ 1 <= d < 10.
Proof.
  intros Hn. destruct (Z.eq_dec n 0) as [->|Hn0]; [by left|right]. apply dec_digits_lead.
  pose proof (Z.log2_spec n ltac:(lia)) as [_ Hl]. pose proof (Z.log2_nonneg n).
  rewrite Nat2Z.inj_succ, Z2Nat.id by lia. split; [lia|]. eapply Z.lt_le_trans; [exact Hl|].
  apply Z.pow_le_mono_l. lia.
Qed.

Lemma span_digits_app d rest : str_forall is_digit d = true -> num_end rest = true ->
  span_digits (d +:+ rest) = (d, rest).
Proof.
  intros Hd Hr. induction d as [|c d IH].
  - change ("" +:+ rest) with rest. destruct rest as [|c r]; [done|]. cbn in *.
    destruct (is_digit c); done.
  - rewrite sapp_cons. cbn in *. apply andb_prop in Hd as [-> Hd]. by rewrite IH.
Qed.

Lemma parse_nat_print n rest : 0 <= n -> num_end rest = true ->
  parse_nat (dec_nonneg n +:+ rest) = Some (n, rest).
Proof.
  intros Hn Hr. destruct (dec_nonneg_spec n Hn) as (Hne & Hd & Hp). unfold parse_nat.
  rewrite span_digits_app, Hr, Hp by done.
  destruct (dec_nonneg_lead n Hn) as [->|(d & t & -> & Hd1)]; [done|].
  assert (Ascii.eqb (digit_char d) "0" = false) as ->; [|done].
  apply Ascii.eqb_neq. intros E. pose proof (digit_char_val d ltac:(lia)) as Hv.
  rewrite E in Hv. cbn in Hv. injection Hv. lia.
Qed.

Lemma expect_ne c d s : c <> d -> expect c (String d s) = None.
Proof. intros Hne. cbn. by apply Ascii.eqb_neq in Hne as ->. Qed.

Lemma expect_eq c s : expect c (String c s) = Some s.
Proof. cbn. by rewrite Ascii.eqb_refl. Qed.

Lemma skip_ws_head c s : is_jws c = false -> skip_ws (String c s) = String c s.
Proof. cbn. by intros ->. Qed.

Lemma strip_prefix_Some p s t : strip_prefix p s = Some t -> s = p +:+ t.
Proof.
  revert s. induction p as [|a p IH]; intros s H; [by injection H|]. destruct s as [|b s]; [done|]. cbn in H.
  destruct (Ascii.eqb_spec a b) as [->|]; [|done]. by rewrite (IH _ H).
Qed.

Lemma strip_prefix_head a p c s : a <> c -> strip_prefix (String a p) (String c s) = None.
Proof. intros Hne. cbn. by apply Ascii.eqb_neq in Hne as ->. Qed.

(** The first character of a printed value decides the parser's branch. *)
Definition starts (f : ascii -> Prop) (s : string) : Prop := exists c t, s = String c t /\ f c.

Definition num_start (c : ascii) : bool := is_digit c || Ascii.eqb c "-".

Lemma toString_starts z : starts (fun c => num_start c = true) (toString z).
Proof.
  unfold toString. destruct (Z.ltb_spec z 0); [by exists "-"%char, (dec_nonneg (- z))|].
  destruct (dec_nonneg_spec z ltac:(lia)) as (Hne & Hd & _).
  destruct (dec_nonneg z) as [|c t]; [done|]. exists c, t. split; [done|].
  cbn in Hd. apply andb_prop in Hd as [Hc _]. unfold num_start. by rewrite Hc.
Qed.

Lemma num_start_cases c : num_start c = true ->
  is_jws c = false /\ c <> dq /\ c <> "["%char /\ c <> "{"%char /\ c <> "n"%char /\
  c <> "t"%char /\ c <> "f"%char /\ c <> "]"%char /\ c <> "}"%char.
Proof.
  unfold num_start. intros [Hd|Hm]%orb_true_iff.
  - destruct (digit_cases c Hd) as [->|[->|[->|[->|[->|[->|[->|[->|[->| ->]]]]]]]]]; done.
  - apply Ascii.eqb_eq in Hm as ->. done.
Qed.

Lemma parse_num_print z rest : num_end rest = true ->
  parse_num (toString z +:+ rest) = Some (JNum z, rest).
Proof.
  intros Hr. unfold parse_num, toString. destruct (Z.ltb_spec z 0) as [Hz|Hz].
  - rewrite sapp_assoc. change ("-" +:+ (dec_nonneg (- z) +:+ rest)) with (String "-" (dec_nonneg (- z) +:+ rest)). rewrite expect_eq.
    rewrite parse_nat_print by (done || lia). cbn. by rewrite Z.opp_involutive.
  - assert (expect "-" (dec_nonneg z +:+ rest) = None) as ->.
    { destruct (dec_nonneg_spec z Hz) as (Hne & Hd & _).
      destruct (dec_nonneg z) as [|c t]; [done|]. cbn in Hd. apply andb_prop in Hd as [Hc _].
      destruct (digit_cases c Hc) as [->|[->|[->|[->|[->|[->|[->|[->|[->| ->]]]]]]]]]; done. }
    by rewrite parse_nat_print.
Qed.

Lemma stringify_starts v :
  starts (fun c => is_jws c = false /\ c <> "]"%char /\ c <> "}"%char) (stringify v).
Proof.
  destruct v as [|[]|z|s|l|l]; try (eexists _, _; split; [reflexivity|done]).
  destruct (toString_starts z) as (c & t & E & Hc). exists c, t. split; [done|].
  apply num_start_cases in Hc. tauto.
Qed.

(** Values whose objects have distinct keys. *)
Fixpoint json_wf (v : json) : Prop :=
  match v with
  | JArr l => (fix go l := match l with [] => True | v :: l => json_wf v /\ go l end) l
  | JObj l => NoDup l.*1 /\
      (fix go (l : list (string * json)) := match l with [] => True | kv :: l => json_wf kv.2 /\ go l end) l
  | _ => True
  end.

Lemma fold_jset_nodup {V} (l m : list (string * V)) :
  NoDup (m.*1 ++ l.*1)%list -> fold_left (fun m kv => jset kv.1 kv.2 m) l m = (m ++ l)%list.
Proof.
  revert m. induction l as [|[k v] l IH]; intros m Hnd; cbn; [by rewrite app_nil_r|].
  assert (jset k v m = (m ++ [(k, v)])%list) as E.
  { assert (k ∉ m.*1) as Hk.
    { apply list.NoDup_app in Hnd as (_ & Hd & _). intros Hin. apply (Hd k Hin). cbn. set_solver. }
    clear -Hk. induction m as [|[k' v'] m IH]; cbn in *; [done|].
    rewrite decide_False by set_solver. f_equal. apply IH. set_solver. }
  rewrite IH; rewrite E; [by rewrite <- app_assoc|].
  rewrite fmap_app, <- app_assoc. exact Hnd.
Qed.

Definition parses (v : json) : Prop := forall fuel rest,
  (String.length (stringify v) < fuel)%nat -> num_end rest = true ->
  parse_value fuel (stringify v +:+ rest) = Some (v, rest).

Lemma stringify_app_starts v rest :
  exists c t, stringify v +:+ rest = String c t /\
              is_jws c = false /\ c <> "]"%char /\ c <> "}"%char.
Proof.
  destruct (stringify_starts v) as (c & t & -> & Hc). by exists c, (t +:+ rest).
Qed.

Lemma join_cons s t l : join "," (s :: t :: l) = s +:+ String "," (join "," (t :: l)).
Proof. done. Qed.

Lemma parse_elems_print l : Forall parses l -> l <> [] -> forall fuel rest,
  (S (String.length (join "," (map stringify l))) < fuel)%nat ->
  parse_elems fuel (join "," (map stringify l) +:+ String "]" rest) = Some (l, rest).
Proof.
  induction 1 as [|v l Hv Hl IH]; [done|]. intros _ fuel rest Hf.
  destruct fuel as [|fuel]; [lia|]. destruct l as [|w l].
  - cbn [map join] in *. cbn [parse_elems]. by rewrite Hv by (done || lia).
  - cbn [map] in *. rewrite join_cons in *. rewrite slen_app in Hf. cbn [String.length] in Hf.
    rewrite sapp_assoc, sapp_cons. cbn [parse_elems].
    rewrite Hv by (done || lia). cbn [mbind option_bind].
    rewrite skip_ws_head, expect_eq by done. by rewrite IH by (done || lia).
Qed.

Lemma quote_app s rest : quote s +:+ rest = String dq (escape s +:+ String dq rest).
Proof. unfold quote. by rewrite sapp_cons, sapp_assoc. Qed.

Lemma parse_key_print k rest : parse_key (quote k +:+ ":" +:+ rest) = Some (k, rest).
Proof.
  unfold parse_key. rewrite quote_app, skip_ws_head, expect_eq by done. cbn [mbind option_bind].
  by rewrite parse_str_escape.
Qed.

Definition member (kv : string * json) : string := quote kv.1 +:+ ":" +:+ stringify kv.2.

Lemma member_app kv rest : member kv +:+ rest = quote kv.1 +:+ ":" +:+ (stringify kv.2 +:+ rest).
Proof. unfold member. by rewrite !sapp_assoc. Qed.

Lemma member_len kv : (String.length (stringify kv.2) < String.length (member kv))%nat.
Proof. unfold member. rewrite !slen_app. cbn. lia. Qed.

Lemma parse_members_print l : Forall (fun kv => parses kv.2) l -> l <> [] -> forall fuel rest,
  (S (String.length (join "," (map member l))) < fuel)%nat ->
  parse_members fuel (join "," (map member l) +:+ String "}" rest) = Some (l, rest).
Proof.
  induction 1 as [|[k v] l Hv Hl IH]; [done|]. intros _ fuel rest Hf.
  pose proof (member_len (k, v)) as Hlen. cbn [snd] in Hlen, Hv.
  destruct fuel as [|fuel]; [lia|]. destruct l as [|w l].
  - cbn [map join] in *. rewrite member_app. cbn [parse_members]. rewrite parse_key_print.
    cbn [mbind option_bind fst snd]. by rewrite Hv by (done || lia).
  - cbn [map] in *. rewrite join_cons in *. rewrite slen_app in Hf. cbn [String.length] in Hf.
    rewrite sapp_assoc, sapp_cons, member_app. cbn [parse_members]. rewrite parse_key_print.
    cbn [mbind option_bind fst snd]. rewrite Hv by (done || lia). cbn [mbind option_bind].
    rewrite skip_ws_head, expect_eq by done. by rewrite IH by (done || lia).
Qed.

Lemma parse_atom_num z rest : num_end rest = true ->
  parse_atom (toString z +:+ rest) = Some (JNum z, rest).
Proof.
  intros Hr. unfold parse_atom. destruct (toString_starts z) as (c & t & E & Hc).
  apply num_start_cases in Hc as (_ & _ & _ & _ & ? & ? & ? & _).
  rewrite <- (parse_num_print z rest Hr). rewrite E, sapp_cons, !strip_prefix_head by congruence. done.
Qed.

Lemma not_closing_elems v l rest :
  expect "]" (skip_ws (join "," (map stringify (v :: l)) +:+ rest)) = None.
Proof.
  assert (exists r, join "," (map stringify (v :: l)) +:+ rest = stringify v +:+ r) as [r ->].
  { destruct l as [|w l]; [by eexists|]. cbn [map]. rewrite join_cons, sapp_assoc. by eexists. }
  destruct (stringify_app_starts v r) as (c & t & -> & ? & ? & ?).
  by rewrite skip_ws_head, expect_ne by done.
Qed.

Lemma not_closing_members kv l rest :
  expect "}" (skip_ws (join "," (map member (kv :: l)) +:+ rest)) = None.
Proof.
  assert (exists r, join "," (map member (kv :: l)) +:+ rest = quote kv.1 +:+ r) as [r ->].
  { destruct l as [|w l]; cbn [map].
    - cbn [join]. rewrite member_app. by eexists.
    - rewrite join_cons, sapp_assoc, member_app. by eexists. }
  by rewrite quote_app, skip_ws_head, expect_ne by done.
Qed.

(** Every printed value parses back, whatever follows it. *)
Lemma parse_value_print v : json_wf v -> parses v.
Proof.
  induction v as [|b|z|s|l IH|l IH] using json_ind'; intros Hwf fuel rest Hf Hr;
    (destruct fuel as [|fuel]; [lia|]).
  - done.
  - by destruct b.
  - cbn [stringify parse_value]. destruct (toString_starts z) as (c & t & E & Hc).
    apply num_start_cases in Hc as (? & ? & ? & ? & _).
    rewrite <- (parse_atom_num z rest Hr). rewrite E, sapp_cons, skip_ws_head by done.
    rewrite !expect_ne by done. done.
  - cbn [stringify parse_value]. rewrite quote_app, skip_ws_head, expect_eq by done.
    by rewrite parse_str_escape.
  - assert (Forall parses l) as Hl.
    { clear -IH Hwf. cbn in Hwf. induction IH as [|v l Hv _ IH]; constructor; destruct Hwf; auto. }
    cbn [stringify] in *. rewrite !slen_app in Hf. cbn [String.length] in Hf.
    rewrite !sapp_assoc. cbn [parse_value].
    change ("[" +:+ ?x) with (String "[" x). change ("]" +:+ ?x) with (String "]" x).
    rewrite skip_ws_head, expect_ne, expect_eq by done.
    destruct l as [|v l]; [done|]. rewrite not_closing_elems.
    by rewrite (parse_elems_print (v :: l)) by (done || lia).
  - assert (Forall (fun kv => parses kv.2) l) as Hl.
    { clear -IH Hwf. cbn in Hwf. destruct Hwf as [_ Hwf].
      induction IH as [|v l Hv _ IH]; constructor; destruct Hwf; auto. }
    destruct Hwf as [Hnd _].
    cbn [stringify] in *. change (fun kv => quote kv.1 +:+ ":" +:+ stringify kv.2) with member in *.
    rewrite !slen_app in Hf. cbn [String.length] in Hf.
    rewrite !sapp_assoc. cbn [parse_value].
    change ("{" +:+ ?x) with (String "{" x). change ("}" +:+ ?x) with (String "}" x).
    rewrite skip_ws_head, !expect_ne, expect_eq by done.
    destruct l as [|[k v] l]; [done|]. rewrite not_closing_members.
    rewrite (parse_members_print ((k, v) :: l)) by (done || lia). cbn [mbind option_bind].
    by rewrite fold_jset_nodup.
Qed.

(** Round trip: [JSON.parse(JSON.stringify(v))] is [v]. *)
Lemma JSON_parse_stringify v : json_wf v -> JSON_parse (stringify v) = Some v.
Proof.
  intros Hwf. unfold JSON_parse. rewrite <- (sapp_nil_r (stringify v)) at 2.
  by rewrite (parse_value_print v Hwf) by (done || lia).
Qed.

Lemma stringify_inj v w : json_wf v -> json_wf w -> stringify v = stringify w -> v = w.
Proof.
  intros Hv Hw E. pose proof (JSON_parse_stringify v Hv) as P.
  rewrite E, (JSON_parse_stringify w Hw) in P. congruence.
Qed.

(** ** Coercions of parsed values *)

(** [String(v)], the primitive an array or object is converted to first. *)
Fixpoint to_primitive (v : json) : string :=
  match v with
  | JNull => "null"
  | JBool true => "true"
  | JBool false => "false"
  | JNum z => toString z
  | JStr s => s
  | JArr l => join "," (map (fun e => match e with JNull => "" | _ => to_primitive e end) l)
  | JObj _ => "[object Object]"
  end.

(** [BigInt(v)]; [None] is a thrown TypeError or SyntaxError. *)
Definition BigInt_json (v : json) : option Z :=
  match v with
  | JNull => None
  | JBool b => Some (if b then 1 else 0)
  | JNum z => Some z
  | JStr s => BigInt s
  | JArr _ | JObj _ => BigInt (to_primitive v)
  end.

(** [Number(v)]; a number that is no integer is [NaN], here [JNull]. *)
Definition Number_value (v : json) : json :=
  match v with
  | JNull => JNum 0
  | JBool b => JNum (if b then 1 else 0)
  | JNum z => JNum z
  | JStr _ | JArr _ | JObj _ => match BigInt (to_primitive v) with Some z => JNum z | None => JNull end
  end.

(** [v.k]; [None] is [undefined], or the TypeError of a property of [null]. *)
Definition prop (k : string) (v : json) : option json :=
  match v with JObj l => jget k l | _ => None end.

(** The values an [if] treats as true. *)
Definition truthy (v : json) : bool :=
  match v with
  | JNull => false
  | JBool b => b
  | JNum z => negb (z =? 0)
  | JStr s => negb (bool_decide (s = ""))
  | JArr _ | JObj _ => true
  end.

(** ** Slices *)

(** [s.slice(0, n)] and [s.slice(n)] of bytes. *)
Fixpoint bytes_take (n : nat) (s : string) : string :=
  match n, s with S n, String c s => String c (bytes_take n s) | _, _ => "" end.
Fixpoint bytes_drop (n : nat) (s : string) : string :=
  match n, s with S n, String _ s => bytes_drop n s | _, _ => s end.

Lemma bytes_take_app n a b : String.length a = n -> bytes_take n (a +:+ b) = a /\ bytes_drop n (a +:+ b) = b.
Proof.
  revert a. induction n as [|n IH]; intros [|c a] Ha; try done.
  injection Ha as Ha. rewrite sapp_cons. cbn. by destruct (IH a Ha) as [-> ->].
Qed.

Lemma bytes_take_drop n s : bytes_take n s +:+ bytes_drop n s = s.
Proof. revert s. induction n as [|n IH]; intros [|c s]; try done. cbn [bytes_take bytes_drop]. by rewrite sapp_cons, IH. Qed.

Lemma bytes_take_length n s : (n <= String.length s)%nat -> String.length (bytes_take n s) = n.
Proof. revert s. induction n as [|n IH]; intros [|c s] H; cbn in *; try lia. rewrite IH; lia. Qed.

Lemma bytes_drop_length n s : String.length (bytes_drop n s) = (String.length s - n)%nat.
Proof. revert s. induction n as [|n IH]; intros [|c s]; try done. cbn. apply IH. Qed.

(** Equal concatenations of parts of equal length have equal parts. *)
Lemma sapp_inj_length a b c d : String.length a = String.length b -> a +:+ c = b +:+ d -> a = b /\ c = d.
Proof.
  intros Hl E. destruct (bytes_take_app _ a c eq_refl) as [H1 H2]. destruct (bytes_take_app _ b d (eq_sym Hl)) as [H3 H4].
  rewrite E in H1, H2. split; congruence.
Qed.

(** ** Hexadecimal prefixes, case and padding *)

Definition has_0x (s : string) : bool := match strip_prefix "0x" s with Some _ => true | None => false end.
Definition toBytes32 (h : string) : string := if has_0x h then h else "0x" +:+ h.
Definition stripHex (h : string) : string := match strip_prefix "0x" h with Some t => t | None => h end.

(** ASCII [toLowerCase]. *)
Definition lower_char (c : ascii) : ascii :=
  let n := byte_val c in if (65 <=? n) && (n <=? 90) then byte_of (n + 32) else c.
Fixpoint toLowerCase (s : string) : string := match s with EmptyString => "" | String c s => String (lower_char c) (toLowerCase s) end.

(** [BigInt.prototype.toString(16)] of a non-negative integer. *)
Fixpoint hex_digits (fuel : nat) (n : Z) (acc : string) : string :=
  match fuel with
  | O => acc
  | S fuel => let acc := String (hex_char (n mod 16)) acc in if n / 16 =? 0 then acc else hex_digits fuel (n / 16) acc
  end.
Definition toString16 (n : Z) : string := hex_digits (S (Z.to_nat (Z.log2 n))) n "".
Fixpoint zeros16 (n : nat) : string := match n with O => "" | S n => String "0" (zeros16 n) end.
Definition padStart64 (s : string) : string := zeros16 (64 - String.length s) +:+ s.

(** [s.split(c)] for a separator of one character. *)
Fixpoint split_on (c : ascii) (s : string) : list string :=
  match s with
  | EmptyString => [""]
  | String a s =>
      if Ascii.eqb a c then "" :: split_on c s
      else match split_on c s with l :: ls => String a l :: ls | [] => [String a ""] end
  end.

Lemma lower_0x t : toLowerCase ("0x" +:+ t) = "0x" +:+ toLowerCase t.
Proof. done. Qed.
