(* ===== verification/Streams.v ===== *)
(** Payment-channel vouchers and the agents that exchange them
    (packages/sdk/src/streams.ts and packages/sdk/src/agents.ts).

    [circomlibjs] is not part of the repository: its field, its Poseidon hash
    and its EdDSA are the operations of the class [Eddsa], and what the code
    relies on (field elements survive [toObject]/[e], a signature made with a
    32-byte key verifies under that key's public point) are the laws of
    [EddsaLaws]. *)

From S2P Require Import Prelude Text.
Local Open Scope string_scope.
Local Open Scope Z_scope.

(** ** Numbers

    A JavaScript [number] used as a counter: an exact integer, or a value
    ([NaN], an infinity, a fraction) that [BigInt] refuses. *)
Inductive number : Type :=
| Int (z : Z)
| NotInt.

#[global] Instance number_eq_dec : EqDecision number.
Proof. solve_decision. Defined.

Definition BigInt_of_number (n : number) : result Z :=
  match n with
  | Int z => Ok z
  | NotInt => Err "RangeError: the number cannot be converted to a BigInt because it is not an integer"
  end.

(** ** The cryptographic interface *)

Class Eddsa := {
  Fe : Type;
  F_e : Z -> Fe;
  F_toObject : Fe -> Z;
  poseidon : list Z -> Fe;
  prv2pub : string -> Fe * Fe;
  signPoseidon : string -> Fe -> (Fe * Fe) * Z;
  verifyPoseidon : Fe -> (Fe * Fe) * Z -> Fe * Fe -> bool
}.

Class EddsaLaws (E : Eddsa) : Prop := {
  F_e_toObject : forall x, F_e (F_toObject x) = x;
  verify_sign : forall k m, String.length k = 32%nat ->
    verifyPoseidon m (signPoseidon k m) (prv2pub k) = true
}.

(** ** Vouchers *)

Record EddsaKeypair := { prvKey : string; key_Ax : Z; key_Ay : Z }.

Record Voucher := {
  channelId : Z;
  cumulative : Z;
  seq : number;
  R8x : Z;
  R8y : Z;
  sig_S : Z;
  Ax : Z;
  Ay : Z
}.

#[global] Instance Voucher_eq_dec : EqDecision Voucher.
Proof. solve_decision. Defined.

(** [random] is what [randomBytes(32)] delivered. *)
Definition generatePayerKey {E : Eddsa} (seed : option string) (random : string) : result EddsaKeypair :=
  let prvKey := match seed with Some s => s | None => random end in
  throw_if negb (Nat.eqb (String.length prvKey) 32) with "EdDSA private key seed must be exactly 32 bytes" in
  let pub := prv2pub prvKey in
  Ok {| prvKey := prvKey; key_Ax := F_toObject pub.1; key_Ay := F_toObject pub.2 |}.

Definition voucherMessage {E : Eddsa} (channelId cumulative : Z) (seq : number) : result Z :=
  let! s := BigInt_of_number seq in
  Ok (F_toObject (poseidon [channelId; cumulative; s])).

Definition signVoucher {E : Eddsa} (key : EddsaKeypair) (channelId cumulative : Z) (seq : number) : result Voucher :=
  let! s := BigInt_of_number seq in
  let msg := poseidon [channelId; cumulative; s] in
  let sig := signPoseidon (prvKey key) msg in
  Ok {| channelId := channelId; cumulative := cumulative; seq := seq;
        R8x := F_toObject sig.1.1; R8y := F_toObject sig.1.2; sig_S := sig.2;
        Ax := key_Ax key; Ay := key_Ay key |}.

Definition verifyVoucher {E : Eddsa} (voucher : Voucher) : result bool :=
  let! s := BigInt_of_number (seq voucher) in
  let msg := poseidon [channelId voucher; cumulative voucher; s] in
  let pub := (F_e (Ax voucher), F_e (Ay voucher)) in
  let sig := ((F_e (R8x voucher), F_e (R8y voucher)), sig_S voucher) in
  Ok (verifyPoseidon msg sig pub).

Definition highestVoucher (vouchers : list Voucher) : option Voucher :=
  fold_left (fun best v =>
    match best with
    | None => Some v
    | Some b => if cumulative v >? cumulative b then Some v else best
    end) vouchers None.

(** ** The payer's agent *)

Record PayerAgentConfig := {
  p_key : EddsaKeypair;
  p_channelId : Z;
  p_cap : Z;
  p_ratePerUnit : Z;
  p_budget : Z
}.

Record PayerAgent := {
  payer_cfg : PayerAgentConfig;
  payer_cumulative : Z;
  payer_seq : Z;
  paused : bool
}.

Definition newPayerAgent (cfg : PayerAgentConfig) : result PayerAgent :=
  throw_if p_budget cfg >? p_cap cfg with "budget cannot exceed channel cap" in
  Ok {| payer_cfg := cfg; payer_cumulative := 0; payer_seq := 0; paused := false |}.

(** The agent after the call, and what the call returns or throws. *)
Definition pay {E : Eddsa} (a : PayerAgent) (units : Z) : PayerAgent * result Voucher :=
  let cfg := payer_cfg a in
  if paused a then (a, Err "payer agent is paused (service degraded); resume to continue paying")
  else if units <=? 0 then (a, Err "units must be positive")
  else
    let next := payer_cumulative a + p_ratePerUnit cfg * units in
    if next >? p_budget cfg then
      (a, Err ("payment " +:+ toString next +:+ " exceeds budget " +:+ toString (p_budget cfg)))
    else if next >? p_cap cfg then
      (a, Err ("payment " +:+ toString next +:+ " exceeds channel cap " +:+ toString (p_cap cfg)))
    else
      let a' := {| payer_cfg := cfg; payer_cumulative := next; payer_seq := payer_seq a + 1; paused := paused a |} in
      (a', signVoucher (p_key cfg) (p_channelId cfg) (payer_cumulative a') (Int (payer_seq a'))).

Definition set_paused (b : bool) (a : PayerAgent) : PayerAgent :=
  {| payer_cfg := payer_cfg a; payer_cumulative := payer_cumulative a; payer_seq := payer_seq a; paused := b |}.
Definition pause : PayerAgent -> PayerAgent := set_paused true.
Definition resume : PayerAgent -> PayerAgent := set_paused false.
Definition isPaused (a : PayerAgent) : bool := paused a.
Definition spent (a : PayerAgent) : Z := payer_cumulative a.
Definition remainingBudget (a : PayerAgent) : Z := p_budget (payer_cfg a) - payer_cumulative a.

(** ** The payee's agent *)

Record PayeeAgentConfig := {
  payerAx : Z;
  payerAy : Z;
  r_channelId : Z;
  r_cap : Z;
  r_ratePerUnit : Z
}.

Record PayeeAgent := {
  payee_cfg : PayeeAgentConfig;
  best : option Voucher;
  unitsServed : Z
}.

Record ReceiveResult := { accepted : bool; reason : option string }.

Definition newPayeeAgent (cfg : PayeeAgentConfig) : PayeeAgent :=
  {| payee_cfg := cfg; best := None; unitsServed := 0 |}.

Definition reject (why : string) : result ReceiveResult := Ok {| accepted := false; reason := Some why |}.

Definition receive {E : Eddsa} (a : PayeeAgent) (voucher : Voucher) (totalUnitsServed : Z)
    : PayeeAgent * result ReceiveResult :=
  let cfg := payee_cfg a in
  let a := {| payee_cfg := cfg; best := best a; unitsServed := totalUnitsServed |} in
  if negb (channelId voucher =? r_channelId cfg) then (a, reject "wrong channel")
  else if negb (Ax voucher =? payerAx cfg) || negb (Ay voucher =? payerAy cfg) then
    (a, reject "voucher not signed by channel payer")
  else
    match verifyVoucher voucher with
    | Err m => (a, Err m)
    | Ok false => (a, reject "invalid signature")
    | Ok true =>
        if cumulative voucher >? r_cap cfg then (a, reject "voucher exceeds cap")
        else
          let owed := r_ratePerUnit cfg * totalUnitsServed in
          if cumulative voucher <? owed then
            (a, reject ("underpaid: " +:+ toString (cumulative voucher) +:+ " < owed " +:+ toString owed))
          else if match best a with Some b => cumulative voucher <=? cumulative b | None => false end then
            (a, Ok {| accepted := true; reason := Some "stale (kept current best)" |})
          else
            ({| payee_cfg := cfg; best := Some voucher; unitsServed := totalUnitsServed |},
             Ok {| accepted := true; reason := None |})
    end.

Definition highest (a : PayeeAgent) : option Voucher := best a.

Definition shouldSettle (a : PayeeAgent) (threshold : Z) : bool :=
  match best a with Some b => cumulative b >=? threshold | None => false end.

Definition isUnderpaid (a : PayeeAgent) : bool :=
  let owed := r_ratePerUnit (payee_cfg a) * unitsServed a in
  (match best a with Some b => cumulative b | None => 0 end) <? owed.

(** ** Runs of an agent *)

Inductive PayerOp := OpPay (units : Z) | OpPause | OpResume.

(** The vouchers a sequence of calls hands out, in order. *)
Definition payer_step {E : Eddsa} (a : PayerAgent) (op : PayerOp) : PayerAgent * list Voucher :=
  match op with
  | OpPay u => let '(a', r) := pay a u in (a', match r with Ok v => [v] | Err _ => [] end)
  | OpPause => (pause a, [])
  | OpResume => (resume a, [])
  end.

Fixpoint payer_run {E : Eddsa} (a : PayerAgent) (ops : list PayerOp) : PayerAgent * list Voucher :=
  match ops with
  | [] => (a, [])
  | op :: ops => let '(a1, vs) := payer_step a op in
                 let '(a2, ws) := payer_run a1 ops in (a2, vs ++ ws)%list
  end.

(** The agent after a sequence of received vouchers, and those it accepted. *)
Fixpoint payee_run {E : Eddsa} (a : PayeeAgent) (msgs : list (Voucher * Z)) : PayeeAgent * list Voucher :=
  match msgs with
  | [] => (a, [])
  | (v, u) :: msgs =>
      let '(a1, r) := receive a v u in
      let '(a2, ws) := payee_run a1 msgs in
      (a2, (match r with Ok {| accepted := true |} => [v] | _ => [] end) ++ ws)%list
  end.

(** One payment delivered straight to the payee, which has by then served as
    many units as were ever paid for. *)
Fixpoint session {E : Eddsa} (p : PayerAgent) (r : PayeeAgent) (served : Z) (ticks : list Z)
    : PayerAgent * PayeeAgent * list (result ReceiveResult) :=
  match ticks with
  | [] => (p, r, [])
  | u :: ticks =>
      let '(p1, pv) := pay p u in
      match pv with
      | Err m => (p1, r, [Err m])
      | Ok v =>
          let '(r1, res) := receive r v (served + u) in
          let '(p2, r2, l) := session p1 r1 (served + u) ticks in (p2, r2, res :: l)
      end
  end.

(** ** Signatures *)

Section Laws.
Context {E : Eddsa} {L : EddsaLaws E}.

(** A key pair whose public half belongs to its 32-byte private half. *)
Definition key_ok (k : EddsaKeypair) : Prop :=
  String.length (prvKey k) = 32%nat /\
  key_Ax k = F_toObject (prv2pub (prvKey k)).1 /\ key_Ay k = F_toObject (prv2pub (prvKey k)).2.

Lemma generatePayerKey_ok seed rnd k : generatePayerKey seed rnd = Ok k -> key_ok k.
Proof.
  unfold generatePayerKey. destruct (negb (Nat.eqb _ _)) eqn:Hn; [done|]. intros [= <-]. breflect. done.
Qed.

Lemma generatePayerKey_total seed rnd :
  is_ok (generatePayerKey seed rnd) = Nat.eqb (String.length (default rnd seed)) 32.
Proof.
  unfold generatePayerKey. destruct seed; cbn; by destruct (Nat.eqb _ 32).
Qed.

Lemma verify_signed k c m n v : key_ok k -> signVoucher k c m n = Ok v -> verifyVoucher v = Ok true.
Proof.
  intros (Hl & Hx & Hy). unfold signVoucher, verifyVoucher. destruct n as [z|]; [|done].
  cbn. intros [= <-]. cbn. rewrite Hx, Hy, !F_e_toObject. f_equal.
  rewrite <- (verify_sign (prvKey k) (poseidon [c; m; z])) by done.
  f_equal; [|by destruct (prv2pub _)]. by destruct (signPoseidon _ _) as [[] ].
Qed.

(** ** The payer *)

Lemma pay_spec a u : forall a' r, pay a u = (a', r) ->
  (exists m, r = Err m /\ a' = a /\
     (paused a = true \/ u <= 0 \/ p_budget (payer_cfg a) < payer_cumulative a + p_ratePerUnit (payer_cfg a) * u
      \/ p_cap (payer_cfg a) < payer_cumulative a + p_ratePerUnit (payer_cfg a) * u)) \/
  (exists v, r = Ok v /\ paused a = false /\ 0 < u /\
     a' = {| payer_cfg := payer_cfg a; payer_cumulative := cumulative v; payer_seq := payer_seq a + 1; paused := false |} /\
     cumulative v = payer_cumulative a + p_ratePerUnit (payer_cfg a) * u /\
     cumulative v <= p_budget (payer_cfg a) /\ cumulative v <= p_cap (payer_cfg a) /\
     seq v = Int (payer_seq a + 1) /\ channelId v = p_channelId (payer_cfg a) /\
     signVoucher (p_key (payer_cfg a)) (p_channelId (payer_cfg a)) (cumulative v) (seq v) = Ok v).
Proof.
  intros a' r. unfold pay. rewrite !Z.gtb_ltb.
  destruct (paused a) eqn:Ep; [intros [= <- <-]; left; eauto 10|].
  destruct (Z.leb_spec u 0); [intros [= <- <-]; left; eauto 10|].
  destruct (Z.ltb_spec (p_budget (payer_cfg a)) (payer_cumulative a + p_ratePerUnit (payer_cfg a) * u));
    [intros [= <- <-]; left; eauto 10|].
  destruct (Z.ltb_spec (p_cap (payer_cfg a)) (payer_cumulative a + p_ratePerUnit (payer_cfg a) * u));
    [intros [= <- <-]; left; eauto 10|].
  intros [= <- <-]. right. cbn. eexists. split_and!; try done.
Qed.

Lemma pay_cfg a u : payer_cfg (pay a u).1 = payer_cfg a.
Proof.
  destruct (pay a u) as [a' r] eqn:Ep. apply pay_spec in Ep as [(m & -> & -> & _)|(v & -> & ? & ? & -> & _)]; done.
Qed.

(** What a voucher handed out by an agent with configuration [cfg] satisfies. *)
Definition issued_ok (cfg : PayerAgentConfig) (lo : Z) (v : Voucher) : Prop :=
  lo <= cumulative v /\ cumulative v <= p_budget cfg /\ cumulative v <= p_cap cfg /\
  channelId v = p_channelId cfg /\
  signVoucher (p_key cfg) (p_channelId cfg) (cumulative v) (seq v) = Ok v.

Lemma payer_run_spec ops : forall a a' vs, payer_run a ops = (a', vs) ->
  0 <= p_ratePerUnit (payer_cfg a) ->
  payer_cfg a' = payer_cfg a /\
  Forall (issued_ok (payer_cfg a) (payer_cumulative a)) vs /\
  StronglySorted (fun v w => cumulative v <= cumulative w) vs /\
  seq <$> vs = Int <$> seqZ (payer_seq a + 1) (Z.of_nat (length vs)) /\
  payer_seq a' = payer_seq a + Z.of_nat (length vs) /\
  payer_cumulative a' = default (payer_cumulative a) (cumulative <$> list.last vs) /\
  payer_cumulative a <= payer_cumulative a'.
Proof.
  induction ops as [|op ops IH]; intros a a' vs Hrun Hrate.
  { injection Hrun as <- <-. cbn. split_and!; try done; try constructor; lia. }
  cbn [payer_run] in Hrun.
  destruct (payer_step a op) as [a1 vs1] eqn:Hs. destruct (payer_run a1 ops) as [a2 ws] eqn:Hr.
  injection Hrun as <- <-.
  assert ((vs1 = [] /\ payer_cfg a1 = payer_cfg a /\ payer_cumulative a1 = payer_cumulative a /\ payer_seq a1 = payer_seq a) \/
          exists v, vs1 = [v] /\ payer_cfg a1 = payer_cfg a /\ payer_seq a1 = payer_seq a + 1 /\
            payer_cumulative a1 = cumulative v /\ seq v = Int (payer_seq a + 1) /\ issued_ok (payer_cfg a) (payer_cumulative a) v)
    as Hc.
  { destruct op as [u| |]; cbn in Hs; [|injection Hs as <- <-; by left..].
    destruct (pay a u) as [ap r] eqn:Ep. injection Hs as <- <-.
    apply pay_spec in Ep as [(m & -> & -> & _)|(v & -> & Hp & Hu & -> & Hc & Hb & Hcap & Hsq & Hch & Hsg)]; [by left|right].
    exists v. cbn. unfold issued_ok. split_and!; auto. nia. }
  destruct Hc as [(-> & Hcfg & Hcum & Hsq)|(v & -> & Hcfg & Hsq & Hcum & Hv & Hok)];
    apply IH in Hr as (HA & HB & HC & HD & HE & HF & HG); try (by rewrite Hcfg).
  { by rewrite Hcfg, Hcum, Hsq in *. }
  rewrite Hcfg, Hcum, Hsq in *. cbn [app]. split_and!; try done.
  - constructor; [done|]. eapply list.Forall_impl; [exact HB|]. unfold issued_ok in *. intros w; cbn; intuition lia.
  - constructor; [done|]. eapply list.Forall_impl; [exact HB|]. unfold issued_ok. cbn. tauto.
  - cbn [length fmap list_fmap]. rewrite Hv, seqZ_cons by lia. cbn. f_equal. rewrite HD. f_equal. f_equal; lia.
  - cbn [length]. lia.
  - rewrite HF, last_cons. by destruct (list.last ws).
  - unfold issued_ok in Hok. lia.
Qed.

(** ** The payee *)

(** The exact condition under which [receive] accepts. *)
Definition acceptable (cfg : PayeeAgentConfig) (v : Voucher) (u : Z) : Prop :=
  channelId v = r_channelId cfg /\ Ax v = payerAx cfg /\ Ay v = payerAy cfg /\
  verifyVoucher v = Ok true /\ cumulative v <= r_cap cfg /\ r_ratePerUnit cfg * u <= cumulative v.

Definition fresher (v : Voucher) (b : option Voucher) : bool :=
  match b with Some b => cumulative b <? cumulative v | None => true end.

Lemma receive_accepts a v u : acceptable (payee_cfg a) v u ->
  receive a v u =
    ({| payee_cfg := payee_cfg a; best := if fresher v (best a) then Some v else best a; unitsServed := u |},
     Ok {| accepted := true; reason := if fresher v (best a) then None else Some "stale (kept current best)" |}).
Proof.
  intros (Hc & Hx & Hy & Hv & Hcap & Howed). unfold receive.
  rewrite Hc, Hx, Hy, !Z.eqb_refl, Hv, Z.gtb_ltb. cbn [negb orb].
  destruct (Z.ltb_spec (r_cap (payee_cfg a)) (cumulative v)); [lia|].
  destruct (Z.ltb_spec (cumulative v) (r_ratePerUnit (payee_cfg a) * u)); [lia|].
  cbn [best]. destruct (best a) as [b|]; cbn [fresher]; [|done].
  destruct (Z.leb_spec (cumulative v) (cumulative b)), (Z.ltb_spec (cumulative b) (cumulative v)); done || lia.
Qed.

Lemma receive_rejects a v u : ~ acceptable (payee_cfg a) v u ->
  (receive a v u).1 = {| payee_cfg := payee_cfg a; best := best a; unitsServed := u |} /\
  forall r, (receive a v u).2 = Ok r -> accepted r = false /\ is_Some (reason r).
Proof.
  intros Hn. unfold receive. rewrite Z.gtb_ltb.
  destruct (Z.eqb_spec (channelId v) (r_channelId (payee_cfg a))); cbn [negb]; [|by split; [|intros r [= <-]]].
  destruct (Z.eqb_spec (Ax v) (payerAx (payee_cfg a))), (Z.eqb_spec (Ay v) (payerAy (payee_cfg a)));
    cbn [negb orb]; try (by split; [|intros r [= <-]]).
  destruct (verifyVoucher v) as [[]|] eqn:Ev; try (by split; [|intros r [= <-]]).
  destruct (Z.ltb_spec (r_cap (payee_cfg a)) (cumulative v)); [by split; [|intros r [= <-]]|].
  destruct (Z.ltb_spec (cumulative v) (r_ratePerUnit (payee_cfg a) * u)); [by split; [|intros r [= <-]]|].
  by destruct Hn.
Qed.

#[global] Instance verdict_dec (r : result bool) : Decision (r = Ok true).
Proof. destruct r as [[]|]; [left|right|right]; congruence. Defined.

#[global] Instance acceptable_dec cfg v u : Decision (acceptable cfg v u).
Proof. unfold acceptable. apply _. Defined.

Lemma receive_cfg a v u : payee_cfg (receive a v u).1 = payee_cfg a.
Proof.
  destruct (decide (acceptable (payee_cfg a) v u)) as [H|H]; [by rewrite receive_accepts|].
  by destruct (receive_rejects a v u H) as [-> _].
Qed.

Lemma receive_accepted_iff a v u :
  (exists r, (receive a v u).2 = Ok r /\ accepted r = true) <-> acceptable (payee_cfg a) v u.
Proof.
  split; [|intros H; rewrite receive_accepts by done; by eexists].
  intros (r & Hr & Ha). destruct (decide (acceptable (payee_cfg a) v u)) as [|Hn]; [done|].
  destruct (receive_rejects a v u Hn) as [_ HH]. destruct (HH r Hr). congruence.
Qed.

Definition highest_from (b : option Voucher) (l : list Voucher) : option Voucher :=
  fold_left (fun best v => if fresher v best then Some v else best) l b.

Lemma highestVoucher_fold l : highestVoucher l = highest_from None l.
Proof.
  unfold highestVoucher, highest_from. generalize (@None Voucher).
  induction l as [|v l IH]; intros b; [done|]. cbn [fold_left]. rewrite IH. f_equal.
  destruct b as [b|]; cbn [fresher]; [|done]. by rewrite Z.gtb_ltb.
Qed.

Lemma payee_run_spec msgs : forall a a' acc, payee_run a msgs = (a', acc) ->
  payee_cfg a' = payee_cfg a /\ best a' = highest_from (best a) acc /\
  acc = (filter (fun m => acceptable (payee_cfg a) m.1 m.2) msgs).*1.
Proof.
  induction msgs as [|[v u] msgs IH]; intros a a' acc Hrun; [by injection Hrun as <- <-|].
  cbn [payee_run] in Hrun. pose proof (receive_cfg a v u) as Hcfg.
  destruct (receive a v u) as [a1 r] eqn:Er. destruct (payee_run a1 msgs) as [a2 ws] eqn:Hr.
  injection Hrun as <- <-. apply IH in Hr as (HA & HB & HC). cbn [fst] in Hcfg. rewrite Hcfg in *.
  rewrite filter_cons. destruct (decide (acceptable (payee_cfg a) v u)) as [H|H].
  - rewrite decide_True by done. rewrite receive_accepts in Er by done. injection Er as <- <-.
    cbn in *. split_and!; try done. by rewrite HC at 1.
  - rewrite decide_False by done. pose proof (receive_rejects a v u H) as [R1 R2].
    rewrite Er in R1, R2. cbn in R1, R2. subst a1. cbn in *.
    assert (match r with Ok {| accepted := true |} => [v] | _ => [] end = []) as ->.
    { destruct r as [[[] ?]|]; try done. by destruct (R2 _ eq_refl). }
    done.
Qed.

(** The highest of a list: an element, maximal, and the first such. *)
Lemma highest_from_spec l : forall b w, highest_from b l = Some w ->
  (b = Some w \/ w ∈ l) /\
  (forall v, v ∈ l -> cumulative v <= cumulative w) /\
  (forall v, b = Some v -> cumulative v <= cumulative w).
Proof.
  induction l as [|v l IH]; intros b w H.
  { cbn in H. subst b. split_and!; [by left|set_solver|]. by intros ? [= ->]. }
  cbn [highest_from fold_left] in H. apply IH in H as (HA & HB & HC).
  destruct b as [b|]; cbn [fresher] in *.
  - destruct (Z.ltb_spec (cumulative b) (cumulative v)).
    + specialize (HC v eq_refl). split_and!.
      * right. destruct HA as [[= ->]|]; set_solver.
      * intros x [->|]%elem_of_cons; auto.
      * intros ? [= <-]. lia.
    + specialize (HC b eq_refl). split_and!.
      * destruct HA; [by left|right; set_solver].
      * intros x [->|]%elem_of_cons; [lia|auto].
      * by intros ? [= <-].
  - specialize (HC v eq_refl). split_and!; [|intros x [->|]%elem_of_cons; auto|done].
    right. destruct HA as [[= ->]|]; set_solver.
Qed.

Lemma highest_from_None l : highest_from None l = None -> l = [].
Proof.
  destruct l as [|v l]; [done|]. cbn [highest_from fold_left fresher].
  enough (forall l v, highest_from (Some v) l <> None) as HH by (intros Hn; by destruct (HH l v)).
  clear. induction l as [|w l IH]; intros v; [done|]. cbn [highest_from fold_left].
  destruct (fresher w (Some v)); apply IH.
Qed.

Lemma highest_from_first l w :
  highest_from None l = Some w ->
  exists l1 l2, l = (l1 ++ w :: l2)%list /\ Forall (fun v => cumulative v < cumulative w) l1 /\
                Forall (fun v => cumulative v <= cumulative w) l2.
Proof.
  induction l as [|x l IH] using rev_ind; [done|]. unfold highest_from. rewrite fold_left_app.
  cbn [fold_left]. fold (highest_from None l). intros H.
  destruct (highest_from None l) as [b|] eqn:Eb; cbn [fresher] in H.
  - pose proof Eb as Hb. apply highest_from_spec in Hb as (_ & Hmax & _).
    destruct (Z.ltb_spec (cumulative b) (cumulative x)).
    + injection H as <-. exists l, []. split_and!; [done| |done].
      apply list.Forall_forall. intros v Hv. specialize (Hmax v Hv). lia.
    + injection H as <-. destruct (IH eq_refl) as (l1 & l2 & -> & H1 & H2).
      exists l1, (l2 ++ [x])%list. split_and!; [by rewrite <- app_assoc|done|].
      apply list.Forall_app. split; [done|]. by repeat constructor.
  - injection H as <-. apply highest_from_None in Eb as ->. by exists [], [].
Qed.

(** ** A payer and a payee on the same channel *)

Definition paired (p : PayerAgent) (r : PayeeAgent) : Prop :=
  key_ok (p_key (payer_cfg p)) /\ payerAx (payee_cfg r) = key_Ax (p_key (payer_cfg p)) /\
  payerAy (payee_cfg r) = key_Ay (p_key (payer_cfg p)) /\
  r_channelId (payee_cfg r) = p_channelId (payer_cfg p) /\ r_cap (payee_cfg r) = p_cap (payer_cfg p) /\
  r_ratePerUnit (payee_cfg r) = p_ratePerUnit (payer_cfg p).

Lemma signVoucher_key k c m n v : signVoucher k c m n = Ok v -> Ax v = key_Ax k /\ Ay v = key_Ay k.
Proof. unfold signVoucher. destruct n; [|done]. cbn. by intros [= <-]. Qed.

Lemma session_spec ticks : forall p r served p' r' out,
  session p r served ticks = (p', r', out) -> paired p r ->
  0 < p_ratePerUnit (payer_cfg p) -> payer_cumulative p = p_ratePerUnit (payer_cfg p) * served ->
  fresher {| channelId := 0; cumulative := payer_cumulative p + 1; seq := NotInt; R8x := 0; R8y := 0;
             sig_S := 0; Ax := 0; Ay := 0 |} (best r) = true ->
  paused p = false -> p_budget (payer_cfg p) <= p_cap (payer_cfg p) ->
  Forall (fun u => 0 < u) ticks ->
  payer_cumulative p + p_ratePerUnit (payer_cfg p) * foldr Z.add 0 ticks <= p_budget (payer_cfg p) ->
  out = replicate (length ticks) (Ok {| accepted := true; reason := None |}) /\
  payer_cumulative p' = payer_cumulative p + p_ratePerUnit (payer_cfg p) * foldr Z.add 0 ticks /\
  (ticks <> [] -> cumulative <$> best r' = Some (payer_cumulative p') /\
                  r_ratePerUnit (payee_cfg r') * unitsServed r' = payer_cumulative p').
Proof.
  induction ticks as [|u ticks IH]; intros p r served p' r' out Hs Hpair Hrate Hcum Hfr Hp Hbc Hpos Hbud.
  { injection Hs as <- <- <-. cbn. split_and!; [done|lia|done]. }
  cbn [session] in Hs. inversion Hpos as [|? ? Hu Hpos']; subst. cbn [foldr] in Hbud.
  assert (0 <= foldr Z.add 0 ticks) as Hsum.
  { clear -Hpos'. induction Hpos'; cbn; lia. }
  destruct (pay p u) as [p1 pv] eqn:Ep.
  apply pay_spec in Ep as [(m & -> & -> & Hbad)|(v & -> & _ & _ & -> & Hc & Hb & Hcap & Hsq & Hch & Hsg)].
  { exfalso. destruct Hbad as [?|[?|[?|?]]]; [congruence|lia|nia|nia]. }
  destruct Hpair as (Hk & Hx & Hy & Hchan & Hrc & Hrr).
  destruct (signVoucher_key _ _ _ _ _ Hsg) as [Hvx Hvy].
  rewrite receive_accepts in Hs.
  2:{ unfold acceptable. rewrite Hx, Hy, Hchan, Hrc, Hrr. split_and!; try done; [by eapply verify_signed|].
      rewrite Hc, Hcum. lia. }
  assert (fresher v (best r) = true) as Hfr'.
  { destruct (best r) as [b|]; cbn in *; [|done]. apply Z.ltb_lt in Hfr. apply Z.ltb_lt. nia. }
  rewrite Hfr' in Hs.
  match type of Hs with context [session ?p1 ?r1 ?sv ticks] =>
    destruct (session p1 r1 sv ticks) as [[p2 r2] l] eqn:E2;
    specialize (IH p1 r1 sv p2 r2 l E2) end.
  injection Hs as <- <- <-.
  destruct IH as (-> & HB & HC); cbn; try done; try (rewrite ?Hc, ?Hcum; lia).
  split_and!; [done| |].
  - cbn in HB. lia.
  - intros _. destruct ticks as [|u2 ticks]; [|by apply HC].
    cbn in E2. injection E2 as <- <-. cbn. split; [done|]. rewrite Hrr, Hc, Hcum. lia.
Qed.

End Laws.

(** ** A concrete scheme for the examples: signatures carry the key's checksum. *)

Fixpoint checksum (s : string) : Z :=
  match s with EmptyString => 1 | String c s => byte_val c + 257 * checksum s end.

#[global] Instance toyEddsa : Eddsa := {|
  Fe := Z; F_e := id; F_toObject := id;
  poseidon := foldr (fun x acc => x + 31 * acc) 7;
  prv2pub := fun k => (checksum k, 1);
  signPoseidon := fun k m => ((m, 0), checksum k);
  verifyPoseidon := fun m sig pub => (sig.1.1 =? m) && (sig.2 =? pub.1)
|}.

#[global] Instance toyEddsa_laws : EddsaLaws toyEddsa.
Proof. split; [done|]. intros k m _. cbn. by rewrite !Z.eqb_refl. Qed.

Definition toy_seed : string := "0123456789abcdef0123456789abcdef".
Definition toy_key : EddsaKeypair := {| prvKey := toy_seed; key_Ax := checksum toy_seed; key_Ay := 1 |}.
Definition toy_payer_cfg : PayerAgentConfig :=
  {| p_key := toy_key; p_channelId := 7; p_cap := 100; p_ratePerUnit := 10; p_budget := 80 |}.
Definition toy_payer : PayerAgent :=
  {| payer_cfg := toy_payer_cfg; payer_cumulative := 0; payer_seq := 0; paused := false |}.
Definition toy_payee_cfg : PayeeAgentConfig :=
  {| payerAx := key_Ax toy_key; payerAy := key_Ay toy_key; r_channelId := 7; r_cap := 100; r_ratePerUnit := 10 |}.
(** What [pay 3] hands out first. *)
Definition toy_voucher : Voucher :=
  {| channelId := 7; cumulative := 30; seq := Int 1; R8x := 7 + 31 * (30 + 31 * (1 + 31 * 7)); R8y := 0;
     sig_S := checksum toy_seed; Ax := checksum toy_seed; Ay := 1 |}.

(** ** Properties *)

(** Whatever a payer agent is asked to do (pay, pause, resume, in any order),
    the vouchers it hands out stay within budget and cap, never decrease, carry
    the sequence numbers 1, 2, 3, ... without gaps, verify against the payer's
    public key, and the last one is exactly what the agent reports as spent. *)
Theorem payer_vouchers_bounded (E : Eddsa) (L : EddsaLaws E) cfg a ops a' vs :
  newPayerAgent cfg = Ok a -> key_ok (p_key cfg) -> 0 <= p_ratePerUnit cfg ->
  payer_run a ops = (a', vs) ->
  Forall (fun v => 0 <= cumulative v <= p_budget cfg /\ p_budget cfg <= p_cap cfg /\
                   channelId v = p_channelId cfg /\ verifyVoucher v = Ok true) vs /\
  StronglySorted (fun v w => cumulative v <= cumulative w) vs /\
  seq <$> vs = Int <$> seqZ 1 (Z.of_nat (length vs)) /\
  spent a' = default 0 (cumulative <$> list.last vs).
Proof.
  unfold newPayerAgent. rewrite Z.gtb_ltb. destruct (Z.ltb_spec (p_cap cfg) (p_budget cfg)); [done|].
  intros [= <-] Hk Hrate Hrun. apply payer_run_spec in Hrun as (_ & HB & HC & HD & _ & HF & _); [|done..].
  split_and!; try done. eapply list.Forall_impl; [exact HB|].
  intros v (H1 & H2 & H3 & H4 & H5). split_and!; try done. by eapply verify_signed.
Qed.

Lemma payer_vouchers_bounded_witness :
  payer_run toy_payer [OpPay 3; OpPause; OpPay 1; OpResume; OpPay 9; OpPay 5]
    = ((payer_run toy_payer [OpPay 3; OpPay 5]).1, (payer_run toy_payer [OpPay 3; OpPay 5]).2) /\
  spent (payer_run toy_payer [OpPay 3; OpPay 5]).1
    = default 0 (cumulative <$> list.last (payer_run toy_payer [OpPay 3; OpPay 5]).2).
Proof.
  split; [reflexivity|].
  refine (proj2 (proj2 (proj2 (payer_vouchers_bounded toyEddsa toyEddsa_laws toy_payer_cfg toy_payer
    [OpPay 3; OpPause; OpPay 1; OpResume; OpPay 9; OpPay 5] _ _ _ _ _ _)))).
  - reflexivity.
  - vm_compute. auto.
  - vm_compute. discriminate.
  - reflexivity.
Defined.

(** The payee keeps exactly the voucher it should settle: after any sequence
    of deliveries, forged, replayed or reordered, its best voucher is
    [highestVoucher] of the ones that satisfied every acceptance condition, and
    that best voucher is itself signed by the channel's payer and within cap. *)
Theorem payee_keeps_highest (E : Eddsa) (L : EddsaLaws E) cfg msgs a' acc :
  payee_run (newPayeeAgent cfg) msgs = (a', acc) ->
  highest a' = highestVoucher acc /\
  (forall v, v ∈ acc <-> exists u, (v, u) ∈ msgs /\ acceptable cfg v u) /\
  (forall b, highest a' = Some b -> exists u, acceptable cfg b u).
Proof.
  intros Hrun. apply payee_run_spec in Hrun as (HA & HB & HC). cbn in HA, HB, HC.
  assert (forall v, v ∈ acc <-> exists u, (v, u) ∈ msgs /\ acceptable cfg v u) as Hacc.
  { intros v. rewrite HC, list_elem_of_fmap. setoid_rewrite list_elem_of_filter. split.
    - intros ([w u] & -> & Hok & Hin). by exists u.
    - intros (u & Hin & Hok). by exists (v, u). }
  unfold highest. rewrite HB, highestVoucher_fold. split_and!; [done|done|].
  intros b Hb. apply highest_from_spec in Hb as ([?|Hin] & _); [done|].
  apply Hacc in Hin as (u & _ & ?). by exists u.
Qed.

Lemma payee_keeps_highest_witness :
  highest (payee_run (newPayeeAgent toy_payee_cfg) [(toy_voucher, 2)]).1
    = highestVoucher (payee_run (newPayeeAgent toy_payee_cfg) [(toy_voucher, 2)]).2 /\
  (payee_run (newPayeeAgent toy_payee_cfg) [(toy_voucher, 2)]).2 = [toy_voucher].
Proof.
  split; [|vm_compute; reflexivity].
  exact (proj1 (payee_keeps_highest toyEddsa toyEddsa_laws toy_payee_cfg [(toy_voucher, 2)] _ _
    (surjective_pairing _))).
Defined.

(** A payer and a payee configured for the same channel agree on every
    tick: as long as the total stays within the budget, every payment yields a
    voucher, the payee accepts it as its new best, and at the end the best
    voucher is worth exactly what the payer reports as spent, so the payee is
    not underpaid. *)
Theorem session_all_accepted (E : Eddsa) (L : EddsaLaws E) cfg rcfg p ticks p' r' out :
  newPayerAgent cfg = Ok p -> paired p (newPayeeAgent rcfg) -> 0 < p_ratePerUnit cfg ->
  Forall (fun u => 0 < u) ticks -> ticks <> [] ->
  p_ratePerUnit cfg * foldr Z.add 0 ticks <= p_budget cfg ->
  session p (newPayeeAgent rcfg) 0 ticks = (p', r', out) ->
  out = replicate (length ticks) (Ok {| accepted := true; reason := None |}) /\
  spent p' = p_ratePerUnit cfg * foldr Z.add 0 ticks /\
  cumulative <$> highest r' = Some (spent p') /\ isUnderpaid r' = false /\
  shouldSettle r' (spent p') = true.
Proof.
  unfold newPayerAgent. rewrite Z.gtb_ltb. destruct (Z.ltb_spec (p_cap cfg) (p_budget cfg)); [done|].
  intros [= <-] Hpair Hrate Hpos Hne Hbud Hrun. apply session_spec in Hrun as (HA & HB & HC); cbn; try done; [|lia].
  cbn in HB. destruct (HC Hne) as [HD HE]. unfold highest, isUnderpaid, shouldSettle, spent in *.
  destruct (best r') as [b|]; [|done]. cbn in HD. injection HD as HD. rewrite Z.geb_leb.
  split_and!; [done|done|cbn; by f_equal|apply Z.ltb_ge; lia|apply Z.leb_le; lia].
Qed.

Lemma session_all_accepted_witness :
  spent (session toy_payer (newPayeeAgent toy_payee_cfg) 0 [3; 1; 4]).1.1 = 80 /\
  isUnderpaid (session toy_payer (newPayeeAgent toy_payee_cfg) 0 [3; 1; 4]).1.2 = false.
Proof.
  pose proof (session_all_accepted toyEddsa toyEddsa_laws toy_payer_cfg toy_payee_cfg toy_payer [3; 1; 4]
    (session toy_payer (newPayeeAgent toy_payee_cfg) 0 [3; 1; 4]).1.1
    (session toy_payer (newPayeeAgent toy_payee_cfg) 0 [3; 1; 4]).1.2
    (session toy_payer (newPayeeAgent toy_payee_cfg) 0 [3; 1; 4]).2) as H.
  destruct H as (_ & H1 & _ & H2 & _).
  - reflexivity.
  - vm_compute. auto 10.
  - vm_compute. reflexivity.
  - repeat constructor.
  - discriminate.
  - vm_compute. discriminate.
  - reflexivity.
  - split; [exact H1|exact H2].
Defined.

(** [highestVoucher] returns nothing only for the empty list, and otherwise
    the first voucher of greatest cumulative amount. *)
Theorem highestVoucher_first_max (vs : list Voucher) :
  match highestVoucher vs with
  | None => vs = []
  | Some w => exists l1 l2, vs = (l1 ++ w :: l2)%list /\
                Forall (fun v => cumulative v < cumulative w) l1 /\
                Forall (fun v => cumulative v <= cumulative w) l2
  end.
Proof.
  rewrite highestVoucher_fold. destruct (highest_from None vs) as [w|] eqn:Ew.
  - by apply highest_from_first.
  - by apply highest_from_None.
Qed.

(** [receive] accepts a voucher exactly when it is for this channel, carries
    the payer's key, verifies, is within cap and covers the units served; a
    rejection changes nothing but the served counter, and after an acceptance
    the payee does not consider itself underpaid. *)
Theorem receive_accepts_iff (E : Eddsa) (L : EddsaLaws E) a v u :
  ((exists r, (receive a v u).2 = Ok r /\ accepted r = true) <-> acceptable (payee_cfg a) v u) /\
  unitsServed (receive a v u).1 = u /\
  (acceptable (payee_cfg a) v u -> isUnderpaid (receive a v u).1 = false) /\
  (~ acceptable (payee_cfg a) v u -> best (receive a v u).1 = best a).
Proof.
  split_and!; [apply receive_accepted_iff| | |intros H; by destruct (receive_rejects a v u H) as [-> _]].
  - destruct (decide (acceptable (payee_cfg a) v u)) as [H|H]; [by rewrite receive_accepts|].
    by destruct (receive_rejects a v u H) as [-> _].
  - intros H. rewrite receive_accepts by done. destruct H as (_ & _ & _ & _ & _ & Howed).
    unfold isUnderpaid. cbn. apply Z.ltb_ge. unfold fresher. destruct (best a) as [b|]; [|done].
    destruct (Z.ltb_spec (cumulative b) (cumulative v)); lia.
Qed.

Lemma receive_accepts_iff_witness :
  isUnderpaid (receive (newPayeeAgent toy_payee_cfg) toy_voucher 2).1 = false.
Proof.
  apply (proj1 (proj2 (proj2 (receive_accepts_iff toyEddsa toyEddsa_laws (newPayeeAgent toy_payee_cfg) toy_voucher 2)))).
  vm_compute. repeat split; discriminate.
Defined.
