(* ===== verification/X402.v ===== *)
(** The HTTP 402 gate of a paid resource (apps/api/src/x402.ts): the voucher
    header's wire form and the checks a voucher must pass.

    A header is the text of base64(JSON); [parseVoucherHeader] follows the
    JavaScript coercions ([BigInt] and [Number] of any JSON value), because a
    client controls every field.  Numbers are exact integers: a JSON literal
    with a fraction or an exponent does not parse. *)

From S2P Require Import Prelude Text Json Streams.
Local Open Scope string_scope.
Local Open Scope Z_scope.

(** ** Coercions of JSON values *)

(** [Number(v)], never throwing: text that is not an integer gives [NotInt]. *)
Definition Number_json (v : json) : number :=
  match v with
  | JNull => Int 0
  | JBool b => Int (if b then 1 else 0)
  | JNum z => Int z
  | JStr _ | JArr _ | JObj _ => match BigInt (to_primitive v) with Some z => Int z | None => NotInt end
  end.

(** ** The header *)

(** The wire object; [JSON.stringify] writes a [NaN] or infinite sequence
    number as [null]. *)
Definition wire_json (voucher : Voucher) : json := JObj
    [("channelId", JStr (toString (channelId voucher)));
     ("cumulative", JStr (toString (cumulative voucher)));
     ("seq", match seq voucher with Int z => JNum z | NotInt => JNull end);
     ("R8x", JStr (toString (R8x voucher)));
     ("R8y", JStr (toString (R8y voucher)));
     ("S", JStr (toString (sig_S voucher)));
     ("Ax", JStr (toString (Ax voucher)));
     ("Ay", JStr (toString (Ay voucher)))].

Definition serializeVoucherHeader (voucher : Voucher) : string :=
  base64_encode (stringify (wire_json voucher)).

Definition parseVoucherHeader (headerValue : option string) : option Voucher :=
  h ← headerValue;
  if bool_decide (h = "") then None
  else
    let json := base64_decode h in
    w ← JSON_parse json;
    w_channelId ← prop "channelId" w;
    w_cumulative ← prop "cumulative" w;
    w_seq ← prop "seq" w;
    w_R8x ← prop "R8x" w;
    w_R8y ← prop "R8y" w;
    w_S ← prop "S" w;
    w_Ax ← prop "Ax" w;
    w_Ay ← prop "Ay" w;
    channelId ← BigInt_json w_channelId;
    cumulative ← BigInt_json w_cumulative;
    let seq := Number_json w_seq in
    R8x ← BigInt_json w_R8x;
    R8y ← BigInt_json w_R8y;
    S ← BigInt_json w_S;
    Ax ← BigInt_json w_Ax;
    Ay ← BigInt_json w_Ay;
    Some {| channelId := channelId; cumulative := cumulative; seq := seq; R8x := R8x; R8y := R8y;
            sig_S := S; Ax := Ax; Ay := Ay |}.

(** ** The gate *)

Record ChannelInfo := {
  ch_cap : Z;
  ch_payerAx : Z;
  ch_payerAy : Z;
  consumed : bool;
  expiryBlock : Z
}.

(** The lookups are the caller's; [currentBlock] is absent when expiry is not
    enforced. *)
Record X402Config := {
  requiredCumulative : Z;
  lookupChannel : Z -> option ChannelInfo;
  currentBlock : option Z;
  paymentInstructions : list (string * json)
}.

Inductive X402Result :=
| Allowed (voucher : Voucher)
| Denied (status : Z) (body : list (string * json)).

(** [{ ...a, ...b }]: later keys overwrite earlier ones in place. *)
Definition spread (a b : list (string * json)) : list (string * json) :=
  fold_left (fun m kv => jset kv.1 kv.2 m) b a.

Definition err_body (m : string) : list (string * json) := [("error", JStr m)].

Definition checkX402 {E : Eddsa} (voucher : option Voucher) (config : X402Config) : result X402Result :=
  let instructions := paymentInstructions config in
  match voucher with
  | None =>
      Ok (Denied 402 (jset "requiredCumulative" (JStr (toString (requiredCumulative config)))
                        (spread (err_body "payment required") instructions)))
  | Some voucher =>
      match lookupChannel config (channelId voucher) with
      | None => Ok (Denied 402 (spread (err_body "channel not open") instructions))
      | Some ch =>
          if consumed ch then Ok (Denied 403 (err_body "channel already settled or reclaimed"))
          else if match currentBlock config with Some b => b >? expiryBlock ch | None => false end then
            Ok (Denied 403 (err_body "channel expired"))
          else
            let! valid := verifyVoucher voucher in
            if negb valid then Ok (Denied 403 (err_body "invalid voucher signature"))
            else if negb (Ax voucher =? ch_payerAx ch) || negb (Ay voucher =? ch_payerAy ch) then
              Ok (Denied 403 (err_body "voucher not signed by channel payer"))
            else if cumulative voucher >? ch_cap ch then
              Ok (Denied 403 (err_body "voucher exceeds channel cap"))
            else if cumulative voucher <? requiredCumulative config then
              Ok (Denied 402 (spread [("error", JStr "insufficient payment");
                                      ("requiredCumulative", JStr (toString (requiredCumulative config)));
                                      ("providedCumulative", JStr (toString (cumulative voucher)))] instructions))
            else Ok (Allowed voucher)
      end
  end.

(** ** Lemmas *)

Lemma wire_json_wf v : json_wf (wire_json v).
Proof.
  split; [|by destruct (seq v)]. cbn. by apply (bool_decide_eq_true_1 _).
Qed.

Lemma wire_props v :
  prop "channelId" (wire_json v) = Some (JStr (toString (channelId v))) /\
  prop "cumulative" (wire_json v) = Some (JStr (toString (cumulative v))) /\
  prop "seq" (wire_json v) = Some (match seq v with Int z => JNum z | NotInt => JNull end) /\
  prop "R8x" (wire_json v) = Some (JStr (toString (R8x v))) /\
  prop "R8y" (wire_json v) = Some (JStr (toString (R8y v))) /\
  prop "S" (wire_json v) = Some (JStr (toString (sig_S v))) /\
  prop "Ax" (wire_json v) = Some (JStr (toString (Ax v))) /\
  prop "Ay" (wire_json v) = Some (JStr (toString (Ay v))).
Proof. done. Qed.

Lemma serialize_nonempty v : serializeVoucherHeader v <> "".
Proof. intros H. apply (f_equal base64_decode) in H. unfold serializeVoucherHeader in H. by rewrite base64_decode_encode in H. Qed.

(** A non-integer sequence number comes back as zero. *)
Definition seq_wire (n : number) : number := match n with Int z => Int z | NotInt => Int 0 end.

Lemma parse_serialize v :
  parseVoucherHeader (Some (serializeVoucherHeader v)) =
  Some {| channelId := channelId v; cumulative := cumulative v; seq := seq_wire (seq v); R8x := R8x v; R8y := R8y v;
          sig_S := sig_S v; Ax := Ax v; Ay := Ay v |}.
Proof.
  unfold parseVoucherHeader. cbn [mbind option_bind].
  rewrite bool_decide_false by apply serialize_nonempty.
  unfold serializeVoucherHeader.
  rewrite base64_decode_encode, (JSON_parse_stringify _ (wire_json_wf v)).
  cbn [mbind option_bind]. destruct (wire_props v) as (-> & -> & -> & -> & -> & -> & -> & ->).
  cbn [mbind option_bind BigInt_json]. rewrite !BigInt_toString. cbn. by destruct (seq v).
Qed.

(** What the gate demands of a voucher. *)
Definition entitled {E : Eddsa} (config : X402Config) (v : Voucher) : Prop :=
  exists ch, lookupChannel config (channelId v) = Some ch /\ consumed ch = false /\
    (forall b, currentBlock config = Some b -> b <= expiryBlock ch) /\
    verifyVoucher v = Ok true /\ Ax v = ch_payerAx ch /\ Ay v = ch_payerAy ch /\
    requiredCumulative config <= cumulative v <= ch_cap ch.

Lemma checkX402_allows {E : Eddsa} config ov v :
  checkX402 ov config = Ok (Allowed v) <-> ov = Some v /\ entitled config v.
Proof.
  unfold checkX402, entitled. split.
  - destruct ov as [w|]; [|done]. destruct (lookupChannel config (channelId w)) as [ch|] eqn:El; [|done].
    destruct (consumed ch) eqn:Ec; [done|].
    destruct (match currentBlock config with Some b => b >? expiryBlock ch | None => false end) eqn:Eb; [done|].
    destruct (verifyVoucher w) as [[]|] eqn:Ev; cbn [rbind negb]; try done.
    destruct (Z.eqb_spec (Ax w) (ch_payerAx ch)), (Z.eqb_spec (Ay w) (ch_payerAy ch)); cbn [negb orb]; try done.
    rewrite Z.gtb_ltb. destruct (Z.ltb_spec (ch_cap ch) (cumulative w)); [done|].
    destruct (Z.ltb_spec (cumulative w) (requiredCumulative config)); [done|].
    intros [= <-]. split; [done|]. exists ch. split_and!; try done.
    intros b Hb. rewrite Hb in Eb. rewrite Z.gtb_ltb in Eb. by apply Z.ltb_ge in Eb.
  - intros (-> & ch & -> & -> & Hb & -> & -> & -> & H1 & H2). cbn [rbind negb].
    assert ((match currentBlock config with Some b => b >? expiryBlock ch | None => false end) = false) as ->.
    { destruct (currentBlock config) as [b|]; [|done]. rewrite Z.gtb_ltb. by apply Z.ltb_ge, Hb. }
    rewrite !Z.eqb_refl, Z.gtb_ltb. cbn [negb orb].
    destruct (Z.ltb_spec (ch_cap ch) (cumulative v)); [lia|].
    by destruct (Z.ltb_spec (cumulative v) (requiredCumulative config)); [lia|].
Qed.

Definition toy_config (required : Z) : X402Config :=
  {| requiredCumulative := required;
     lookupChannel := fun c => if c =? 7 then Some {| ch_cap := 100; ch_payerAx := checksum toy_seed; ch_payerAy := 1;
                                                      consumed := false; expiryBlock := 1000 |} else None;
     currentBlock := Some 999; paymentInstructions := [("rate", JStr "10")] |}.

(** ** Properties *)

(** The header round trip: a voucher whose sequence number is an integer is
    recovered exactly from its serialized header. *)
Theorem voucher_header_roundtrip (v : Voucher) (z : Z) :
  seq v = Int z -> parseVoucherHeader (Some (serializeVoucherHeader v)) = Some v.
Proof. intros Hz. rewrite parse_serialize, Hz. destruct v; cbn in *. by subst. Qed.

Lemma voucher_header_roundtrip_witness :
  parseVoucherHeader (Some (serializeVoucherHeader toy_voucher)) = Some toy_voucher.
Proof. apply (voucher_header_roundtrip toy_voucher 1). reflexivity. Defined.

(** The gate opens exactly for a voucher that names an open, unconsumed and
    unexpired channel, verifies, carries that channel's payer key, and whose
    cumulative amount is between the required amount and the channel cap. *)
Theorem checkX402_allows_iff (E : Eddsa) (config : X402Config) (ov : option Voucher) (v : Voucher) :
  checkX402 ov config = Ok (Allowed v) <-> ov = Some v /\ entitled config v.
Proof. apply checkX402_allows. Qed.

(** Paying opens the gate: the voucher a payer agent hands out, sent as a
    header over the wire, is let through by a gate on the same channel as soon
    as what was spent reaches the required amount. *)
Theorem paid_voucher_opens_gate (E : Eddsa) (L : EddsaLaws E) p u p' v config ch :
  pay p u = (p', Ok v) -> key_ok (p_key (payer_cfg p)) ->
  lookupChannel config (p_channelId (payer_cfg p)) = Some ch -> consumed ch = false ->
  (forall b, currentBlock config = Some b -> b <= expiryBlock ch) ->
  ch_payerAx ch = key_Ax (p_key (payer_cfg p)) -> ch_payerAy ch = key_Ay (p_key (payer_cfg p)) ->
  ch_cap ch = p_cap (payer_cfg p) -> requiredCumulative config <= spent p' ->
  checkX402 (parseVoucherHeader (Some (serializeVoucherHeader v))) config = Ok (Allowed v).
Proof.
  intros Hpay Hk Hl Hc Hb Hx Hy Hcap Hreq.
  apply pay_spec in Hpay as [(m & ? & _)|(w & [= <-] & _ & _ & -> & _ & _ & Hle & Hsq & Hch & Hsg)]; [done|].
  destruct (signVoucher_key _ _ _ _ _ Hsg) as [Hvx Hvy].
  apply checkX402_allows. split.
  - rewrite parse_serialize, Hsq. destruct v; cbn in *. by subst.
  - exists ch. rewrite Hch. cbn in Hreq. split_and!; try done; try congruence; by eapply verify_signed.
Qed.

Lemma paid_voucher_opens_gate_witness :
  checkX402 (parseVoucherHeader (Some (serializeVoucherHeader toy_voucher))) (toy_config 25) = Ok (Allowed toy_voucher).
Proof.
  refine (paid_voucher_opens_gate toyEddsa toyEddsa_laws toy_payer 3 (pay toy_payer 3).1 toy_voucher (toy_config 25)
    {| ch_cap := 100; ch_payerAx := checksum toy_seed; ch_payerAy := 1; consumed := false; expiryBlock := 1000 |}
    _ _ _ _ _ _ _ _ _); try (vm_compute; reflexivity).
  - vm_compute. auto.
  - intros b [= <-]. vm_compute. discriminate.
  - vm_compute. discriminate.
Defined.

(** A header whose sequence number is text that is not an integer parses as
    a voucher, and the gate then throws (instead of answering 402 or 403) on
    every open channel: [BigInt] of that number is a RangeError. *)
Theorem bad_seq_header_throws (E : Eddsa) config ch (v : Voucher) :
  seq v = NotInt -> lookupChannel config (channelId v) = Some ch -> consumed ch = false ->
  currentBlock config = None ->
  is_ok (checkX402 (Some v) config) = false.
Proof. intros Hs Hl Hc Hb. unfold checkX402. rewrite Hl, Hc, Hb. unfold verifyVoucher. by rewrite Hs. Qed.

Definition bad_seq_header : string := base64_encode (stringify (JObj
  [("channelId", JStr "7"); ("cumulative", JStr "1"); ("seq", JStr "x"); ("R8x", JStr "0"); ("R8y", JStr "0");
   ("S", JStr "0"); ("Ax", JStr "0"); ("Ay", JStr "0")])).

Lemma bad_seq_header_throws_witness :
  exists v, parseVoucherHeader (Some bad_seq_header) = Some v /\
    is_ok (checkX402 (Some v) {| requiredCumulative := 1; lookupChannel := lookupChannel (toy_config 1);
                                 currentBlock := None; paymentInstructions := [] |}) = false.
Proof.
  eexists. split; [vm_compute; reflexivity|].
  eapply (bad_seq_header_throws toyEddsa); reflexivity.
Defined.
