(* ===== verification/Receipts.v ===== *)
(** Channel receipts rebuilt from escrow events (packages/sdk/src/receipts.ts). *)

From S2P Require Import Prelude Text Json.
Local Open Scope string_scope.
Local Open Scope Z_scope.

Module Receipts.

(** ** Events and receipts *)

Record ChannelOpenedEvent := {
  o_channelId : Z; o_cap : Z; o_expiry : Z; o_changeCommitment : Z; o_txHash : string }.
Record ChannelSettledEvent := {
  s_channelId : Z; s_cumulative : Z; s_payeeCommitment : Z; s_refundCommitment : Z; s_txHash : string }.
Record ChannelReclaimedEvent := {
  r_channelId : Z; r_cap : Z; r_reclaimCommitment : Z; r_txHash : string }.

Inductive ChannelEvent :=
| Opened (e : ChannelOpenedEvent)
| Settled (e : ChannelSettledEvent)
| Reclaimed (e : ChannelReclaimedEvent).

Definition ev_channelId (e : ChannelEvent) : Z :=
  match e with Opened e => o_channelId e | Settled e => s_channelId e | Reclaimed e => r_channelId e end.

Inductive ChannelState := StOpen | StSettled | StReclaimed.
Inductive Recipient := Payee | Payer.

Record SplitEntry := { recipient : Recipient; amount : Z; commitment : Z }.

Record StreamReceipt := {
  rc_channelId : Z;
  state : ChannelState;
  cap : Z;
  gross : Z;
  split : list SplitEntry;
  openTxHash : string;
  closeTxHash : option string
}.

Definition as_opened (e : ChannelEvent) : option ChannelOpenedEvent :=
  match e with Opened o => Some o | _ => None end.
Definition as_settled (e : ChannelEvent) : option ChannelSettledEvent :=
  match e with Settled s => Some s | _ => None end.
Definition as_reclaimed (e : ChannelEvent) : option ChannelReclaimedEvent :=
  match e with Reclaimed r => Some r | _ => None end.

(** [Array.prototype.find] with a type guard. *)
Fixpoint find_as {A B} (f : A -> option B) (l : list A) : option B :=
  match l with
  | [] => None
  | e :: l => match f e with Some x => Some x | None => find_as f l end
  end.

Definition reconstructChannelReceipt (channelId : Z) (events : list ChannelEvent) : result StreamReceipt :=
  let forChannel := filter (fun e => ev_channelId e = channelId) events in
  match find_as as_opened forChannel with
  | None => Err ("no ChannelOpened event for channel " +:+ toString channelId)
  | Some opened =>
      match find_as as_settled forChannel, find_as as_reclaimed forChannel with
      | Some _, Some _ =>
          Err ("channel " +:+ toString channelId +:+ " has both settle and reclaim events — impossible (consumed once)")
      | Some settled, None =>
          let refund := o_cap opened - s_cumulative settled in
          Ok {| rc_channelId := channelId; state := StSettled; cap := o_cap opened; gross := s_cumulative settled;
                split := [{| recipient := Payee; amount := s_cumulative settled; commitment := s_payeeCommitment settled |};
                          {| recipient := Payer; amount := refund; commitment := s_refundCommitment settled |}];
                openTxHash := o_txHash opened; closeTxHash := Some (s_txHash settled) |}
      | None, Some reclaimed =>
          Ok {| rc_channelId := channelId; state := StReclaimed; cap := o_cap opened; gross := 0;
                split := [{| recipient := Payer; amount := r_cap reclaimed; commitment := r_reclaimCommitment reclaimed |}];
                openTxHash := o_txHash opened; closeTxHash := Some (r_txHash reclaimed) |}
      | None, None =>
          Ok {| rc_channelId := channelId; state := StOpen; cap := o_cap opened; gross := 0; split := [];
                openTxHash := o_txHash opened; closeTxHash := None |}
      end
  end.

Definition state_name (s : ChannelState) : string :=
  match s with StOpen => "open" | StSettled => "settled" | StReclaimed => "reclaimed" end.
Definition recipient_name (r : Recipient) : string := match r with Payee => "payee" | Payer => "payer" end.

(** A [closeTxHash] that is [undefined] is left out by [JSON.stringify]. *)
Definition receiptToJson (r : StreamReceipt) : list (string * json) :=
  [("channelId", JStr (toString (rc_channelId r)));
   ("state", JStr (state_name (state r)));
   ("cap", JStr (toString (cap r)));
   ("gross", JStr (toString (gross r)));
   ("split", JArr (map (fun s => JObj [("recipient", JStr (recipient_name (recipient s)));
                                       ("amount", JStr (toString (amount s)));
                                       ("commitment", JStr (toString (commitment s)))]) (split r)));
   ("openTxHash", JStr (openTxHash r))] ++
  match closeTxHash r with Some h => [("closeTxHash", JStr h)] | None => [] end.

(** ** Lemmas *)

Definition total (l : list SplitEntry) : Z := foldr Z.add 0 (map amount l).

Definition payee_total (l : list SplitEntry) : Z :=
  foldr (fun s acc => match recipient s with Payee => amount s + acc | Payer => acc end) 0 l.

Section find.
Context {A B : Type} (f : A -> option B).

Lemma find_as_Some l x : find_as f l = Some x -> exists e, e ∈ l /\ f e = Some x.
Proof.
  induction l as [|e l IH]; cbn; [done|]. destruct (f e) eqn:E.
  - intros [= <-]. exists e. set_solver.
  - intros H. destruct (IH H) as (e' & ? & ?). exists e'. set_solver.
Qed.

Lemma find_as_None l : find_as f l = None <-> forall e, e ∈ l -> f e = None.
Proof.
  induction l as [|e l IH]; cbn; [set_solver|]. destruct (f e) eqn:E.
  - split; [done|]. intros H. rewrite <- E. rewrite H; [done|set_solver].
  - rewrite IH. split; intros H e'; [intros [->|]%elem_of_cons; auto|intros; apply H; set_solver].
Qed.

(** With at most one matching element the position does not matter. *)
Lemma find_as_perm l l' :
  l ≡ₚ l' -> (forall e1 e2, e1 ∈ l -> e2 ∈ l -> is_Some (f e1) -> is_Some (f e2) -> f e1 = f e2) ->
  find_as f l = find_as f l'.
Proof.
  intros Hp Huniq. destruct (find_as f l) as [x|] eqn:E, (find_as f l') as [y|] eqn:E'; [| | |done].
  - apply find_as_Some in E as (e1 & H1 & F1). apply find_as_Some in E' as (e2 & H2 & F2).
    rewrite <- Hp in H2. rewrite <- F1, <- F2. apply Huniq; eauto.
  - apply find_as_Some in E as (e1 & H1 & F1). rewrite Hp in H1.
    rewrite find_as_None in E'. by rewrite E' in F1.
  - apply find_as_Some in E' as (e1 & H1 & F1). rewrite <- Hp in H1.
    rewrite find_as_None in E. by rewrite E in F1.
Qed.
End find.

(** What the escrow contract guarantees of the log of one channel: each event
    kind happens at most once and a reclaim returns the opened cap. *)
Definition consistent_log (c : Z) (events : list ChannelEvent) : Prop :=
  (forall o o', Opened o ∈ events -> Opened o' ∈ events -> o_channelId o = c -> o_channelId o' = c -> o = o') /\
  (forall s s', Settled s ∈ events -> Settled s' ∈ events -> s_channelId s = c -> s_channelId s' = c -> s = s') /\
  (forall r r', Reclaimed r ∈ events -> Reclaimed r' ∈ events -> r_channelId r = c -> r_channelId r' = c -> r = r') /\
  (forall o r, Opened o ∈ events -> Reclaimed r ∈ events -> o_channelId o = c -> r_channelId r = c -> r_cap r = o_cap o).

Lemma reconstruct_perm c ev ev' :
  ev ≡ₚ ev' -> consistent_log c ev -> reconstructChannelReceipt c ev = reconstructChannelReceipt c ev'.
Proof.
  intros Hp (HO & HS & HR & _). unfold reconstructChannelReceipt.
  set (l := filter _ ev). set (l' := filter _ ev').
  assert (l ≡ₚ l') as Hpl by (unfold l, l'; by rewrite Hp).
  assert (forall e, e ∈ l -> e ∈ ev /\ ev_channelId e = c) as Hin.
  { intros e He. apply list_elem_of_filter in He. tauto. }
  rewrite (find_as_perm as_opened l l' Hpl), (find_as_perm as_settled l l' Hpl), (find_as_perm as_reclaimed l l' Hpl);
    [done| | |]; intros [] [] [? ?]%Hin [? ?]%Hin [? Ha] [? Hb]; try done; cbn in *; f_equal; eauto.
Qed.

(** ** Properties *)

(** Conservation: in every receipt of a consistent log the recorded split
    accounts for the whole reserved cap once the channel is closed and for
    nothing while it is open, the payee's share is the gross amount, and the
    closing transaction is present exactly when the channel is closed. *)
Theorem receipt_conserves_cap (c : Z) (events : list ChannelEvent) (r : StreamReceipt) :
  consistent_log c events -> reconstructChannelReceipt c events = Ok r ->
  total (split r) = match state r with StOpen => 0 | _ => cap r end /\
  payee_total (split r) = gross r /\
  (closeTxHash r = None <-> state r = StOpen).
Proof.
  intros (_ & _ & _ & HC). unfold reconstructChannelReceipt.
  destruct (find_as as_opened _) as [o|] eqn:Eo; [|done].
  destruct (find_as as_settled _) as [s|] eqn:Es, (find_as as_reclaimed _) as [rc|] eqn:Er;
    try done; intros [= <-]; cbn; [split_and!; [lia|lia|done]| |by split_and!].
  apply find_as_Some in Eo as ([] & [Ho1 Ho2]%list_elem_of_filter & [= <-]).
  apply find_as_Some in Er as ([] & [Hr1 Hr2]%list_elem_of_filter & [= <-]).
  rewrite (HC _ _ Ho2 Hr2 Ho1 Hr1). split_and!; [lia|done|done].
Qed.

Definition ev_open : ChannelEvent := Opened {| o_channelId := 1; o_cap := 50; o_expiry := 9; o_changeCommitment := 3; o_txHash := "0xa" |}.
Definition ev_settle : ChannelEvent := Settled {| s_channelId := 1; s_cumulative := 20; s_payeeCommitment := 4; s_refundCommitment := 5; s_txHash := "0xb" |}.
Definition ev_other : ChannelEvent := Reclaimed {| r_channelId := 2; r_cap := 8; r_reclaimCommitment := 6; r_txHash := "0xc" |}.

Lemma example_log_consistent : consistent_log 1 [ev_settle; ev_other; ev_open].
Proof. unfold consistent_log, ev_open, ev_settle, ev_other. split_and!; set_solver. Qed.

Lemma receipt_conserves_cap_witness :
  exists r, reconstructChannelReceipt 1 [ev_settle; ev_other; ev_open] = Ok r /\ total (split r) = cap r.
Proof.
  eexists. split; [reflexivity|].
  exact (proj1 (receipt_conserves_cap 1 [ev_settle; ev_other; ev_open] _ example_log_consistent eq_refl)).
Defined.

(** Events may arrive in any order: permuting a consistent log, or mixing in
    other channels' events, leaves the receipt (or the error) unchanged. *)
Theorem receipt_order_independent (c : Z) (events events' others : list ChannelEvent) :
  consistent_log c events -> Forall (fun e => ev_channelId e <> c) others -> events' ≡ₚ (events ++ others)%list ->
  reconstructChannelReceipt c events' = reconstructChannelReceipt c events.
Proof.
  intros Hc Ho Hp. assert (filter (fun e => ev_channelId e = c) others = []) as Hf.
  { clear -Ho. induction Ho as [|e l He _ IH]; [done|]. by rewrite filter_cons_False. }
  assert (reconstructChannelReceipt c events = reconstructChannelReceipt c (events ++ others)%list) as ->.
  { unfold reconstructChannelReceipt. by rewrite list.filter_app, Hf, app_nil_r. }
  symmetry. apply reconstruct_perm; [by symmetry|].
  assert (forall e, e ∈ (events ++ others)%list -> ev_channelId e = c -> e ∈ events) as Hin.
  { intros e [?|He]%elem_of_app Hid; [done|]. rewrite list.Forall_forall in Ho. by destruct (Ho e He). }
  destruct Hc as (H1 & H2 & H3 & H4). unfold consistent_log.
  split_and!; intros x y Hx Hy Ex Ey; (apply Hin in Hx; [|exact Ex]); (apply Hin in Hy; [|exact Ey]); eauto.
Qed.

Lemma receipt_order_independent_witness :
  reconstructChannelReceipt 1 [ev_other; ev_settle; ev_open] = reconstructChannelReceipt 1 [ev_open; ev_settle].
Proof.
  apply (receipt_order_independent 1 [ev_open; ev_settle] _ [ev_other]).
  - unfold consistent_log, ev_open, ev_settle. split_and!; set_solver.
  - repeat constructor. vm_compute. discriminate.
  - cbn. apply (Permutation_trans (l' := [ev_settle; ev_other; ev_open])); [constructor|].
    apply (Permutation_trans (l' := [ev_settle; ev_open; ev_other])); [repeat constructor|constructor].
Defined.

End Receipts.
