(* ===== verification/StreamRelayer.v ===== *)
(** The streaming relayer's batching policy (apps/relayer/src/stream-relayer.ts):
    which pending settlements to close now, in which order, in which batches.

    The chunking loop advances by [maxBatchSize], so it is written with fuel and
    proved to end for every positive size; for a size of zero or less it never
    ends.  The chain call [arcInvoke] is a parameter. *)

From S2P Require Import Prelude.
Local Open Scope Z_scope.

Module StreamRelayer.
Section StreamRelayer.
(** [Groth16CallData] of the arc-actions package. *)
Context {Groth16CallData : Type}.

Record PendingSettlement := {
  channelId : Z;
  proof : Groth16CallData;
  publicSignals : list string;
  expiryBlock : Z;
  cumulative : Z
}.

Record BatchPolicy := {
  closeBeforeExpiryBlocks : Z;
  minValueToClose : Z;
  maxBatchSize : Z
}.

Definition is_ready (currentBlock : Z) (policy : BatchPolicy) (s : PendingSettlement) : bool :=
  (currentBlock >=? expiryBlock s - closeBeforeExpiryBlocks policy) || (cumulative s >=? minValueToClose policy).

Definition expires_before (a b : PendingSettlement) : bool := expiryBlock a <? expiryBlock b.

(** [l.slice(i, j)]: negative indices count from the end. *)
Definition js_slice {A} (i j : Z) (l : list A) : list A :=
  let n := Z.of_nat (length l) in
  let norm := fun k => if k <? 0 then Z.max 0 (n + k) else Z.min k n in
  take (Z.to_nat (norm j - norm i)) (drop (Z.to_nat (norm i)) l).

(** [for (let i = 0; i < ready.length; i += size) batches.push(ready.slice(i, i + size))];
    [None] when the fuel runs out before the loop ends. *)
Fixpoint chunk_loop {A} (fuel : nat) (i size : Z) (ready : list A) : option (list (list A)) :=
  if Z.of_nat (length ready) <=? i then Some []
  else match fuel with
       | O => None
       | S fuel => option_map (cons (js_slice i (i + size) ready)) (chunk_loop fuel (i + size) size ready)
       end.

Definition ready_sorted (pending : list PendingSettlement) (currentBlock : Z) (policy : BatchPolicy) : list PendingSettlement :=
  js_sort expires_before (filter (fun s => is_ready currentBlock policy s = true) pending).

Definition selectSettlementBatches (fuel : nat) (pending : list PendingSettlement) (currentBlock : Z) (policy : BatchPolicy)
    : option (list (list PendingSettlement)) :=
  chunk_loop fuel 0 (maxBatchSize policy) (ready_sorted pending currentBlock policy).

(** ** Submission *)

Record InvokeRequest := {
  rpcUrl : string;
  chainId : option Z;
  contractAddress : string;
  method : string;
  args : list Groth16CallData * list (list string);
  walletKey : string
}.

Definition submitSettlementBatch (arcInvoke : InvokeRequest -> result string)
    (batch : list PendingSettlement) (arcRpcUrl : string) (arcChainId : option Z)
    (escrowAddress relayerPrivateKey : string) : result (string * nat) :=
  let proofs := map proof batch in
  let pubs := map publicSignals batch in
  let! hash := arcInvoke {| rpcUrl := arcRpcUrl; chainId := arcChainId; contractAddress := escrowAddress;
                            method := "settleBatch"; args := (proofs, pubs); walletKey := relayerPrivateKey |} in
  Ok (hash, length batch).

(** ** The loop *)

Lemma js_slice_pos {A} (i : nat) (k : nat) (l : list A) :
  js_slice (Z.of_nat i) (Z.of_nat i + Z.of_nat k) l = take k (drop i l).
Proof.
  unfold js_slice. destruct (Z.ltb_spec (Z.of_nat i) 0); [lia|].
  destruct (Z.ltb_spec (Z.of_nat i + Z.of_nat k) 0); [lia|].
  destruct (decide (i <= length l)%nat).
  - rewrite (Z.min_l (Z.of_nat i)) by lia. rewrite Nat2Z.id.
    destruct (decide (i + k <= length l)%nat).
    + f_equal. lia.
    + rewrite !take_ge; [done|rewrite length_drop; lia..].
  - rewrite !drop_ge by lia. by rewrite !take_nil.
Qed.

(** The batches a size of [k] cuts [l] into. *)
Definition chunked {A} (k : nat) (l : list A) (bs : list (list A)) : Prop :=
  concat bs = l /\ Forall (fun b => (1 <= length b <= k)%nat) bs /\
  (forall pre b post, bs = pre ++ b :: post -> post <> [] -> length b = k).

Lemma chunk_loop_drop {A} fuel (i k : nat) (l : list A) :
  (0 < k)%nat -> (length l <= i + fuel * k)%nat ->
  exists bs, chunk_loop fuel (Z.of_nat i) (Z.of_nat k) l = Some bs /\ chunked k (drop i l) bs.
Proof.
  revert i. induction fuel as [|fuel IH]; intros i Hk Hf; cbn [chunk_loop];
    destruct (Z.leb_spec (Z.of_nat (length l)) (Z.of_nat i)).
  1,3: exists []; split; [done|]; rewrite drop_ge by lia; split_and!; [done|constructor|]; intros [] ? ?; done.
  { lia. }
  destruct (IH (i + k)%nat) as (bs & Hb & Hc & Hl & Hfull); [done|lia|].
  rewrite js_slice_pos, <- Nat2Z.inj_add, Hb. eexists. split; [reflexivity|].
  assert (1 <= length (take k (drop i l)) <= k)%nat as Hlen by (rewrite length_take, length_drop; lia).
  split_and!.
  - cbn. rewrite Hc, <- drop_drop. apply take_drop.
  - by constructor.
  - intros [|p pre] b post E Hp; cbn in E; injection E as <- E; [|by eapply Hfull].
    subst. destruct post as [|b2 bs]; [done|]. rewrite length_take, length_drop.
    assert (length (drop (i + k) l) = length (concat (b2 :: bs))) as HL by (by rewrite Hc).
    apply Forall_inv in Hl. rewrite length_drop in HL. cbn in HL. rewrite length_app in HL. lia.
Qed.

Lemma chunk_loop_diverges {A} fuel (i size : Z) (l : list A) :
  size <= 0 -> i < Z.of_nat (length l) -> chunk_loop fuel i size l = None.
Proof.
  revert i. induction fuel as [|fuel IH]; intros i Hs Hi; cbn [chunk_loop];
    (destruct (Z.leb_spec (Z.of_nat (length l)) i); [lia|]); [done|].
  rewrite IH by lia. done.
Qed.

Lemma expires_asym x y : expires_before x y = true -> expires_before y x = false.
Proof. unfold expires_before. lia. Qed.
Lemma expires_ntrans x y z :
  expires_before x y = false -> expires_before y z = false -> expires_before x z = false.
Proof. unfold expires_before. lia. Qed.

End StreamRelayer.

(** ** Properties *)

(** With a positive batch size the selection terminates and is right: the
    batches, concatenated, are a rearrangement of exactly the pending
    settlements that are near expiry or worth closing, soonest expiry first;
    no batch is empty or larger than the limit, and all but the last are full. *)
Theorem batches_complete {G : Type} (pending : list (@PendingSettlement G)) block policy (fuel : nat) :
  0 < maxBatchSize policy -> (length pending <= fuel)%nat ->
  exists batches, selectSettlementBatches fuel pending block policy = Some batches /\
    concat batches ≡ₚ filter (fun s => is_ready block policy s = true) pending /\
    StronglySorted (fun a b => expiryBlock a <= expiryBlock b) (concat batches) /\
    Forall (fun b => (1 <= length b <= Z.to_nat (maxBatchSize policy))%nat) batches /\
    (forall pre b post, batches = pre ++ b :: post -> post <> [] -> length b = Z.to_nat (maxBatchSize policy)).
Proof.
  intros Hpos Hf. unfold selectSettlementBatches.
  set (l := ready_sorted pending block policy).
  assert (length l <= length pending)%nat as Hlen.
  { unfold l, ready_sorted. rewrite js_sort_length. apply length_filter. }
  destruct (chunk_loop_drop fuel 0 (Z.to_nat (maxBatchSize policy)) l) as (bs & Hb & Hc & Hl & Hfull); [lia|nia|].
  rewrite Z2Nat.id in Hb by lia. exists bs. rewrite drop_0 in Hc. rewrite Hc.
  split_and!; [done|apply js_sort_perm| |done|done].
  eapply StronglySorted_weaken; [|apply js_sort_sorted; [apply expires_asym|apply expires_ntrans]].
  intros a b. unfold nlt, expires_before. apply Z.ltb_ge.
Qed.

Definition ex_pending : list (@PendingSettlement unit) :=
  [{| channelId := 1; proof := (); publicSignals := []; expiryBlock := 500; cumulative := 90 |};
   {| channelId := 2; proof := (); publicSignals := []; expiryBlock := 500; cumulative := 10 |};
   {| channelId := 3; proof := (); publicSignals := []; expiryBlock := 104; cumulative := 10 |};
   {| channelId := 4; proof := (); publicSignals := []; expiryBlock := 300; cumulative := 50 |}].
Definition ex_policy : BatchPolicy := {| closeBeforeExpiryBlocks := 5; minValueToClose := 50; maxBatchSize := 2 |}.

Lemma batches_complete_witness :
  exists batches, selectSettlementBatches 4 ex_pending 100 ex_policy = Some batches /\
    (channelId <$> concat batches) = [3; 4; 1] /\
    concat batches ≡ₚ filter (fun s => is_ready 100 ex_policy s = true) ex_pending.
Proof.
  destruct (batches_complete ex_pending 100 ex_policy 4 ltac:(reflexivity) ltac:(cbn; lia)) as (bs & Hb & Hp & _).
  exists bs. split; [exact Hb|]. split; [|exact Hp]. vm_compute in Hb. injection Hb as <-. reflexivity.
Defined.

(** A batch size of zero or less makes the selection loop forever whenever
    anything is ready to close: no amount of fuel is enough. *)
Theorem nonpositive_batch_size_diverges {G : Type} (pending : list (@PendingSettlement G)) block policy s :
  maxBatchSize policy <= 0 -> s ∈ pending -> is_ready block policy s = true ->
  forall fuel, selectSettlementBatches fuel pending block policy = None.
Proof.
  intros Hs Hin Hr fuel. apply chunk_loop_diverges; [done|].
  assert (s ∈ ready_sorted pending block policy) as Hin'.
  { apply js_sort_elem, list_elem_of_filter. done. }
  destruct (ready_sorted pending block policy); [by apply not_elem_of_nil in Hin'|cbn; lia].
Qed.

Lemma nonpositive_batch_size_diverges_witness :
  selectSettlementBatches 1000 ex_pending 100 {| closeBeforeExpiryBlocks := 5; minValueToClose := 50; maxBatchSize := 0 |} = None.
Proof.
  eapply (nonpositive_batch_size_diverges ex_pending 100 _ (hd {| channelId := 1; proof := (); publicSignals := []; expiryBlock := 500; cumulative := 90 |} ex_pending)).
  - cbn. lia.
  - cbn. apply elem_of_cons. by left.
  - reflexivity.
Defined.
End StreamRelayer.
