(* ===== verification/Merkle.v ===== *)
(** The note tree (packages/proving/src/bn254/merkle.ts, poseidon.ts) and its
    two counterparts: the inclusion check of the circuits
    (circuits/lib_bn254/merkleProof.circom) and the on-chain frontier tree
    (contracts/arc/src/IncrementalMerkleTree.sol).

    Poseidon is the parameter [poseidonHash]; nothing is assumed of it.  All
    three trees are related to one reference, [node f d i]: the hash of the
    subtree of height [d] at position [i] over the infinite leaf sequence [f]. *)

From S2P Require Import Prelude Text.
Local Open Scope string_scope.
Local Open Scope Z_scope.

(** circomlibjs' Poseidon with its result read as a bigint. *)
Class Poseidon := poseidonHash : list Z -> Z.

Definition int32 (z : Z) : Z := (z + 2 ^ 31) mod 2 ^ 32 - 2 ^ 31.
(** [1 << depth]: the shift count is taken modulo 32, the result wraps. *)
Definition shl1 (depth : Z) : Z := int32 (Z.shiftl 1 (depth mod 32)).

Lemma Ok_inj {A} (a b : A) : Ok a = Ok b -> a = b.
Proof. congruence. Qed.

Section Tree.
Context {HP : Poseidon}.

Definition hash2 (a b : Z) : Z := poseidonHash [a; b].

(** ** The off-chain tree *)

Record MerkleTree := { depth : Z; levels : list (list Z); root : Z }.

Fixpoint hash_pairs (cur : list Z) : list Z :=
  match cur with a :: b :: cur => hash2 a b :: hash_pairs cur | _ => [] end.

(** One turn of the level loop: [new Array(cur.length / 2)] throws on a fraction. *)
Definition level_up (cur : list Z) : result (list Z) :=
  if Nat.even (length cur) then Ok (hash_pairs cur) else Err "RangeError: Invalid array length".

Fixpoint build_levels (n : nat) (cur : list Z) : result (list (list Z)) :=
  match n with
  | O => Ok [cur]
  | S n => let! next := level_up cur in let! rest := build_levels n next in Ok (cur :: rest)
  end.

Definition pad (capacity : Z) (leaves : list Z) : list Z :=
  leaves ++ replicate (Z.to_nat capacity - length leaves) 0.

Definition buildMerkleTree (leaves : list Z) (depth : Z) : result MerkleTree :=
  let capacity := shl1 depth in
  throw_if Z.of_nat (length leaves) >? capacity
    with "too many leaves: " +:+ toString (Z.of_nat (length leaves)) +:+ " > capacity " +:+ toString capacity
         +:+ " (depth " +:+ toString depth +:+ ")" in
  let! levels := build_levels (Z.to_nat depth) (pad capacity leaves) in
  Ok {| depth := depth; levels := levels;
        root := default 0 (levels !! Z.to_nat depth ≫= head) |}.

(** A sibling read outside a level is [undefined]. *)
Record MerkleProof := { leafIndex : Z; siblings : list (option Z); proof_root : Z }.

Fixpoint collect_siblings (lvls : list (list Z)) (idx : Z) : list (option Z) :=
  match lvls with
  | [] => []
  | lvl :: lvls => (lvl !! Z.to_nat (Z.lxor idx 1)) :: collect_siblings lvls (Z.shiftr idx 1)
  end.

Definition getMerkleProof (tree : MerkleTree) (leafIndex : Z) : result MerkleProof :=
  let capacity := shl1 (depth tree) in
  throw_if (leafIndex <? 0) || (leafIndex >=? capacity)
    with "leafIndex " +:+ toString leafIndex +:+ " out of range [0, " +:+ toString capacity +:+ ")" in
  Ok {| leafIndex := leafIndex;
        siblings := collect_siblings (take (Z.to_nat (depth tree)) (levels tree)) leafIndex;
        proof_root := root tree |}.

(** [zeros[0..depth]]. *)
Fixpoint zeros_from (n : nat) (z : Z) : list Z :=
  match n with O => [z] | S n => z :: zeros_from n (poseidonHash [z; z]) end.
Definition computeZeros (depth : Z) : list Z := zeros_from (Z.to_nat depth) 0.

(** ** The inclusion check of the circuits: [MerkleProof(depth)] *)

Fixpoint circuit_path (leaf : Z) (index : Z) (siblings : list Z) : Z :=
  match siblings with
  | [] => leaf
  | s :: siblings =>
      circuit_path (if Z.odd index then hash2 s leaf else hash2 leaf s) (index / 2) siblings
  end.

(** ** The on-chain frontier tree

    Indices are [uint32]; the guard keeps them below [2^levels < 2^32]. *)

Record Frontier := {
  flevels : nat;
  filledSubtrees : list Z;
  fzeros : list Z;
  nextLeafIndex : nat;
  roots : list Z;        (** newest first: [roots[currentRootIndex]] is its head *)
}.

Definition SNARK_SCALAR_FIELD : Z :=
  21888242871839275222246405745257275088548364400416034343698204186575808495617.

Definition newFrontier (lv : nat) : result Frontier :=
  throw_if negb ((0 <? lv)%nat && (lv <? 32)%nat) with "bad levels" in
  let zs := zeros_from (lv - 1) 0 in
  let current := default 0 (zs !! (lv - 1)%nat) in
  Ok {| flevels := lv; filledSubtrees := zs; fzeros := zs; nextLeafIndex := 0; roots := [hash2 current current] |}.

(** The loop of [_insert] over the levels: the new frontier and the new root. *)
Fixpoint insert_loop (filled zs : list Z) (currentIndex : nat) (currentHash : Z) : list Z * Z :=
  match filled, zs with
  | fs :: filled, z :: zs =>
      if Nat.even currentIndex then
        let '(fl, r) := insert_loop filled zs (currentIndex / 2) (hash2 currentHash z) in (currentHash :: fl, r)
      else
        let '(fl, r) := insert_loop filled zs (currentIndex / 2) (hash2 fs currentHash) in (fs :: fl, r)
  | _, _ => ([], currentHash)
  end.

Definition insert (t : Frontier) (leaf : Z) : result (Frontier * nat) :=
  throw_if leaf >=? SNARK_SCALAR_FIELD with "leaf >= field" in
  let idx := nextLeafIndex t in
  throw_if Nat.eqb idx (2 ^ flevels t) with "MerkleTreeFull" in
  let '(fl, r) := insert_loop (filledSubtrees t) (fzeros t) idx leaf in
  Ok ({| flevels := flevels t; filledSubtrees := fl; fzeros := fzeros t; nextLeafIndex := idx + 1;
         roots := r :: roots t |}, idx).

Definition getRoot (t : Frontier) : Z := default 0 (head (roots t)).
Definition getLeafCount (t : Frontier) : nat := nextLeafIndex t.
(** The permanent [knownRoots] set holds every root ever stored. *)
Definition isKnownRoot (t : Frontier) (r : Z) : bool :=
  negb (r =? 0) && bool_decide (r ∈ roots t).

Fixpoint insert_all (t : Frontier) (leaves : list Z) : result Frontier :=
  match leaves with
  | [] => Ok t
  | l :: leaves => let! r := insert t l in insert_all r.1 leaves
  end.

(** ** The reference tree *)

Fixpoint node (f : nat -> Z) (d : nat) (i : nat) : Z :=
  match d with
  | O => f i
  | S d => hash2 (node f d (2 * i)) (node f d (2 * i + 1))
  end.

Definition leaf_fn (leaves : list Z) (i : nat) : Z := default 0 (leaves !! i).

(** A node only depends on the leaves below it. *)
Lemma node_ext f g d i :
  (forall j, (i * 2 ^ d <= j < (i + 1) * 2 ^ d)%nat -> f j = g j) -> node f d i = node g d i.
Proof.
  revert i. induction d as [|d IH]; intros i H; cbn [node]; [apply H; cbn; lia|].
  f_equal; apply IH; intros j Hj; apply H; rewrite Nat.pow_succ_r'; nia.
Qed.

Definition zero_node (d : nat) : Z := node (fun _ => 0) d 0.

Lemma node_const d i j : node (fun _ => 0) d i = node (fun _ => 0) d j.
Proof. revert i j. induction d as [|d IH]; intros i j; cbn [node]; [done|]. f_equal; apply IH. Qed.

Lemma node_zero f d i :
  (forall j, (i * 2 ^ d <= j < (i + 1) * 2 ^ d)%nat -> f j = 0) -> node f d i = zero_node d.
Proof. intros H. unfold zero_node. rewrite (node_const d 0 i). by apply node_ext. Qed.

Lemma zero_node_S d : zero_node (S d) = hash2 (zero_node d) (zero_node d).
Proof. unfold zero_node. cbn [node]. f_equal; apply node_const. Qed.

Lemma zeros_from_lookup n k d : (d <= n)%nat -> zeros_from n (zero_node k) !! d = Some (zero_node (k + d)).
Proof.
  revert k d. induction n as [|n IH]; intros k d Hd.
  - replace d with 0%nat by lia. cbn. f_equal. f_equal. lia.
  - destruct d as [|d]; cbn [zeros_from lookup list_lookup]; [f_equal; f_equal; lia|].
    change (poseidonHash [zero_node k; zero_node k]) with (hash2 (zero_node k) (zero_node k)).
    rewrite <- zero_node_S, IH by lia. f_equal. f_equal. lia.
Qed.

Lemma zeros_from_length n z : length (zeros_from n z) = S n.
Proof. revert z. induction n as [|n IH]; intros z; cbn; [done|]. by rewrite IH. Qed.

(** ** The off-chain tree against the reference *)

Lemma hash_pairs_seq (g : nat -> Z) k n :
  hash_pairs (g <$> seq (2 * k) (2 * n)) = (fun i => hash2 (g (2 * i)%nat) (g (2 * i + 1)%nat)) <$> seq k n.
Proof.
  revert k. induction n as [|n IH]; intros k; [done|].
  replace (2 * S n)%nat with (S (S (2 * n))) by lia. cbn [seq fmap list_fmap hash_pairs].
  f_equal; [f_equal; f_equal; lia|]. rewrite <- (IH (S k)). do 3 f_equal. lia.
Qed.

Lemma build_levels_spec f d n :
  build_levels n (node f d <$> seq 0 (2 ^ n)) =
  Ok ((fun k => node f (d + k) <$> seq 0 (2 ^ (n - k))) <$> seq 0 (S n)).
Proof.
  revert d. induction n as [|n IH]; intros d.
  { cbn. by rewrite Nat.add_0_r. }
  cbn [build_levels]. unfold level_up. rewrite length_fmap, length_seq.
  assert (Nat.even (2 ^ S n) = true) as -> by (rewrite Nat.pow_succ_r', Nat.even_mul; done).
  cbn [rbind]. rewrite Nat.pow_succ_r'.
  pose proof (hash_pairs_seq (node f d) 0 (2 ^ n)) as E. rewrite Nat.mul_0_r in E. rewrite E.
  change (fun i => hash2 (node f d (2 * i)%nat) (node f d (2 * i + 1)%nat)) with (node f (S d)).
  rewrite IH. cbn [rbind]. f_equal.
  change (seq 0 (S (S n))) with (0%nat :: seq 1 (S n)). rewrite fmap_cons, <- (fmap_S_seq 0 (S n)).
  rewrite Nat.add_0_r, Nat.sub_0_r, Nat.pow_succ_r'. f_equal.
  rewrite <- list_fmap_compose. apply list_fmap_ext. intros k x _. cbn [compose].
  by rewrite Nat.add_succ_comm.
Qed.

Lemma shl1_pow d : (d <= 30)%nat -> shl1 (Z.of_nat d) = 2 ^ Z.of_nat d.
Proof.
  intros Hd. unfold shl1, int32. rewrite (Z.mod_small (Z.of_nat d) 32), Z.shiftl_1_l by lia.
  assert (0 < 2 ^ Z.of_nat d <= 2 ^ 30) as Hp.
  { split; [apply Z.pow_pos_nonneg; lia|apply Z.pow_le_mono_r; lia]. }
  rewrite Z.mod_small; lia.
Qed.

Lemma pow_nat_Z d : Z.to_nat (2 ^ Z.of_nat d) = (2 ^ d)%nat.
Proof. rewrite <- (Nat2Z.id (2 ^ d)). f_equal. by rewrite Nat2Z.inj_pow. Qed.

Lemma pad_leaf_fn d leaves : (length leaves <= 2 ^ d)%nat ->
  pad (2 ^ Z.of_nat d) leaves = leaf_fn leaves <$> seq 0 (2 ^ d).
Proof.
  intros Hl. unfold pad. rewrite pow_nat_Z. apply list_eq. intros i.
  rewrite list_lookup_fmap. destruct (decide (i < 2 ^ d)%nat) as [Hi|Hi].
  - rewrite lookup_seq_lt by done. cbn. unfold leaf_fn.
    destruct (decide (i < length leaves)%nat) as [Hj|Hj].
    + rewrite lookup_app_l by done. destruct (leaves !! i) eqn:E; [done|]. apply lookup_ge_None in E. lia.
    + rewrite lookup_app_r by lia. rewrite (lookup_ge_None_2 leaves) by lia.
      rewrite lookup_replicate_2 by lia. done.
  - rewrite !(lookup_ge_None_2 _ i); [done| |]; rewrite ?length_seq, ?length_app, ?length_replicate; lia.
Qed.

Lemma build_tree_spec d leaves :
  (d <= 30)%nat -> (length leaves <= 2 ^ d)%nat ->
  buildMerkleTree leaves (Z.of_nat d) =
  Ok {| depth := Z.of_nat d;
        levels := (fun k => node (leaf_fn leaves) k <$> seq 0 (2 ^ (d - k))) <$> seq 0 (S d);
        root := node (leaf_fn leaves) d 0 |}.
Proof.
  intros Hd Hl. unfold buildMerkleTree. rewrite shl1_pow, Z.gtb_ltb by done.
  destruct (Z.ltb_spec (2 ^ Z.of_nat d) (Z.of_nat (length leaves))) as [Hlt|_].
  { rewrite <- (Nat2Z.id (length leaves)) in Hl. rewrite <- pow_nat_Z in Hl.
    apply Z2Nat.inj_le in Hl; [lia|lia|]. apply Z.pow_nonneg. lia. }
  rewrite pad_leaf_fn, Nat2Z.id by done.
  change (leaf_fn leaves) with (node (leaf_fn leaves) 0) at 1. rewrite build_levels_spec. cbn [rbind].
  f_equal. f_equal. rewrite list_lookup_fmap, lookup_seq_lt by lia. cbn.
  by rewrite Nat.sub_diag.
Qed.

Lemma build_tree_too_many d leaves :
  (d <= 30)%nat -> (2 ^ d < length leaves)%nat -> is_ok (buildMerkleTree leaves (Z.of_nat d)) = false.
Proof.
  intros Hd Hl. unfold buildMerkleTree. rewrite shl1_pow, Z.gtb_ltb by done.
  destruct (Z.ltb_spec (2 ^ Z.of_nat d) (Z.of_nat (length leaves))) as [|Hge]; [done|].
  apply Z2Nat.inj_le in Hge; [|lia|apply Z.pow_nonneg; lia]. rewrite pow_nat_Z, Nat2Z.id in Hge. lia.
Qed.

(** ** Inclusion proofs against the reference *)

Lemma parity (i : nat) : exists q, (i = 2 * q /\ Nat.even i = true)%nat \/ (i = 2 * q + 1 /\ Nat.even i = false)%nat.
Proof.
  exists (i / 2)%nat. pose proof (Nat.div_mod_eq i 2) as E. pose proof (Nat.mod_upper_bound i 2 ltac:(lia)).
  destruct (i mod 2)%nat as [|[|]] eqn:Em; [left|right|lia]; (split; [lia|]).
  - apply Nat.even_spec. exists (i / 2)%nat. lia.
  - rewrite <- Nat.negb_odd. apply negb_false_iff, Nat.odd_spec. exists (i / 2)%nat. lia.
Qed.

Definition sib (i : nat) : nat := if Nat.even i then (i + 1)%nat else (i - 1)%nat.

Lemma lxor_double q : Z.lxor (2 * q) 1 = 2 * q + 1.
Proof.
  symmetry. apply Z.add_nocarry_lxor. rewrite Z.land_comm. change 1 with (Z.ones 1).
  rewrite Z.land_comm, Z.land_ones by lia. change (2 ^ 1) with 2. rewrite Z.mul_comm. apply Z_mod_mult.
Qed.

Lemma lxor_sib i : Z.to_nat (Z.lxor (Z.of_nat i) 1) = sib i.
Proof.
  unfold sib. destruct (parity i) as [q [[-> ->]|[-> ->]]].
  - replace (Z.of_nat (2 * q)) with (2 * Z.of_nat q) by lia. rewrite lxor_double. lia.
  - replace (Z.of_nat (2 * q + 1)) with (2 * Z.of_nat q + 1) by lia.
    rewrite <- lxor_double, Z.lxor_assoc, Z.lxor_nilpotent, Z.lxor_0_r. lia.
Qed.

Lemma shiftr_half i : Z.shiftr (Z.of_nat i) 1 = Z.of_nat (i / 2).
Proof. rewrite Z.shiftr_div_pow2 by lia. change (2 ^ 1) with 2. by rewrite Nat2Z.inj_div. Qed.

Fixpoint path (f : nat -> Z) (k i n : nat) : list Z :=
  match n with O => [] | S n => node f k (sib i) :: path f (S k) (i / 2) n end.

Lemma half_lt i n : (i < 2 ^ S n)%nat -> (i / 2 < 2 ^ n)%nat.
Proof. intros Hi. apply Nat.Div0.div_lt_upper_bound. rewrite Nat.pow_succ_r' in Hi. lia. Qed.

Lemma sib_lt i n : (i < 2 ^ S n)%nat -> (sib i < 2 ^ S n)%nat.
Proof.
  rewrite Nat.pow_succ_r'. unfold sib. intros Hi. destruct (parity i) as [q [[-> ->]|[-> ->]]]; lia.
Qed.

Lemma collect_spec f n k i : (i < 2 ^ n)%nat ->
  collect_siblings ((fun j => node f (k + j) <$> seq 0 (2 ^ (n - j))) <$> seq 0 n) (Z.of_nat i)
  = Some <$> path f k i n.
Proof.
  revert k i. induction n as [|n IH]; intros k i Hi; [done|].
  change (seq 0 (S n)) with (0%nat :: seq 1 n). rewrite fmap_cons, <- (fmap_S_seq 0 n), <- list_fmap_compose.
  cbn [collect_siblings path]. rewrite fmap_cons, lxor_sib, shiftr_half, Nat.add_0_r, Nat.sub_0_r. f_equal.
  - rewrite list_lookup_fmap, lookup_seq_lt by (by apply sib_lt). done.
  - rewrite <- IH by (by apply half_lt). f_equal. apply list_fmap_ext. intros j x _. cbn [compose].
    by rewrite Nat.add_succ_comm.
Qed.

Lemma circuit_path_spec f n k i :
  circuit_path (node f k i) (Z.of_nat i) (path f k i n) = node f (k + n) (i / 2 ^ n).
Proof.
  revert k i. induction n as [|n IH]; intros k i; cbn [path circuit_path].
  { by rewrite Nat.add_0_r, Nat.div_1_r. }
  change 2 with (Z.of_nat 2). rewrite <- Nat2Z.inj_div.
  assert ((if Z.odd (Z.of_nat i) then hash2 (node f k (sib i)) (node f k i) else hash2 (node f k i) (node f k (sib i)))
          = node f (S k) (i / 2)) as ->.
  { unfold sib. destruct (parity i) as [q [[-> ->]|[-> ->]]].
    - replace (Z.of_nat (2 * q)) with (2 * Z.of_nat q) by lia. rewrite Z.odd_mul. cbn [Z.odd andb].
      rewrite (Nat.mul_comm 2 q), Nat.div_mul by lia. cbn [node]. do 2 f_equal; lia.
    - replace (Z.of_nat (2 * q + 1)) with (1 + 2 * Z.of_nat q) by lia. rewrite Z.odd_add_mul_2. cbn [Z.odd].
      replace ((2 * q + 1) / 2)%nat with q by (rewrite (Nat.mul_comm 2 q), Nat.div_add_l by lia; cbn; lia).
      cbn [node]. do 2 f_equal; lia. }
  rewrite IH. f_equal; [lia|]. rewrite Nat.Div0.div_div, Nat.pow_succ_r'. done.
Qed.

Lemma merkle_proof_spec d leaves i tree :
  (d <= 30)%nat -> (i < 2 ^ d)%nat -> buildMerkleTree leaves (Z.of_nat d) = Ok tree ->
  let sibs := path (leaf_fn leaves) 0 i d in
  getMerkleProof tree (Z.of_nat i) =
      Ok {| leafIndex := Z.of_nat i; siblings := Some <$> sibs; proof_root := root tree |} /\
    length sibs = d /\ circuit_path (leaf_fn leaves i) (Z.of_nat i) sibs = root tree.
Proof.
  intros Hd Hi Hb sibs. destruct (decide (length leaves <= 2 ^ d)%nat) as [Hl|Hl].
  2:{ pose proof (build_tree_too_many d leaves Hd ltac:(lia)) as E. by rewrite Hb in E. }
  rewrite build_tree_spec in Hb by done. apply Ok_inj in Hb. subst tree. unfold sibs.
  unfold getMerkleProof. cbn [depth levels root]. rewrite shl1_pow by done.
  assert (((Z.of_nat i <? 0) || (Z.of_nat i >=? 2 ^ Z.of_nat d)) = false) as ->.
  { rewrite <- (Nat2Z.id (2 ^ d)), Nat2Z.inj_pow in Hi. rewrite Z.geb_leb. apply orb_false_iff.
    split; [apply Z.ltb_ge; lia|apply Z.leb_gt; lia]. }
  split_and!.
  - f_equal. f_equal. rewrite Nat2Z.id, <- fmap_take. rewrite take_seq, Nat.min_l by lia.
    exact (collect_spec (leaf_fn leaves) d 0 i Hi).
  - clear. generalize 0%nat. revert i. induction d as [|d IH]; intros i k; cbn; [done|]. by rewrite IH.
  - pose proof (circuit_path_spec (leaf_fn leaves) d 0 i) as E. cbn [node] in E. rewrite E.
    by rewrite Nat.div_small.
Qed.

(** ** The frontier against the reference *)

(** The leaves inserted so far, read as a sequence padded with zeros. *)
Definition frontier_inv (f : nat -> Z) (k n : nat) (filled zs : list Z) : Prop :=
  length filled = length zs /\
  (forall d, (d < length zs)%nat -> zs !! d = Some (zero_node (k + d))) /\
  (forall d, (d < length filled)%nat -> Nat.even (n / 2 ^ d) = false ->
     filled !! d = Some (node f (k + d) (n / 2 ^ d - 1))).

Lemma frontier_inv_tl f k n a filled z zs :
  frontier_inv f k n (a :: filled) (z :: zs) -> frontier_inv f (S k) (n / 2) filled zs.
Proof.
  intros (H1 & H2 & H3). split_and!; [by injection H1| |].
  - intros d Hd. specialize (H2 (S d) ltac:(cbn; lia)). cbn in H2. by rewrite Nat.add_succ_comm.
  - intros d Hd He. specialize (H3 (S d) ltac:(cbn; lia)).
    rewrite Nat.Div0.div_div in He |- *. rewrite <- Nat.pow_succ_r' in He |- *.
    rewrite Nat.add_succ_comm. by apply H3.
Qed.

(** Everything to the right of node [n] of level [k] is still empty. *)
Definition empty_after (f : nat -> Z) (k n : nat) : Prop := forall j, ((n + 1) * 2 ^ k <= j)%nat -> f j = 0.

Lemma half_double q : (2 * q / 2 = q)%nat.
Proof. rewrite Nat.mul_comm. apply Nat.div_mul. lia. Qed.
Lemma half_double1 q : ((2 * q + 1) / 2 = q)%nat.
Proof. rewrite (Nat.mul_comm 2 q), Nat.div_add_l by lia. cbn. lia. Qed.

Lemma empty_after_half f k n : empty_after f k n -> empty_after f (S k) (n / 2).
Proof.
  intros Hz j Hj. apply Hz. rewrite Nat.pow_succ_r' in Hj.
  destruct (parity n) as [q [[-> _]|[-> _]]]; [rewrite half_double in Hj|rewrite half_double1 in Hj]; nia.
Qed.

(** One level of the loop moves from a node to its parent. *)
Lemma insert_loop_step f a filled z zs k n :
  frontier_inv f k n (a :: filled) (z :: zs) -> empty_after f k n ->
  insert_loop (a :: filled) (z :: zs) n (node f k n) =
  (let '(fl, r) := insert_loop filled zs (n / 2) (node f (S k) (n / 2)) in
   ((if Nat.even n then node f k n else a) :: fl, r)).
Proof.
  intros (_ & H2 & H3) Hz. specialize (H2 0%nat ltac:(cbn; lia)).
  specialize (H3 0%nat ltac:(cbn; lia)). cbn [lookup list_lookup] in H2, H3.
  rewrite Nat.add_0_r in H2, H3. injection H2 as ->. rewrite Nat.pow_0_r, Nat.div_1_r in H3.
  cbn [insert_loop]. destruct (parity n) as [q [[Hq He]|[Hq He]]]; rewrite He in *.
  - assert (hash2 (node f k n) (zero_node k) = node f (S k) (n / 2)) as ->; [|done].
    subst n. rewrite half_double. cbn [node]. f_equal.
    symmetry. apply node_zero. intros j Hj. apply Hz. nia.
  - specialize (H3 eq_refl). injection H3 as ->.
    assert (hash2 (node f k (n - 1)) (node f k n) = node f (S k) (n / 2)) as ->; [|done].
    subst n. rewrite half_double1. cbn [node]. do 2 f_equal; lia.
Qed.

(** The loop computes the root above its starting node, and leaves a frontier
    in which a level whose path index is even stores the node of the path. *)
Lemma insert_loop_spec f filled zs k n :
  frontier_inv f k n filled zs -> empty_after f k n ->
  let '(fl, r) := insert_loop filled zs n (node f k n) in
  r = node f (k + length zs) (n / 2 ^ length zs) /\ length fl = length filled /\
  forall d, (d < length filled)%nat ->
    fl !! d = if Nat.even (n / 2 ^ d) then Some (node f (k + d) (n / 2 ^ d)) else filled !! d.
Proof.
  revert zs k n. induction filled as [|a filled IH]; intros [|z zs] k n Hinv Hz;
    try (by destruct Hinv as (? & _)).
  { cbn [insert_loop length]. rewrite Nat.add_0_r, Nat.pow_0_r, Nat.div_1_r. split_and!; [done|done|lia]. }
  rewrite insert_loop_step by done.
  specialize (IH zs (S k) (n / 2)%nat (frontier_inv_tl _ _ _ _ _ _ _ Hinv) (empty_after_half _ _ _ Hz)).
  destruct (insert_loop filled zs (n / 2) _) as [fl r]. destruct IH as (-> & Hl & Hd). split_and!.
  - cbn [length]. rewrite Nat.Div0.div_div, <- Nat.pow_succ_r'. f_equal. lia.
  - cbn [length]. by rewrite Hl.
  - intros [|d] Hlt.
    + rewrite Nat.add_0_r, Nat.pow_0_r, Nat.div_1_r. cbn [lookup list_lookup]. by destruct (Nat.even n).
    + cbn [lookup list_lookup]. fold (lookup (M := list Z) d fl) (lookup (M := list Z) d filled).
      change (list_lookup d fl) with (fl !! d). change (list_lookup d filled) with (filled !! d).
      rewrite Hd by (cbn in Hlt; lia). rewrite Nat.Div0.div_div, <- Nat.pow_succ_r', <- Nat.add_succ_comm. done.
Qed.

(** A frontier that has absorbed [leaves]. *)
Definition frontier_for (lv : nat) (leaves : list Z) (t : Frontier) : Prop :=
  flevels t = lv /\ length (fzeros t) = lv /\ nextLeafIndex t = length leaves /\
  frontier_inv (leaf_fn leaves) 0 (length leaves) (filledSubtrees t) (fzeros t) /\
  getRoot t = node (leaf_fn leaves) lv 0.

Lemma leaf_fn_snoc leaves l j : j <> length leaves -> leaf_fn (leaves ++ [l]) j = leaf_fn leaves j.
Proof.
  intros Hj. unfold leaf_fn. destruct (decide (j < length leaves)%nat).
  - by rewrite lookup_app_l.
  - rewrite !lookup_ge_None_2; [done|lia|]. rewrite length_app. cbn. lia.
Qed.

Lemma leaf_fn_last leaves l : leaf_fn (leaves ++ [l]) (length leaves) = l.
Proof. unfold leaf_fn. by rewrite list_lookup_middle. Qed.

Lemma succ_div_pow n d : ((n + 1) / 2 ^ d = n / 2 ^ d \/ (n + 1) / 2 ^ d = n / 2 ^ d + 1)%nat.
Proof.
  assert (2 ^ d <> 0)%nat as Hp by (by apply Nat.pow_nonzero).
  pose proof (Nat.div_mod n (2 ^ d) Hp) as E. pose proof (Nat.mod_upper_bound n (2 ^ d) Hp).
  pose proof (Nat.div_mod (n + 1) (2 ^ d) Hp) as E'. pose proof (Nat.mod_upper_bound (n + 1) (2 ^ d) Hp).
  set (q := (n / 2 ^ d)%nat) in *. set (q' := ((n + 1) / 2 ^ d)%nat) in *. nia.
Qed.

(** The same levels with the new leaf in place. *)
Lemma frontier_inv_snoc leaves l filled zs :
  frontier_inv (leaf_fn leaves) 0 (length leaves) filled zs ->
  frontier_inv (leaf_fn (leaves ++ [l])) 0 (length leaves) filled zs.
Proof.
  intros (H1 & H2 & H3). split_and!; [done|done|]. intros d Hd He. rewrite H3 by done. f_equal.
  apply node_ext. intros j Hj. symmetry. apply leaf_fn_snoc.
  assert (2 ^ d <> 0)%nat as Hp by (by apply Nat.pow_nonzero).
  assert (length leaves / 2 ^ d <> 0)%nat by (intros E; rewrite E in He; done).
  pose proof (Nat.Div0.mul_div_le (length leaves) (2 ^ d)). cbn [Nat.add] in Hj. nia.
Qed.

Lemma insert_step lv leaves t l :
  frontier_for lv leaves t -> (length leaves < 2 ^ lv)%nat -> l < SNARK_SCALAR_FIELD ->
  exists t', insert t l = Ok (t', length leaves) /\ frontier_for lv (leaves ++ [l]) t' /\
             roots t' = node (leaf_fn (leaves ++ [l])) lv 0 :: roots t.
Proof.
  intros (Hlv & Hz & Hn & Hinv & Hroot) Hlt Hl. unfold insert. rewrite Z.geb_leb.
  destruct (Z.leb_spec SNARK_SCALAR_FIELD l); [lia|]. rewrite Hlv, Hn.
  destruct (Nat.eqb_spec (length leaves) (2 ^ lv)); [lia|].
  set (f := leaf_fn (leaves ++ [l])).
  pose proof (insert_loop_spec f (filledSubtrees t) (fzeros t) 0 (length leaves) (frontier_inv_snoc _ l _ _ Hinv)) as Hs.
  assert (node f 0 (length leaves) = l) as E0 by apply leaf_fn_last. rewrite E0 in Hs.
  destruct (insert_loop _ _ _ _) as [fl r]. destruct Hs as (-> & Hfl & Hd).
  { intros j Hj. unfold f, leaf_fn. rewrite lookup_ge_None_2; [done|]. rewrite length_app. cbn in *. lia. }
  destruct Hinv as (H1 & H2 & H3). rewrite Hz, Nat.div_small by lia.
  eexists. split; [reflexivity|]. split; [|done].
  unfold frontier_for, frontier_inv. cbn [flevels fzeros nextLeafIndex filledSubtrees].
  rewrite length_app, Hfl. cbn [length]. split_and!; try done.
  intros d Hd' He. rewrite Hd by done. destruct (succ_div_pow (length leaves) d) as [E|E]; rewrite E in *.
  - rewrite He, H3 by done. f_equal. apply node_ext. intros j Hj. symmetry. apply leaf_fn_snoc.
    pose proof (Nat.Div0.mul_div_le (length leaves) (2 ^ d)). cbn [Nat.add] in Hj.
    assert (length leaves / 2 ^ d <> 0)%nat by (intros E'; rewrite E' in He; done). nia.
  - rewrite Nat.add_1_r, Nat.even_succ, <- Nat.negb_even in He. apply negb_false_iff in He. rewrite He.
    do 2 f_equal. lia.
Qed.

Lemma newFrontier_spec lv : (0 < lv < 32)%nat -> exists t, newFrontier lv = Ok t /\ frontier_for lv [] t.
Proof.
  intros Hlv. unfold newFrontier.
  destruct (Nat.ltb_spec 0 lv), (Nat.ltb_spec lv 32); try lia. cbn [andb negb].
  assert (forall n, zeros_from n 0 = zeros_from n (zero_node 0)) as E0 by done.
  rewrite E0, zeros_from_lookup by lia. cbn [Nat.add default].
  eexists. split; [reflexivity|]. unfold frontier_for, frontier_inv.
  cbn [flevels fzeros filledSubtrees nextLeafIndex length]. rewrite zeros_from_length. split_and!; try done.
  - lia.
  - intros d Hd. by rewrite zeros_from_lookup by lia.
  - intros d Hd He. rewrite Nat.Div0.div_0_l in He. done.
  - unfold getRoot. cbn -[zero_node node]. rewrite <- zero_node_S. replace (S (lv - 1))%nat with lv by lia.
    symmetry. apply node_zero. done.
Qed.

(** Every insertion below capacity succeeds; the root is the reference root of
    the leaves in insertion order. *)
Lemma insert_all_spec lv leaves new t :
  frontier_for lv leaves t -> (length leaves + length new <= 2 ^ lv)%nat ->
  Forall (fun l => l < SNARK_SCALAR_FIELD) new ->
  exists t', insert_all t new = Ok t' /\ frontier_for lv (leaves ++ new) t'.
Proof.
  revert leaves t. induction new as [|l new IH]; intros leaves t Ht Hlen Hf.
  { exists t. by rewrite app_nil_r. }
  cbn [length] in Hlen. inversion Hf as [|? ? Hl Hf']; subst.
  destruct (insert_step lv leaves t l) as (t1 & Hi & H1 & _); [done|lia|done|].
  cbn [insert_all]. rewrite Hi. cbn [rbind fst].
  destruct (IH (leaves ++ [l])%list t1) as (t2 & E & H2); [done|rewrite length_app; cbn; lia|done|].
  exists t2. by rewrite <- app_assoc in H2.
Qed.

End Tree.

(** A stand-in hash for the examples. *)
#[global] Instance toyPoseidon : Poseidon := fun l => foldr (fun x acc => x + 31 * acc + 7) (Z.of_nat (length l)) l.

(** ** Properties *)

(** Every inclusion proof is accepted: for each index of a tree built from
    any leaves, [getMerkleProof] returns one sibling per level, all of them
    defined, and the circuits' inclusion check recomputes the tree's root from
    the leaf (or from the zero padding) and those siblings. *)
Theorem merkle_proof_verifies (HP : Poseidon) (d : nat) (leaves : list Z) (i : nat) (tree : MerkleTree) :
  (d <= 30)%nat -> (i < 2 ^ d)%nat -> buildMerkleTree leaves (Z.of_nat d) = Ok tree ->
  exists sibs, getMerkleProof tree (Z.of_nat i) =
      Ok {| leafIndex := Z.of_nat i; siblings := Some <$> sibs; proof_root := root tree |} /\
    length sibs = d /\ circuit_path (leaf_fn leaves i) (Z.of_nat i) sibs = root tree.
Proof. intros Hd Hi Hb. exists (path (leaf_fn leaves) 0 i d). by apply merkle_proof_spec. Qed.

Lemma merkle_proof_verifies_witness :
  exists tree, buildMerkleTree [11; 22; 33] 2 = Ok tree /\
    exists sibs, getMerkleProof tree 1 = Ok {| leafIndex := 1; siblings := Some <$> sibs; proof_root := root tree |} /\
      length sibs = 2%nat /\ circuit_path 22 1 sibs = root tree.
Proof.
  eexists. split; [reflexivity|].
  refine (merkle_proof_verifies toyPoseidon 2 [11; 22; 33] 1 _ _ _ _); [lia|cbn; lia|reflexivity].
Defined.

(** The on-chain frontier refines the off-chain tree: after inserting any
    leaves that fit, one by one, the contract's root is the root that
    [buildMerkleTree] computes from the full leaf list, for every depth the
    contract allows and JavaScript can shift. *)
Theorem frontier_refines_tree (HP : Poseidon) (lv : nat) (leaves : list Z) :
  (0 < lv <= 30)%nat -> (length leaves <= 2 ^ lv)%nat -> Forall (fun l => l < SNARK_SCALAR_FIELD) leaves ->
  exists t0 t tree, newFrontier lv = Ok t0 /\ insert_all t0 leaves = Ok t /\
    buildMerkleTree leaves (Z.of_nat lv) = Ok tree /\
    getRoot t = root tree /\ getLeafCount t = length leaves.
Proof.
  intros Hlv Hlen Hf. destruct (newFrontier_spec lv) as (t0 & E0 & H0); [lia|].
  destruct (insert_all_spec lv [] leaves t0 H0) as (t & E & (_ & _ & Hn & _ & Hr)); [cbn; lia|done|].
  exists t0, t. rewrite build_tree_spec by (done || lia). eexists. split_and!; try done.
Qed.

Lemma frontier_refines_tree_witness :
  exists t0 t tree, newFrontier 3 = Ok t0 /\ insert_all t0 [5; 6; 7; 8; 9] = Ok t /\
    buildMerkleTree [5; 6; 7; 8; 9] 3 = Ok tree /\ getRoot t = root tree /\ getLeafCount t = 5%nat.
Proof.
  apply (frontier_refines_tree toyPoseidon 3 [5; 6; 7; 8; 9]); [lia|cbn; lia|].
  repeat constructor.
Defined.

(** Both trees refuse the same overflow: a leaf list longer than the
    capacity makes [buildMerkleTree] throw, and a frontier already holding
    [2^levels] leaves reverts on the next insertion. *)
Theorem tree_capacity_enforced (HP : Poseidon) (lv : nat) (leaves : list Z) (l : Z) :
  (0 < lv <= 30)%nat -> length leaves = (2 ^ lv)%nat -> Forall (fun l => l < SNARK_SCALAR_FIELD) (l :: leaves) ->
  is_ok (buildMerkleTree (l :: leaves) (Z.of_nat lv)) = false /\
  exists t0 t, newFrontier lv = Ok t0 /\ insert_all t0 leaves = Ok t /\ insert t l = Err "MerkleTreeFull".
Proof.
  intros Hlv Hlen Hf. split; [apply build_tree_too_many; cbn; lia|].
  inversion Hf as [|? ? Hl Hf']; subst.
  destruct (newFrontier_spec lv) as (t0 & E0 & H0); [lia|].
  destruct (insert_all_spec lv [] leaves t0 H0) as (t & E & (Hlvl & _ & Hn & _)); [cbn; lia|done|].
  exists t0, t. split_and!; try done. unfold insert. rewrite Z.geb_leb.
  destruct (Z.leb_spec SNARK_SCALAR_FIELD l); [lia|]. rewrite Hlvl, Hn. cbn [app]. by rewrite Hlen, Nat.eqb_refl.
Qed.

Lemma tree_capacity_enforced_witness :
  is_ok (buildMerkleTree [3; 1; 2] 1) = false.
Proof.
  apply (tree_capacity_enforced toyPoseidon 1 [1; 2] 3); [lia|reflexivity|repeat constructor].
Defined.
