(* ===== verification/Circuits.v ===== *)
(** The relations proved by the BN254 circuits (circuits/*_bn254/main.circom
    with circuits/lib_bn254), over the signals of an input object.

    A signal is the decimal text of the input object reduced modulo the field,
    as snarkjs reads it; every [<==] and [===] is an equation between canonical
    field elements.  circomlib is outside the repository: its Poseidon is the
    parameter of [Merkle], its bit decomposition and comparators are the
    operations of [Circomlib] with their documented meaning as laws, its EdDSA
    verifier is the one of [Streams]. *)

From S2P Require Import Prelude Text Json Streams Merkle.
Local Open Scope string_scope.
Local Open Scope Z_scope.

Definition BN254_FIELD_MODULUS : Z :=
  21888242871839275222246405745257275088548364400416034343698204186575808495617.

Definition fmod (x : Z) : Z := x mod BN254_FIELD_MODULUS.
Definition in_field (x : Z) : Prop := 0 <= x < BN254_FIELD_MODULUS.

(** Poseidon reads its inputs modulo the field and returns a field element. *)
Class PoseidonLaws (HP : Poseidon) : Prop := {
  poseidon_fmod : forall l, poseidonHash (map fmod l) = poseidonHash l;
  poseidon_range : forall l, in_field (poseidonHash l)
}.

(** Constraint gadgets; a [bool] says whether the constraints of the template
    are satisfiable with the wanted output. *)
Class Circomlib := {
  Num2Bits : Z -> Z -> bool;
  LessThan : Z -> Z -> Z -> bool;
  LessEqThan : Z -> Z -> Z -> bool;
  GreaterEqThan : Z -> Z -> Z -> bool
}.

Class CircomlibLaws (C : Circomlib) : Prop := {
  Num2Bits_spec : forall n x, 0 < n < 254 -> in_field x -> Num2Bits n x = true <-> x < 2 ^ n;
  LessThan_spec : forall n a b, 0 < n <= 252 -> 0 <= a < 2 ^ n -> 0 <= b < 2 ^ n -> LessThan n a b = (a <? b);
  LessEqThan_spec : forall n a b, 0 < n <= 252 -> 0 <= a < 2 ^ n -> 0 <= b < 2 ^ n -> LessEqThan n a b = (a <=? b);
  GreaterEqThan_spec : forall n a b, 0 < n <= 252 -> 0 <= a < 2 ^ n -> 0 <= b < 2 ^ n -> GreaterEqThan n a b = (b <=? a)
}.

(** ** Reading signals *)

Definition input := list (string * json).

Definition field_of (v : json) : option Z :=
  match v with JStr s => option_map fmod (BigInt s) | _ => None end.

Definition sig (inp : input) (k : string) : Z := default 0 (jget k inp ≫= field_of).

Definition sigs (inp : input) (k : string) : list Z :=
  match jget k inp with Some (JArr l) => map (fun v => default 0 (field_of v)) l | _ => [] end.

(** snarkjs refuses an input that lacks a signal. *)
Definition has_signals (inp : input) (ks : list string) : bool := forallb (fun k => jhas k inp) ks.

Section Circuits.
Context {HP : Poseidon} {CL : Circomlib} {ED : Eddsa}.

(** [CommitmentHasher().commitment]. *)
Definition commitment_of (assetId value label nullifier secret : Z) : Z :=
  poseidonHash [poseidonHash [assetId; value; label]; poseidonHash [nullifier; secret]].

(** [MerkleProof(depth).out === root]. *)
Definition member_of (depth : nat) (leaf index : Z) (siblings : list Z) (root : Z) : bool :=
  Nat.eqb (length siblings) depth && Num2Bits (Z.of_nat depth) index && (circuit_path leaf index siblings =? root).

Definition PrivateTransfer (i : input) : bool :=
  has_signals i ["outputCommitment"; "feePublic"; "stateRoot"; "associationRoot"; "poolId"; "chainId";
                 "inputAssetId"; "outputAssetId"; "inValue"; "inLabel"; "inNullifier"; "inSecret";
                 "stateSiblings"; "stateIndex"; "labelIndex"; "labelSiblings"; "outValue"; "outLabel";
                 "outNullifier"; "outSecret"] &&
  (sig i "inputAssetId" =? sig i "outputAssetId") &&
  member_of 12 (commitment_of (sig i "inputAssetId") (sig i "inValue") (sig i "inLabel") (sig i "inNullifier") (sig i "inSecret"))
            (sig i "stateIndex") (sigs i "stateSiblings") (sig i "stateRoot") &&
  (sig i "outputCommitment" =?
     commitment_of (sig i "outputAssetId") (sig i "outValue") (sig i "outLabel") (sig i "outNullifier") (sig i "outSecret")) &&
  (sig i "inValue" =? fmod (sig i "outValue" + sig i "feePublic")) &&
  Num2Bits 128 (sig i "outValue") && Num2Bits 128 (sig i "feePublic") &&
  member_of 2 (sig i "inLabel") (sig i "labelIndex") (sigs i "labelSiblings") (sig i "associationRoot").

Definition Withdraw (i : input) : bool :=
  has_signals i ["operationType"; "withdrawnValue"; "recipientHash"; "relayerFee"; "deadlineLedger"; "stateRoot";
                 "associationRoot"; "poolId"; "chainId"; "quoteHash"; "intentHash"; "fillReceiptHash";
                 "destinationDomain"; "destinationRecipient"; "maxFee"; "minFinalityThreshold"; "assetId"; "label";
                 "value"; "nullifier"; "secret"; "stateSiblings"; "stateIndex"; "labelIndex"; "labelSiblings"] &&
  member_of 12 (commitment_of (sig i "assetId") (sig i "value") (sig i "label") (sig i "nullifier") (sig i "secret"))
            (sig i "stateIndex") (sigs i "stateSiblings") (sig i "stateRoot") &&
  member_of 2 (sig i "label") (sig i "labelIndex") (sigs i "labelSiblings") (sig i "associationRoot") &&
  Num2Bits 128 (fmod (sig i "value" - sig i "withdrawnValue")) && Num2Bits 128 (sig i "withdrawnValue") &&
  Num2Bits 128 (fmod (sig i "withdrawnValue" - sig i "relayerFee")) && Num2Bits 128 (sig i "relayerFee").

Definition DepositNoteMint (i : input) : bool :=
  has_signals i ["operationType"; "sourceDomain"; "destinationDomain"; "cctpNonceHash"; "burnTxHashHash"; "amount6dp";
                 "amount7dp"; "assetIdHash"; "recipientPool"; "encryptedNotePayloadHash"; "policyIdHash"; "poolId";
                 "chainId"; "value"; "label"; "nullifier"; "secret"] &&
  Num2Bits 128 (fmod (sig i "amount7dp" - sig i "value")) && Num2Bits 128 (sig i "value").

(** The public output of the deposit circuit. *)
Definition DepositNoteMint_commitment (i : input) : Z :=
  commitment_of (sig i "assetIdHash") (sig i "value") (sig i "label") (sig i "nullifier") (sig i "secret").

Definition StreamOpen (i : input) : bool :=
  has_signals i ["changeCommitment"; "reclaimCommitment"; "stateRoot"; "associationRoot"; "poolId"; "chainId"; "channelId";
                 "payerAx"; "payerAy"; "cap"; "expiry"; "assetId"; "inValue"; "inLabel"; "inNullifier"; "inSecret";
                 "stateSiblings"; "stateIndex"; "labelIndex"; "labelSiblings"; "changeLabel"; "changeNullifier";
                 "changeSecret"; "reclaimLabel"; "reclaimNullifier"; "reclaimSecret"] &&
  member_of 12 (commitment_of (sig i "assetId") (sig i "inValue") (sig i "inLabel") (sig i "inNullifier") (sig i "inSecret"))
            (sig i "stateIndex") (sigs i "stateSiblings") (sig i "stateRoot") &&
  member_of 2 (sig i "inLabel") (sig i "labelIndex") (sigs i "labelSiblings") (sig i "associationRoot") &&
  Num2Bits 128 (fmod (sig i "inValue" - sig i "cap")) && Num2Bits 128 (sig i "cap") &&
  (sig i "changeCommitment" =? commitment_of (sig i "assetId") (fmod (sig i "inValue" - sig i "cap"))
     (sig i "changeLabel") (sig i "changeNullifier") (sig i "changeSecret")) &&
  (sig i "reclaimCommitment" =? commitment_of (sig i "assetId") (sig i "cap")
     (sig i "reclaimLabel") (sig i "reclaimNullifier") (sig i "reclaimSecret")).

Definition StreamSettle (i : input) : bool :=
  has_signals i ["associationRoot"; "poolId"; "chainId"; "channelId"; "payerAx"; "payerAy"; "cap"; "cumulative"; "assetId";
                 "seq"; "R8x"; "R8y"; "S"; "payeeLabel"; "payeeNullifier"; "payeeSecret"; "refundLabel";
                 "refundNullifier"; "refundSecret"] &&
  verifyPoseidon (poseidon [sig i "channelId"; sig i "cumulative"; sig i "seq"])
    ((F_e (sig i "R8x"), F_e (sig i "R8y")), sig i "S") (F_e (sig i "payerAx"), F_e (sig i "payerAy")) &&
  Num2Bits 128 (fmod (sig i "cap" - sig i "cumulative")) && Num2Bits 128 (sig i "cumulative").

Definition StreamSettle_outputs (i : input) : Z * Z :=
  (commitment_of (sig i "assetId") (sig i "cumulative") (sig i "payeeLabel") (sig i "payeeNullifier") (sig i "payeeSecret"),
   commitment_of (sig i "assetId") (fmod (sig i "cap" - sig i "cumulative"))
     (sig i "refundLabel") (sig i "refundNullifier") (sig i "refundSecret")).

Definition MpcSettlement (i : input) : bool :=
  has_signals i ["stateRoot"; "associationRoot"; "batchHash"; "poolId"; "chainId"; "matchedAmount7dp"; "deadlineLedger";
                 "assetId"; "labelA"; "valueA"; "nullifierA"; "secretA"; "stateIndexA"; "stateSiblingsA"; "labelIndexA";
                 "labelSiblingsA"; "outValueA"; "outLabelA"; "outNullifierA"; "outSecretA"; "labelB"; "valueB";
                 "nullifierB"; "secretB"; "stateIndexB"; "stateSiblingsB"; "labelIndexB"; "labelSiblingsB"; "outValueB";
                 "outLabelB"; "outNullifierB"; "outSecretB"] &&
  member_of 12 (commitment_of (sig i "assetId") (sig i "valueA") (sig i "labelA") (sig i "nullifierA") (sig i "secretA"))
            (sig i "stateIndexA") (sigs i "stateSiblingsA") (sig i "stateRoot") &&
  member_of 12 (commitment_of (sig i "assetId") (sig i "valueB") (sig i "labelB") (sig i "nullifierB") (sig i "secretB"))
            (sig i "stateIndexB") (sigs i "stateSiblingsB") (sig i "stateRoot") &&
  member_of 2 (sig i "labelA") (sig i "labelIndexA") (sigs i "labelSiblingsA") (sig i "associationRoot") &&
  member_of 2 (sig i "labelB") (sig i "labelIndexB") (sigs i "labelSiblingsB") (sig i "associationRoot") &&
  Num2Bits 128 (fmod (sig i "valueA" - sig i "matchedAmount7dp")) &&
  Num2Bits 128 (fmod (sig i "valueB" - sig i "matchedAmount7dp")) &&
  (fmod (sig i "outValueA" + sig i "outValueB") =? fmod (sig i "matchedAmount7dp" * 2)).

(** The public output commitments of the settlement circuit. *)
Definition MpcSettlement_outputs (i : input) : Z * Z :=
  (commitment_of (sig i "assetId") (sig i "outValueA") (sig i "outLabelA") (sig i "outNullifierA") (sig i "outSecretA"),
   commitment_of (sig i "assetId") (sig i "outValueB") (sig i "outLabelB") (sig i "outNullifierB") (sig i "outSecretB")).

Definition MpcPricedSettlement (i : input) : bool :=
  has_signals i ["stateRoot"; "associationRoot"; "batchHash"; "poolId"; "chainId"; "deadlineLedger"; "inputAssetA";
                 "outputAssetA"; "inputAssetB"; "outputAssetB"; "matchedAmountA"; "matchedAmountB"; "priceScaled";
                 "priceScale"; "minOutputA"; "minOutputB"; "labelA"; "nullifierA"; "secretA"; "stateIndexA";
                 "stateSiblingsA"; "labelIndexA"; "labelSiblingsA"; "labelB"; "nullifierB"; "secretB"; "stateIndexB";
                 "stateSiblingsB"; "labelIndexB"; "labelSiblingsB"; "outLabelA"; "outNullifierA"; "outSecretA";
                 "outLabelB"; "outNullifierB"; "outSecretB"] &&
  (sig i "outputAssetA" =? sig i "inputAssetB") && (sig i "outputAssetB" =? sig i "inputAssetA") &&
  negb (sig i "inputAssetA" =? sig i "inputAssetB") && (sig i "priceScale" =? 1000000000) &&
  member_of 12 (commitment_of (sig i "inputAssetA") (sig i "matchedAmountA") (sig i "labelA") (sig i "nullifierA") (sig i "secretA"))
            (sig i "stateIndexA") (sigs i "stateSiblingsA") (sig i "stateRoot") &&
  member_of 12 (commitment_of (sig i "inputAssetB") (sig i "matchedAmountB") (sig i "labelB") (sig i "nullifierB") (sig i "secretB"))
            (sig i "stateIndexB") (sigs i "stateSiblingsB") (sig i "stateRoot") &&
  member_of 2 (sig i "labelA") (sig i "labelIndexA") (sigs i "labelSiblingsA") (sig i "associationRoot") &&
  member_of 2 (sig i "labelB") (sig i "labelIndexB") (sigs i "labelSiblingsB") (sig i "associationRoot") &&
  (let prod := fmod (sig i "matchedAmountA" * sig i "priceScaled") in
   let scaled := fmod (sig i "matchedAmountB" * sig i "priceScale") in
   LessEqThan 128 scaled prod && LessThan 64 (fmod (prod - scaled)) (sig i "priceScale")) &&
  GreaterEqThan 64 (sig i "matchedAmountB") (sig i "minOutputA") &&
  GreaterEqThan 64 (sig i "matchedAmountA") (sig i "minOutputB").

End Circuits.

(** ** Lemmas *)

Lemma fmod_range x : in_field (fmod x).
Proof. apply Z.mod_pos_bound. done. Qed.
Lemma fmod_id x : in_field x -> fmod x = x.
Proof. apply Z.mod_small. Qed.
Lemma fmod_fmod x : fmod (fmod x) = fmod x.
Proof. apply fmod_id, fmod_range. Qed.
#[export] Hint Resolve fmod_range : shade.

Lemma sig_range i k : in_field (sig i k).
Proof.
  unfold sig. destruct (jget k i) as [v|]; [|done]. cbn. destruct v; try done.
  cbn. destruct (BigInt s); cbn; [apply fmod_range|done].
Qed.
#[export] Hint Resolve sig_range : shade.

Lemma sig_str i k z : jget k i = Some (JStr (toString z)) -> sig i k = fmod z.
Proof. unfold sig. intros ->. cbn. by rewrite BigInt_toString. Qed.

Lemma sigs_strs i k l : jget k i = Some (JArr (map (fun z => JStr (toString z)) l)) -> sigs i k = map fmod l.
Proof.
  unfold sigs. intros ->. rewrite map_map. apply map_ext. intros z. cbn. by rewrite BigInt_toString.
Qed.

(** Sums and differences of 128-bit values do not wrap. *)
Lemma small_128 : 2 ^ 130 < BN254_FIELD_MODULUS.
Proof. done. Qed.

Lemma fmod_sub_small a b :
  in_field a -> 0 <= b < 2 ^ 128 -> fmod (a - b) < 2 ^ 128 -> b <= a /\ fmod (a - b) = a - b.
Proof.
  intros Ha Hb Hr. pose proof small_128. unfold fmod, in_field in *.
  destruct (Z.le_gt_cases b a) as [Hle|Hgt].
  - split; [done|]. apply Z.mod_small. lia.
  - exfalso. assert ((a - b) mod BN254_FIELD_MODULUS = a - b + BN254_FIELD_MODULUS) as E.
    { rewrite <- (Z.mod_add _ 1) by done. rewrite Z.mod_small; lia. }
    rewrite E in Hr. lia.
Qed.
