(* ===== verification/Coin.v ===== *)
(** Shielded notes and the proof builders
    (packages/proving/src/bn254/poseidon.ts, coin.ts, prove.ts, stream.ts).

    Each builder is its guards, its Merkle proofs and the input object it hands
    to the prover.  Random bytes are arguments, in the order the code draws
    them; snarkjs and the compiled circuits are the class [Snarkjs]. *)

From S2P Require Import Prelude Text Json Streams Merkle Circuits.
Local Open Scope string_scope.
Local Open Scope Z_scope.

(** ** Notes *)

Record CommitmentParts := { cp_commitment : Z; cp_nullifierHash : Z; precommitment : Z; assetValueLabel : Z }.

Record Bn254Coin := {
  value : Z; assetId : Z; label : Z; nullifier : Z; secret : Z; commitment : Z; nullifierHash : Z }.

(** [BigInt("0x" + bytes.toString("hex")) % BN254_FIELD_MODULUS] of 31 random bytes. *)
Definition randomFieldElement (random : string) : Z :=
  default 0 (BigInt ("0x" +:+ hex_encode random)) mod BN254_FIELD_MODULUS.

Definition TREE_DEPTH : Z := 12.
Definition ASSOCIATION_DEPTH : Z := 2.

(** [l[i]] on an array. *)
Definition js_at (l : list Z) (i : Z) : option Z := if i <? 0 then None else l !! Z.to_nat i.

Definition differs (o : option Z) (z : Z) : bool := negb (bool_decide (o = Some z)).

(** [siblings.map(String)]. *)
Definition String_map (l : list (option Z)) : json :=
  JArr (map (fun o => JStr (match o with Some z => toString z | None => "undefined" end)) l).

Definition dec (z : Z) : json := JStr (toString z).

(** ** The prover *)

Record Groth16CallData := { ga : string * string; gb : (string * string) * (string * string); gc : string * string }.
Record Bn254ProofResult := { proof : Groth16CallData; publicSignals : list string; verified : bool }.

Class Snarkjs := {
  GProof : Type;
  circuit_built : string -> bool;
  fullProve : string -> input -> result (GProof * list string);
  groth16_verify : string -> list string -> GProof -> bool;
  exportSolidityCallData : GProof -> list string -> string
}.

Definition elem_at (v : json) (i : nat) : result json :=
  match v with
  | JArr l => match l !! i with Some x => Ok x | None => Err "TypeError: undefined element" end
  | _ => Err "TypeError: not an array"
  end.

Definition str_of (v : json) : result string :=
  match v with JStr s => Ok s | _ => Err "TypeError: not a string" end.

Definition str_at (v : json) (i : nat) : result string := let! x := elem_at v i in str_of x.

Definition pair_at (v : json) : result (string * string) :=
  let! x := str_at v 0 in let! y := str_at v 1 in Ok (x, y).

Fixpoint strs_of (l : list json) : result (list string) :=
  match l with [] => Ok [] | v :: l => let! s := str_of v in let! r := strs_of l in Ok (s :: r) end.

Definition proveBn254Circuit {SN : Snarkjs} (circuitName : string) (inp : input) : result Bn254ProofResult :=
  throw_if negb (circuit_built circuitName)
    with "circuit " +:+ circuitName +:+ " not built — run: npm run circuits:build:arc" in
  let! r := fullProve circuitName inp in
  let '(proof, publicSignals) := r in
  let verified := groth16_verify circuitName publicSignals proof in
  let calldata := exportSolidityCallData proof publicSignals in
  match JSON_parse ("[" +:+ calldata +:+ "]") with
  | None => Err "SyntaxError: calldata is not JSON"
  | Some v =>
      let! a := elem_at v 0 in let! b := elem_at v 1 in let! c := elem_at v 2 in let! pub := elem_at v 3 in
      let! b0 := elem_at b 0 in let! b1 := elem_at b 1 in
      let! a' := pair_at a in let! b0' := pair_at b0 in let! b1' := pair_at b1 in let! c' := pair_at c in
      let! pub' := match pub with JArr l => strs_of l | _ => Err "TypeError: not an array" end in
      Ok {| proof := {| ga := a'; gb := (b0', b1'); gc := c' |}; publicSignals := pub'; verified := verified |}
  end.

Section Builders.
Context {HP : Poseidon}.

Definition commitmentHasher (assetId value label nullifier secret : Z) : CommitmentParts :=
  let precommitment := poseidonHash [nullifier; secret] in
  let assetValueLabel := poseidonHash [assetId; value; label] in
  let commitment := poseidonHash [assetValueLabel; precommitment] in
  let nullifierHash := poseidonHash [nullifier] in
  {| cp_commitment := commitment; cp_nullifierHash := nullifierHash; precommitment := precommitment;
     assetValueLabel := assetValueLabel |}.

Definition domainNullifierHash (nullifier poolId chainId : Z) : Z := poseidonHash [nullifier; poolId; chainId].

(** The three draws of random bytes a coin uses (the last one only without a
    given label). *)
Record CoinRandom := { rnd_nullifier : string; rnd_secret : string; rnd_label : string }.

Definition generateCoinBn254 (v asset : Z) (lbl : option Z) (rnd : CoinRandom) : Bn254Coin :=
  let nullifier := randomFieldElement (rnd_nullifier rnd) in
  let secret := randomFieldElement (rnd_secret rnd) in
  let lbl := match lbl with Some l => l | None => randomFieldElement (rnd_label rnd) end in
  let parts := commitmentHasher asset v lbl nullifier secret in
  {| value := v; assetId := asset; label := lbl; nullifier := nullifier; secret := secret;
     commitment := cp_commitment parts; nullifierHash := cp_nullifierHash parts |}.

(** A leaf's Merkle proof in the tree of the given leaves. *)
Definition prove_leaf (leaves : list Z) (d : Z) (i : Z) : result (Z * list (option Z)) :=
  let! tree := buildMerkleTree leaves d in
  let! pf := getMerkleProof tree i in
  Ok (root tree, siblings pf).

(** ** Transfers *)

Record TransferInputBn254 := {
  t_inCoin : Bn254Coin; t_outCoin : Bn254Coin; t_stateLeaves : list Z; t_stateIndex : Z;
  t_assocLabels : list Z; t_labelIndex : Z; t_feePublic : Z; t_poolId : Z; t_chainId : Z }.

Definition transfer_signals (p : TransferInputBn254) (st assoc : Z * list (option Z)) : input :=
  [("outputCommitment", dec (commitment (t_outCoin p))); ("feePublic", dec (t_feePublic p));
   ("stateRoot", dec st.1); ("associationRoot", dec assoc.1);
   ("poolId", dec (t_poolId p)); ("chainId", dec (t_chainId p));
   ("inputAssetId", dec (assetId (t_inCoin p))); ("outputAssetId", dec (assetId (t_outCoin p)));
   ("inValue", dec (value (t_inCoin p))); ("inLabel", dec (label (t_inCoin p)));
   ("inNullifier", dec (nullifier (t_inCoin p))); ("inSecret", dec (secret (t_inCoin p)));
   ("stateSiblings", String_map st.2); ("stateIndex", dec (t_stateIndex p));
   ("labelIndex", dec (t_labelIndex p)); ("labelSiblings", String_map assoc.2);
   ("outValue", dec (value (t_outCoin p))); ("outLabel", dec (label (t_outCoin p)));
   ("outNullifier", dec (nullifier (t_outCoin p))); ("outSecret", dec (secret (t_outCoin p)))].

(** Everything [buildTransferProofBn254] does before it calls the prover. *)
Definition transfer_input (p : TransferInputBn254) : result input :=
  throw_if differs (js_at (t_stateLeaves p) (t_stateIndex p)) (commitment (t_inCoin p))
    with "stateLeaves[stateIndex] must equal inCoin.commitment" in
  throw_if differs (js_at (t_assocLabels p) (t_labelIndex p)) (label (t_inCoin p))
    with "assocLabels[labelIndex] must equal inCoin.label" in
  throw_if negb (assetId (t_outCoin p) =? assetId (t_inCoin p))
    with "same-asset transfer requires outCoin.assetId === inCoin.assetId" in
  throw_if negb (value (t_outCoin p) =? value (t_inCoin p) - t_feePublic p)
    with "value conservation violated: outCoin.value must equal inCoin.value - feePublic" in
  let! st := prove_leaf (t_stateLeaves p) TREE_DEPTH (t_stateIndex p) in
  let! assoc := prove_leaf (t_assocLabels p) ASSOCIATION_DEPTH (t_labelIndex p) in
  Ok (transfer_signals p st assoc).

Definition buildTransferProofBn254 {SN : Snarkjs} (p : TransferInputBn254) : result Bn254ProofResult :=
  let! i := transfer_input p in proveBn254Circuit "private_transfer_bn254" i.

(** ** Withdrawals, CCTP exits and RFQ settlements *)

Definition OP_WITHDRAW_PUBLIC : Z := 1.
Definition OP_WITHDRAW_CCTP : Z := 2.
Definition OP_RFQ_SETTLEMENT : Z := 3.

Record WithdrawBindingBn254 := {
  operationType : Z; recipientHash : Z; relayerFee : Z; deadlineLedger : Z;
  quoteHash : option Z; intentHash : option Z; fillReceiptHash : option Z; destinationDomain : option Z;
  destinationRecipient : option Z; maxFee : option Z; minFinalityThreshold : option Z }.

Record WithdrawInputBn254 := {
  w_coin : Bn254Coin; withdrawnValue : Z; w_stateLeaves : list Z; w_stateIndex : Z; w_assocLabels : list Z;
  w_labelIndex : Z; w_poolId : Z; w_chainId : Z; binding : WithdrawBindingBn254 }.

Definition withdraw_signals (p : WithdrawInputBn254) (st assoc : Z * list (option Z)) : input :=
  let b := binding p in
  [("operationType", dec (operationType b)); ("withdrawnValue", dec (withdrawnValue p));
   ("recipientHash", dec (recipientHash b)); ("relayerFee", dec (relayerFee b));
   ("deadlineLedger", dec (deadlineLedger b)); ("stateRoot", dec st.1); ("associationRoot", dec assoc.1);
   ("poolId", dec (w_poolId p)); ("chainId", dec (w_chainId p));
   ("quoteHash", dec (default 0 (quoteHash b))); ("intentHash", dec (default 0 (intentHash b)));
   ("fillReceiptHash", dec (default 0 (fillReceiptHash b)));
   ("destinationDomain", dec (default 0 (destinationDomain b)));
   ("destinationRecipient", dec (default 0 (destinationRecipient b)));
   ("maxFee", dec (default 0 (maxFee b))); ("minFinalityThreshold", dec (default 0 (minFinalityThreshold b)));
   ("assetId", dec (assetId (w_coin p))); ("label", dec (label (w_coin p))); ("value", dec (value (w_coin p)));
   ("nullifier", dec (nullifier (w_coin p))); ("secret", dec (secret (w_coin p)));
   ("stateSiblings", String_map st.2); ("stateIndex", dec (w_stateIndex p));
   ("labelIndex", dec (w_labelIndex p)); ("labelSiblings", String_map assoc.2)].

Definition withdraw_input (p : WithdrawInputBn254) : result input :=
  throw_if differs (js_at (w_stateLeaves p) (w_stateIndex p)) (commitment (w_coin p))
    with "stateLeaves[stateIndex] must equal coin.commitment" in
  throw_if differs (js_at (w_assocLabels p) (w_labelIndex p)) (label (w_coin p))
    with "assocLabels[labelIndex] must equal coin.label" in
  throw_if withdrawnValue p >? value (w_coin p) with "withdrawnValue exceeds note value" in
  let! st := prove_leaf (w_stateLeaves p) TREE_DEPTH (w_stateIndex p) in
  let! assoc := prove_leaf (w_assocLabels p) ASSOCIATION_DEPTH (w_labelIndex p) in
  Ok (withdraw_signals p st assoc).

Definition buildWithdrawProofBn254 {SN : Snarkjs} (p : WithdrawInputBn254) : result Bn254ProofResult :=
  let! i := withdraw_input p in proveBn254Circuit "withdraw_public_bn254" i.

(** ** Deposits *)

Record DepositBindingBn254 := {
  d_sourceDomain : Z; d_destinationDomain : Z; d_cctpNonceHash : Z; d_burnTxHashHash : Z; d_amount6dp : Z;
  d_amount7dp : Z; d_assetIdHash : Z; d_recipientPool : Z; d_encryptedNotePayloadHash : Z; d_policyIdHash : Z;
  d_poolId : Z; d_chainId : Z }.

Definition deposit_input (coin : Bn254Coin) (b : DepositBindingBn254) : result input :=
  throw_if value coin >? d_amount7dp b
    with "note value exceeds minted amount7dp (anti-inflation check would fail in-circuit)" in
  throw_if negb (assetId coin =? d_assetIdHash b)
    with "coin.assetId must equal binding.assetIdHash (the circuit binds assetIdHash into the commitment, not a separate private assetId)" in
  Ok [("operationType", JStr "4"); ("sourceDomain", dec (d_sourceDomain b));
      ("destinationDomain", dec (d_destinationDomain b)); ("cctpNonceHash", dec (d_cctpNonceHash b));
      ("burnTxHashHash", dec (d_burnTxHashHash b)); ("amount6dp", dec (d_amount6dp b));
      ("amount7dp", dec (d_amount7dp b)); ("assetIdHash", dec (d_assetIdHash b));
      ("recipientPool", dec (d_recipientPool b)); ("encryptedNotePayloadHash", dec (d_encryptedNotePayloadHash b));
      ("policyIdHash", dec (d_policyIdHash b)); ("poolId", dec (d_poolId b)); ("chainId", dec (d_chainId b));
      ("value", dec (value coin)); ("label", dec (label coin)); ("nullifier", dec (nullifier coin));
      ("secret", dec (secret coin))].

Definition buildDepositProofBn254 {SN : Snarkjs} (coin : Bn254Coin) (b : DepositBindingBn254) : result Bn254ProofResult :=
  let! i := deposit_input coin b in proveBn254Circuit "deposit_note_mint_bn254" i.

(** ** Same-asset committee matches *)

Record MpcSettlementInputBn254 := {
  m_coinA : Bn254Coin; m_coinB : Bn254Coin; m_outCoinA : Bn254Coin; m_outCoinB : Bn254Coin;
  m_stateLeaves : list Z; m_stateIndexA : Z; m_stateIndexB : Z; m_assocLabels : list Z; m_labelIndexA : Z;
  m_labelIndexB : Z; m_matchedAmount7dp : Z; m_batchHash : Z; m_poolId : Z; m_chainId : Z; m_deadlineLedger : Z }.

Definition mpc_signals (p : MpcSettlementInputBn254) (stA stB asA asB : Z * list (option Z)) : input :=
  [("stateRoot", dec stA.1); ("associationRoot", dec asA.1); ("batchHash", dec (m_batchHash p));
   ("poolId", dec (m_poolId p)); ("chainId", dec (m_chainId p));
   ("matchedAmount7dp", dec (m_matchedAmount7dp p)); ("deadlineLedger", dec (m_deadlineLedger p));
   ("assetId", dec (assetId (m_coinA p)));
   ("labelA", dec (label (m_coinA p))); ("valueA", dec (value (m_coinA p)));
   ("nullifierA", dec (nullifier (m_coinA p))); ("secretA", dec (secret (m_coinA p)));
   ("stateIndexA", dec (m_stateIndexA p)); ("stateSiblingsA", String_map stA.2);
   ("labelIndexA", dec (m_labelIndexA p)); ("labelSiblingsA", String_map asA.2);
   ("outValueA", dec (value (m_outCoinA p))); ("outLabelA", dec (label (m_outCoinA p)));
   ("outNullifierA", dec (nullifier (m_outCoinA p))); ("outSecretA", dec (secret (m_outCoinA p)));
   ("labelB", dec (label (m_coinB p))); ("valueB", dec (value (m_coinB p)));
   ("nullifierB", dec (nullifier (m_coinB p))); ("secretB", dec (secret (m_coinB p)));
   ("stateIndexB", dec (m_stateIndexB p)); ("stateSiblingsB", String_map stB.2);
   ("labelIndexB", dec (m_labelIndexB p)); ("labelSiblingsB", String_map asB.2);
   ("outValueB", dec (value (m_outCoinB p))); ("outLabelB", dec (label (m_outCoinB p)));
   ("outNullifierB", dec (nullifier (m_outCoinB p))); ("outSecretB", dec (secret (m_outCoinB p)))].

Definition mpc_input (p : MpcSettlementInputBn254) : result input :=
  throw_if negb (assetId (m_coinA p) =? assetId (m_coinB p))
    with "mpc_settlement is same-asset only; use buildMpcPricedSettlementProofBn254 for cross-asset" in
  throw_if negb (assetId (m_outCoinA p) =? assetId (m_coinA p)) || negb (assetId (m_outCoinB p) =? assetId (m_coinA p))
    with "outCoinA/outCoinB must share coinA/coinB's assetId (mpc_settlement is same-asset for inputs AND outputs)" in
  throw_if negb (value (m_outCoinA p) + value (m_outCoinB p) =? m_matchedAmount7dp p * 2)
    with "value conservation violated: outCoinA.value + outCoinB.value must equal matchedAmount7dp * 2" in
  throw_if differs (js_at (m_stateLeaves p) (m_stateIndexA p)) (commitment (m_coinA p))
    with "stateLeaves[stateIndexA] must equal coinA.commitment" in
  throw_if differs (js_at (m_stateLeaves p) (m_stateIndexB p)) (commitment (m_coinB p))
    with "stateLeaves[stateIndexB] must equal coinB.commitment" in
  throw_if differs (js_at (m_assocLabels p) (m_labelIndexA p)) (label (m_coinA p))
    with "assocLabels[labelIndexA] must equal coinA.label" in
  throw_if differs (js_at (m_assocLabels p) (m_labelIndexB p)) (label (m_coinB p))
    with "assocLabels[labelIndexB] must equal coinB.label" in
  let! stA := prove_leaf (m_stateLeaves p) TREE_DEPTH (m_stateIndexA p) in
  let! stB := prove_leaf (m_stateLeaves p) TREE_DEPTH (m_stateIndexB p) in
  let! asA := prove_leaf (m_assocLabels p) ASSOCIATION_DEPTH (m_labelIndexA p) in
  let! asB := prove_leaf (m_assocLabels p) ASSOCIATION_DEPTH (m_labelIndexB p) in
  Ok (mpc_signals p stA stB asA asB).

Definition buildMpcSettlementProofBn254 {SN : Snarkjs} (p : MpcSettlementInputBn254) : result Bn254ProofResult :=
  let! i := mpc_input p in proveBn254Circuit "mpc_settlement_bn254" i.

(** ** Priced cross-asset matches *)

Record MpcPricedSettlementInputBn254 := {
  q_coinA : Bn254Coin; q_coinB : Bn254Coin; q_outCoinA : Bn254Coin; q_outCoinB : Bn254Coin;
  q_stateLeaves : list Z; q_stateIndexA : Z; q_stateIndexB : Z; q_assocLabels : list Z; q_labelIndexA : Z;
  q_labelIndexB : Z; q_matchedAmountA : Z; q_matchedAmountB : Z; q_priceScaled : Z; q_priceScale : option Z;
  q_minOutputA : Z; q_minOutputB : Z; q_batchHash : Z; q_poolId : Z; q_chainId : Z; q_deadlineLedger : Z }.

Definition priced_signals (p : MpcPricedSettlementInputBn254) (priceScale : Z) (stA stB asA asB : Z * list (option Z)) : input :=
  [("stateRoot", dec stA.1); ("associationRoot", dec asA.1); ("batchHash", dec (q_batchHash p));
   ("poolId", dec (q_poolId p)); ("chainId", dec (q_chainId p)); ("deadlineLedger", dec (q_deadlineLedger p));
   ("inputAssetA", dec (assetId (q_coinA p))); ("outputAssetA", dec (assetId (q_outCoinA p)));
   ("inputAssetB", dec (assetId (q_coinB p))); ("outputAssetB", dec (assetId (q_outCoinB p)));
   ("matchedAmountA", dec (q_matchedAmountA p)); ("matchedAmountB", dec (q_matchedAmountB p));
   ("priceScaled", dec (q_priceScaled p)); ("priceScale", dec priceScale);
   ("minOutputA", dec (q_minOutputA p)); ("minOutputB", dec (q_minOutputB p));
   ("labelA", dec (label (q_coinA p))); ("nullifierA", dec (nullifier (q_coinA p))); ("secretA", dec (secret (q_coinA p)));
   ("stateIndexA", dec (q_stateIndexA p)); ("stateSiblingsA", String_map stA.2);
   ("labelIndexA", dec (q_labelIndexA p)); ("labelSiblingsA", String_map asA.2);
   ("labelB", dec (label (q_coinB p))); ("nullifierB", dec (nullifier (q_coinB p))); ("secretB", dec (secret (q_coinB p)));
   ("stateIndexB", dec (q_stateIndexB p)); ("stateSiblingsB", String_map stB.2);
   ("labelIndexB", dec (q_labelIndexB p)); ("labelSiblingsB", String_map asB.2);
   ("outLabelA", dec (label (q_outCoinA p))); ("outNullifierA", dec (nullifier (q_outCoinA p)));
   ("outSecretA", dec (secret (q_outCoinA p)));
   ("outLabelB", dec (label (q_outCoinB p))); ("outNullifierB", dec (nullifier (q_outCoinB p)));
   ("outSecretB", dec (secret (q_outCoinB p)))].

(** Bigint division truncates towards zero; by zero it is a RangeError. *)
Definition priced_input (p : MpcPricedSettlementInputBn254) : result input :=
  let priceScale := default 1000000000 (q_priceScale p) in
  throw_if assetId (q_coinA p) =? assetId (q_coinB p)
    with "mpc_priced_settlement requires a genuine cross-asset pair (coinA.assetId !== coinB.assetId)" in
  throw_if negb (assetId (q_outCoinA p) =? assetId (q_coinB p))
    with "outCoinA.assetId must equal coinB.assetId (party A receives what B spent)" in
  throw_if negb (assetId (q_outCoinB p) =? assetId (q_coinA p))
    with "outCoinB.assetId must equal coinA.assetId (party B receives what A spent)" in
  throw_if negb (value (q_coinA p) =? q_matchedAmountA p)
    with "coinA.value must equal matchedAmountA (no partial fills)" in
  throw_if negb (value (q_coinB p) =? q_matchedAmountB p)
    with "coinB.value must equal matchedAmountB (no partial fills)" in
  throw_if negb (value (q_outCoinA p) =? q_matchedAmountB p) with "outCoinA.value must equal matchedAmountB" in
  throw_if negb (value (q_outCoinB p) =? q_matchedAmountA p) with "outCoinB.value must equal matchedAmountA" in
  throw_if priceScale =? 0 with "RangeError: Division by zero" in
  let expectedB := Z.quot (q_matchedAmountA p * q_priceScaled p) priceScale in
  throw_if negb (q_matchedAmountB p =? expectedB)
    with "price mismatch: matchedAmountB (" +:+ toString (q_matchedAmountB p)
         +:+ ") must equal floor(matchedAmountA*priceScaled/priceScale) = " +:+ toString expectedB in
  throw_if q_matchedAmountB p <? q_minOutputA p with "matchedAmountB is below minOutputA (slippage violation)" in
  throw_if q_matchedAmountA p <? q_minOutputB p with "matchedAmountA is below minOutputB (slippage violation)" in
  throw_if differs (js_at (q_stateLeaves p) (q_stateIndexA p)) (commitment (q_coinA p))
    with "stateLeaves[stateIndexA] must equal coinA.commitment" in
  throw_if differs (js_at (q_stateLeaves p) (q_stateIndexB p)) (commitment (q_coinB p))
    with "stateLeaves[stateIndexB] must equal coinB.commitment" in
  throw_if differs (js_at (q_assocLabels p) (q_labelIndexA p)) (label (q_coinA p))
    with "assocLabels[labelIndexA] must equal coinA.label" in
  throw_if differs (js_at (q_assocLabels p) (q_labelIndexB p)) (label (q_coinB p))
    with "assocLabels[labelIndexB] must equal coinB.label" in
  let! stA := prove_leaf (q_stateLeaves p) TREE_DEPTH (q_stateIndexA p) in
  let! stB := prove_leaf (q_stateLeaves p) TREE_DEPTH (q_stateIndexB p) in
  let! asA := prove_leaf (q_assocLabels p) ASSOCIATION_DEPTH (q_labelIndexA p) in
  let! asB := prove_leaf (q_assocLabels p) ASSOCIATION_DEPTH (q_labelIndexB p) in
  Ok (priced_signals p priceScale stA stB asA asB).

Definition buildMpcPricedSettlementProofBn254 {SN : Snarkjs} (p : MpcPricedSettlementInputBn254) : result Bn254ProofResult :=
  let! i := priced_input p in proveBn254Circuit "mpc_priced_settlement_bn254" i.

(** ** Payment channels *)

Record StreamOpenInputBn254 := {
  so_inCoin : Bn254Coin; so_stateLeaves : list Z; so_stateIndex : Z; so_assocLabels : list Z; so_labelIndex : Z;
  so_channelId : Z; so_payerAx : Z; so_payerAy : Z; so_cap : Z; so_expiry : Z; so_poolId : Z; so_chainId : Z }.

Definition open_signals (p : StreamOpenInputBn254) (changeCoin reclaimCoin : Bn254Coin) (st assoc : Z * list (option Z)) : input :=
  [("changeCommitment", dec (commitment changeCoin)); ("reclaimCommitment", dec (commitment reclaimCoin));
   ("stateRoot", dec st.1); ("associationRoot", dec assoc.1);
   ("poolId", dec (so_poolId p)); ("chainId", dec (so_chainId p)); ("channelId", dec (so_channelId p));
   ("payerAx", dec (so_payerAx p)); ("payerAy", dec (so_payerAy p)); ("cap", dec (so_cap p));
   ("expiry", dec (so_expiry p)); ("assetId", dec (assetId (so_inCoin p)));
   ("inValue", dec (value (so_inCoin p))); ("inLabel", dec (label (so_inCoin p)));
   ("inNullifier", dec (nullifier (so_inCoin p))); ("inSecret", dec (secret (so_inCoin p)));
   ("stateSiblings", String_map st.2); ("stateIndex", dec (so_stateIndex p));
   ("labelIndex", dec (so_labelIndex p)); ("labelSiblings", String_map assoc.2);
   ("changeLabel", dec (label changeCoin)); ("changeNullifier", dec (nullifier changeCoin));
   ("changeSecret", dec (secret changeCoin)); ("reclaimLabel", dec (label reclaimCoin));
   ("reclaimNullifier", dec (nullifier reclaimCoin)); ("reclaimSecret", dec (secret reclaimCoin))].

(** The input object with the change and reclaim notes. *)
Definition open_input (p : StreamOpenInputBn254) (rndChange rndReclaim : CoinRandom) : result (input * Bn254Coin * Bn254Coin) :=
  throw_if differs (js_at (so_stateLeaves p) (so_stateIndex p)) (commitment (so_inCoin p))
    with "stateLeaves[stateIndex] must equal inCoin.commitment" in
  throw_if differs (js_at (so_assocLabels p) (so_labelIndex p)) (label (so_inCoin p))
    with "assocLabels[labelIndex] must equal inCoin.label" in
  throw_if so_cap p >? value (so_inCoin p) with "cap exceeds input note value" in
  let changeValue := value (so_inCoin p) - so_cap p in
  let changeCoin := generateCoinBn254 changeValue (assetId (so_inCoin p)) None rndChange in
  let reclaimCoin := generateCoinBn254 (so_cap p) (assetId (so_inCoin p)) None rndReclaim in
  let! st := prove_leaf (so_stateLeaves p) TREE_DEPTH (so_stateIndex p) in
  let! assoc := prove_leaf (so_assocLabels p) ASSOCIATION_DEPTH (so_labelIndex p) in
  Ok (open_signals p changeCoin reclaimCoin st assoc, changeCoin, reclaimCoin).

Definition buildStreamOpenProofBn254 {SN : Snarkjs} (p : StreamOpenInputBn254) (rndChange rndReclaim : CoinRandom)
    : result (Bn254ProofResult * Bn254Coin * Bn254Coin) :=
  let! r := open_input p rndChange rndReclaim in
  let '(i, changeCoin, reclaimCoin) := r in
  let! result := proveBn254Circuit "stream_open_bn254" i in
  Ok (result, changeCoin, reclaimCoin).

Record StreamSettleInputBn254 := {
  ss_voucher : Voucher; ss_cap : Z; ss_assetId : Z; ss_associationRoot : Z; ss_poolId : Z; ss_chainId : Z }.

(** [v.seq.toString()]; a number that is not an integer prints as other text. *)
Definition seq_text (n : number) : json := match n with Int z => dec z | NotInt => JStr "NaN" end.

Definition settle_signals (p : StreamSettleInputBn254) (payeeCoin refundCoin : Bn254Coin) : input :=
  let v := ss_voucher p in
  [("associationRoot", dec (ss_associationRoot p)); ("poolId", dec (ss_poolId p)); ("chainId", dec (ss_chainId p));
   ("channelId", dec (channelId v)); ("payerAx", dec (Ax v)); ("payerAy", dec (Ay v)); ("cap", dec (ss_cap p));
   ("cumulative", dec (cumulative v)); ("assetId", dec (ss_assetId p)); ("seq", seq_text (seq v));
   ("R8x", dec (R8x v)); ("R8y", dec (R8y v)); ("S", dec (sig_S v));
   ("payeeLabel", dec (label payeeCoin)); ("payeeNullifier", dec (nullifier payeeCoin));
   ("payeeSecret", dec (secret payeeCoin)); ("refundLabel", dec (label refundCoin));
   ("refundNullifier", dec (nullifier refundCoin)); ("refundSecret", dec (secret refundCoin))].

Definition settle_input (p : StreamSettleInputBn254) (rndPayee rndRefund : CoinRandom) : result (input * Bn254Coin * Bn254Coin) :=
  let v := ss_voucher p in
  throw_if cumulative v >? ss_cap p with "voucher cumulative exceeds channel cap" in
  let refundValue := ss_cap p - cumulative v in
  let payeeCoin := generateCoinBn254 (cumulative v) (ss_assetId p) None rndPayee in
  let refundCoin := generateCoinBn254 refundValue (ss_assetId p) None rndRefund in
  Ok (settle_signals p payeeCoin refundCoin, payeeCoin, refundCoin).

Definition buildStreamSettleProofBn254 {SN : Snarkjs} (p : StreamSettleInputBn254) (rndPayee rndRefund : CoinRandom)
    : result (Bn254ProofResult * Bn254Coin * Bn254Coin) :=
  let! r := settle_input p rndPayee rndRefund in
  let '(i, payeeCoin, refundCoin) := r in
  let! result := proveBn254Circuit "stream_settle_bn254" i in
  Ok (result, payeeCoin, refundCoin).

End Builders.
