(* ===== verification/Proving.v ===== *)
(** The proof builders against the circuits they feed.

    Completeness: when the guards of a builder pass on well-formed notes, the
    input object it assembles satisfies the circuit.  Soundness: what a
    satisfied circuit says of the amounts, as integers. *)

From S2P Require Import Prelude Text Json Streams Merkle Circuits Coin.
Local Open Scope string_scope.
Local Open Scope Z_scope.

Section Proving.
Context {HP : Poseidon} {PL : PoseidonLaws HP} {CL : Circomlib} {CLL : CircomlibLaws CL}.

(** ** Notes and leaves *)

Definition coin_ok (c : Bn254Coin) : Prop :=
  commitment c = commitment_of (assetId c) (value c) (label c) (nullifier c) (secret c) /\
  in_field (assetId c) /\ in_field (label c) /\ in_field (nullifier c) /\ in_field (secret c) /\
  0 <= value c < 2 ^ 128.

Definition leaf_at (leaves : list Z) (d : nat) (i x : Z) : Prop :=
  js_at leaves i = Some x /\ (length leaves <= 2 ^ d)%nat /\ Forall in_field leaves.

Lemma small_field v : 0 <= v < 2 ^ 128 -> in_field v.
Proof. intros Hv. pose proof small_128. unfold in_field. lia. Qed.

Lemma coin_field_range r : in_field (randomFieldElement r).
Proof. apply (fmod_range (default 0 (BigInt ("0x" +:+ hex_encode r)))). Qed.

Lemma generateCoin_ok v a l rnd :
  0 <= v < 2 ^ 128 -> in_field a -> (forall x, l = Some x -> in_field x) -> coin_ok (generateCoinBn254 v a l rnd).
Proof.
  intros Hv Ha Hl. unfold coin_ok. cbn. split_and!; try done; try apply coin_field_range; try lia.
  destruct l as [x|]; [by apply Hl|apply coin_field_range].
Qed.

Lemma commitment_range a v l n s : in_field (commitment_of a v l n s).
Proof. apply poseidon_range. Qed.

Lemma node_range f d i : (forall j, in_field (f j)) -> in_field (node f d i).
Proof. intros Hf. destruct d; cbn; [apply Hf|apply poseidon_range]. Qed.

Lemma path_range f k i n : (forall j, in_field (f j)) -> Forall in_field (path f k i n).
Proof. intros Hf. revert k i. induction n as [|n IH]; intros k i; cbn; constructor; [by apply node_range|apply IH]. Qed.

Lemma leaf_fn_range leaves j : Forall in_field leaves -> in_field (leaf_fn leaves j).
Proof.
  intros Hl. unfold leaf_fn. destruct (leaves !! j) as [x|] eqn:E; [|done].
  rewrite list.Forall_forall in Hl. apply Hl. by eapply list_elem_of_lookup_2.
Qed.

Lemma differs_at leaves d i x : leaf_at leaves d i x -> differs (js_at leaves i) x = false.
Proof. intros (-> & _). unfold differs. by rewrite bool_decide_true. Qed.

(** The pair a Merkle proof contributes to an input object. *)
Definition good_path (d : nat) (i x : Z) (pf : Z * list (option Z)) : Prop :=
  exists sibs, pf.2 = Some <$> sibs /\ length sibs = d /\ Forall in_field sibs /\ in_field pf.1 /\
               0 <= i < 2 ^ Z.of_nat d /\ circuit_path x i sibs = pf.1.

Lemma prove_leaf_ok leaves d i x : (d <= 30)%nat -> leaf_at leaves d i x ->
  exists pf, prove_leaf leaves (Z.of_nat d) i = Ok pf /\ good_path d i x pf.
Proof.
  intros Hd (Hat & Hlen & Hf). unfold js_at in Hat. destruct (Z.ltb_spec i 0); [done|].
  assert (Z.to_nat i < length leaves)%nat as Hi by (by eapply lookup_lt_Some).
  pose proof (build_tree_spec d leaves Hd Hlen) as Hb. unfold prove_leaf. rewrite Hb. cbn [rbind].
  destruct (merkle_proof_spec d leaves (Z.to_nat i) _ Hd ltac:(lia) Hb) as (Hp & Hl & Hc).
  rewrite Z2Nat.id in Hp, Hc by lia. rewrite Hp. cbn [rbind]. eexists. split; [reflexivity|].
  eexists. cbn [fst snd siblings]. split_and!; try done.
  - apply path_range. intros j. by apply leaf_fn_range.
  - apply node_range. intros j. by apply leaf_fn_range.
  - apply Z2Nat.inj_lt; [lia|lia|]. rewrite pow_nat_Z. lia.
  - rewrite <- Hc. f_equal. unfold leaf_fn. by rewrite Hat.
Qed.

Lemma prove_leaf_root leaves d i j pi pj :
  prove_leaf leaves d i = Ok pi -> prove_leaf leaves d j = Ok pj -> pj.1 = pi.1.
Proof.
  unfold prove_leaf. destruct (buildMerkleTree leaves d) as [t|]; [|done]. cbn.
  destruct (getMerkleProof t i), (getMerkleProof t j); try done. cbn.
  by intros [= <-] [= <-].
Qed.

Lemma map_fmod l : Forall in_field l -> map fmod l = l.
Proof. induction 1 as [|x l Hx _ IH]; cbn; [done|]. by rewrite IH, fmod_id. Qed.

Lemma sigs_path i k l : jget k i = Some (String_map (Some <$> l)) -> sigs i k = map fmod l.
Proof.
  intros Hk. apply sigs_strs. rewrite Hk. unfold String_map. do 2 f_equal.
  change (Some <$> l) with (map Some l). by rewrite map_map.
Qed.

(** The circuit's membership check on signals read from the input object. *)
Lemma member_ok inp d x i pf ki ks kr :
  (0 < d <= 30)%nat -> good_path d i x pf ->
  jget ki inp = Some (dec i) -> jget ks inp = Some (String_map pf.2) -> jget kr inp = Some (dec pf.1) ->
  member_of d x (sig inp ki) (sigs inp ks) (sig inp kr) = true.
Proof.
  intros Hd (sibs & Hs & Hl & Hfs & Hr & Hi & Hc) Hki Hks Hkr. rewrite Hs in Hks. unfold member_of.
  rewrite (sig_str _ _ _ Hki), (sig_str _ _ _ Hkr), (sigs_path _ _ _ Hks), map_fmod, (fmod_id _ Hr) by done.
  assert (2 ^ Z.of_nat d < BN254_FIELD_MODULUS) as Hp.
  { eapply Z.le_lt_trans; [apply (Z.pow_le_mono_r _ _ 30); lia|done]. }
  assert (in_field i) as Hif by (unfold in_field; lia).
  rewrite (fmod_id _ Hif), Hc, Z.eqb_refl, Hl, Nat.eqb_refl.
  assert (Num2Bits (Z.of_nat d) i = true) as ->; [|done]. apply Num2Bits_spec; [lia|done|lia].
Qed.

Lemma range128 v : 0 <= v < 2 ^ 128 -> Num2Bits 128 v = true.
Proof. intros Hv. apply Num2Bits_spec; [done|by apply small_field|lia]. Qed.

Lemma sig_dec inp k z : in_field z -> jget k inp = Some (dec z) -> sig inp k = z.
Proof. intros Hz Hk. rewrite (sig_str _ _ _ Hk). by apply fmod_id. Qed.

Lemma coin_sigs inp c ka kv kl kn ks :
  coin_ok c ->
  jget ka inp = Some (dec (assetId c)) -> jget kv inp = Some (dec (value c)) -> jget kl inp = Some (dec (label c)) ->
  jget kn inp = Some (dec (nullifier c)) -> jget ks inp = Some (dec (secret c)) ->
  commitment_of (sig inp ka) (sig inp kv) (sig inp kl) (sig inp kn) (sig inp ks) = commitment c.
Proof.
  intros (Hc & Ha & Hl & Hn & Hs & Hv) Ea Ev El En Es.
  rewrite (sig_dec _ _ _ Ha Ea), (sig_dec _ _ _ (small_field _ Hv) Ev), (sig_dec _ _ _ Hl El),
    (sig_dec _ _ _ Hn En), (sig_dec _ _ _ Hs Es). by symmetry.
Qed.

(** ** Completeness of the builders *)

Lemma transfer_complete p :
  coin_ok (t_inCoin p) -> coin_ok (t_outCoin p) -> 0 <= t_feePublic p < 2 ^ 128 ->
  leaf_at (t_stateLeaves p) 12 (t_stateIndex p) (commitment (t_inCoin p)) ->
  leaf_at (t_assocLabels p) 2 (t_labelIndex p) (label (t_inCoin p)) ->
  assetId (t_outCoin p) = assetId (t_inCoin p) -> value (t_outCoin p) = value (t_inCoin p) - t_feePublic p ->
  exists i, transfer_input p = Ok i /\ PrivateTransfer i = true.
Proof.
  intros Hin Hout Hfee Hst Has Hasset Hval. unfold transfer_input.
  rewrite (differs_at _ _ _ _ Hst), (differs_at _ _ _ _ Has), Hasset, Hval, !Z.eqb_refl. cbn [negb].
  destruct (prove_leaf_ok _ 12 _ _ ltac:(lia) Hst) as (st & Est & Gst).
  destruct (prove_leaf_ok _ 2 _ _ ltac:(lia) Has) as (assoc & Eas & Gas).
  change TREE_DEPTH with (Z.of_nat 12). change ASSOCIATION_DEPTH with (Z.of_nat 2). rewrite Est, Eas. cbn [rbind].
  eexists. split; [reflexivity|]. unfold PrivateTransfer.
  set (i := transfer_signals p st assoc).
  rewrite (coin_sigs i (t_inCoin p)), (coin_sigs i (t_outCoin p)) by (done || reflexivity).
  rewrite (member_ok i 12 _ _ _ _ _ _ ltac:(lia) Gst) by reflexivity.
  rewrite (sig_dec i "inLabel" (label (t_inCoin p))) by (reflexivity || apply Hin).
  rewrite (member_ok i 2 _ _ _ _ _ _ ltac:(lia) Gas) by reflexivity.
  rewrite (sig_dec i "outputCommitment" (commitment (t_outCoin p)))
    by (reflexivity || (rewrite (proj1 Hout); apply commitment_range)).
  rewrite (sig_dec i "outValue" (value (t_outCoin p))) by (reflexivity || apply small_field, Hout).
  rewrite (sig_dec i "inValue" (value (t_inCoin p))) by (reflexivity || apply small_field, Hin).
  rewrite (sig_dec i "feePublic" (t_feePublic p)) by (reflexivity || by apply small_field).
  rewrite (range128 (value (t_outCoin p))), (range128 (t_feePublic p)) by (done || apply Hout).
  rewrite (sig_dec i "inputAssetId" (assetId (t_inCoin p))) by (reflexivity || apply Hin).
  rewrite (sig_dec i "outputAssetId" (assetId (t_outCoin p))) by (reflexivity || apply Hout).
  rewrite Hasset, Hval, Z.sub_add, (fmod_id (value (t_inCoin p))), !Z.eqb_refl by (apply small_field, Hin).
  reflexivity.
Qed.

(** Signals in the field evaluate to the numbers the builder printed. *)
Lemma diff128 a b : 0 <= b -> b <= a -> a < 2 ^ 128 -> fmod (a - b) = a - b /\ Num2Bits 128 (a - b) = true.
Proof. intros. split; [apply fmod_id, small_field; lia|apply range128; lia]. Qed.

Lemma withdraw_complete p :
  coin_ok (w_coin p) ->
  0 <= relayerFee (binding p) <= withdrawnValue p -> withdrawnValue p <= value (w_coin p) ->
  leaf_at (w_stateLeaves p) 12 (w_stateIndex p) (commitment (w_coin p)) ->
  leaf_at (w_assocLabels p) 2 (w_labelIndex p) (label (w_coin p)) ->
  exists i, withdraw_input p = Ok i /\ Withdraw i = true.
Proof.
  intros Hc Hfee Hw Hst Has. unfold withdraw_input.
  rewrite (differs_at _ _ _ _ Hst), (differs_at _ _ _ _ Has), Z.gtb_ltb.
  destruct (Z.ltb_spec (value (w_coin p)) (withdrawnValue p)); [lia|].
  destruct (prove_leaf_ok _ 12 _ _ ltac:(lia) Hst) as (st & Est & Gst).
  destruct (prove_leaf_ok _ 2 _ _ ltac:(lia) Has) as (assoc & Eas & Gas).
  change TREE_DEPTH with (Z.of_nat 12). change ASSOCIATION_DEPTH with (Z.of_nat 2). rewrite Est, Eas. cbn [rbind].
  eexists. split; [reflexivity|]. unfold Withdraw.
  set (i := withdraw_signals p st assoc).
  assert (0 <= value (w_coin p) < 2 ^ 128) as Hv by apply Hc.
  rewrite (coin_sigs i (w_coin p)) by (done || reflexivity).
  rewrite (member_ok i 12 _ _ _ _ _ _ ltac:(lia) Gst) by reflexivity.
  rewrite (sig_dec i "label" (label (w_coin p))) by (reflexivity || apply Hc).
  rewrite (member_ok i 2 _ _ _ _ _ _ ltac:(lia) Gas) by reflexivity.
  rewrite (sig_dec i "value" (value (w_coin p))) by (reflexivity || by apply small_field).
  rewrite (sig_dec i "withdrawnValue" (withdrawnValue p)) by (reflexivity || (apply small_field; lia)).
  rewrite (sig_dec i "relayerFee" (relayerFee (binding p))) by (reflexivity || (apply small_field; lia)).
  destruct (diff128 (value (w_coin p)) (withdrawnValue p)) as [-> ->]; [lia..|].
  destruct (diff128 (withdrawnValue p) (relayerFee (binding p))) as [-> ->]; [lia..|].
  rewrite !range128 by lia. reflexivity.
Qed.

Lemma deposit_complete coin b :
  coin_ok coin -> value coin <= d_amount7dp b < 2 ^ 128 -> assetId coin = d_assetIdHash b ->
  exists i, deposit_input coin b = Ok i /\ DepositNoteMint i = true /\ DepositNoteMint_commitment i = commitment coin.
Proof.
  intros Hc Ha Hid. unfold deposit_input. rewrite Z.gtb_ltb, Hid, Z.eqb_refl.
  destruct (Z.ltb_spec (d_amount7dp b) (value coin)); [lia|]. cbn [negb].
  eexists. split; [reflexivity|]. unfold DepositNoteMint, DepositNoteMint_commitment.
  match goal with |- context [sig ?x _] => set (i := x) end.
  assert (0 <= value coin < 2 ^ 128) as Hv by apply Hc.
  rewrite (coin_sigs i coin) by (done || (rewrite Hid; reflexivity) || reflexivity).
  rewrite (sig_dec i "value" (value coin)) by (reflexivity || by apply small_field).
  rewrite (sig_dec i "amount7dp" (d_amount7dp b)) by (reflexivity || (apply small_field; lia)).
  destruct (diff128 (d_amount7dp b) (value coin)) as [-> ->]; [lia..|].
  rewrite range128 by lia. split; reflexivity.
Qed.

Lemma open_complete p r1 r2 :
  coin_ok (so_inCoin p) -> 0 <= so_cap p <= value (so_inCoin p) ->
  leaf_at (so_stateLeaves p) 12 (so_stateIndex p) (commitment (so_inCoin p)) ->
  leaf_at (so_assocLabels p) 2 (so_labelIndex p) (label (so_inCoin p)) ->
  exists i change reclaim, open_input p r1 r2 = Ok (i, change, reclaim) /\ StreamOpen i = true /\
    coin_ok change /\ coin_ok reclaim /\ value change + value reclaim = value (so_inCoin p).
Proof.
  intros Hc Hcap Hst Has. unfold open_input.
  rewrite (differs_at _ _ _ _ Hst), (differs_at _ _ _ _ Has), Z.gtb_ltb.
  destruct (Z.ltb_spec (value (so_inCoin p)) (so_cap p)); [lia|].
  destruct (prove_leaf_ok _ 12 _ _ ltac:(lia) Hst) as (st & Est & Gst).
  destruct (prove_leaf_ok _ 2 _ _ ltac:(lia) Has) as (assoc & Eas & Gas).
  change TREE_DEPTH with (Z.of_nat 12). change ASSOCIATION_DEPTH with (Z.of_nat 2). rewrite Est, Eas. cbn [rbind].
  assert (0 <= value (so_inCoin p) < 2 ^ 128) as Hv by apply Hc.
  set (change := generateCoinBn254 _ _ None r1). set (reclaim := generateCoinBn254 _ _ None r2).
  assert (coin_ok change) as Hch by (apply generateCoin_ok; [lia|apply Hc|done]).
  assert (coin_ok reclaim) as Hre by (apply generateCoin_ok; [lia|apply Hc|done]).
  do 3 eexists. split; [reflexivity|]. split; [|split_and!; [done|done|cbn; lia]].
  unfold StreamOpen. set (i := open_signals p change reclaim st assoc).
  rewrite (coin_sigs i (so_inCoin p)) by (done || reflexivity).
  rewrite (member_ok i 12 _ _ _ _ _ _ ltac:(lia) Gst) by reflexivity.
  rewrite (sig_dec i "inLabel" (label (so_inCoin p))) by (reflexivity || apply Hc).
  rewrite (member_ok i 2 _ _ _ _ _ _ ltac:(lia) Gas) by reflexivity.
  rewrite (coin_sigs i reclaim _ "cap") by (done || reflexivity).
  rewrite (sig_dec i "inValue" (value (so_inCoin p))) by (reflexivity || by apply small_field).
  rewrite (sig_dec i "cap" (so_cap p)) by (reflexivity || (apply small_field; lia)).
  destruct (diff128 (value (so_inCoin p)) (so_cap p)) as [-> ->]; [lia..|].
  rewrite (sig_dec i "assetId" (assetId (so_inCoin p))) by (reflexivity || apply Hc).
  rewrite (sig_dec i "changeLabel" (label change)) by (reflexivity || apply Hch).
  rewrite (sig_dec i "changeNullifier" (nullifier change)) by (reflexivity || apply Hch).
  rewrite (sig_dec i "changeSecret" (secret change)) by (reflexivity || apply Hch).
  rewrite (sig_dec i "changeCommitment" (commitment change)) by (reflexivity || (rewrite (proj1 Hch); apply commitment_range)).
  rewrite (sig_dec i "reclaimCommitment" (commitment reclaim)) by (reflexivity || (rewrite (proj1 Hre); apply commitment_range)).
  assert (commitment_of (assetId (so_inCoin p)) (value (so_inCoin p) - so_cap p) (label change) (nullifier change)
            (secret change) = commitment change) as -> by (symmetry; exact (proj1 Hch)).
  rewrite range128, !Z.eqb_refl by lia. reflexivity.
Qed.

Lemma settle_complete {ED : Eddsa} p r1 r2 :
  let v := ss_voucher p in
  verifyVoucher v = Ok true -> 0 <= cumulative v <= ss_cap p -> ss_cap p < 2 ^ 128 -> in_field (ss_assetId p) ->
  Forall in_field [channelId v; Ax v; Ay v; R8x v; R8y v; sig_S v] ->
  (forall z, seq v = Int z -> in_field z) ->
  exists i payee refund, settle_input p r1 r2 = Ok (i, payee, refund) /\ StreamSettle i = true /\
    StreamSettle_outputs i = (commitment payee, commitment refund) /\
    value payee = cumulative v /\ value payee + value refund = ss_cap p.
Proof.
  intros v Hver Hcum Hcap Hasset Hf Hseq. unfold settle_input. fold v. rewrite Z.gtb_ltb.
  destruct (Z.ltb_spec (ss_cap p) (cumulative v)); [lia|].
  set (payee := generateCoinBn254 _ _ None r1). set (refund := generateCoinBn254 _ _ None r2).
  assert (coin_ok payee) as Hp by (apply generateCoin_ok; [lia|done|done]).
  assert (coin_ok refund) as Hr by (apply generateCoin_ok; [lia|done|done]).
  unfold verifyVoucher in Hver. destruct (seq v) as [z|] eqn:Es; [|done]. cbn [BigInt_of_number rbind] in Hver.
  injection Hver as Hver. rewrite !list.Forall_cons in Hf. destruct Hf as (Hch & Hax & Hay & Hrx & Hry & Hs & _).
  do 3 eexists. split; [reflexivity|]. set (i := settle_signals p payee refund).
  unfold StreamSettle, StreamSettle_outputs.
  rewrite (coin_sigs i payee _ "cumulative") by (done || reflexivity).
  rewrite (sig_dec i "channelId" (channelId v)), (sig_dec i "payerAx" (Ax v)), (sig_dec i "payerAy" (Ay v)),
    (sig_dec i "R8x" (R8x v)), (sig_dec i "R8y" (R8y v)), (sig_dec i "S" (sig_S v)) by (done || reflexivity).
  rewrite (sig_dec i "cap" (ss_cap p)) by (reflexivity || (apply small_field; lia)).
  rewrite (sig_dec i "cumulative" (cumulative v)) by (reflexivity || (apply small_field; lia)).
  assert (jget "seq" i = Some (dec z)) as Ez by (change (jget "seq" i) with (Some (seq_text (seq v))); by rewrite Es).
  rewrite (sig_dec i "seq" z (Hseq _ eq_refl) Ez), Hver.
  destruct (diff128 (ss_cap p) (cumulative v)) as [-> ->]; [lia..|]. rewrite range128 by lia.
  rewrite (sig_dec i "assetId" (ss_assetId p)) by (done || reflexivity).
  rewrite (sig_dec i "refundLabel" (label refund)) by (reflexivity || apply Hr).
  rewrite (sig_dec i "refundNullifier" (nullifier refund)) by (reflexivity || apply Hr).
  rewrite (sig_dec i "refundSecret" (secret refund)) by (reflexivity || apply Hr).
  split_and!; [reflexivity|f_equal; symmetry; exact (proj1 Hr)|reflexivity|cbn; lia].
Qed.

Lemma mpc_complete p :
  coin_ok (m_coinA p) -> coin_ok (m_coinB p) -> coin_ok (m_outCoinA p) -> coin_ok (m_outCoinB p) ->
  assetId (m_coinB p) = assetId (m_coinA p) -> assetId (m_outCoinA p) = assetId (m_coinA p) ->
  assetId (m_outCoinB p) = assetId (m_coinA p) ->
  value (m_outCoinA p) + value (m_outCoinB p) = m_matchedAmount7dp p * 2 ->
  0 <= m_matchedAmount7dp p <= value (m_coinA p) -> m_matchedAmount7dp p <= value (m_coinB p) ->
  leaf_at (m_stateLeaves p) 12 (m_stateIndexA p) (commitment (m_coinA p)) ->
  leaf_at (m_stateLeaves p) 12 (m_stateIndexB p) (commitment (m_coinB p)) ->
  leaf_at (m_assocLabels p) 2 (m_labelIndexA p) (label (m_coinA p)) ->
  leaf_at (m_assocLabels p) 2 (m_labelIndexB p) (label (m_coinB p)) ->
  exists i, mpc_input p = Ok i /\ MpcSettlement i = true /\
            MpcSettlement_outputs i = (commitment (m_outCoinA p), commitment (m_outCoinB p)).
Proof.
  intros HA HB HoA HoB EaB EaoA EaoB Hsum HmA HmB HsA HsB HlA HlB. unfold mpc_input.
  rewrite EaB, EaoA, EaoB, Hsum, !Z.eqb_refl, (differs_at _ _ _ _ HsA), (differs_at _ _ _ _ HsB),
    (differs_at _ _ _ _ HlA), (differs_at _ _ _ _ HlB). cbn [negb orb].
  destruct (prove_leaf_ok _ 12 _ _ ltac:(lia) HsA) as (stA & EsA & GsA).
  destruct (prove_leaf_ok _ 12 _ _ ltac:(lia) HsB) as (stB & EsB & GsB).
  destruct (prove_leaf_ok _ 2 _ _ ltac:(lia) HlA) as (asA & ElA & GlA).
  destruct (prove_leaf_ok _ 2 _ _ ltac:(lia) HlB) as (asB & ElB & GlB).
  pose proof (prove_leaf_root _ _ _ _ _ _ EsA EsB) as Er. pose proof (prove_leaf_root _ _ _ _ _ _ ElA ElB) as Er2.
  change TREE_DEPTH with (Z.of_nat 12). change ASSOCIATION_DEPTH with (Z.of_nat 2).
  rewrite EsA, EsB, ElA, ElB. cbn [rbind].
  eexists. split; [reflexivity|]. unfold MpcSettlement, MpcSettlement_outputs. set (i := mpc_signals p stA stB asA asB).
  rewrite (coin_sigs i (m_coinA p)), (coin_sigs i (m_coinB p)), (coin_sigs i (m_outCoinA p)), (coin_sigs i (m_outCoinB p))
    by (done || reflexivity || (rewrite EaB; reflexivity) || (rewrite EaoA; reflexivity) || (rewrite EaoB; reflexivity)).
  rewrite (member_ok i 12 _ _ _ "stateIndexA" _ _ ltac:(lia) GsA) by reflexivity.
  rewrite (member_ok i 12 _ _ _ "stateIndexB" _ _ ltac:(lia) GsB) by (reflexivity || (rewrite Er; reflexivity)).
  rewrite (sig_dec i "labelA" (label (m_coinA p))) by (reflexivity || apply HA).
  rewrite (sig_dec i "labelB" (label (m_coinB p))) by (reflexivity || apply HB).
  rewrite (member_ok i 2 _ _ _ "labelIndexA" _ _ ltac:(lia) GlA) by reflexivity.
  rewrite (member_ok i 2 _ _ _ "labelIndexB" _ _ ltac:(lia) GlB) by (reflexivity || (rewrite Er2; reflexivity)).
  assert (0 <= value (m_coinA p) < 2 ^ 128) as HvA by apply HA.
  assert (0 <= value (m_coinB p) < 2 ^ 128) as HvB by apply HB.
  rewrite (sig_dec i "valueA" (value (m_coinA p))) by (reflexivity || by apply small_field).
  rewrite (sig_dec i "valueB" (value (m_coinB p))) by (reflexivity || by apply small_field).
  rewrite (sig_dec i "matchedAmount7dp" (m_matchedAmount7dp p)) by (reflexivity || (apply small_field; lia)).
  rewrite (sig_dec i "outValueA" (value (m_outCoinA p))) by (reflexivity || apply small_field, HoA).
  rewrite (sig_dec i "outValueB" (value (m_outCoinB p))) by (reflexivity || apply small_field, HoB).
  destruct (diff128 (value (m_coinA p)) (m_matchedAmount7dp p)) as [-> ->]; [lia..|].
  destruct (diff128 (value (m_coinB p)) (m_matchedAmount7dp p)) as [-> ->]; [lia..|].
  rewrite Hsum, Z.eqb_refl. split; reflexivity.
Qed.

(** The fixed-point price and slippage checks of the priced circuit. *)
Lemma priced_arith i p :
  jget "matchedAmountA" i = Some (dec (q_matchedAmountA p)) -> jget "matchedAmountB" i = Some (dec (q_matchedAmountB p)) ->
  jget "priceScaled" i = Some (dec (q_priceScaled p)) -> jget "minOutputA" i = Some (dec (q_minOutputA p)) ->
  jget "minOutputB" i = Some (dec (q_minOutputB p)) ->
  0 <= q_priceScaled p < 2 ^ 64 -> q_matchedAmountB p = q_matchedAmountA p * q_priceScaled p / 1000000000 ->
  0 <= q_minOutputA p <= q_matchedAmountB p -> 0 <= q_minOutputB p <= q_matchedAmountA p ->
  q_matchedAmountA p < 2 ^ 64 -> q_matchedAmountB p < 2 ^ 64 ->
  LessEqThan 128 (fmod (sig i "matchedAmountB" * 1000000000)) (fmod (sig i "matchedAmountA" * sig i "priceScaled")) &&
  LessThan 64 (fmod (fmod (sig i "matchedAmountA" * sig i "priceScaled") - fmod (sig i "matchedAmountB" * 1000000000)))
    1000000000 = true /\
  GreaterEqThan 64 (sig i "matchedAmountB") (sig i "minOutputA") = true /\
  GreaterEqThan 64 (sig i "matchedAmountA") (sig i "minOutputB") = true.
Proof.
  intros E1 E2 E3 E4 E5 Hp Hm HA HB H64A H64B. pose proof small_128 as Hs.
  rewrite (sig_str _ _ _ E1), (sig_str _ _ _ E2), (sig_str _ _ _ E3), (sig_str _ _ _ E4), (sig_str _ _ _ E5).
  rewrite (fmod_id (q_matchedAmountA p)), (fmod_id (q_matchedAmountB p)), (fmod_id (q_priceScaled p)),
    (fmod_id (q_minOutputA p)), (fmod_id (q_minOutputB p)) by (apply small_field; lia).
  set (a := q_matchedAmountA p) in *. set (b := q_matchedAmountB p) in *. set (s := q_priceScaled p) in *.
  assert (0 <= a * s < 2 ^ 128) as Hprod by nia.
  pose proof (Z.div_mod (a * s) 1000000000 ltac:(done)) as Hdm.
  pose proof (Z.mod_pos_bound (a * s) 1000000000 ltac:(done)) as Hmod. rewrite <- Hm in Hdm.
  assert (0 <= b * 1000000000 <= a * s) as Hsc by lia.
  rewrite (fmod_id (a * s)), (fmod_id (b * 1000000000)), (fmod_id (a * s - b * 1000000000)) by (unfold in_field; lia).
  rewrite LessEqThan_spec, LessThan_spec, !GreaterEqThan_spec by lia.
  rewrite !andb_true_iff, !Z.leb_le, Z.ltb_lt. lia.
Qed.

Lemma priced_complete p :
  coin_ok (q_coinA p) -> coin_ok (q_coinB p) -> in_field (assetId (q_outCoinA p)) -> in_field (assetId (q_outCoinB p)) ->
  assetId (q_coinA p) <> assetId (q_coinB p) -> assetId (q_outCoinA p) = assetId (q_coinB p) ->
  assetId (q_outCoinB p) = assetId (q_coinA p) -> value (q_coinA p) = q_matchedAmountA p ->
  value (q_coinB p) = q_matchedAmountB p -> value (q_outCoinA p) = q_matchedAmountB p ->
  value (q_outCoinB p) = q_matchedAmountA p -> q_priceScale p = None -> 0 <= q_priceScaled p < 2 ^ 64 ->
  q_matchedAmountB p = q_matchedAmountA p * q_priceScaled p / 1000000000 ->
  0 <= q_minOutputA p <= q_matchedAmountB p -> 0 <= q_minOutputB p <= q_matchedAmountA p ->
  q_matchedAmountA p < 2 ^ 64 -> q_matchedAmountB p < 2 ^ 64 ->
  leaf_at (q_stateLeaves p) 12 (q_stateIndexA p) (commitment (q_coinA p)) ->
  leaf_at (q_stateLeaves p) 12 (q_stateIndexB p) (commitment (q_coinB p)) ->
  leaf_at (q_assocLabels p) 2 (q_labelIndexA p) (label (q_coinA p)) ->
  leaf_at (q_assocLabels p) 2 (q_labelIndexB p) (label (q_coinB p)) ->
  exists i, priced_input p = Ok i /\ MpcPricedSettlement i = true.
Proof.
  intros HA HB HfA HfB Hne EaA EaB VA VB VoA VoB Hps Hprice Hmatch HmA HmB H64A H64B HsA HsB HlA HlB.
  unfold priced_input. rewrite Hps. cbn [default].
  assert (Z.quot (q_matchedAmountA p * q_priceScaled p) 1000000000 = q_matchedAmountB p) as Hq.
  { rewrite Z.quot_div_nonneg by nia. by symmetry. }
  rewrite Hq, EaA, EaB, VA, VB, VoA, VoB, !Z.eqb_refl, (differs_at _ _ _ _ HsA), (differs_at _ _ _ _ HsB),
    (differs_at _ _ _ _ HlA), (differs_at _ _ _ _ HlB).
  destruct (Z.eqb_spec (assetId (q_coinA p)) (assetId (q_coinB p))); [done|]. cbn [negb Z.eqb].
  destruct (Z.ltb_spec (q_matchedAmountB p) (q_minOutputA p)); [lia|].
  destruct (Z.ltb_spec (q_matchedAmountA p) (q_minOutputB p)); [lia|].
  destruct (prove_leaf_ok _ 12 _ _ ltac:(lia) HsA) as (stA & EsA & GsA).
  destruct (prove_leaf_ok _ 12 _ _ ltac:(lia) HsB) as (stB & EsB & GsB).
  destruct (prove_leaf_ok _ 2 _ _ ltac:(lia) HlA) as (asA & ElA & GlA).
  destruct (prove_leaf_ok _ 2 _ _ ltac:(lia) HlB) as (asB & ElB & GlB).
  pose proof (prove_leaf_root _ _ _ _ _ _ EsA EsB) as Er. pose proof (prove_leaf_root _ _ _ _ _ _ ElA ElB) as Er2.
  change TREE_DEPTH with (Z.of_nat 12). change ASSOCIATION_DEPTH with (Z.of_nat 2).
  rewrite EsA, EsB, ElA, ElB. cbn [rbind].
  eexists. split; [reflexivity|]. unfold MpcPricedSettlement.
  set (i := priced_signals p 1000000000 stA stB asA asB).
  rewrite (coin_sigs i (q_coinA p) _ "matchedAmountA"), (coin_sigs i (q_coinB p) _ "matchedAmountB")
    by (done || reflexivity || (rewrite VA; reflexivity) || (rewrite VB; reflexivity)).
  rewrite (member_ok i 12 _ _ _ "stateIndexA" _ _ ltac:(lia) GsA) by reflexivity.
  rewrite (member_ok i 12 _ _ _ "stateIndexB" _ _ ltac:(lia) GsB) by (reflexivity || (rewrite Er; reflexivity)).
  rewrite (sig_dec i "labelA" (label (q_coinA p))) by (reflexivity || apply HA).
  rewrite (sig_dec i "labelB" (label (q_coinB p))) by (reflexivity || apply HB).
  rewrite (member_ok i 2 _ _ _ "labelIndexA" _ _ ltac:(lia) GlA) by reflexivity.
  rewrite (member_ok i 2 _ _ _ "labelIndexB" _ _ ltac:(lia) GlB) by (reflexivity || (rewrite Er2; reflexivity)).
  rewrite (sig_dec i "inputAssetA" (assetId (q_coinA p))) by (reflexivity || apply HA).
  rewrite (sig_dec i "inputAssetB" (assetId (q_coinB p))) by (reflexivity || apply HB).
  rewrite (sig_dec i "outputAssetA" (assetId (q_outCoinA p))), (sig_dec i "outputAssetB" (assetId (q_outCoinB p))) by (done || reflexivity).
  rewrite (sig_dec i "priceScale" 1000000000) by (reflexivity || done).
  cbv zeta. destruct (priced_arith i p) as (-> & -> & ->); try done; try reflexivity.
  by rewrite EaA, EaB, !Z.eqb_refl, (proj2 (Z.eqb_neq _ _) Hne).
Qed.

(** ** Soundness of the circuits *)

Lemma num2bits_bound x : in_field x -> Num2Bits 128 x = true -> 0 <= x < 2 ^ 128.
Proof. intros Hx Hn. apply Num2Bits_spec in Hn; [|done|done]. unfold in_field in Hx. lia. Qed.

Lemma num2bits_sub a b : in_field a -> 0 <= b < 2 ^ 128 -> Num2Bits 128 (fmod (a - b)) = true ->
  b <= a /\ fmod (a - b) = a - b.
Proof. intros Ha Hb Hn. apply num2bits_bound in Hn; [|apply fmod_range]. apply fmod_sub_small; [done|done|lia]. Qed.

Lemma transfer_sound i : PrivateTransfer i = true ->
  sig i "inValue" = sig i "outValue" + sig i "feePublic" /\
  0 <= sig i "outValue" < 2 ^ 128 /\ 0 <= sig i "feePublic" < 2 ^ 128.
Proof.
  unfold PrivateTransfer. rewrite !andb_true_iff. intros ((((_ & Hsum) & Ho) & Hf) & _).
  apply Z.eqb_eq in Hsum.
  apply num2bits_bound in Ho, Hf; try apply sig_range. split; [|done]. rewrite Hsum. apply fmod_id.
  pose proof small_128. unfold in_field. lia.
Qed.

Lemma withdraw_sound i : Withdraw i = true ->
  0 <= sig i "relayerFee" <= sig i "withdrawnValue" /\ sig i "withdrawnValue" <= sig i "value".
Proof.
  unfold Withdraw. rewrite !andb_true_iff. intros ((((_ & Hv) & Hw) & Hn) & Hf).
  apply num2bits_bound in Hw, Hf; try apply sig_range.
  apply num2bits_sub in Hv as [Hv _]; [|apply sig_range|done].
  apply num2bits_sub in Hn as [Hn _]; [|apply sig_range|done]. lia.
Qed.

Lemma settle_sound {ED : Eddsa} i : StreamSettle i = true ->
  0 <= sig i "cumulative" <= sig i "cap" /\ fmod (sig i "cap" - sig i "cumulative") = sig i "cap" - sig i "cumulative".
Proof.
  unfold StreamSettle. rewrite !andb_true_iff. intros ((_ & Hr) & Hc).
  apply num2bits_bound in Hc; [|apply sig_range].
  apply num2bits_sub in Hr as [Hr E]; [|apply sig_range|done]. split; [lia|exact E].
Qed.

(** ** The same-asset settlement circuit does not bound its outputs *)

Lemma sig_jset_ne i k k' v : k <> k' -> sig (jset k v i) k' = sig i k'.
Proof. intros Hne. unfold sig. by rewrite jget_jset_ne. Qed.
Lemma sigs_jset_ne i k k' v : k <> k' -> sigs (jset k v i) k' = sigs i k'.
Proof. intros Hne. unfold sigs. by rewrite jget_jset_ne. Qed.
Lemma sig_jset_eq i k z : sig (jset k (dec z) i) k = fmod z.
Proof. apply sig_str. apply jget_jset_eq. Qed.

Lemma has_signals_jset i k v ks : has_signals i ks = true -> has_signals (jset k v i) ks = true.
Proof.
  unfold has_signals. rewrite !forallb_forall. intros H x Hx. specialize (H x Hx).
  unfold jhas in *. apply bool_decide_eq_true in H. apply bool_decide_eq_true.
  destruct (decide (k = x)) as [->|Hne]; [by rewrite jget_jset_eq|by rewrite jget_jset_ne].
Qed.

(** The input object with [k] units moved from output A to output B. *)
Definition shift_outputs (k : Z) (i : input) : input :=
  jset "outValueB" (dec (sig i "outValueB" + k)) (jset "outValueA" (dec (sig i "outValueA" - k)) i).

Lemma shift_sig k i x : x <> "outValueA" -> x <> "outValueB" -> sig (shift_outputs k i) x = sig i x.
Proof. intros H1 H2. unfold shift_outputs. by rewrite !sig_jset_ne. Qed.
Lemma shift_sigs k i x : x <> "outValueA" -> x <> "outValueB" -> sigs (shift_outputs k i) x = sigs i x.
Proof. intros H1 H2. unfold shift_outputs. by rewrite !sigs_jset_ne. Qed.
Lemma shift_outA k i : sig (shift_outputs k i) "outValueA" = fmod (sig i "outValueA" - k).
Proof. unfold shift_outputs. rewrite sig_jset_ne by done. apply sig_jset_eq. Qed.
Lemma shift_outB k i : sig (shift_outputs k i) "outValueB" = fmod (sig i "outValueB" + k).
Proof. apply sig_jset_eq. Qed.

Lemma shift_satisfies k i : MpcSettlement i = true -> MpcSettlement (shift_outputs k i) = true.
Proof.
  unfold MpcSettlement. rewrite !andb_true_iff. intros (((((((Hs & HA) & HB) & HlA) & HlB) & HrA) & HrB) & Hsum).
  rewrite shift_outA, shift_outB, !shift_sig, !shift_sigs by done. split_and!; try done.
  - by apply has_signals_jset, has_signals_jset.
  - apply Z.eqb_eq in Hsum. apply Z.eqb_eq. rewrite <- Hsum. unfold fmod.
    rewrite <- Z.add_mod by done. f_equal. lia.
Qed.

End Proving.

(** ** Concrete parameters for the examples *)

#[local] Instance fieldPoseidon : Poseidon :=
  fun l => fmod (foldr (fun x acc => fmod x + 31 * acc + 7) (Z.of_nat (length l)) l).
#[local] Instance fieldPoseidon_laws : PoseidonLaws fieldPoseidon.
Proof.
  split; [|intros l; apply fmod_range]. intros l. unfold poseidonHash, fieldPoseidon. f_equal.
  rewrite length_map. generalize (Z.of_nat (length l)). induction l as [|x l IH]; intros n; [done|].
  cbn. by rewrite IH, fmod_fmod.
Qed.

#[local] Instance plainCircomlib : Circomlib := {|
  Num2Bits := fun n x => x <? 2 ^ n; LessThan := fun _ a b => a <? b;
  LessEqThan := fun _ a b => a <=? b; GreaterEqThan := fun _ a b => b <=? a |}.
#[local] Instance plainCircomlib_laws : CircomlibLaws plainCircomlib.
Proof. split; intros; cbn; [apply Z.ltb_lt|done..]. Qed.

Definition ex_random (s : string) : CoinRandom := {| rnd_nullifier := s; rnd_secret := s +:+ "1"; rnd_label := s +:+ "2" |}.
Definition ex_coin (v a : Z) (s : string) : Bn254Coin := generateCoinBn254 v a (Some 77) (ex_random s).

Lemma ex_coin_ok v a s : 0 <= v < 2 ^ 128 -> in_field a -> coin_ok (ex_coin v a s).
Proof. intros Hv Ha. apply generateCoin_ok; [done|done|]. by intros x [= <-]. Qed.

Definition ex_in : Bn254Coin := ex_coin 100 5 "a".
Definition ex_out : Bn254Coin := ex_coin 97 5 "b".
Definition ex_leaves : list Z := [commitment ex_in; commitment (ex_coin 60 5 "c"); commitment (ex_coin 40 6 "d")].
Definition ex_labels : list Z := [3; 77].

Lemma ex_leaf_in : leaf_at ex_leaves 12 0 (commitment ex_in).
Proof. split_and!; [reflexivity|cbn; lia|]. unfold ex_leaves. repeat constructor; apply poseidon_range. Qed.
Lemma ex_leaf_c : leaf_at ex_leaves 12 1 (commitment (ex_coin 60 5 "c")).
Proof. split_and!; [reflexivity|cbn; lia|]. unfold ex_leaves. repeat constructor; apply poseidon_range. Qed.
Lemma ex_leaf_d : leaf_at ex_leaves 12 2 (commitment (ex_coin 40 6 "d")).
Proof. split_and!; [reflexivity|cbn; lia|]. unfold ex_leaves. repeat constructor; apply poseidon_range. Qed.
Lemma ex_label : leaf_at ex_labels 2 1 77.
Proof. split_and!; [reflexivity|cbn; lia|]. by repeat constructor. Qed.
Lemma ex_ok v a s : 0 <= v < 2 ^ 128 -> in_field a -> coin_ok (ex_coin v a s).
Proof. apply ex_coin_ok. Qed.

(** ** Properties *)

(** C16: a private transfer of well-formed notes that passes the builder's
    conservation guards is provable: the builder returns an input object that
    satisfies every constraint of the transfer circuit (membership of the spent
    note and of its label, commitment of the output, conservation, ranges). *)
Theorem transfer_builder_satisfies_circuit (HP : Poseidon) (PL : PoseidonLaws HP) (CL : Circomlib) (CLL : CircomlibLaws CL)
    (p : TransferInputBn254) :
  coin_ok (t_inCoin p) -> coin_ok (t_outCoin p) -> 0 <= t_feePublic p < 2 ^ 128 ->
  leaf_at (t_stateLeaves p) 12 (t_stateIndex p) (commitment (t_inCoin p)) ->
  leaf_at (t_assocLabels p) 2 (t_labelIndex p) (label (t_inCoin p)) ->
  assetId (t_outCoin p) = assetId (t_inCoin p) -> value (t_outCoin p) = value (t_inCoin p) - t_feePublic p ->
  exists i, transfer_input p = Ok i /\ PrivateTransfer i = true.
Proof. apply transfer_complete. Qed.

Definition ex_transfer : TransferInputBn254 :=
  {| t_inCoin := ex_in; t_outCoin := ex_out; t_stateLeaves := ex_leaves; t_stateIndex := 0; t_assocLabels := ex_labels;
     t_labelIndex := 1; t_feePublic := 3; t_poolId := 9; t_chainId := 10 |}.

Lemma transfer_builder_satisfies_circuit_witness :
  exists i, transfer_input ex_transfer = Ok i /\ PrivateTransfer i = true.
Proof.
  apply (transfer_builder_satisfies_circuit fieldPoseidon fieldPoseidon_laws plainCircomlib plainCircomlib_laws ex_transfer).
  - apply ex_ok; [split; [discriminate|reflexivity]|done].
  - apply ex_ok; [split; [discriminate|reflexivity]|done].
  - split; [discriminate|reflexivity].
  - apply ex_leaf_in.
  - apply ex_label.
  - reflexivity.
  - reflexivity.
Defined.

(** A withdrawal (public, CCTP or RFQ) of at most the note's value, with a
    fee of at most the withdrawn amount, is provable: the builder returns an
    input object that satisfies the withdrawal circuit. *)
Theorem withdraw_builder_satisfies_circuit (HP : Poseidon) (PL : PoseidonLaws HP) (CL : Circomlib) (CLL : CircomlibLaws CL)
    (p : WithdrawInputBn254) :
  coin_ok (w_coin p) ->
  0 <= relayerFee (binding p) <= withdrawnValue p -> withdrawnValue p <= value (w_coin p) ->
  leaf_at (w_stateLeaves p) 12 (w_stateIndex p) (commitment (w_coin p)) ->
  leaf_at (w_assocLabels p) 2 (w_labelIndex p) (label (w_coin p)) ->
  exists i, withdraw_input p = Ok i /\ Withdraw i = true.
Proof. apply withdraw_complete. Qed.

Definition ex_withdraw : WithdrawInputBn254 :=
  {| w_coin := ex_in; withdrawnValue := 80; w_stateLeaves := ex_leaves; w_stateIndex := 0; w_assocLabels := ex_labels;
     w_labelIndex := 1; w_poolId := 9; w_chainId := 10;
     binding := {| operationType := OP_WITHDRAW_CCTP; recipientHash := 4; relayerFee := 2; deadlineLedger := 50;
                   quoteHash := None; intentHash := None; fillReceiptHash := None; destinationDomain := Some 6;
                   destinationRecipient := Some 8; maxFee := Some 1; minFinalityThreshold := None |} |}.

Lemma withdraw_builder_satisfies_circuit_witness :
  exists i, withdraw_input ex_withdraw = Ok i /\ Withdraw i = true.
Proof.
  apply (withdraw_builder_satisfies_circuit fieldPoseidon fieldPoseidon_laws plainCircomlib plainCircomlib_laws ex_withdraw).
  - apply ex_ok; [split; [discriminate|reflexivity]|done].
  - split; discriminate.
  - discriminate.
  - apply ex_leaf_in.
  - apply ex_label.
Defined.

(** Opening a channel splits the spent note exactly: the builder's input
    satisfies the opening circuit, and the change and reclaim notes it returns
    are well formed and add up to the spent value. *)
Theorem stream_open_builder_conserves (HP : Poseidon) (PL : PoseidonLaws HP) (CL : Circomlib) (CLL : CircomlibLaws CL)
    (p : StreamOpenInputBn254) (rndChange rndReclaim : CoinRandom) :
  coin_ok (so_inCoin p) -> 0 <= so_cap p <= value (so_inCoin p) ->
  leaf_at (so_stateLeaves p) 12 (so_stateIndex p) (commitment (so_inCoin p)) ->
  leaf_at (so_assocLabels p) 2 (so_labelIndex p) (label (so_inCoin p)) ->
  exists i change reclaim, open_input p rndChange rndReclaim = Ok (i, change, reclaim) /\ StreamOpen i = true /\
    coin_ok change /\ coin_ok reclaim /\ value change + value reclaim = value (so_inCoin p).
Proof. apply open_complete. Qed.

Definition ex_open : StreamOpenInputBn254 :=
  {| so_inCoin := ex_in; so_stateLeaves := ex_leaves; so_stateIndex := 0; so_assocLabels := ex_labels; so_labelIndex := 1;
     so_channelId := 7; so_payerAx := 11; so_payerAy := 12; so_cap := 80; so_expiry := 1000; so_poolId := 9; so_chainId := 10 |}.

Lemma stream_open_builder_conserves_witness :
  exists i change reclaim, open_input ex_open (ex_random "x") (ex_random "y") = Ok (i, change, reclaim) /\
    StreamOpen i = true /\ coin_ok change /\ coin_ok reclaim /\ value change + value reclaim = 100.
Proof.
  apply (stream_open_builder_conserves fieldPoseidon fieldPoseidon_laws plainCircomlib plainCircomlib_laws ex_open).
  - apply ex_ok; [split; [discriminate|reflexivity]|done].
  - split; discriminate.
  - apply ex_leaf_in.
  - apply ex_label.
Defined.

(** C20: settling a channel with a voucher that verifies is provable and splits
    the cap exactly: the builder's input satisfies the settlement circuit, the
    circuit's public commitments are those of the returned payee and refund
    notes, the payee's note is worth the voucher's cumulative amount and the
    two notes add up to the cap. *)
Theorem stream_settle_builder_conserves (HP : Poseidon) (PL : PoseidonLaws HP) (CL : Circomlib) (CLL : CircomlibLaws CL)
    (ED : Eddsa) (p : StreamSettleInputBn254) (rndPayee rndRefund : CoinRandom) :
  verifyVoucher (ss_voucher p) = Ok true ->
  0 <= cumulative (ss_voucher p) <= ss_cap p -> ss_cap p < 2 ^ 128 -> in_field (ss_assetId p) ->
  Forall in_field [channelId (ss_voucher p); Ax (ss_voucher p); Ay (ss_voucher p); R8x (ss_voucher p);
                   R8y (ss_voucher p); sig_S (ss_voucher p)] ->
  (forall z, seq (ss_voucher p) = Int z -> in_field z) ->
  exists i payee refund, settle_input p rndPayee rndRefund = Ok (i, payee, refund) /\ StreamSettle i = true /\
    StreamSettle_outputs i = (commitment payee, commitment refund) /\
    value payee = cumulative (ss_voucher p) /\ value payee + value refund = ss_cap p.
Proof. apply settle_complete. Qed.

Definition ex_voucher : Voucher :=
  {| channelId := 7; cumulative := 30; seq := Int 1; R8x := 7 + 31 * (30 + 31 * (1 + 31 * 7)); R8y := 0;
     sig_S := 98; Ax := 98; Ay := 1 |}.
Definition ex_settle : StreamSettleInputBn254 :=
  {| ss_voucher := ex_voucher; ss_cap := 80; ss_assetId := 5; ss_associationRoot := 6; ss_poolId := 9; ss_chainId := 10 |}.

Lemma stream_settle_builder_conserves_witness :
  exists i payee refund, settle_input ex_settle (ex_random "x") (ex_random "y") = Ok (i, payee, refund) /\
    StreamSettle i = true /\ StreamSettle_outputs i = (commitment payee, commitment refund) /\
    value payee = 30 /\ value payee + value refund = 80.
Proof.
  apply (stream_settle_builder_conserves fieldPoseidon fieldPoseidon_laws plainCircomlib plainCircomlib_laws toyEddsa ex_settle).
  - reflexivity.
  - split; discriminate.
  - reflexivity.
  - done.
  - by repeat constructor.
  - by intros z [= <-].
Defined.

(** A priced cross-asset match at price [priceScaled / 10^9] that respects
    both minimum outputs is provable: the builder's fixed-point check is exactly
    the circuit's floor constraint and its slippage guards are the circuit's. *)
Theorem priced_builder_satisfies_circuit (HP : Poseidon) (PL : PoseidonLaws HP) (CL : Circomlib) (CLL : CircomlibLaws CL)
    (p : MpcPricedSettlementInputBn254) :
  coin_ok (q_coinA p) -> coin_ok (q_coinB p) -> in_field (assetId (q_outCoinA p)) -> in_field (assetId (q_outCoinB p)) ->
  assetId (q_coinA p) <> assetId (q_coinB p) -> assetId (q_outCoinA p) = assetId (q_coinB p) ->
  assetId (q_outCoinB p) = assetId (q_coinA p) -> value (q_coinA p) = q_matchedAmountA p ->
  value (q_coinB p) = q_matchedAmountB p -> value (q_outCoinA p) = q_matchedAmountB p ->
  value (q_outCoinB p) = q_matchedAmountA p -> q_priceScale p = None -> 0 <= q_priceScaled p < 2 ^ 64 ->
  q_matchedAmountB p = q_matchedAmountA p * q_priceScaled p / 1000000000 ->
  0 <= q_minOutputA p <= q_matchedAmountB p -> 0 <= q_minOutputB p <= q_matchedAmountA p ->
  q_matchedAmountA p < 2 ^ 64 -> q_matchedAmountB p < 2 ^ 64 ->
  leaf_at (q_stateLeaves p) 12 (q_stateIndexA p) (commitment (q_coinA p)) ->
  leaf_at (q_stateLeaves p) 12 (q_stateIndexB p) (commitment (q_coinB p)) ->
  leaf_at (q_assocLabels p) 2 (q_labelIndexA p) (label (q_coinA p)) ->
  leaf_at (q_assocLabels p) 2 (q_labelIndexB p) (label (q_coinB p)) ->
  exists i, priced_input p = Ok i /\ MpcPricedSettlement i = true.
Proof. apply priced_complete. Qed.

Definition ex_priced : MpcPricedSettlementInputBn254 :=
  {| q_coinA := ex_in; q_coinB := ex_coin 40 6 "d"; q_outCoinA := ex_coin 40 6 "e"; q_outCoinB := ex_coin 100 5 "f";
     q_stateLeaves := ex_leaves; q_stateIndexA := 0; q_stateIndexB := 2; q_assocLabels := ex_labels; q_labelIndexA := 1;
     q_labelIndexB := 1; q_matchedAmountA := 100; q_matchedAmountB := 40; q_priceScaled := 409999999; q_priceScale := None;
     q_minOutputA := 39; q_minOutputB := 100; q_batchHash := 1; q_poolId := 9; q_chainId := 10; q_deadlineLedger := 50 |}.

Lemma priced_builder_satisfies_circuit_witness :
  exists i, priced_input ex_priced = Ok i /\ MpcPricedSettlement i = true.
Proof.
  apply (priced_builder_satisfies_circuit fieldPoseidon fieldPoseidon_laws plainCircomlib plainCircomlib_laws ex_priced);
    try reflexivity; try discriminate; try (split; [discriminate|first [reflexivity|discriminate]]).
  - apply ex_ok; [split; [discriminate|reflexivity]|done].
  - apply ex_ok; [split; [discriminate|reflexivity]|done].
  - apply ex_leaf_in.
  - apply ex_leaf_d.
  - apply ex_label.
  - apply ex_label.
Defined.

(** C23: no value is created by a transfer, a withdrawal or a channel settlement:
    in every satisfied instance of those circuits, as integers, the spent note
    covers the output and the fee, the withdrawn amount and its fee, or the
    payee's and the payer's share, without modular wrap-around. *)
Theorem circuits_conserve_value (CL : Circomlib) (CLL : CircomlibLaws CL) (HP : Poseidon) (ED : Eddsa) (i : input) :
  (PrivateTransfer i = true -> sig i "inValue" = sig i "outValue" + sig i "feePublic") /\
  (Withdraw i = true -> 0 <= sig i "relayerFee" <= sig i "withdrawnValue" /\ sig i "withdrawnValue" <= sig i "value") /\
  (StreamSettle i = true -> 0 <= sig i "cumulative" <= sig i "cap" /\
     fmod (sig i "cap" - sig i "cumulative") = sig i "cap" - sig i "cumulative").
Proof.
  split_and!; intros H; [by apply transfer_sound|by apply withdraw_sound|by apply settle_sound].
Qed.

Lemma circuits_conserve_value_witness :
  exists i, transfer_input ex_transfer = Ok i /\ sig i "inValue" = sig i "outValue" + sig i "feePublic".
Proof.
  destruct (transfer_complete ex_transfer) as (i & Hi & Hs).
  - apply ex_ok; [split; [discriminate|reflexivity]|done].
  - apply ex_ok; [split; [discriminate|reflexivity]|done].
  - split; [discriminate|reflexivity].
  - apply ex_leaf_in.
  - apply ex_label.
  - reflexivity.
  - reflexivity.
  - exists i. split; [exact Hi|].
    exact (proj1 (circuits_conserve_value plainCircomlib plainCircomlib_laws fieldPoseidon toyEddsa i) Hs).
Defined.

(** The settlement example: the parties bring 100 and 60 of asset 5 and cross 50. *)
Definition ex_mpc : MpcSettlementInputBn254 :=
  {| m_coinA := ex_in; m_coinB := ex_coin 60 5 "c"; m_outCoinA := ex_coin 50 5 "e"; m_outCoinB := ex_coin 50 5 "f";
     m_stateLeaves := ex_leaves; m_stateIndexA := 0; m_stateIndexB := 1; m_assocLabels := ex_labels; m_labelIndexA := 1;
     m_labelIndexB := 1; m_matchedAmount7dp := 50; m_batchHash := 1; m_poolId := 9; m_chainId := 10; m_deadlineLedger := 50 |}.

Lemma ex_mpc_satisfies : exists i, mpc_input ex_mpc = Ok i /\ MpcSettlement i = true.
Proof.
  assert (forall v a s, 0 <= v < 1000 -> 0 <= a < 10 -> coin_ok (ex_coin v a s)) as Hok.
  { intros v a s Hv Ha. pose proof small_128. apply ex_ok; unfold in_field; lia. }
  destruct (mpc_complete ex_mpc) as (i & Hi & Hs & _).
  1-4: apply Hok; lia.
  1-3: reflexivity.
  1: reflexivity.
  1-2: cbn; lia.
  - apply ex_leaf_in.
  - apply ex_leaf_c.
  - apply ex_label.
  - apply ex_label.
  - exists i. split; [exact Hi|exact Hs].
Qed.

(** The same-asset settlement circuit does not conserve value: its outputs
    are only constrained to sum to twice the matched amount modulo the field,
    without range checks, so from every satisfying input one obtains another,
    with the same inputs, in which output B commits to any larger 128-bit
    amount that the withdrawal circuit accepts. *)
Theorem mpc_settlement_outputs_unbounded (HP : Poseidon) (CL : Circomlib) (i : input) (k : Z) :
  MpcSettlement i = true -> 0 <= k -> sig i "outValueB" + k < 2 ^ 128 ->
  exists i', MpcSettlement i' = true /\
    (forall x, x <> "outValueA" -> x <> "outValueB" -> sig i' x = sig i x) /\
    (MpcSettlement_outputs i').2 =
      commitment_of (sig i "assetId") (sig i "outValueB" + k) (sig i "outLabelB") (sig i "outNullifierB") (sig i "outSecretB").
Proof.
  intros Hs Hk Hlt. exists (shift_outputs k i). split; [by apply shift_satisfies|]. split; [intros x; apply shift_sig|].
  unfold MpcSettlement_outputs. cbn [snd]. rewrite shift_outB, !shift_sig by done. f_equal.
  pose proof small_128. pose proof (sig_range i "outValueB") as Hr. unfold in_field in Hr.
  rewrite fmod_id; [done|unfold in_field; lia].
Qed.

Lemma mpc_settlement_outputs_unbounded_witness :
  exists i, mpc_input ex_mpc = Ok i /\ exists i', MpcSettlement i' = true /\
    (forall x, x <> "outValueA" -> x <> "outValueB" -> sig i' x = sig i x) /\
    (MpcSettlement_outputs i').2 = commitment_of (sig i "assetId") (sig i "outValueB" + 1000000) (sig i "outLabelB")
                                     (sig i "outNullifierB") (sig i "outSecretB").
Proof.
  destruct ex_mpc_satisfies as (i & Hi & Hs). exists i. split; [exact Hi|].
  apply (mpc_settlement_outputs_unbounded fieldPoseidon plainCircomlib i 1000000 Hs); [discriminate|].
  vm_compute in Hi. injection Hi as <-. vm_compute. reflexivity.
Defined.
