(* ===== verification/Committee.v ===== *)
(** The committee's cryptographic layer (packages/mpc-crypto/src/committee.ts,
    types.ts and the share encoding of shamir.ts): encrypted Shamir shares, the
    canonical batch hash and threshold signatures over it.

    NaCl and SHA-256 are the class [Nacl]; what the code relies on is in
    [NaclLaws]: a box opens with the matching keys, a detached signature
    verifies under its own key. *)

From S2P Require Import Prelude Shamir Text Json.
Local Open Scope string_scope.
Local Open Scope Z_scope.

(** ** Libraries *)

Class Nacl := {
  box_public : string -> string;          (** public half of an X25519 secret key *)
  sign_public : string -> string;         (** public half of an Ed25519 secret key *)
  box : string -> string -> string -> string -> result string;
  box_open : string -> string -> string -> string -> result (option string);
  sign_detached : string -> string -> result string;
  sign_verify : string -> string -> string -> result bool;
  sha256 : string -> string
}.

(** Keys of the sizes NaCl generates. *)
Definition box_secret (sk : string) : Prop := String.length sk = 32%nat.
Definition sign_secret (sk : string) : Prop := String.length sk = 64%nat.
Definition is_nonce (n : string) : Prop := String.length n = 24%nat.

Class NaclLaws (N : Nacl) : Prop := {
  box_seals : forall m n skS skR, is_nonce n -> box_secret skS -> box_secret skR ->
    exists c, box m n (box_public skR) skS = Ok c /\ box_open c n (box_public skS) skR = Ok (Some m);
  sign_total : forall m sk, sign_secret sk -> exists s, sign_detached m sk = Ok s /\ sign_verify m s (sign_public sk) = Ok true
}.

(** ** Types *)

Record CommitteeNodeInfo := { ni_nodeId : string; encryptionPubkey : string; signingPubkey : string }.
Record EncryptedShare := { es_nodeId : string; ciphertext : string; nonce : string; senderPubkey : string }.
Record MatchResult := {
  intentAId : string; intentBId : string; matchedAmount7dp : string; m_inputAsset : string; m_outputAsset : string;
  m_priceScaled : option string; m_assetIn : option string; m_assetOut : option string }.
Record NodeSignature := { ns_nodeId : string; ns_signingPubkey : string; signature : string }.
Record SignedMatchBatch := {
  batchId : string; sb_sessionId : string; matches : list MatchResult; batchHash : string; signatures : list NodeSignature }.

(** The secret halves; the public ones are derived. *)
Record CommitteeNodeKeyPair := { nodeId : string; enc_secretKey : string; sign_secretKey : string }.

#[global] Instance MatchResult_eq_dec : EqDecision MatchResult.
Proof. solve_decision. Defined.

(** ** Shares on the wire *)

Definition encodeShare (s : Share) : json := JObj [("x", JStr (toString (x s))); ("y", JStr (toString (y s)))].

(** [{ x: BigInt(encoded.x), y: BigInt(encoded.y) }] of any parsed value. *)
Definition decodeShare (e : json) : result Share :=
  match prop "x" e ≫= BigInt_json, prop "y" e ≫= BigInt_json with
  | Some a, Some b => Ok (mkShare a b)
  | _, _ => Err "cannot convert to a BigInt"
  end.

Section Committee.
Context {N : Nacl}.

Definition nodePublicInfo (kp : CommitteeNodeKeyPair) : CommitteeNodeInfo :=
  {| ni_nodeId := nodeId kp;
     encryptionPubkey := hex_encode (box_public (enc_secretKey kp));
     signingPubkey := hex_encode (sign_public (sign_secretKey kp)) |}.

(** The ephemeral secret key and the nonce drawn for one share. *)
Definition generateNodeKeyPair (id encSecret signSecret : string) : CommitteeNodeKeyPair :=
  {| nodeId := id; enc_secretKey := encSecret; sign_secretKey := signSecret |}.

Definition encryptShareForNode (share : json) (recipientPubkeyHex nodeId : string) (ephemeral nonce : string)
    : result EncryptedShare :=
  let recipientPk := hex_decode recipientPubkeyHex in
  let plaintext := stringify share in
  let! ct := box plaintext nonce recipientPk ephemeral in
  Ok {| es_nodeId := nodeId; ciphertext := hex_encode ct; nonce := hex_encode nonce;
        senderPubkey := hex_encode (box_public ephemeral) |}.

(** [nodes.map((node, i) => ...)]; one (ephemeral key, nonce) per node. *)
Fixpoint encrypt_all (shares : list Share) (nodes : list CommitteeNodeInfo) (rnd : list (string * string))
    : result (list EncryptedShare) :=
  match nodes, shares, rnd with
  | [], _, _ => Ok []
  | n :: nodes, s :: shares, (eph, nonce) :: rnd =>
      let! e := encryptShareForNode (encodeShare s) (encryptionPubkey n) (ni_nodeId n) eph nonce in
      let! r := encrypt_all shares nodes rnd in Ok (e :: r)
  | _, _, _ => Err "TypeError: share is undefined"
  end.

(** [None] when the supply of random draws runs out. *)
Definition splitAmountForCommittee (amount7dpStr : string) (nodes : list CommitteeNodeInfo) (threshold : nat)
    (draws : list Z) (rnd : list (string * string)) : option (result (list EncryptedShare)) :=
  match BigInt amount7dpStr with
  | None => Some (Err "SyntaxError: Cannot convert to a BigInt")
  | Some amount =>
      match shamirSplit amount threshold (length nodes) draws with
      | None => None
      | Some r => Some (let! rawShares := r in encrypt_all rawShares nodes rnd)
      end
  end.

(** Whatever JSON value the plaintext holds; an error is the text a template
    string prints it as. *)
Definition decryptShare (encrypted : EncryptedShare) (secretKey : string) : result json :=
  let! pt := box_open (hex_decode (ciphertext encrypted)) (hex_decode (nonce encrypted))
               (hex_decode (senderPubkey encrypted)) secretKey in
  match pt with
  | None => Err "Error: decryptShare: authentication failed — tampered ciphertext"
  | Some plaintext => match JSON_parse plaintext with Some v => Ok v | None => Err "SyntaxError: share is not JSON" end
  end.

Fixpoint decode_all (l : list json) : result (list Share) :=
  match l with [] => Ok [] | e :: l => let! s := decodeShare e in let! r := decode_all l in Ok (s :: r) end.

Definition reconstructAmount (decryptedShares : list json) : result Z :=
  let! shares := decode_all decryptedShares in Ok (shamirReconstruct shares).

(** ** The batch hash *)

Definition row := list (string * string).

Definition batch_row (m : MatchResult) : row :=
  [("a", intentAId m); ("b", intentBId m); ("amt", matchedAmount7dp m); ("in", m_inputAsset m); ("out", m_outputAsset m);
   ("price", default "" (m_priceScaled m)); ("assetIn", default "" (m_assetIn m)); ("assetOut", default "" (m_assetOut m))].

Definition NUL : string := String "000" "".

(** The sort key: the eight fields separated by NUL characters. *)
Definition row_key (r : row) : string := join NUL r.*2.

Definition row_lt (r s : row) : bool := str_ltb (row_key r) (row_key s).

Definition row_json (r : row) : json := JObj (map (fun kv => (kv.1, JStr kv.2)) r).

Definition canonical (batchId : string) (ms : list MatchResult) : string :=
  stringify (JObj [("batchId", JStr batchId); ("matches", JArr (map row_json (js_sort row_lt (map batch_row ms))))]).

Definition computeBatchHash (batchId : string) (ms : list MatchResult) : string :=
  hex_encode (sha256 (canonical batchId ms)).

(** ** Signatures *)

Definition signBatch (batchId : string) (ms : list MatchResult) (kp : CommitteeNodeKeyPair) : result NodeSignature :=
  let batchHash := computeBatchHash batchId ms in
  let msg := hex_decode batchHash in
  let! sig := sign_detached msg (sign_secretKey kp) in
  Ok {| ns_nodeId := nodeId kp; ns_signingPubkey := hex_encode (sign_public (sign_secretKey kp)); signature := hex_encode sig |}.

Definition verifyNodeSignature (batchId : string) (ms : list MatchResult) (sig : NodeSignature) : result bool :=
  let batchHash := computeBatchHash batchId ms in
  let msg := hex_decode batchHash in
  let pk := hex_decode (ns_signingPubkey sig) in
  let sgn := hex_decode (signature sig) in
  sign_verify msg sgn pk.

(** The loop of [verifySignedBatch]; [seenSigners] as a list. *)
Fixpoint verify_loop (batchId : string) (ms : list MatchResult) (expected : list string)
    (sigs : list NodeSignature) (seen : list string) : result (option (list string)) :=
  match sigs with
  | [] => Ok (Some seen)
  | sig :: sigs =>
      if negb (bool_decide (ns_signingPubkey sig ∈ expected)) then Ok None
      else if bool_decide (ns_signingPubkey sig ∈ seen) then Ok None
      else
        let! ok := verifyNodeSignature batchId ms sig in
        if negb ok then Ok None
        else verify_loop batchId ms expected sigs (ns_signingPubkey sig :: seen)
  end.

Definition verifySignedBatch (batch : SignedMatchBatch) (committee : list CommitteeNodeInfo) : result bool :=
  let! seen := verify_loop (batchId batch) (matches batch) (map signingPubkey committee) (signatures batch) [] in
  Ok (match seen with
      | None => false
      | Some seen => (ceil_two_thirds (length committee) <=? length seen)%nat
      end).

(** ** Shares *)

Lemma decode_encode s : decodeShare (encodeShare s) = Ok s.
Proof.
  unfold decodeShare. change (prop "x" (encodeShare s)) with (Some (JStr (toString (x s)))).
  change (prop "y" (encodeShare s)) with (Some (JStr (toString (y s)))). cbn [mbind option_bind BigInt_json].
  rewrite !BigInt_toString. by destruct s.
Qed.

Lemma encodeShare_wf s : json_wf (encodeShare s).
Proof. split; [|done]. cbn. by apply (bool_decide_eq_true_1 _). Qed.

Lemma decode_all_encode l : decode_all (map encodeShare l) = Ok l.
Proof. induction l as [|s l IH]; [done|]. cbn [map decode_all]. by rewrite decode_encode, IH. Qed.

Section Laws.
Context {NL : NaclLaws N}.

Lemma decrypt_encrypt s skR id eph n :
  box_secret skR -> box_secret eph -> is_nonce n ->
  exists e, encryptShareForNode (encodeShare s) (hex_encode (box_public skR)) id eph n = Ok e /\
            es_nodeId e = id /\ decryptShare e skR = Ok (encodeShare s).
Proof.
  intros HR HE Hn. unfold encryptShareForNode. rewrite hex_decode_encode.
  destruct (box_seals (stringify (encodeShare s)) n eph skR Hn HE HR) as (c & -> & Ho). cbn [rbind].
  eexists. split_and!; [reflexivity|reflexivity|]. unfold decryptShare. cbn [ciphertext nonce senderPubkey].
  rewrite !hex_decode_encode, Ho. cbn [rbind]. by rewrite JSON_parse_stringify by apply encodeShare_wf.
Qed.

Definition node_ok (kp : CommitteeNodeKeyPair) : Prop := box_secret (enc_secretKey kp) /\ sign_secret (sign_secretKey kp).
Definition rnd_ok (r : string * string) : Prop := box_secret r.1 /\ is_nonce r.2.

Lemma encrypt_all_ok shares nodes rnd :
  Forall node_ok nodes -> Forall rnd_ok rnd -> length shares = length nodes -> length rnd = length nodes ->
  exists encs, encrypt_all shares (map nodePublicInfo nodes) rnd = Ok encs /\
    Forall2 (fun kp e => es_nodeId e = nodeId kp) nodes encs /\
    forall i kp, nodes !! i = Some kp -> exists e, encs !! i = Some e /\
      decryptShare e (enc_secretKey kp) = Ok (encodeShare (share_at shares i)).
Proof.
  intros Hn. revert shares rnd. induction Hn as [|kp nodes [Hkp _] _ IH]; intros shares rnd Hr Hls Hlr.
  { exists []. split_and!; [by destruct shares, rnd|constructor|done]. }
  destruct shares as [|s shares]; [done|]. destruct rnd as [|[eph n] rnd]; [done|].
  inversion Hr as [|? ? [Heph Hnon] Hr']; subst. cbn [map encrypt_all].
  destruct (decrypt_encrypt s (enc_secretKey kp) (nodeId kp) eph n Hkp Heph Hnon) as (e & He & Hid & Hd).
  cbn [nodePublicInfo encryptionPubkey ni_nodeId]. rewrite He. cbn [rbind].
  destruct (IH shares rnd Hr') as (encs & -> & HF & HD); [by injection Hls|by injection Hlr|]. cbn [rbind].
  exists (e :: encs). split_and!; [done|by constructor|].
  intros [|i] kp' Hi; cbn in Hi; [injection Hi as <-; by exists e|].
  destruct (HD i kp' Hi) as (e' & ? & ?). by exists e'.
Qed.

(** Shares split for a committee: each node decrypts its own, and any
    [t] of them reconstruct. *)
Lemma committee_split amount nodes t draws rnd cs rest :
  0 <= amount < P -> Forall node_ok nodes -> Forall rnd_ok rnd -> length rnd = length nodes ->
  (2 <= t <= length nodes)%nat -> Z.of_nat (length nodes) < P -> draw_coeffs (t - 1) draws = Some (cs, rest) ->
  exists encs shares, splitAmountForCommittee (toString amount) (map nodePublicInfo nodes) t draws rnd = Some (Ok encs) /\
    Forall2 (fun kp e => es_nodeId e = nodeId kp) nodes encs /\
    (forall i kp, nodes !! i = Some kp -> exists e, encs !! i = Some e /\
       decryptShare e (enc_secretKey kp) = Ok (encodeShare (share_at shares i))) /\
    forall idx, NoDup idx -> Forall (fun i => (i < length nodes)%nat) idx -> (t <= length idx)%nat ->
      reconstructAmount (map (fun i => encodeShare (share_at shares i)) idx) = Ok amount.
Proof.
  intros Ha Hn Hr Hlr Ht HP Hdraw. unfold splitAmountForCommittee.
  rewrite BigInt_toString, length_map. destruct (shamirSplit amount t (length nodes) draws) as [[shares|]|] eqn:Es.
  2-3: exfalso; unfold shamirSplit in Es; rewrite Hdraw in Es;
       destruct (Nat.ltb_spec t 2), (Nat.ltb_spec (length nodes) t); cbn in Es; (done || lia).
  cbn [rbind]. assert (length shares = length nodes) as Hls.
  { apply shamirSplit_Ok in Es as (_ & ? & _ & ->). by rewrite length_map, length_seq. }
  destruct (encrypt_all_ok shares nodes rnd Hn Hr Hls Hlr) as (encs & -> & HF & HD).
  exists encs, shares. split_and!; try done. intros idx Hnd Hi Hlen. unfold reconstructAmount.
  rewrite <- (map_map (share_at shares) encodeShare), decode_all_encode. cbn [rbind]. f_equal.
  by apply (reconstruct_selection amount t (length nodes) draws).
Qed.

(** All signers of an honest committee. *)
Lemma sign_verifies b ms kp : node_ok kp ->
  exists s, signBatch b ms kp = Ok s /\ ns_signingPubkey s = signingPubkey (nodePublicInfo kp) /\
            verifyNodeSignature b ms s = Ok true.
Proof.
  intros [_ Hs]. unfold signBatch.
  destruct (sign_total (hex_decode (computeBatchHash b ms)) (sign_secretKey kp) Hs) as (s & -> & Hv). cbn [rbind].
  eexists. split_and!; [reflexivity|reflexivity|]. unfold verifyNodeSignature. cbn [ns_signingPubkey signature].
  by rewrite !hex_decode_encode.
Qed.

End Laws.

(** ** The canonical form *)

Definition nul_free (s : string) : Prop := str_forall (fun c => negb (Ascii.eqb c "000")) s = true.
Definition match_ok (m : MatchResult) : Prop := Forall nul_free (batch_row m).*2.

Lemma nul_split s t u v : nul_free s -> nul_free t -> s +:+ String "000" u = t +:+ String "000" v -> s = t /\ u = v.
Proof.
  revert t. induction s as [|c s IH]; intros [|d t] Hs Ht E; cbn in *.
  - by injection E.
  - injection E as <- _. done.
  - injection E as -> _. done.
  - injection E as -> E. apply andb_prop in Hs as [_ Hs]. apply andb_prop in Ht as [_ Ht].
    destruct (IH t Hs Ht E) as [-> ->]. done.
Qed.

Lemma join_nul_inj l l' : length l = length l' -> Forall nul_free l -> Forall nul_free l' ->
  join NUL l = join NUL l' -> l = l'.
Proof.
  revert l'. induction l as [|s l IH]; intros [|t l'] Hlen Hl Hl' E; try done.
  inversion Hl as [|? ? Hs Hl1]; inversion Hl' as [|? ? Ht Hl1']; subst.
  destruct l as [|s2 l], l' as [|t2 l']; try done; [cbn in E; by rewrite E|].
  cbn [join] in E. fold (join NUL (s2 :: l)) in E. fold (join NUL (t2 :: l')) in E.
  destruct (nul_split s t (join NUL (s2 :: l)) (join NUL (t2 :: l')) Hs Ht E) as [-> E2].
  f_equal. apply IH; auto.
Qed.

Lemma batch_row_keys m m' : (batch_row m).*1 = (batch_row m').*1.
Proof. done. Qed.

Lemma pairs_eq {A B} (l l' : list (A * B)) : l.*1 = l'.*1 -> l.*2 = l'.*2 -> l = l'.
Proof.
  revert l'. induction l as [|[a b] l IH]; intros [|[a' b'] l'] H1 H2; try done.
  cbn in H1, H2. injection H1 as -> H1. injection H2 as -> H2. f_equal. by apply IH.
Qed.

Lemma batch_rows_separated ms : Forall match_ok ms -> separated row_lt (map batch_row ms).
Proof.
  intros Hok r s Hr Hs H1 H2. apply list_elem_of_In, in_map_iff in Hr as (m & <- & Hm%list_elem_of_In).
  apply list_elem_of_In, in_map_iff in Hs as (m' & <- & Hm'%list_elem_of_In). rewrite list.Forall_forall in Hok.
  apply pairs_eq; [apply batch_row_keys|].
  apply join_nul_inj; [done|by apply Hok|by apply Hok|]. by apply str_ltb_total.
Qed.

Lemma canonical_perm b ms ms' : Forall match_ok ms -> ms ≡ₚ ms' -> canonical b ms = canonical b ms'.
Proof.
  intros Hok Hp. unfold canonical.
  rewrite (js_sort_perm_invariant row_lt) with (l' := map batch_row ms'); [done| | | |].
  - intros r s. apply str_ltb_asym.
  - intros r s t. apply str_ltb_ntrans.
  - by apply batch_rows_separated.
  - by apply Permutation_map.
Qed.

Definition canonical_json (b : string) (rows : list row) : json :=
  JObj [("batchId", JStr b); ("matches", JArr (map row_json rows))].

Lemma row_json_wf r : NoDup r.*1 -> json_wf (row_json r).
Proof.
  intros Hr. split.
  - change (map (fun kv : string * string => (kv.1, JStr kv.2)) r) with ((fun kv : string * string => (kv.1, JStr kv.2)) <$> r).
    by rewrite <- list_fmap_compose.
  - clear. induction r as [|kv r IH]; [done|]. cbn. split; [done|exact IH].
Qed.

Lemma canonical_json_wf b rows : Forall (fun r => NoDup r.*1) rows -> json_wf (canonical_json b rows).
Proof.
  intros Hr. split; [cbn; by apply (bool_decide_eq_true_1 _)|].
  split; [done|]. split; [|done]. cbn. induction Hr as [|r rows H _ IH]; [done|].
  split; [by apply row_json_wf|exact IH].
Qed.

Lemma row_json_inj r s : row_json r = row_json s -> r = s.
Proof.
  unfold row_json. intros [= E]. revert s E. induction r as [|[k v] r IH]; intros [|[k' v'] s] E; try done.
  cbn in E. injection E as -> -> E. f_equal. by apply IH.
Qed.

Lemma sorted_rows_nodup ms : Forall (fun r => NoDup r.*1) (js_sort row_lt (map batch_row ms)).
Proof.
  apply list.Forall_forall. intros r Hr. apply js_sort_elem, list_elem_of_In, in_map_iff in Hr as (m & <- & _).
  by apply (bool_decide_eq_true_1 _).
Qed.

(** Equal canonical texts come from the same batch id and the same rows. *)
Lemma canonical_inj b b' ms ms' :
  canonical b ms = canonical b' ms' -> b = b' /\ map batch_row ms ≡ₚ map batch_row ms'.
Proof.
  intros E. apply stringify_inj in E;
    [|apply (canonical_json_wf b), sorted_rows_nodup|apply (canonical_json_wf b'), sorted_rows_nodup].
  injection E as -> E. split; [done|].
  assert (js_sort row_lt (map batch_row ms) = js_sort row_lt (map batch_row ms')) as Er.
  { revert E. generalize (js_sort row_lt (map batch_row ms')). generalize (js_sort row_lt (map batch_row ms)).
    induction l as [|r l IH]; intros [|s l'] E; try done. cbn in E. injection E as E1 E2.
    f_equal; [|by apply IH]. apply row_json_inj. unfold row_json. by rewrite E1. }
  by rewrite <- (js_sort_perm row_lt (map batch_row ms)), Er, js_sort_perm.
Qed.

(** ** Threshold verification *)

Lemma elem_of_map_iff {A B} (f : A -> B) l y : y ∈ map f l <-> exists a, f a = y /\ a ∈ l.
Proof. rewrite list_elem_of_In, in_map_iff. by setoid_rewrite list_elem_of_In. Qed.

Lemma verify_loop_spec b ms expected sigs seen out :
  verify_loop b ms expected sigs seen = Ok (Some out) <->
  Forall (fun s => ns_signingPubkey s ∈ expected /\ verifyNodeSignature b ms s = Ok true) sigs /\
  NoDup (map ns_signingPubkey sigs) /\ (forall s, s ∈ sigs -> ns_signingPubkey s ∉ seen) /\
  out = (rev (map ns_signingPubkey sigs) ++ seen)%list.
Proof.
  revert seen out. induction sigs as [|s sigs IH]; intros seen out; cbn [verify_loop map rev].
  { split; [intros [= <-]|intros (_ & _ & _ & ->); done]. split_and!; [constructor|constructor|set_solver|done]. }
  rewrite list.Forall_cons, list.NoDup_cons. case_bool_decide as He; cbn [negb]; [|split; [done|intros ((? & _) & _); tauto]].
  case_bool_decide as Hs; [split; [done|]; intros (_ & _ & Hn & _); exfalso; by apply (Hn s); [left|]|].
  destruct (verifyNodeSignature b ms s) as [[]|] eqn:Ev; cbn [rbind negb];
    [|split; [done|intros (((_ & ?) & _) & _); congruence]..].
  rewrite IH, <- app_assoc, elem_of_map_iff. cbn [app]. split.
  - intros (HA & HB & HC & ->). split_and!; try done.
    + intros (s' & E & Hin). apply (HC s' Hin). rewrite E. left.
    + intros s' [->|Hin]%elem_of_cons; [done|]. intros Hx. apply (HC s' Hin). by right.
  - intros ((_ & HA) & (HB1 & HB2) & HC & ->). split_and!; try done.
    intros s' Hin Hx. apply elem_of_cons in Hx as [E|Hx]; [|apply (HC s'); [by right|done]].
    apply HB1. by exists s'.
Qed.

Definition accepted_batch (batch : SignedMatchBatch) (committee : list CommitteeNodeInfo) : Prop :=
  Forall (fun s => ns_signingPubkey s ∈ map signingPubkey committee /\
                   verifyNodeSignature (batchId batch) (matches batch) s = Ok true) (signatures batch) /\
  NoDup (map ns_signingPubkey (signatures batch)) /\
  (ceil_two_thirds (length committee) <= length (signatures batch))%nat.

Lemma verifySignedBatch_iff batch committee :
  verifySignedBatch batch committee = Ok true <-> accepted_batch batch committee.
Proof.
  unfold verifySignedBatch, accepted_batch. split.
  - destruct (verify_loop _ _ _ _ _) as [[seen|]|] eqn:E; cbn [rbind]; try done. intros [= Hc].
    apply verify_loop_spec in E as (HA & HB & _ & ->). split_and!; [done|done|].
    apply Nat.leb_le in Hc. by rewrite app_nil_r, length_rev, length_map in Hc.
  - intros (HA & HB & HC).
    assert (verify_loop (batchId batch) (matches batch) (map signingPubkey committee) (signatures batch) []
            = Ok (Some (rev (map ns_signingPubkey (signatures batch)) ++ [])%list)) as ->.
    { apply verify_loop_spec. split_and!; [done|done|set_solver|done]. }
    cbn [rbind]. f_equal. apply Nat.leb_le. by rewrite app_nil_r, length_rev, length_map.
Qed.

(** Two subsets of a set of [n] keys overlap in at least their excess. *)
Lemma quorum_overlap (K s1 s2 : list string) :
  NoDup s1 -> NoDup s2 -> (forall k, k ∈ s1 -> k ∈ K) -> (forall k, k ∈ s2 -> k ∈ K) ->
  (length s1 + length s2 <= length K + length (filter (fun k => k ∈ s2) s1))%nat.
Proof.
  intros H1 H2 I1 I2.
  assert (length s1 = length (filter (fun k => k ∈ s2) s1) + length (filter (fun k => k ∉ s2) s1))%nat as E.
  { clear. induction s1 as [|k s1 IH]; [done|]. rewrite !filter_cons.
    destruct (decide (k ∈ s2)); repeat case_decide; try tauto; cbn; lia. }
  assert (length (filter (fun k => k ∉ s2) s1 ++ s2)%list <= length K)%nat as HL.
  { apply submseteq_length, NoDup_submseteq.
    - apply list.NoDup_app. split_and!; [by apply list.NoDup_filter| |done].
      intros k Hk. apply list_elem_of_filter in Hk. tauto.
    - intros k Hk. apply elem_of_app in Hk as [Hk|Hk]; [|by apply I2].
      apply list_elem_of_filter in Hk as [_ Hk]. by apply I1. }
  rewrite length_app in HL. lia.
Qed.

Definition signers (batch : SignedMatchBatch) : list string := map ns_signingPubkey (signatures batch).

Lemma accepted_overlap b1 b2 committee :
  accepted_batch b1 committee -> accepted_batch b2 committee ->
  (length committee <= 3 * length (filter (fun k => k ∈ signers b2) (signers b1)))%nat.
Proof.
  intros (HA1 & HB1 & HC1) (HA2 & HB2 & HC2). rewrite list.Forall_forall in HA1, HA2.
  pose proof (quorum_overlap (map signingPubkey committee) (signers b1) (signers b2) HB1 HB2) as H.
  pose proof (ceil_two_thirds_spec (length committee)) as [Hc _].
  unfold signers in *. rewrite !length_map in H.
  assert (length (signatures b1) + length (signatures b2) <=
          length committee + length (filter (fun k => k ∈ map ns_signingPubkey (signatures b2)) (map ns_signingPubkey (signatures b1))))%nat.
  { apply H; intros k Hk; apply elem_of_map_iff in Hk as (s & <- & Hs); [apply (HA1 s Hs)|apply (HA2 s Hs)]. }
  lia.
Qed.

(** Every node's signature, in order. *)
Fixpoint sign_all (b : string) (ms : list MatchResult) (nodes : list CommitteeNodeKeyPair) : result (list NodeSignature) :=
  match nodes with
  | [] => Ok []
  | n :: nodes => let! s := signBatch b ms n in let! r := sign_all b ms nodes in Ok (s :: r)
  end.

Lemma sign_all_ok {NL : NaclLaws N} b ms nodes : Forall node_ok nodes ->
  exists sigs, sign_all b ms nodes = Ok sigs /\ map ns_signingPubkey sigs = map signingPubkey (map nodePublicInfo nodes) /\
    Forall (fun s => verifyNodeSignature b ms s = Ok true) sigs.
Proof.
  induction 1 as [|kp nodes Hkp _ (sigs & Hs & Hm & Hv)]; [by exists []|].
  destruct (sign_verifies b ms kp Hkp) as (s & E & Hpk & Hver). cbn [sign_all]. rewrite E, Hs. cbn [rbind].
  exists (s :: sigs). split_and!; [done|cbn; by rewrite Hpk, Hm|by constructor].
Qed.

(** The signatures of any two-thirds subset of the committee make a batch
    that verifies. *)
Lemma quorum_batch_accepted {NL : NaclLaws N} b sid ms h nodes signing sigs :
  Forall node_ok signing -> signing ⊆ nodes -> NoDup (map signingPubkey (map nodePublicInfo signing)) ->
  (ceil_two_thirds (length nodes) <= length signing)%nat -> sign_all b ms signing = Ok sigs ->
  verifySignedBatch {| batchId := b; sb_sessionId := sid; matches := ms; batchHash := h; signatures := sigs |}
    (map nodePublicInfo nodes) = Ok true.
Proof.
  intros Hn Hsub Hnd Hq Hs. destruct (sign_all_ok b ms signing Hn) as (sigs' & Hs' & Hm & Hv).
  rewrite Hs in Hs'. injection Hs' as <-. apply verifySignedBatch_iff.
  unfold accepted_batch. cbn [signatures batchId matches]. rewrite length_map. rewrite <- Hm in Hnd. split_and!; [|done|].
  - rewrite list.Forall_forall in Hv |- *. intros s Hin. split; [|by apply Hv].
    assert (ns_signingPubkey s ∈ map signingPubkey (map nodePublicInfo signing)) as Hk.
    { rewrite <- Hm. apply elem_of_map_iff. by exists s. }
    apply elem_of_map_iff in Hk as (i & <- & Hi). apply elem_of_map_iff in Hi as (kp & <- & Hkp).
    apply elem_of_map_iff. exists (nodePublicInfo kp). split; [done|]. apply elem_of_map_iff. exists kp. by auto.
  - apply (f_equal length) in Hm. rewrite !length_map in Hm. by rewrite Hm.
Qed.

End Committee.

(** ** A concrete scheme for the examples *)

Lemma strip_prefix_app p s : strip_prefix p (p +:+ s) = Some s.
Proof. induction p as [|c p IH]; [done|]. rewrite sapp_cons. cbn. by rewrite Ascii.eqb_refl. Qed.

#[global] Instance toyNacl : Nacl := {|
  box_public := fun sk => sk; sign_public := fun sk => sk;
  box := fun m n pk sk => Ok (n +:+ m); box_open := fun c n pk sk => Ok (strip_prefix n c);
  sign_detached := fun m sk => Ok (sk +:+ m); sign_verify := fun m s pk => Ok (bool_decide (s = pk +:+ m));
  sha256 := fun s => s |}.

#[global] Instance toyNacl_laws : NaclLaws toyNacl.
Proof.
  split.
  - intros m n skS skR _ _ _. exists (n +:+ m). split; [done|]. cbn. by rewrite strip_prefix_app.
  - intros m sk _. exists (sk +:+ m). split; [done|]. cbn. by rewrite bool_decide_true.
Qed.

Definition pad32 (s : string) : string := s +:+ "-0123456789-0123456789-01234567".
Definition toy_node (s : string) : CommitteeNodeKeyPair :=
  generateNodeKeyPair ("node-" +:+ s) (pad32 s) (pad32 s +:+ pad32 "z").
Definition toy_nodes : list CommitteeNodeKeyPair := [toy_node "1"; toy_node "2"; toy_node "3"].
Definition toy_rnd : list (string * string) :=
  [(pad32 "a", "012345678901234567890123"); (pad32 "b", "012345678901234567890123"); (pad32 "c", "012345678901234567890123")].

Lemma toy_nodes_ok : Forall node_ok toy_nodes.
Proof. repeat constructor. Qed.
Lemma toy_rnd_ok : Forall rnd_ok toy_rnd.
Proof. repeat constructor. Qed.

Definition toy_match (a b : string) : MatchResult :=
  {| intentAId := a; intentBId := b; matchedAmount7dp := "50"; m_inputAsset := "USDC"; m_outputAsset := "EURC";
     m_priceScaled := None; m_assetIn := None; m_assetOut := None |}.

(** ** Properties *)

(** An amount split for a committee comes back: every node decrypts exactly
    the share addressed to it, and any [threshold] or more nodes that pool
    their decrypted shares reconstruct the amount. *)
Theorem committee_shares_reconstruct (N : Nacl) (NL : NaclLaws N) (amount : Z) (nodes : list CommitteeNodeKeyPair)
    (threshold : nat) (draws : list Z) (rnd : list (string * string)) (cs rest : list Z) (idx : list nat) :
  0 <= amount < P -> Forall node_ok nodes -> Forall rnd_ok rnd -> length rnd = length nodes ->
  (2 <= threshold <= length nodes)%nat -> Z.of_nat (length nodes) < P ->
  draw_coeffs (threshold - 1) draws = Some (cs, rest) ->
  NoDup idx -> Forall (fun i => (i < length nodes)%nat) idx -> (threshold <= length idx)%nat ->
  exists encs shares, splitAmountForCommittee (toString amount) (map nodePublicInfo nodes) threshold draws rnd = Some (Ok encs) /\
    Forall2 (fun kp e => es_nodeId e = nodeId kp) nodes encs /\
    (forall i kp, nodes !! i = Some kp -> exists e, encs !! i = Some e /\
       decryptShare e (enc_secretKey kp) = Ok (encodeShare (share_at shares i))) /\
    reconstructAmount (map (fun i => encodeShare (share_at shares i)) idx) = Ok amount.
Proof.
  intros Ha Hn Hr Hlr Ht HP Hdraw Hnd Hi Hlen.
  destruct (committee_split amount nodes threshold draws rnd cs rest Ha Hn Hr Hlr Ht HP Hdraw) as (encs & shares & ? & ? & ? & H).
  exists encs, shares. split_and!; try done. by apply H.
Qed.

Lemma committee_shares_reconstruct_witness :
  exists encs shares, splitAmountForCommittee (toString 42) (map nodePublicInfo toy_nodes) 2 [7] toy_rnd = Some (Ok encs) /\
    Forall2 (fun kp e => es_nodeId e = nodeId kp) toy_nodes encs /\
    (forall i kp, toy_nodes !! i = Some kp -> exists e, encs !! i = Some e /\
       decryptShare e (enc_secretKey kp) = Ok (encodeShare (share_at shares i))) /\
    reconstructAmount (map (fun i => encodeShare (share_at shares i)) [2%nat; 1%nat]) = Ok 42.
Proof.
  apply (committee_shares_reconstruct toyNacl toyNacl_laws 42 toy_nodes 2 [7] toy_rnd [7] [] [2%nat; 1%nat]).
  - vm_compute. split; [discriminate|reflexivity].
  - apply toy_nodes_ok.
  - apply toy_rnd_ok.
  - reflexivity.
  - cbn. lia.
  - vm_compute. reflexivity.
  - vm_compute. reflexivity.
  - repeat constructor; rewrite ?elem_of_cons, ?elem_of_nil; intros H; repeat destruct H as [H|H]; done.
  - repeat constructor.
  - cbn. lia.
Defined.

(** The batch hash does not depend on the order of the matches, as long as
    no field contains the NUL character that separates the fields of the sort
    key. *)
Theorem batch_hash_order_independent (N : Nacl) (b : string) (ms ms' : list MatchResult) :
  Forall match_ok ms -> ms ≡ₚ ms' -> computeBatchHash b ms = computeBatchHash b ms'.
Proof. intros Hok Hp. unfold computeBatchHash. by rewrite (canonical_perm b ms ms' Hok Hp). Qed.

Lemma batch_hash_order_independent_witness :
  computeBatchHash "batch" [toy_match "x" "y"; toy_match "p" "q"] = computeBatchHash "batch" [toy_match "p" "q"; toy_match "x" "y"].
Proof.
  apply (batch_hash_order_independent toyNacl); [repeat constructor|constructor].
Defined.

(** The batch hash binds its content: two batches with the same hash have
    the same id and the same rows up to order (ids, amount, assets and price of
    every match), or they exhibit a SHA-256 collision. *)
Theorem batch_hash_binding (N : Nacl) (b b' : string) (ms ms' : list MatchResult) :
  computeBatchHash b ms = computeBatchHash b' ms' ->
  (b = b' /\ map batch_row ms ≡ₚ map batch_row ms') \/
  (exists s t : string, s <> t /\ sha256 s = sha256 t).
Proof.
  unfold computeBatchHash. intros E%hex_encode_inj.
  destruct (decide (canonical b ms = canonical b' ms')) as [Ec|Hne]; [left; by apply canonical_inj|].
  right. by exists (canonical b ms), (canonical b' ms').
Qed.

Lemma batch_hash_binding_witness :
  ("batch" = "batch" /\ map batch_row [toy_match "x" "y"; toy_match "p" "q"] ≡ₚ map batch_row [toy_match "p" "q"; toy_match "x" "y"]) \/
  (exists s t : string, s <> t /\ @sha256 toyNacl s = @sha256 toyNacl t).
Proof. apply (batch_hash_binding toyNacl). vm_compute. reflexivity. Defined.

(** C38: a signed batch is accepted exactly when all its signers are members of
    the committee, no key signs twice, every signature verifies over this
    batch, and at least two thirds of the committee signed. *)
Theorem verifySignedBatch_spec (N : Nacl) (batch : SignedMatchBatch) (committee : list CommitteeNodeInfo) :
  verifySignedBatch batch committee = Ok true <-> accepted_batch batch committee.
Proof. apply verifySignedBatch_iff. Qed.

(** Quorums overlap: any two batches accepted for the same committee share
    at least a third of the committee as common signers, so two conflicting
    batches need that many keys to sign both. *)
Theorem accepted_batches_overlap (N : Nacl) (b1 b2 : SignedMatchBatch) (committee : list CommitteeNodeInfo) :
  verifySignedBatch b1 committee = Ok true -> verifySignedBatch b2 committee = Ok true ->
  (length committee <= 3 * length (filter (fun k => k ∈ signers b2) (signers b1)))%nat.
Proof. intros H1%verifySignedBatch_iff H2%verifySignedBatch_iff. by apply accepted_overlap. Qed.

Definition toy_batch (b : string) (nodes : list CommitteeNodeKeyPair) : SignedMatchBatch :=
  {| batchId := b; sb_sessionId := "s"; matches := [toy_match "x" "y"]; batchHash := "";
     signatures := match sign_all b [toy_match "x" "y"] nodes with Ok s => s | Err _ => [] end |}.

Lemma accepted_batches_overlap_witness :
  (3 <= 3 * length (filter (fun k => k ∈ signers (toy_batch "b2" [toy_node "2"; toy_node "3"]))
                      (signers (toy_batch "b1" [toy_node "1"; toy_node "2"]))))%nat.
Proof.
  apply (accepted_batches_overlap toyNacl (toy_batch "b1" [toy_node "1"; toy_node "2"])
           (toy_batch "b2" [toy_node "2"; toy_node "3"]) (map nodePublicInfo toy_nodes)); vm_compute; reflexivity.
Defined.
