(* ===== verification/Matching.v ===== *)
(** The committee's matching algorithms (apps/mpc-committee/src/coordinator.ts):
    same-price netting of complementary intents and priced cross-asset
    matching. *)

From S2P Require Import Prelude Shamir Text Json Committee.
Local Open Scope string_scope.
Local Open Scope Z_scope.

(** ** Netting: [matchIntents] *)

Record Intent := { intentId : string; amount7dp : Z; inputAsset : string; outputAsset : string }.

#[global] Instance Intent_eq_dec : EqDecision Intent.
Proof. solve_decision. Defined.

Definition bar : ascii := "|".
Definition group_key (inA outA : string) : string := inA +:+ String bar outA.

(** The text before the first bar, and what follows it if there is one. *)
Fixpoint cut (s : string) : string * option string :=
  match s with
  | EmptyString => ("", None)
  | String c r => if Ascii.eqb c bar then ("", Some r) else let '(a, b) := cut r in (String c a, b)
  end.

(** [const [inAsset, outAsset] = key.split("|")]; a key always has a bar. *)
Definition split_key (key : string) : string * string :=
  let '(a, r) := cut key in (a, match r with Some r => (cut r).1 | None => "" end).

(** The [groups] map: intents by key, in order of first appearance. *)
Definition group_by (intents : list Intent) : list (string * list Intent) :=
  fold_left (fun groups i =>
    let key := group_key (inputAsset i) (outputAsset i) in
    jset key (default [] (jget key groups) ++ [i])%list groups) intents [].

Definition amount_lt (a b : Intent) : bool := amount7dp a <? amount7dp b.

Definition net_match (inAsset outAsset : string) (a b : Intent) : MatchResult :=
  {| intentAId := intentId a; intentBId := intentId b;
     matchedAmount7dp := toString (if amount7dp a <? amount7dp b then amount7dp a else amount7dp b);
     m_inputAsset := inAsset; m_outputAsset := outAsset;
     m_priceScaled := None; m_assetIn := None; m_assetOut := None |}.

(** The two-pointer loop; [sa] and [sb] are what is left of the two sorted
    groups, [used] the ids taken so far. *)
Fixpoint pair_loop (inA outA : string) (sa : list Intent) : list Intent -> list string -> list string * list MatchResult :=
  match sa with
  | [] => fun _ used => (used, [])
  | a :: sa' =>
      fix inner (sb : list Intent) (used : list string) :=
        match sb with
        | [] => (used, [])
        | b :: sb' =>
            if bool_decide (intentId a ∈ used) then pair_loop inA outA sa' sb used
            else if bool_decide (intentId b ∈ used) || bool_decide (intentId a = intentId b) then inner sb' used
            else
              let '(used', ms) := pair_loop inA outA sa' sb' (intentId b :: intentId a :: used) in
              (used', net_match inA outA a b :: ms)
        end
  end.

(** One turn of the loop over [groups.entries()]. *)
Definition match_group (groups : list (string * list Intent)) (acc : list string * list MatchResult)
    (entry : string * list Intent) : list string * list MatchResult :=
  let '(key, group) := entry in
  let '(used, ms) := acc in
  let '(inAsset, outAsset) := split_key key in
  match jget (group_key outAsset inAsset) groups with
  | None => (used, ms)
  | Some reverseGroup =>
      let '(used', ms') := pair_loop inAsset outAsset (js_sort amount_lt group) (js_sort amount_lt reverseGroup) used in
      (used', ms ++ ms')%list
  end.

Definition matchIntents (intents : list Intent) : list MatchResult :=
  let groups := group_by intents in
  (fold_left (match_group groups) groups ([], [])).2.

(** ** Priced matching *)

Definition PRICE_SCALE : Z := 1000000000.

Record PricedIntent := {
  p_intentId : string; p_inputAsset : string; p_outputAsset : string; p_amount : Z; p_minOutput : Z; limitPriceScaled : Z }.

Record PricedMatch := {
  pm_intentAId : string; pm_intentBId : string; inputAssetA : string; outputAssetA : string; inputAssetB : string;
  outputAssetB : string; matchedAmountA : string; matchedAmountB : string; pm_priceScaled : string;
  minOutputA : string; minOutputB : string }.

(** [Ok None] is [null]; dividing by a zero amount throws. *)
Definition matchPricedPair (a b : PricedIntent) : result (option PricedMatch) :=
  if negb (bool_decide (p_inputAsset a = p_outputAsset b)) then Ok None
  else if negb (bool_decide (p_outputAsset a = p_inputAsset b)) then Ok None
  else if bool_decide (p_inputAsset a = p_outputAsset a) then Ok None
  else
    let priceScaled := limitPriceScaled a in
    let outputForA := Z.quot (p_amount a * priceScaled) PRICE_SCALE in
    let outputForB := p_amount a in
    if negb (p_amount b =? outputForA) then Ok None
    else if outputForA <? p_minOutput a then Ok None
    else if outputForB <? p_minOutput b then Ok None
    else if p_amount b =? 0 then Err "RangeError: Division by zero"
    else
      let rateForB := Z.quot (outputForB * PRICE_SCALE) (p_amount b) in
      if rateForB <? limitPriceScaled b then Ok None
      else Ok (Some {| pm_intentAId := p_intentId a; pm_intentBId := p_intentId b;
             inputAssetA := p_inputAsset a; outputAssetA := p_outputAsset a;
             inputAssetB := p_inputAsset b; outputAssetB := p_outputAsset b;
             matchedAmountA := toString (p_amount a); matchedAmountB := toString outputForA;
             pm_priceScaled := toString priceScaled;
             minOutputA := toString (p_minOutput a); minOutputB := toString (p_minOutput b) |}).

(** The inner loop for the intent [a] at position [i]: the first partner. *)
Fixpoint find_partner (i : nat) (a : PricedIntent) (j : nat) (rest : list PricedIntent) (used : list string)
    : result (option (PricedIntent * PricedMatch)) :=
  match rest with
  | [] => Ok None
  | b :: rest =>
      if Nat.eqb i j || bool_decide (p_intentId b ∈ used) || bool_decide (p_intentId a ∈ used)
      then find_partner i a (S j) rest used
      else
        let! m := matchPricedPair a b in
        match m with Some m => Ok (Some (b, m)) | None => find_partner i a (S j) rest used end
  end.

Fixpoint priced_loop (all : list PricedIntent) (i : nat) (rest : list PricedIntent) (used : list string)
    : result (list PricedMatch) :=
  match rest with
  | [] => Ok []
  | a :: rest =>
      if bool_decide (p_intentId a ∈ used) then priced_loop all (S i) rest used
      else
        let! p := find_partner i a 0 all used in
        match p with
        | None => priced_loop all (S i) rest used
        | Some (b, m) =>
            let! ms := priced_loop all (S i) rest (p_intentId b :: p_intentId a :: used) in Ok (m :: ms)
        end
  end.

Definition matchPricedIntents (intents : list PricedIntent) : result (list PricedMatch) :=
  priced_loop intents 0 intents [].

(** ** Keys and groups *)

Definition bar_free (s : string) : Prop := str_forall (fun c => negb (Ascii.eqb c bar)) s = true.

Lemma cut_app a b : bar_free a -> cut (a +:+ String bar b) = (a, Some b).
Proof.
  unfold bar_free. induction a as [|c a IH]; intros Ha; [done|]. cbn in Ha. apply andb_prop in Ha as [Hc Ha].
  rewrite sapp_cons. cbn [cut]. apply negb_true_iff in Hc. rewrite Hc. by rewrite IH.
Qed.

Lemma cut_free a : bar_free a -> cut a = (a, None).
Proof.
  unfold bar_free. induction a as [|c a IH]; intros Ha; [done|]. cbn in Ha. apply andb_prop in Ha as [Hc Ha].
  cbn [cut]. apply negb_true_iff in Hc. rewrite Hc. by rewrite IH.
Qed.

Lemma split_group_key a b : bar_free a -> bar_free b -> split_key (group_key a b) = (a, b).
Proof. intros Ha Hb. unfold split_key, group_key. rewrite cut_app by done. by rewrite cut_free. Qed.

Lemma group_key_inj a b a' b' : bar_free a -> bar_free b -> bar_free a' -> bar_free b' ->
  group_key a b = group_key a' b' -> a = a' /\ b = b'.
Proof.
  intros Ha Hb Ha' Hb' E. apply (f_equal split_key) in E. rewrite !split_group_key in E by done. by injection E.
Qed.

Definition key_of (i : Intent) : string := group_key (inputAsset i) (outputAsset i).

Definition group_step (g : list (string * list Intent)) (i : Intent) : list (string * list Intent) :=
  jset (key_of i) (default [] (jget (key_of i) g) ++ [i])%list g.

Definition group_inv (g : list (string * list Intent)) (intents : list Intent) : Prop :=
  NoDup g.*1 /\ forall k, jget k g = match filter (fun i => key_of i = k) intents with [] => None | l => Some l end.

Lemma group_step_inv g l i : group_inv g l -> group_inv (group_step g i) (l ++ [i])%list.
Proof.
  intros [Hnd Hg]. unfold group_step. split; [by apply jset_nodup|]. intros k.
  rewrite list.filter_app. destruct (decide (key_of i = k)) as [<-|Hne].
  - rewrite jget_jset_eq, filter_cons_True by done. cbn. rewrite Hg.
    destruct (filter (fun i0 => key_of i0 = key_of i) l) as [|x xs] eqn:E; [done|]. done.
  - rewrite jget_jset_ne, filter_cons_False by done. cbn. rewrite app_nil_r. apply Hg.
Qed.

(** A group holds exactly the intents of its key, in order. *)
Lemma group_by_spec intents : group_inv (group_by intents) intents.
Proof.
  unfold group_by. change (group_inv (fold_left group_step intents []) intents).
  assert (forall l g p, group_inv g p -> group_inv (fold_left group_step l g) (p ++ l)%list) as H.
  { induction l as [|i l IH]; intros g p Hg; cbn; [by rewrite app_nil_r|].
    change (p ++ i :: l)%list with (p ++ [i] ++ l)%list. rewrite app_assoc. apply IH. by apply group_step_inv. }
  apply (H intents [] []). split; [constructor|done].
Qed.

Lemma group_elem intents k l : jget k (group_by intents) = Some l -> forall i, i ∈ l <-> i ∈ intents /\ key_of i = k.
Proof.
  intros Hk i. destruct (group_by_spec intents) as [_ Hg]. rewrite Hg in Hk.
  assert (i ∈ filter (fun i => key_of i = k) intents <-> i ∈ intents /\ key_of i = k) as <-
    by (rewrite list_elem_of_filter; tauto).
  destruct (filter (fun i => key_of i = k) intents) as [|x xs]; [done|]. by injection Hk as <-.
Qed.

(** ** The two-pointer loop *)

Definition match_ids (ms : list MatchResult) : list string := flat_map (fun m => [intentAId m; intentBId m]) ms.

Lemma match_ids_app ms ms' : match_ids (ms ++ ms') = (match_ids ms ++ match_ids ms')%list.
Proof. apply flat_map_app. Qed.

(** One of the two lists is exhausted: every intent of [sa] is used, or, from
    some [a0] of [sa] whose predecessors are used, every intent of [sb] is used
    or is [a0] itself. *)
Definition exhausted (sa sb : list Intent) (used : list string) : Prop :=
  (forall a, a ∈ sa -> intentId a ∈ used) \/
  exists pre a0 post, sa = (pre ++ a0 :: post)%list /\ (forall a, a ∈ pre -> intentId a ∈ used) /\
    forall b, b ∈ sb -> intentId b ∈ used \/ intentId b = intentId a0.

Definition loop_post (inA outA : string) (sa sb : list Intent) (used used' : list string) (ms : list MatchResult) : Prop :=
  used' ≡ₚ (match_ids ms ++ used)%list /\
  (forall m, m ∈ ms -> exists a b, a ∈ sa /\ b ∈ sb /\ m = net_match inA outA a b) /\
  (NoDup used -> NoDup used') /\ exhausted sa sb used'.

Lemma exhausted_skip_a a sa sb used : intentId a ∈ used -> exhausted sa sb used -> exhausted (a :: sa) sb used.
Proof.
  intros Ha [H|(pre & a0 & post & -> & Hp & Hb)]; [left; set_solver|].
  right. exists (a :: pre), a0, post. split_and!; [done| |done]. intros x [->|Hx]%elem_of_cons; auto.
Qed.

Lemma exhausted_skip_b a sa b sb used :
  intentId b ∈ used \/ intentId a = intentId b -> exhausted (a :: sa) sb used -> exhausted (a :: sa) (b :: sb) used.
Proof.
  intros Hb [H|(pre & a0 & post & E & Hp & Hs)]; [by left|]. right. exists pre, a0, post. split_and!; [done|done|].
  intros x [->|Hx]%elem_of_cons; [|auto]. destruct Hb as [Hb|Hb]; [by left|]. rewrite <- Hb.
  destruct pre as [|p pre]; cbn in E; injection E as <- E; [by right|left; apply Hp; by left].
Qed.

Lemma pair_loop_spec inA outA sa : forall sb used used' ms,
  pair_loop inA outA sa sb used = (used', ms) -> loop_post inA outA sa sb used used' ms.
Proof.
  induction sa as [|a sa IHa].
  { intros sb used used' ms [= <- <-]. split_and!; [done|set_solver|done|left; set_solver]. }
  induction sb as [|b sb IHb]; intros used used' ms.
  { cbn. intros [= <- <-]. split_and!; [done|set_solver|done|right]. exists [], a, sa. split_and!; set_solver. }
  cbn [pair_loop]. case_bool_decide as Hau.
  { intros H. apply IHa in H as (H1 & H2 & H3 & H4). split_and!; [done| |done|].
    - intros m Hm. destruct (H2 m Hm) as (x & y & ? & ? & ?). exists x, y. set_solver.
    - apply exhausted_skip_a; [|done]. rewrite H1. set_solver. }
  destruct (bool_decide (intentId b ∈ used) || bool_decide (intentId a = intentId b)) eqn:Hskip.
  { intros H. apply IHb in H as (H1 & H2 & H3 & H4). split_and!; [done| |done|].
    - intros m Hm. destruct (H2 m Hm) as (x & y & ? & ? & ?). exists x, y. set_solver.
    - apply exhausted_skip_b; [|done]. apply orb_true_iff in Hskip as [Hs|Hs]; breflect; [left|by right].
      rewrite H1. set_solver. }
  apply orb_false_iff in Hskip as [Hbu Hne]. breflect.
  destruct (pair_loop inA outA sa sb (intentId b :: intentId a :: used)) as [u2 ms2] eqn:E. intros [= <- <-].
  apply IHa in E as (H1 & H2 & H3 & H4). split_and!.
  - rewrite H1. cbn. rewrite <- !Permutation_middle. by rewrite Permutation_swap.
  - intros m [->|Hm]%elem_of_cons; [exists a, b; set_solver|].
    destruct (H2 m Hm) as (x & y & ? & ? & ?). exists x, y. set_solver.
  - intros Hnd. apply H3. rewrite !list.NoDup_cons. set_solver.
  - apply exhausted_skip_a; [rewrite H1; set_solver|].
    destruct H4 as [H4|(pre & a0 & post & -> & Hp & Hb)]; [by left|].
    right. exists pre, a0, post. split_and!; [done|done|].
    intros x [->|Hx]%elem_of_cons; [left; rewrite H1; set_solver|auto].
Qed.

(** ** All groups *)

Section Netting.
Context (intents : list Intent).
Hypothesis ids_unique : forall i j, i ∈ intents -> j ∈ intents -> intentId i = intentId j -> i = j.
Hypothesis assets_ok : forall i, i ∈ intents -> bar_free (inputAsset i) /\ bar_free (outputAsset i).

Definition complementary (a b : Intent) : Prop := inputAsset b = outputAsset a /\ outputAsset b = inputAsset a.

(** No two intents of the pair of groups [k] are left unused. *)
Definition closed (used : list string) (inA outA : string) : Prop :=
  forall x y, x ∈ intents -> y ∈ intents -> inputAsset x = inA -> outputAsset x = outA -> complementary x y ->
    intentId x ∉ used -> intentId y ∉ used -> x = y.

Definition valid_match (m : MatchResult) : Prop :=
  exists a b, a ∈ intents /\ b ∈ intents /\ complementary a b /\ m = net_match (inputAsset a) (outputAsset a) a b.

Definition net_inv (acc : list string * list MatchResult) : Prop :=
  acc.1 ≡ₚ match_ids acc.2 /\ NoDup acc.1 /\ (forall m, m ∈ acc.2 -> valid_match m).

Lemma key_of_eq i j : i ∈ intents -> j ∈ intents -> key_of i = key_of j ->
  inputAsset i = inputAsset j /\ outputAsset i = outputAsset j.
Proof.
  intros Hi Hj. destruct (assets_ok i Hi), (assets_ok j Hj). by apply group_key_inj.
Qed.

Lemma group_members i0 g : i0 ∈ intents -> jget (key_of i0) (group_by intents) = Some g ->
  forall x, x ∈ g <-> x ∈ intents /\ inputAsset x = inputAsset i0 /\ outputAsset x = outputAsset i0.
Proof.
  intros Hi0 Hk x. rewrite (group_elem intents _ g Hk). split.
  - intros [Hx E]. split; [done|]. by apply key_of_eq.
  - intros (Hx & E1 & E2). split; [done|]. unfold key_of. congruence.
Qed.

Lemma reverse_members i0 r : i0 ∈ intents ->
  jget (group_key (outputAsset i0) (inputAsset i0)) (group_by intents) = Some r ->
  forall y, y ∈ r <-> y ∈ intents /\ complementary i0 y.
Proof.
  intros Hi0 Hk y. rewrite (group_elem intents _ r Hk). destruct (assets_ok i0 Hi0). split.
  - intros [Hy E]. split; [done|]. destruct (assets_ok y Hy). by apply group_key_inj.
  - intros (Hy & E1 & E2). split; [done|]. unfold key_of. congruence.
Qed.

Lemma reverse_missing i0 : i0 ∈ intents ->
  jget (group_key (outputAsset i0) (inputAsset i0)) (group_by intents) = None ->
  forall y, y ∈ intents -> ~ complementary i0 y.
Proof.
  intros Hi0 Hk y Hy [E1 E2]. destruct (group_by_spec intents) as [_ HH]. rewrite HH in Hk.
  assert (y ∈ filter (fun i => key_of i = group_key (outputAsset i0) (inputAsset i0)) intents) as Hin.
  { apply list_elem_of_filter. split; [|done]. unfold key_of. congruence. }
  destruct (filter _ intents); [by apply not_elem_of_nil in Hin|done].
Qed.

Lemma match_group_step acc i0 g :
  i0 ∈ intents -> jget (key_of i0) (group_by intents) = Some g -> net_inv acc ->
  let acc' := match_group (group_by intents) acc (key_of i0, g) in
  net_inv acc' /\ (forall id, id ∈ acc.1 -> id ∈ acc'.1) /\ closed acc'.1 (inputAsset i0) (outputAsset i0).
Proof.
  intros Hi0 Hk (Hu & Hnd & Hv). destruct acc as [used ms]. cbn [fst snd] in *. unfold match_group.
  destruct (assets_ok i0 Hi0) as [Hb1 Hb2].
  assert (split_key (key_of i0) = (inputAsset i0, outputAsset i0)) as -> by (by apply split_group_key).
  pose proof (group_members i0 g Hi0 Hk) as Hg.
  destruct (jget (group_key (outputAsset i0) (inputAsset i0)) (group_by intents)) as [r|] eqn:Er.
  2:{ split; [by split|split; [intros id Hid; exact Hid|]]. intros x y Hx Hy E1 E2 [E3 E4].
      destruct (reverse_missing i0 Hi0 Er y Hy). split; congruence. }
  pose proof (reverse_members i0 r Hi0 Er) as Hr.
  destruct (pair_loop _ _ _ _ used) as [used' ms'] eqn:Ep. apply pair_loop_spec in Ep as (H1 & H2 & H3 & H4).
  unfold net_inv. cbn [fst snd]. split_and!.
  - rewrite match_ids_app, H1, Hu. apply Permutation_app_comm.
  - by apply H3.
  - intros m [Hm|Hm]%elem_of_app; [by apply Hv|]. destruct (H2 m Hm) as (a & b & Ha & Hb & ->).
    apply js_sort_elem, Hg in Ha as (Ha & E1 & E2). apply js_sort_elem, Hr in Hb as (Hb & E3 & E4).
    exists a, b. unfold complementary. rewrite E1, E2. done.
  - intros id Hid. rewrite H1. set_solver.
  - intros x y Hx Hy Ex1 Ex2 [E1 E2] Nx Ny.
    assert (x ∈ js_sort amount_lt g) as Hxg by (by apply js_sort_elem, Hg).
    assert (y ∈ js_sort amount_lt r) as Hyr by (apply js_sort_elem, Hr; unfold complementary; split; [done|]; split; congruence).
    destruct H4 as [H4|(pre & a0 & post & Esa & _ & Hsb)]; [by destruct (Nx (H4 x Hxg))|].
    assert (a0 ∈ js_sort amount_lt g) as Ha0 by (rewrite Esa; set_solver).
    apply js_sort_elem, Hg in Ha0 as (Ha0 & Ea1 & Ea2).
    destruct (Hsb y Hyr) as [?|Eid]; [done|]. assert (y = a0) as -> by (by apply ids_unique).
    assert (x ∈ js_sort amount_lt r) as Hxr.
    { apply js_sort_elem, Hr. split; [done|]. split; congruence. }
    destruct (Hsb x Hxr) as [?|Eid2]; [done|]. by apply ids_unique.
Qed.

Lemma closed_mono used used' a b : (forall id, id ∈ used -> id ∈ used') -> closed used a b -> closed used' a b.
Proof. intros Hs Hc x y Hx Hy E1 E2 E3 Nx Ny. apply Hc; auto. Qed.

Lemma match_groups_spec entries acc :
  (forall k g, (k, g) ∈ entries -> jget k (group_by intents) = Some g /\ exists i, i ∈ intents /\ key_of i = k) ->
  net_inv acc ->
  let acc' := fold_left (match_group (group_by intents)) entries acc in
  net_inv acc' /\ (forall id, id ∈ acc.1 -> id ∈ acc'.1) /\
  forall i, i ∈ intents -> key_of i ∈ entries.*1 -> closed acc'.1 (inputAsset i) (outputAsset i).
Proof.
  revert acc. induction entries as [|[k g] entries IH]; intros acc Hent Hinv; cbn [fold_left].
  { split_and!; [done|done|]. intros i _ Hk. by apply not_elem_of_nil in Hk. }
  destruct (Hent k g ltac:(left)) as (Hkg & i0 & Hi0 & <-).
  destruct (match_group_step acc i0 g Hi0 Hkg Hinv) as (Hinv1 & Hmono1 & Hcl1).
  destruct (IH (match_group (group_by intents) acc (key_of i0, g))) as (Hinv2 & Hmono2 & Hcl2); [|done|].
  { intros k' g' Hin. apply Hent. by right. }
  split_and!; [done|auto|]. intros i Hi Hk. cbn in Hk. apply elem_of_cons in Hk as [Hk|Hk]; [|by apply Hcl2].
  destruct (key_of_eq i i0 Hi Hi0 Hk) as [-> ->]. by eapply closed_mono.
Qed.

Lemma matchIntents_spec :
  (forall m, m ∈ matchIntents intents -> valid_match m) /\ NoDup (match_ids (matchIntents intents)) /\
  forall x y, x ∈ intents -> y ∈ intents -> complementary x y ->
    intentId x ∉ match_ids (matchIntents intents) -> intentId y ∉ match_ids (matchIntents intents) -> x = y.
Proof.
  destruct (group_by_spec intents) as [Hnd HH].
  destruct (match_groups_spec (group_by intents) ([], [])) as ((H1 & H2 & H3) & _ & H4).
  - intros k g Hin. apply elem_jget in Hin as Hk; [|done]. split; [done|]. rewrite HH in Hk.
    destruct (filter (fun i => key_of i = k) intents) as [|i l] eqn:E; [done|]. exists i.
    assert (i ∈ filter (fun i => key_of i = k) intents) as Hi by (rewrite E; left).
    apply list_elem_of_filter in Hi. tauto.
  - split_and!; [done|constructor|set_solver].
  - unfold matchIntents. split_and!; [done|by rewrite <- H1|]. intros x y Hx Hy Hc. rewrite <- H1.
    apply (H4 x Hx); [|done..|done|done]. apply jhas_spec. unfold jhas. apply bool_decide_eq_true. rewrite HH.
    assert (x ∈ filter (fun i => key_of i = key_of x) intents) as Hin by (by apply list_elem_of_filter).
    destruct (filter _ intents); [by apply not_elem_of_nil in Hin|done].
Qed.

End Netting.

(** ** Priced pairs *)

(** What a crossing at A's limit price means. *)
Definition crosses (a b : PricedIntent) : Prop :=
  p_inputAsset a = p_outputAsset b /\ p_outputAsset a = p_inputAsset b /\ p_inputAsset a <> p_outputAsset a /\
  p_amount b = p_amount a * limitPriceScaled a / PRICE_SCALE /\
  p_minOutput a <= p_amount b /\ p_minOutput b <= p_amount a /\
  limitPriceScaled b <= p_amount a * PRICE_SCALE / p_amount b.

Definition priced_match (a b : PricedIntent) : PricedMatch :=
  {| pm_intentAId := p_intentId a; pm_intentBId := p_intentId b;
     inputAssetA := p_inputAsset a; outputAssetA := p_outputAsset a;
     inputAssetB := p_inputAsset b; outputAssetB := p_outputAsset b;
     matchedAmountA := toString (p_amount a); matchedAmountB := toString (p_amount b);
     pm_priceScaled := toString (limitPriceScaled a);
     minOutputA := toString (p_minOutput a); minOutputB := toString (p_minOutput b) |}.

Definition priced_ok (p : PricedIntent) : Prop := 0 < p_amount p /\ 0 <= limitPriceScaled p.

#[global] Instance crosses_dec a b : Decision (crosses a b).
Proof. unfold crosses. apply _. Defined.

Lemma matchPricedPair_spec a b : priced_ok a -> priced_ok b ->
  matchPricedPair a b = Ok (if decide (crosses a b) then Some (priced_match a b) else None).
Proof.
  intros [Ha Hpa] [Hb Hpb]. unfold matchPricedPair.
  assert (Z.quot (p_amount a * limitPriceScaled a) PRICE_SCALE = p_amount a * limitPriceScaled a / PRICE_SCALE) as ->
    by (apply Z.quot_div_nonneg; unfold PRICE_SCALE; nia).
  assert (Z.quot (p_amount a * PRICE_SCALE) (p_amount b) = p_amount a * PRICE_SCALE / p_amount b) as ->
    by (apply Z.quot_div_nonneg; unfold PRICE_SCALE; nia).
  assert (forall X (u v : X), ~ crosses a b -> (if decide (crosses a b) then u else v) = v) as Hno
    by (intros; by rewrite decide_False).
  case_bool_decide; cbn [negb]; [|rewrite Hno; [done|unfold crosses; tauto]].
  case_bool_decide; cbn [negb]; [|rewrite Hno; [done|unfold crosses; tauto]].
  case_bool_decide; [rewrite Hno; [done|unfold crosses; tauto]|].
  destruct (Z.eqb_spec (p_amount b) (p_amount a * limitPriceScaled a / PRICE_SCALE)) as [E|]; cbn [negb];
    [|rewrite Hno; [done|unfold crosses; tauto]].
  destruct (Z.ltb_spec (p_amount a * limitPriceScaled a / PRICE_SCALE) (p_minOutput a));
    [rewrite Hno; [done|unfold crosses; lia]|].
  destruct (Z.ltb_spec (p_amount a) (p_minOutput b)); [rewrite Hno; [done|unfold crosses; lia]|].
  destruct (Z.eqb_spec (p_amount b) 0); [lia|].
  destruct (Z.ltb_spec (p_amount a * PRICE_SCALE / p_amount b) (limitPriceScaled b)); [rewrite Hno; [done|unfold crosses; lia]|].
  rewrite decide_True; [|unfold crosses; split_and!; done || lia].
  unfold priced_match. by rewrite <- E.
Qed.

(** A zero-amount counterparty that passes the earlier guards makes the whole
    round throw. *)
Lemma zero_amount_throws a b :
  p_inputAsset a = p_outputAsset b -> p_outputAsset a = p_inputAsset b -> p_inputAsset a <> p_outputAsset a ->
  p_amount b = 0 -> Z.quot (p_amount a * limitPriceScaled a) PRICE_SCALE = 0 ->
  p_minOutput a <= 0 -> p_minOutput b <= p_amount a ->
  matchPricedPair a b = Err "RangeError: Division by zero".
Proof.
  intros E1 E2 Hne Hb Hq Hma Hmb. unfold matchPricedPair. rewrite Hq, Hb.
  rewrite !bool_decide_true, bool_decide_false by done. cbn [negb Z.eqb].
  destruct (Z.ltb_spec 0 (p_minOutput a)); [lia|]. by destruct (Z.ltb_spec (p_amount a) (p_minOutput b)); [lia|].
Qed.

Definition priced_ids (ms : list PricedMatch) : list string := flat_map (fun m => [pm_intentAId m; pm_intentBId m]) ms.

Section Priced.
Context (all : list PricedIntent).
Hypothesis all_ok : Forall priced_ok all.
Hypothesis ids_nodup : NoDup (map p_intentId all).

Lemma position_id i j a b : all !! i = Some a -> all !! j = Some b -> p_intentId a = p_intentId b -> i = j.
Proof.
  intros Hi Hj E. apply (NoDup_lookup (map p_intentId all) i j (p_intentId a)); [done| |].
  - change (map p_intentId all) with (p_intentId <$> all). by rewrite list_lookup_fmap, Hi.
  - change (map p_intentId all) with (p_intentId <$> all). by rewrite list_lookup_fmap, Hj, E.
Qed.

Lemma find_partner_spec i a used : priced_ok a -> p_intentId a ∉ used -> forall rest j,
  (forall k b, rest !! k = Some b -> all !! (j + k)%nat = Some b) ->
  exists r, find_partner i a j rest used = Ok r /\
  match r with
  | Some (b, m) => exists k, rest !! k = Some b /\ (j + k)%nat <> i /\ p_intentId b ∉ used /\ crosses a b /\ m = priced_match a b
  | None => forall k b, rest !! k = Some b -> (j + k)%nat <> i -> p_intentId b ∉ used -> ~ crosses a b
  end.
Proof.
  intros Ha Hu. induction rest as [|b rest IH]; intros j Hrest; [by exists None|]. cbn [find_partner].
  assert (priced_ok b) as Hb.
  { rewrite list.Forall_forall in all_ok. apply all_ok. eapply list_elem_of_lookup_2, (Hrest 0%nat). done. }
  destruct (IH (S j)) as (r & Hr & Hspec).
  { intros k c Hk. rewrite <- (Hrest (S k) c Hk). f_equal. lia. }
  rewrite (bool_decide_false _ Hu), orb_false_r.
  destruct (Nat.eqb i j || bool_decide (p_intentId b ∈ used)) eqn:Eskip.
  - rewrite Hr. exists r. split; [done|]. destruct r as [[c m]|].
    + destruct Hspec as (k & ? & ? & ?). exists (S k). split_and!; try done; [lia|tauto..].
    + intros [|k] c Hk Hne Hc; [|apply (Hspec k c Hk); [lia|done]]. cbn in Hk. injection Hk as <-.
      apply orb_true_iff in Eskip as [E|E]; breflect; [lia|done].
  - apply orb_false_iff in Eskip as [E1 E2]. breflect. rewrite matchPricedPair_spec by done. cbn [rbind].
    destruct (decide (crosses a b)) as [Hc|Hc].
    + exists (Some (b, priced_match a b)). split; [done|]. exists 0%nat. split_and!; try done. lia.
    + rewrite Hr. exists r. split; [done|]. destruct r as [[c m]|].
      * destruct Hspec as (k & ? & ? & ?). exists (S k). split_and!; try done; [lia|tauto..].
      * intros [|k] d Hk Hne Hd; [cbn in Hk; by injection Hk as <-|apply (Hspec k d Hk); [lia|done]].
Qed.

Definition priced_valid (m : PricedMatch) : Prop :=
  exists a b, a ∈ all /\ b ∈ all /\ crosses a b /\ m = priced_match a b.

Lemma priced_loop_spec rest : forall i used,
  (forall k a, rest !! k = Some a -> all !! (i + k)%nat = Some a) -> NoDup used ->
  exists ms, priced_loop all i rest used = Ok ms /\ (forall m, m ∈ ms -> priced_valid m) /\
    NoDup (priced_ids ms ++ used)%list /\
    forall k a j b, rest !! k = Some a -> all !! j = Some b -> j <> (i + k)%nat ->
      p_intentId a ∉ (priced_ids ms ++ used)%list -> p_intentId b ∉ (priced_ids ms ++ used)%list -> ~ crosses a b.
Proof.
  induction rest as [|a rest IH]; intros i used Hrest Hnd.
  { exists []. split_and!; [done|set_solver|done|done]. }
  assert (all !! i = Some a) as Hai by (rewrite <- (Nat.add_0_r i); by apply (Hrest 0%nat)).
  assert (forall k c, rest !! k = Some c -> all !! (S i + k)%nat = Some c) as Hrest'.
  { intros k c Hk. rewrite <- (Hrest (S k) c Hk). f_equal. lia. }
  cbn [priced_loop]. case_bool_decide as Hu.
  { destruct (IH (S i) used Hrest' Hnd) as (ms & -> & Hv & Hn & Hmax). exists ms. split_and!; try done.
    intros [|k] c j b Hk Hj Hne Hc Hb; [cbn in Hk; injection Hk as <-; set_solver|].
    apply (Hmax k c j b Hk Hj); [lia|done|done]. }
  assert (priced_ok a) as Hao by (rewrite list.Forall_forall in all_ok; by apply all_ok; eapply list_elem_of_lookup_2).
  destruct (find_partner_spec i a used Hao Hu all 0%nat ltac:(done)) as (r & -> & Hspec). cbn [rbind].
  destruct r as [[b m]|].
  - destruct Hspec as (j & Hj & Hji & Hbu & Hcr & ->). cbn in Hji.
    assert (p_intentId a <> p_intentId b) as Hne by (intros E; apply Hji; symmetry; by eapply position_id).
    destruct (IH (S i) (p_intentId b :: p_intentId a :: used) Hrest') as (ms & -> & Hv & Hn & Hmax).
    { rewrite !list.NoDup_cons. set_solver. }
    assert ((priced_ids (priced_match a b :: ms) ++ used)%list ≡ₚ (priced_ids ms ++ p_intentId b :: p_intentId a :: used)%list) as Hp.
    { cbn. rewrite <- !Permutation_middle. apply Permutation_swap. }
    cbn [rbind]. exists (priced_match a b :: ms). split_and!; [done| |by rewrite Hp|].
    + intros m [->|Hm]%elem_of_cons; [|auto]. exists a, b.
      split_and!; try done; by eapply list_elem_of_lookup_2.
    + intros [|k] c l d Hk Hl Hne' Hc Hd.
      * cbn in Hk. injection Hk as <-. set_solver.
      * rewrite Hp in Hc, Hd. apply (Hmax k c l d Hk Hl); [lia|done|done].
  - destruct (IH (S i) used Hrest' Hnd) as (ms & -> & Hv & Hn & Hmax). exists ms. split_and!; try done.
    intros [|k] c j b Hk Hj Hne Hc Hb; [|apply (Hmax k c j b Hk Hj); [lia|done|done]].
    cbn in Hk. injection Hk as <-. apply (Hspec j b Hj); [cbn; lia|set_solver].
Qed.

End Priced.

(** ** Properties *)

Definition toy_intent (i : string) (amt : Z) (a b : string) : Intent :=
  {| intentId := i; amount7dp := amt; inputAsset := a; outputAsset := b |}.
Definition toy_intents : list Intent :=
  [toy_intent "i1" 70 "USDC" "EURC"; toy_intent "i2" 20 "USDC" "EURC"; toy_intent "i3" 50 "EURC" "USDC";
   toy_intent "i4" 10 "USDC" "USDC"; toy_intent "i5" 30 "USDC" "USDC"; toy_intent "i6" 5 "USDC" "USDC"].

Definition ids_distinct (intents : list Intent) : Prop :=
  forall i j, i ∈ intents -> j ∈ intents -> intentId i = intentId j -> i = j.
Definition assets_bar_free (intents : list Intent) : Prop :=
  forall i, i ∈ intents -> bar_free (inputAsset i) /\ bar_free (outputAsset i).

(** C36: netting is correct: every match pairs two intents of the round that want
    exactly each other's asset, at the smaller of their two amounts; no intent is
    used twice, neither in two matches nor against itself; and of two distinct
    intents that want each other's asset at least one is matched. *)
Theorem netting_correct (intents : list Intent) :
  ids_distinct intents -> assets_bar_free intents ->
  (forall m, m ∈ matchIntents intents -> exists a b, a ∈ intents /\ b ∈ intents /\ complementary a b /\
     m = net_match (inputAsset a) (outputAsset a) a b /\
     matchedAmount7dp m = toString (Z.min (amount7dp a) (amount7dp b))) /\
  NoDup (match_ids (matchIntents intents)) /\
  (forall a b, a ∈ intents -> b ∈ intents -> a <> b -> complementary a b ->
     intentId a ∈ match_ids (matchIntents intents) \/ intentId b ∈ match_ids (matchIntents intents)).
Proof.
  intros Hid Has. destruct (matchIntents_spec intents Hid Has) as (H1 & H2 & H3). split_and!; [|done|].
  - intros m Hm. destruct (H1 m Hm) as (a & b & Ha & Hb & Hc & ->). exists a, b. split_and!; try done.
    cbn. f_equal. destruct (Z.ltb_spec (amount7dp a) (amount7dp b)); lia.
  - intros a b Ha Hb Hne Hc.
    destruct (decide (intentId a ∈ match_ids (matchIntents intents))) as [|Na]; [by left|].
    destruct (decide (intentId b ∈ match_ids (matchIntents intents))) as [|Nb]; [by right|].
    destruct Hne. by apply H3.
Qed.

Ltac toy_ids := intros i j Hi Hj; unfold toy_intents in *;
  repeat (apply elem_of_cons in Hi as [->|Hi]; [repeat (apply elem_of_cons in Hj as [->|Hj]; [done|]); by apply not_elem_of_nil in Hj|]);
  by apply not_elem_of_nil in Hi.
Ltac toy_assets := intros i Hi; unfold toy_intents in *;
  repeat (apply elem_of_cons in Hi as [->|Hi]; [done|]); by apply not_elem_of_nil in Hi.

Lemma netting_correct_witness :
  NoDup (match_ids (matchIntents toy_intents)) /\ match_ids (matchIntents toy_intents) = ["i2"; "i3"; "i6"; "i4"].
Proof.
  split; [|vm_compute; reflexivity].
  apply (netting_correct toy_intents); [toy_ids|toy_assets].
Defined.

(** C37: priced matching terminates with a result on positive amounts, every
    match crosses (complementary assets, B pays exactly the floor of A's amount
    at A's limit price, both minimum outputs and B's limit are respected), each
    intent is used at most once, and no crossing pair is left unmatched. *)
Theorem priced_matching_correct (intents : list PricedIntent) :
  Forall priced_ok intents -> NoDup (map p_intentId intents) ->
  exists ms, matchPricedIntents intents = Ok ms /\
    (forall m, m ∈ ms -> exists a b, a ∈ intents /\ b ∈ intents /\ crosses a b /\ m = priced_match a b) /\
    NoDup (priced_ids ms) /\
    forall a b, a ∈ intents -> b ∈ intents -> crosses a b ->
      p_intentId a ∈ priced_ids ms \/ p_intentId b ∈ priced_ids ms.
Proof.
  intros Hok Hnd. unfold matchPricedIntents.
  destruct (priced_loop_spec intents Hok Hnd intents 0%nat [] ltac:(done) ltac:(constructor)) as (ms & -> & Hv & Hn & Hmax).
  exists ms. rewrite app_nil_r in Hn. split_and!; [done|done|done|].
  intros a b Ha Hb Hc. rewrite app_nil_r in Hmax.
  destruct (decide (p_intentId a ∈ priced_ids ms)) as [|Na]; [by left|].
  destruct (decide (p_intentId b ∈ priced_ids ms)) as [|Nb]; [by right|].
  apply list_elem_of_lookup in Ha as [i Hi]. apply list_elem_of_lookup in Hb as [j Hj].
  exfalso. apply (Hmax i a j b Hi Hj); [|done..]. cbn. intros ->. rewrite Hi in Hj. injection Hj as <-.
  destruct Hc as (E1 & _ & E3 & _). congruence.
Qed.

Definition toy_priced : list PricedIntent :=
  [{| p_intentId := "a"; p_inputAsset := "USDC"; p_outputAsset := "EURC"; p_amount := 100; p_minOutput := 90; limitPriceScaled := 905000000 |};
   {| p_intentId := "c"; p_inputAsset := "EURC"; p_outputAsset := "USDC"; p_amount := 80; p_minOutput := 1; limitPriceScaled := 0 |};
   {| p_intentId := "b"; p_inputAsset := "EURC"; p_outputAsset := "USDC"; p_amount := 90; p_minOutput := 100; limitPriceScaled := 1100000000 |}].

Lemma priced_matching_correct_witness :
  exists ms, matchPricedIntents toy_priced = Ok ms /\ priced_ids ms = ["a"; "b"] /\ NoDup (priced_ids ms).
Proof.
  destruct (priced_matching_correct toy_priced) as (ms & Hms & _ & Hnd & _).
  - repeat constructor; cbn; lia.
  - by apply (bool_decide_eq_true_1 _).
  - exists ms. split; [exact Hms|]. split; [|exact Hnd]. vm_compute in Hms. injection Hms as <-. reflexivity.
Defined.
