(* ===== verification/Rounds.v ===== *)
(** The committee's sessions and matching rounds
    (apps/mpc-committee/src/state.ts, coordinator.ts, remote-coordinator.ts,
    node-server.ts and the handlers of server.ts and coordinator-server.ts).

    A session is a record that every call returns updated; the session objects
    the source shares by reference are the values of the [sessions] map, keyed
    by their id.  A decrypted share is the parsed JSON value, [JNull] before
    decryption and after it was cleared.  Clock readings, UUIDs and the answers
    of remote nodes are arguments. *)

From S2P Require Import Prelude Shamir Text Json Committee Matching.
Local Open Scope string_scope.
Local Open Scope Z_scope.

(** ** Sessions *)

Record MpcIntent := {
  i_intentId : string; userId : string; i_inputAsset : string; i_outputAsset : string; expiryLedger : Z;
  policyId : string; noteNullifier : string; noteCommitment : string; recipientCommitment : string;
  encryptedShares : list EncryptedShare; submittedAt : Z }.

Record NodeShareEntry := {
  en_intentId : string; en_nodeId : string; en_encryptedShare : EncryptedShare; decryptedShare : json }.

Inductive SessionStatus := SOpen | SMatching | SSigned | SFailed.

#[global] Instance SessionStatus_eq_dec : EqDecision SessionStatus.
Proof. solve_decision. Defined.

Definition share_map := list (string * list (string * NodeShareEntry)).

Record SessionState := {
  sessionId : string; startedAt : Z; status : SessionStatus; intents : list (string * MpcIntent);
  shares : share_map; signedBatch : option SignedMatchBatch }.

Definition set_status (st : SessionStatus) (s : SessionState) : SessionState :=
  {| sessionId := sessionId s; startedAt := startedAt s; status := st; intents := intents s; shares := shares s;
     signedBatch := signedBatch s |}.
Definition set_shares (sh : share_map) (s : SessionState) : SessionState :=
  {| sessionId := sessionId s; startedAt := startedAt s; status := status s; intents := intents s; shares := sh;
     signedBatch := signedBatch s |}.
Definition set_batch (b : SignedMatchBatch) (s : SessionState) : SessionState :=
  {| sessionId := sessionId s; startedAt := startedAt s; status := status s; intents := intents s; shares := shares s;
     signedBatch := Some b |}.

Record CommitteeState := { sessions : list (string * SessionState); intentToSession : list (string * string) }.

Definition newCommitteeState : CommitteeState := {| sessions := []; intentToSession := [] |}.

Definition put_session (s : SessionState) (c : CommitteeState) : CommitteeState :=
  {| sessions := jset (sessionId s) s (sessions c); intentToSession := intentToSession c |}.

Definition createSession (id : string) (now : Z) (c : CommitteeState) : CommitteeState * SessionState :=
  let s := {| sessionId := id; startedAt := now; status := SOpen; intents := []; shares := []; signedBatch := None |} in
  (put_session s c, s).

Definition is_open (s : SessionState) : bool := bool_decide (status s = SOpen).

(** The first open session in creation order, or a new one. *)
Definition getOrCreateOpenSession (now : Z) (c : CommitteeState) : CommitteeState * SessionState :=
  match List.find is_open (map snd (sessions c)) with
  | Some s => (c, s)
  | None => createSession ("session-" +:+ toString now) now c
  end.

Definition share_entry (i : MpcIntent) (e : EncryptedShare) : NodeShareEntry :=
  {| en_intentId := i_intentId i; en_nodeId := es_nodeId e;
     en_encryptedShare := {| es_nodeId := ""; ciphertext := ciphertext e; nonce := nonce e; senderPubkey := senderPubkey e |};
     decryptedShare := JNull |}.

Definition add_share (i : MpcIntent) (sh : share_map) (e : EncryptedShare) : share_map :=
  let sh := if jhas (es_nodeId e) sh then sh else jset (es_nodeId e) [] sh in
  jset (es_nodeId e) (jset (i_intentId i) (share_entry i e) (default [] (jget (es_nodeId e) sh))) sh.

Definition add_to_session (i : MpcIntent) (s : SessionState) : SessionState :=
  {| sessionId := sessionId s; startedAt := startedAt s; status := status s;
     intents := jset (i_intentId i) i (intents s);
     shares := fold_left (add_share i) (encryptedShares i) (shares s);
     signedBatch := signedBatch s |}.

Definition addIntent (i : MpcIntent) (now : Z) (c : CommitteeState) : CommitteeState * string :=
  let '(c, s) := getOrCreateOpenSession now c in
  let s := add_to_session i s in
  ({| sessions := jset (sessionId s) s (sessions c);
      intentToSession := jset (i_intentId i) (sessionId s) (intentToSession c) |}, sessionId s).

Definition getSession (id : string) (c : CommitteeState) : option SessionState := jget id (sessions c).
Definition getSessionForIntent (id : string) (c : CommitteeState) : option SessionState :=
  match jget id (intentToSession c) with
  | Some sid => if bool_decide (sid = "") then None else jget sid (sessions c)
  | None => None
  end.
Definition getOpenSessions (c : CommitteeState) : list SessionState := List.filter is_open (map snd (sessions c)).
Definition allSessions (c : CommitteeState) : list SessionState := map snd (sessions c).

(** ** A matching round in one process *)

Inductive CoordinatorResult := Matched (batch : SignedMatchBatch) | NotMatched (reason : string).

Section Rounds.
Context {N : Nacl}.

Definition set_decrypted (v : json) (e : NodeShareEntry) : NodeShareEntry :=
  {| en_intentId := en_intentId e; en_nodeId := en_nodeId e; en_encryptedShare := en_encryptedShare e; decryptedShare := v |}.

(** One node's entries, in order, up to the first that fails. *)
Fixpoint decrypt_entries (kp : CommitteeNodeKeyPair) (es : list (string * NodeShareEntry))
    : list (string * NodeShareEntry) * option string :=
  match es with
  | [] => ([], None)
  | (id, e) :: es =>
      match decryptShare (en_encryptedShare e) (enc_secretKey kp) with
      | Err err => ((id, e) :: es,
          Some ("node " +:+ nodeId kp +:+ " failed to decrypt share for " +:+ en_intentId e +:+ ": " +:+ err))
      | Ok v => let '(es', r) := decrypt_entries kp es in ((id, set_decrypted v e) :: es', r)
      end
  end.

Fixpoint decrypt_nodes (nodes : list CommitteeNodeKeyPair) (sh : share_map) : share_map * option string :=
  match nodes with
  | [] => (sh, None)
  | kp :: nodes =>
      match jget (nodeId kp) sh with
      | None => decrypt_nodes nodes sh
      | Some es =>
          let '(es', r) := decrypt_entries kp es in
          let sh := jset (nodeId kp) es' sh in
          match r with Some r => (sh, Some r) | None => decrypt_nodes nodes sh end
      end
  end.

(** [session.shares.get(node)?.get(intent)?.decryptedShare] *)
Definition share_value (sh : share_map) (intent node : string) : json :=
  match jget node sh ≫= jget intent with Some e => decryptedShare e | None => JNull end.

(** The first two truthy shares of an intent, in the order of [ids]. *)
Fixpoint available_shares (ids : list string) (sh : share_map) (intent : string) (acc : list json) : list json :=
  match ids with
  | [] => acc
  | id :: ids =>
      let share := share_value sh intent id in
      let acc := if truthy share then (acc ++ [share])%list else acc in
      if (2 <=? length acc)%nat then acc else available_shares ids sh intent acc
  end.

Inductive Reconstruction :=
| Reconstructed (l : list Intent)
| NotEnough (reason : string)
| Threw (err : string).

Fixpoint reconstruct_all (ids : list string) (sh : share_map) (ins : list (string * MpcIntent)) (acc : list Intent) : Reconstruction :=
  match ins with
  | [] => Reconstructed acc
  | (id, i) :: ins =>
      let avail := available_shares ids sh id [] in
      if (length avail <? 2)%nat then NotEnough ("not enough shares for intent " +:+ id)
      else match reconstructAmount avail with
           | Err e => Threw e
           | Ok amt => reconstruct_all ids sh ins
               (acc ++ [{| intentId := id; amount7dp := amt; inputAsset := i_inputAsset i; outputAsset := i_outputAsset i |}])%list
           end
  end.

Definition clear_node (sh : share_map) (id : string) : share_map :=
  match jget id sh with
  | None => sh
  | Some es => jset id (map (fun kv => (kv.1, set_decrypted JNull kv.2)) es) sh
  end.

(** The session afterwards, and what the call returns or throws; [uuid] is the
    fresh batch id. *)
Definition runMatchingRound (session : SessionState) (nodes : list CommitteeNodeKeyPair) (uuid : string)
    : SessionState * result CoordinatorResult :=
  if (length (intents session) <? 2)%nat then (session, Ok (NotMatched "need at least 2 intents to match"))
  else
    let session := set_status SMatching session in
    let '(sh, failed) := decrypt_nodes nodes (shares session) in
    let session := set_shares sh session in
    match failed with
    | Some reason => (set_status SFailed session, Ok (NotMatched reason))
    | None =>
        match reconstruct_all (map nodeId nodes) sh (intents session) [] with
        | NotEnough reason => (set_status SFailed session, Ok (NotMatched reason))
        | Threw err => (session, Err err)
        | Reconstructed reconstructed =>
            let session := set_shares (fold_left clear_node (map nodeId nodes) sh) session in
            let ms := matchIntents reconstructed in
            let hash := computeBatchHash uuid ms in
            match sign_all uuid ms nodes with
            | Err err => (session, Err err)
            | Ok sigs =>
                let batch := {| batchId := uuid; sb_sessionId := sessionId session; matches := ms; batchHash := hash;
                                signatures := sigs |} in
                (set_status SSigned (set_batch batch session), Ok (Matched batch))
            end
        end
    end.

(** ** A matching round over the network

    Each node's answer is [None] when it is down, times out or refuses. *)

Record DecryptResponse := { dr_nodeId : string; dr_shares : list (string * json) }.

Definition store_share (es : list (string * NodeShareEntry)) (kv : string * json) : list (string * NodeShareEntry) :=
  match jget kv.1 es with Some e => jset kv.1 (set_decrypted kv.2 e) es | None => es end.

Definition store_response (sh : share_map) (r : DecryptResponse) : share_map :=
  match jget (dr_nodeId r) sh with
  | None => sh
  | Some es => jset (dr_nodeId r) (fold_left store_share (dr_shares r) es) sh
  end.

Definition runMatchingRoundRemote (session : SessionState) (endpoints : list string)
    (decrypts : list (option DecryptResponse)) (uuid : string)
    (sign_answers : string -> list MatchResult -> list (option NodeSignature)) : SessionState * result CoordinatorResult :=
  let n := length endpoints in
  if (length (intents session) <? 2)%nat then (session, Ok (NotMatched "need at least 2 intents to match"))
  else
    let need := ceil_two_thirds n in
    let session := set_status SMatching session in
    let responding := omap id decrypts in
    if (length responding <? need)%nat then
      (set_status SFailed session, Ok (NotMatched ("only " +:+ toString (Z.of_nat (length responding)) +:+ "/" +:+ toString (Z.of_nat n)
         +:+ " nodes responded to decrypt (need " +:+ toString (Z.of_nat need) +:+ ")")))
    else
      let sh := fold_left store_response responding (shares session) in
      let session := set_shares sh session in
      match reconstruct_all endpoints sh (intents session) [] with
      | NotEnough reason => (set_status SFailed session, Ok (NotMatched reason))
      | Threw err => (session, Err err)
      | Reconstructed reconstructed =>
          let session := set_shares (fold_left clear_node endpoints sh) session in
          let ms := matchIntents reconstructed in
          let hash := computeBatchHash uuid ms in
          let sigs := omap id (sign_answers uuid ms) in
          if (length sigs <? need)%nat then
            (set_status SFailed session, Ok (NotMatched ("only " +:+ toString (Z.of_nat (length sigs)) +:+ "/" +:+ toString (Z.of_nat n)
               +:+ " nodes signed (need " +:+ toString (Z.of_nat need) +:+ ")")))
          else
            let batch := {| batchId := uuid; sb_sessionId := sessionId session; matches := ms; batchHash := hash;
                            signatures := sigs |} in
            (set_status SSigned (set_batch batch session), Ok (Matched batch))
      end.

(** ** The remote node (node-server.ts)

    Its state is its slice of encrypted shares. *)

Definition requireInternalAuth (token : string) (header : option string) : bool :=
  match header with
  | Some provided => Nat.eqb (String.length provided) (String.length token) && bool_decide (provided = token)
  | None => false
  end.

Inductive reply (A : Type) := Reply (a : A) | Refuse (code : Z) (error : string).
Arguments Reply {A} a.
Arguments Refuse {A} code error.

Definition node_shares := list (string * EncryptedShare).

Definition node_put_share (token node : string) (st : node_shares) (header : option string) (intent : string) (e : EncryptedShare)
    : node_shares * reply unit :=
  if negb (requireInternalAuth token header) then (st, Refuse 401 "unauthorized")
  else if negb (bool_decide (es_nodeId e = node)) then (st, Refuse 400 "share addressed to wrong node")
  else (jset intent e st, Reply tt).

Definition node_decrypt (token : string) (kp : CommitteeNodeKeyPair) (st : node_shares) (header : option string)
    (intentIds : list string) : reply DecryptResponse :=
  if negb (requireInternalAuth token header) then Refuse 401 "unauthorized"
  else Reply {| dr_nodeId := nodeId kp;
                dr_shares := fold_left (fun m id =>
                  jset id (match jget id st with
                           | None => JNull
                           | Some e => match decryptShare e (enc_secretKey kp) with Ok v => v | Err _ => JNull end
                           end) m) intentIds [] |}.

Definition node_sign_batch (token : string) (kp : CommitteeNodeKeyPair) (header : option string)
    (b : string) (ms : list MatchResult) : reply (result NodeSignature) :=
  if negb (requireInternalAuth token header) then Refuse 401 "unauthorized"
  else Reply (signBatch b ms kp).

(** ** The networked coordinator (coordinator-server.ts)

    [sts] holds each configured node's own share store, keyed by node id;
    [up node] says whether requests to that node get through. *)

Definition deliver (token : string) (up : string -> bool) (intent : string) (sts : list (string * node_shares)) (e : EncryptedShare)
    : list (string * node_shares) :=
  match jget (es_nodeId e) sts with
  | None => sts
  | Some st =>
      if up (es_nodeId e) then jset (es_nodeId e) (node_put_share token (es_nodeId e) st (Some token) intent e).1 sts else sts
  end.

Definition distributeShares (token : string) (up : string -> bool) (intent : string) (encs : list EncryptedShare)
    (sts : list (string * node_shares)) : list (string * node_shares) :=
  fold_left (deliver token up intent) encs sts.

(** What [postJson] makes of a node's reply. *)
Definition post_decrypt (token : string) (up : string -> bool) (sts : list (string * node_shares)) (ids : list string)
    (kp : CommitteeNodeKeyPair) : option DecryptResponse :=
  if up (nodeId kp) then
    match node_decrypt token kp (default [] (jget (nodeId kp) sts)) (Some token) ids with Reply r => Some r | Refuse _ _ => None end
  else None.

Definition post_sign (token : string) (up : string -> bool) (b : string) (ms : list MatchResult) (kp : CommitteeNodeKeyPair)
    : option NodeSignature :=
  if up (nodeId kp) then
    match node_sign_batch token kp (Some token) b ms with Reply (Ok s) => Some s | _ => None end
  else None.

Definition remote_round (token : string) (up : string -> bool) (nodes : list CommitteeNodeKeyPair)
    (sts : list (string * node_shares)) (s : SessionState) (uuid : string) : SessionState * result CoordinatorResult :=
  runMatchingRoundRemote s (map nodeId nodes) (map (post_decrypt token up sts (map fst (intents s))) nodes) uuid
    (fun b ms => map (post_sign token up b ms) nodes).

(** ** Coordinator handlers (server.ts) *)

Definition post_intent (nodeCount : nat) (i : MpcIntent) (now : Z) (c : CommitteeState) : CommitteeState * reply (string * string) :=
  if bool_decide (i_intentId i = "") then (c, Refuse 400 "intentId required")
  else if negb (Nat.eqb (length (encryptedShares i)) nodeCount) then
    (c, Refuse 400 ("must supply " +:+ toString (Z.of_nat nodeCount) +:+ " encrypted shares, one per committee node"))
  else let '(c, sid) := addIntent i now c in (c, Reply (i_intentId i, sid)).

(** Overwriting the share of a registered intent (POST /shares/:intentId). *)
Definition post_share (node intent : string) (e : EncryptedShare) (c : CommitteeState) : CommitteeState * reply unit :=
  if negb (bool_decide (es_nodeId e = node)) then (c, Refuse 400 "share addressed to wrong node")
  else match getSessionForIntent intent c with
       | None => (c, Refuse 404 "intent not registered")
       | Some s =>
           match jget node (shares s) ≫= jget intent with
           | None => (c, Refuse 404 "share slot not found for this intent")
           | Some entry =>
               let entry := {| en_intentId := en_intentId entry; en_nodeId := en_nodeId entry;
                               en_encryptedShare := {| es_nodeId := ""; ciphertext := ciphertext e; nonce := nonce e;
                                                       senderPubkey := senderPubkey e |};
                               decryptedShare := decryptedShare entry |} in
               let sh := jset node (jset intent entry (default [] (jget node (shares s)))) (shares s) in
               (put_session (set_shares sh s) c, Reply tt)
           end
       end.

Definition status_name (s : SessionStatus) : string :=
  match s with SOpen => "open" | SMatching => "matching" | SSigned => "signed" | SFailed => "failed" end.

(** POST /v1/mpc/sessions/:sessionId/match; [round] is the in-process or the
    networked round. *)
Definition post_match (round : SessionState -> SessionState * result CoordinatorResult) (id : string) (c : CommitteeState)
    : CommitteeState * reply (result CoordinatorResult) :=
  match getSession id c with
  | None => (c, Refuse 404 "session not found")
  | Some s =>
      if negb (is_open s) then (c, Reply (Ok (NotMatched ("session already in status '" +:+ status_name (status s) +:+ "'"))))
      else let '(s, r) := round s in (put_session s c, Reply r)
  end.

Definition get_batches (c : CommitteeState) : list SignedMatchBatch :=
  omap signedBatch (List.filter (fun s => bool_decide (status s = SSigned)) (allSessions c)).

(** The batch timer: every open session with at least two intents, in order.
    A session object is named by its id.  A thrown error ends the sweep. *)
Fixpoint batch_sweep (round : SessionState -> SessionState * result CoordinatorResult) (open : list string) (c : CommitteeState)
    : CommitteeState * result unit :=
  match open with
  | [] => (c, Ok tt)
  | id :: open =>
      match getSession id c with
      | None => batch_sweep round open c
      | Some s =>
          if (length (intents s) <? 2)%nat then batch_sweep round open c
          else
            let '(s, r) := round s in
            let c := put_session s c in
            match r with Err e => (c, Err e) | Ok _ => batch_sweep round open c end
      end
  end.

Definition batch_timer (round : SessionState -> SessionState * result CoordinatorResult) (c : CommitteeState)
    : CommitteeState * result unit :=
  batch_sweep round (map sessionId (getOpenSessions c)) c.

(** POST /v1/mpc/intents of coordinator-server.ts *)
Definition post_intent_remote (token : string) (up : string -> bool) (nodeCount : nat) (i : MpcIntent) (now : Z)
    (w : CommitteeState * list (string * node_shares)) : (CommitteeState * list (string * node_shares)) * reply (string * string) :=
  match post_intent nodeCount i now w.1 with
  | (c, Reply r) => ((c, distributeShares token up (i_intentId i) (encryptedShares i) w.2), Reply r)
  | (c, Refuse code e) => ((c, w.2), Refuse code e)
  end.

(** ** Reading the shares of a round *)

Lemma available_shares_firstn ids sh intent acc : (length acc < 2)%nat ->
  available_shares ids sh intent acc = firstn 2 (acc ++ List.filter truthy (map (share_value sh intent) ids)).
Proof.
  revert acc. induction ids as [|id ids IH]; intros acc Hacc; cbn [available_shares map List.filter].
  { rewrite app_nil_r, firstn_all2; [done|lia]. }
  destruct (truthy (share_value sh intent id)).
  - destruct (Nat.leb_spec 2 (length (acc ++ [share_value sh intent id]))) as [Hl|Hl].
    + assert (length (acc ++ [share_value sh intent id]) = 2%nat) as E2 by (rewrite length_app in *; cbn in *; lia).
      rewrite (cons_middle _ acc (List.filter _ _)), app_assoc, firstn_app, E2, firstn_all2 by lia. by rewrite app_nil_r.
    + rewrite IH by done. by rewrite <- app_assoc.
  - destruct (Nat.leb_spec 2 (length acc)); [lia|]. by rewrite IH.
Qed.

Lemma first_truthy vs : (1 <= length (List.filter truthy vs))%nat ->
  exists i a, vs !! i = Some a /\ truthy a = true /\ List.filter truthy vs = a :: List.filter truthy (drop (S i) vs).
Proof.
  induction vs as [|v vs IH]; cbn [List.filter length]; [lia|]. destruct (truthy v) eqn:E; intros H.
  - by exists 0%nat, v.
  - destruct (IH H) as (i & a & Hi & Ha & Hf). by exists (S i), a.
Qed.

Lemma two_truthy vs : (2 <= length (List.filter truthy vs))%nat ->
  exists i j a b, i <> j /\ vs !! i = Some a /\ vs !! j = Some b /\ truthy a = true /\ truthy b = true /\
    firstn 2 (List.filter truthy vs) = [a; b].
Proof.
  intros H. destruct (first_truthy vs) as (i & a & Hi & Ha & Hf); [lia|]. rewrite Hf in H |- *. cbn in H.
  destruct (first_truthy (drop (S i) vs)) as (j & b & Hj & Hb & Hf2); [lia|].
  rewrite lookup_drop in Hj. exists i, (S i + j)%nat, a, b. rewrite Hf2. split_and!; try done. lia.
Qed.

(** Any two of the [n] shares give the amount. *)
Definition recovers (n : nat) (ss : list Share) (amt : Z) : Prop :=
  forall i j, (i < n)%nat -> (j < n)%nat -> i <> j ->
    reconstructAmount [encodeShare (share_at ss i); encodeShare (share_at ss j)] = Ok amt.

(** Each readable share of an intent is the one its node was dealt, and at
    least two are readable. *)
Definition readable (ids : list string) (sh : share_map) (id : string) (amt : Z) : Prop :=
  exists ss, recovers (length ids) ss amt /\
    (forall k node, ids !! k = Some node -> truthy (share_value sh id node) = true ->
       share_value sh id node = encodeShare (share_at ss k)) /\
    (2 <= length (List.filter truthy (map (share_value sh id) ids)))%nat.

Lemma readable_reconstructs ids sh id amt : readable ids sh id amt ->
  length (available_shares ids sh id []) = 2%nat /\ reconstructAmount (available_shares ids sh id []) = Ok amt.
Proof.
  intros (ss & Hrec & Hval & H2). rewrite available_shares_firstn by (cbn; lia). cbn [app].
  destruct (two_truthy _ H2) as (i & j & a & b & Hij & Hi & Hj & Ha & Hb & ->). split; [done|].
  change (map (share_value sh id) ids) with (share_value sh id <$> ids) in *.
  rewrite list_lookup_fmap in Hi, Hj.
  destruct (ids !! i) as [ni|] eqn:Ei; [|done]. destruct (ids !! j) as [nj|] eqn:Ej; [|done].
  cbn in Hi, Hj. injection Hi as <-. injection Hj as <-. rewrite (Hval i ni Ei Ha), (Hval j nj Ej Hb).
  apply Hrec; [by eapply lookup_lt_Some..|done].
Qed.

(** A submitted intent and the amount hidden in its shares. *)
Definition submission : Type := MpcIntent * Z.
Definition sub_id (h : submission) : string := i_intentId h.1.
Definition true_intent (h : submission) : Intent :=
  {| intentId := sub_id h; amount7dp := h.2; inputAsset := i_inputAsset h.1; outputAsset := i_outputAsset h.1 |}.

Lemma reconstruct_all_true ids sh hs acc :
  Forall (fun h => readable ids sh (sub_id h) h.2) hs ->
  reconstruct_all ids sh (map (fun h => (sub_id h, h.1)) hs) acc = Reconstructed (acc ++ map true_intent hs).
Proof.
  intros H. revert acc. induction H as [|h hs Hh _ IH]; intros acc; cbn [map reconstruct_all].
  { by rewrite app_nil_r. }
  destruct (readable_reconstructs _ _ _ _ Hh) as [-> ->]. cbn [Nat.ltb Nat.leb]. rewrite IH, <- app_assoc. done.
Qed.

(** ** Collecting shares *)

Lemma add_share_jget i sh e node :
  jget node (add_share i sh e) =
    if decide (es_nodeId e = node) then Some (jset (i_intentId i) (share_entry i e) (default [] (jget node sh)))
    else jget node sh.
Proof.
  unfold add_share. destruct (jhas (es_nodeId e) sh) eqn:E.
  - case_decide as Hn; [by subst; rewrite jget_jset_eq|by rewrite jget_jset_ne].
  - case_decide as Hn; [|by rewrite !jget_jset_ne]. subst. rewrite !jget_jset_eq. cbn [default].
    unfold jhas in E. apply bool_decide_eq_false, eq_None_not_Some in E. by rewrite E.
Qed.

Lemma add_shares_jget i encs sh node : NoDup (map es_nodeId encs) ->
  jget node (fold_left (add_share i) encs sh) =
    match find_key es_nodeId node encs with
    | Some e => Some (jset (i_intentId i) (share_entry i e) (default [] (jget node sh)))
    | None => jget node sh
    end.
Proof.
  apply (fold_keyed es_nodeId (add_share i) (fun e o => Some (jset (i_intentId i) (share_entry i e) (default [] o)))).
  intros m e k. apply add_share_jget.
Qed.

(** An intent whose shares come from [splitAmountForCommittee] with threshold
    two, and the amount that was split. *)
Definition honest (nodes : list CommitteeNodeKeyPair) (h : submission) : Prop :=
  0 <= h.2 < P /\ exists draws rnd cs rest,
    Forall rnd_ok rnd /\ length rnd = length nodes /\ draw_coeffs 1 draws = Some (cs, rest) /\
    splitAmountForCommittee (toString h.2) (map nodePublicInfo nodes) 2 draws rnd = Some (Ok (encryptedShares h.1)).

Definition committee_ok (nodes : list CommitteeNodeKeyPair) : Prop :=
  Forall node_ok nodes /\ NoDup (map nodeId nodes) /\ (2 <= length nodes)%nat /\ Z.of_nat (length nodes) < P /\
  NoDup (map signingPubkey (map nodePublicInfo nodes)).

(** Every node holds, for every submission, an entry it can decrypt to the
    share it was dealt. *)
Definition dealt (nodes : list CommitteeNodeKeyPair) (look : string -> string -> option EncryptedShare) (h : submission) : Prop :=
  exists ss, recovers (length nodes) ss h.2 /\ forall k kp, nodes !! k = Some kp ->
    exists e, look (nodeId kp) (sub_id h) = Some e /\ decryptShare e (enc_secretKey kp) = Ok (encodeShare (share_at ss k)).

Lemma honest_dealt {NL : NaclLaws N} nodes h : committee_ok nodes -> honest nodes h ->
  map es_nodeId (encryptedShares h.1) = map nodeId nodes /\
  exists ss, recovers (length nodes) ss h.2 /\ forall k kp, nodes !! k = Some kp ->
    exists e, encryptedShares h.1 !! k = Some e /\ decryptShare e (enc_secretKey kp) = Ok (encodeShare (share_at ss k)).
Proof.
  intros (Hn & _ & H2 & HP & _) (Ha & draws & rnd & cs & rest & Hr & Hl & Hd & Hs).
  destruct (committee_split h.2 nodes 2 draws rnd cs rest Ha Hn Hr Hl ltac:(lia) HP Hd) as (encs & ss & Hs' & HF & HD & HR).
  rewrite Hs in Hs'. injection Hs' as <-. split.
  { clear -HF. induction HF as [|kp e nodes encs E _ IH]; [done|]. cbn. by rewrite E, IH. }
  exists ss. split; [|exact HD]. intros i j Hi Hj Hij. apply (HR [i; j]).
  - repeat constructor; rewrite ?list_elem_of_singleton; [done|set_solver].
  - by repeat constructor.
  - done.
Qed.

Definition session_look (sh : share_map) (node id : string) : option EncryptedShare :=
  en_encryptedShare <$> (jget node sh ≫= jget id).

Definition node_entries (sh : share_map) (node : string) : list (string * NodeShareEntry) := default [] (jget node sh).

Definition session_holds (nodes : list CommitteeNodeKeyPair) (hs : list submission) (s : SessionState) : Prop :=
  intents s = map (fun h => (sub_id h, h.1)) hs /\ NoDup (map sub_id hs) /\
  Forall (fun kp => (node_entries (shares s) (nodeId kp)).*1 = map sub_id hs) nodes /\
  Forall (dealt nodes (session_look (shares s))) hs.

Lemma map_fst_sub hs : (map (fun h : submission => (sub_id h, h.1)) hs).*1 = map sub_id hs.
Proof. induction hs as [|h hs IH]; [done|]. cbn. by rewrite <- IH. Qed.

Lemma session_holds_add {NL : NaclLaws N} nodes hs s h :
  committee_ok nodes -> honest nodes h -> sub_id h ∉ map sub_id hs ->
  session_holds nodes hs s -> session_holds nodes (hs ++ [h]) (add_to_session h.1 s).
Proof.
  intros Hc Hh Hfresh (HI & Hnd & HK & HD). destruct (honest_dealt nodes h Hc Hh) as (Hids & ss & Hrec & Hdec).
  destruct Hc as (_ & Hnid & _).
  assert (forall k kp, nodes !! k = Some kp -> exists e, encryptedShares h.1 !! k = Some e /\
    decryptShare e (enc_secretKey kp) = Ok (encodeShare (share_at ss k)) /\
    jget (nodeId kp) (shares (add_to_session h.1 s)) =
      Some (jset (sub_id h) (share_entry h.1 e) (node_entries (shares s) (nodeId kp)))) as Hget.
  { intros k kp Hk. destruct (Hdec k kp Hk) as (e & He & Hde). exists e. split_and!; try done.
    assert (es_nodeId e = nodeId kp) as Eid.
    { assert ((es_nodeId <$> encryptedShares h.1) !! k = (nodeId <$> nodes) !! k) as E by (f_equal; exact Hids).
      rewrite !list_lookup_fmap, He, Hk in E. by injection E. }
    cbn [shares add_to_session]. rewrite add_shares_jget by (by rewrite Hids). rewrite <- Eid.
    by rewrite (find_key_own es_nodeId _ k e) by (try done; by rewrite Hids). }
  assert (forall kp, kp ∈ nodes -> sub_id h ∉ (node_entries (shares s) (nodeId kp)).*1) as Hnew.
  { intros kp Hkp. rewrite list.Forall_forall in HK. by rewrite (HK kp Hkp). }
  split_and!.
  - cbn [intents add_to_session]. fold (sub_id h). rewrite HI, map_app. apply jset_fresh. by rewrite map_fst_sub.
  - rewrite map_app. apply list.NoDup_app. split_and!; [done|set_solver|by apply list.NoDup_singleton].
  - apply list.Forall_forall. intros kp Hkp. apply list_elem_of_lookup in Hkp as [k Hk].
    destruct (Hget k kp Hk) as (e & _ & _ & E). unfold node_entries at 1. rewrite E. cbn [default].
    assert (kp ∈ nodes) as Hin by (by eapply list_elem_of_lookup_2).
    rewrite jset_fresh by (by apply Hnew). rewrite map_app. unfold id. rewrite fmap_app. f_equal.
    rewrite list.Forall_forall in HK. by apply HK.
  - apply list.Forall_app. split; [|constructor; [|constructor]].
    + rewrite list.Forall_forall in HD |- *. intros h' Hh'. destruct (HD h' Hh') as (ss' & Hr' & Hd').
      exists ss'. split; [done|]. intros k kp Hk. destruct (Hd' k kp Hk) as (e' & Hl' & Hde').
      exists e'. split; [|done]. destruct (Hget k kp Hk) as (e & _ & _ & E). unfold session_look in *. rewrite E.
      cbn [mbind option_bind]. rewrite jget_jset_ne.
      * unfold node_entries. by destruct (jget (nodeId kp) (shares s)).
      * intros Eid. apply Hfresh. rewrite Eid. apply elem_of_map_iff. by exists h'.
    + exists ss. split; [done|]. intros k kp Hk. destruct (Hget k kp Hk) as (e & _ & Hde & E).
      unfold session_look. rewrite E. cbn [mbind option_bind]. rewrite jget_jset_eq. by eexists.
Qed.

(** ** Decrypting and clearing *)

Definition opened (kp : CommitteeNodeKeyPair) (e : NodeShareEntry) : NodeShareEntry :=
  set_decrypted (match decryptShare (en_encryptedShare e) (enc_secretKey kp) with Ok v => v | Err _ => JNull end) e.

Definition opens (kp : CommitteeNodeKeyPair) (kv : string * NodeShareEntry) : Prop :=
  exists v, decryptShare (en_encryptedShare kv.2) (enc_secretKey kp) = Ok v.

Lemma decrypt_entries_ok kp es : Forall (opens kp) es ->
  decrypt_entries kp es = (map (fun kv => (kv.1, opened kp kv.2)) es, None).
Proof.
  induction 1 as [|[id e] es [v Hv] _ IH]; [done|]. cbn [decrypt_entries map]. cbn [snd fst] in *.
  unfold opened at 1. by rewrite Hv, IH.
Qed.

Lemma decrypt_nodes_ok nodes sh : NoDup (map nodeId nodes) ->
  (forall kp, kp ∈ nodes -> Forall (opens kp) (node_entries sh (nodeId kp))) ->
  exists sh', decrypt_nodes nodes sh = (sh', None) /\ forall node,
    jget node sh' = match find_key nodeId node nodes with
                    | Some kp => map (fun kv => (kv.1, opened kp kv.2)) <$> jget node sh
                    | None => jget node sh
                    end.
Proof.
  intros Hnd Hop. exists (fold_left (fun sh kp => match jget (nodeId kp) sh with
    | None => sh | Some es => jset (nodeId kp) (map (fun kv => (kv.1, opened kp kv.2)) es) sh end) nodes sh). split.
  - revert sh Hop. induction nodes as [|kp nodes IH]; intros sh Hop; [done|]. cbn [map] in Hnd.
    apply list.NoDup_cons in Hnd as [Hne Hnd]. cbn [decrypt_nodes fold_left].
    pose proof (Hop kp ltac:(left)) as Hkp. unfold node_entries in Hkp.
    destruct (jget (nodeId kp) sh) as [es|] eqn:E; [|apply IH; [done|]; intros kp' Hk'; apply Hop; by right].
    rewrite decrypt_entries_ok by done. apply IH; [done|]. intros kp' Hk'. unfold node_entries.
    rewrite jget_jset_ne; [by apply Hop; right|]. intros Eid. apply Hne. rewrite Eid.
    apply elem_of_map_iff. by exists kp'.
  - intros node. apply (fold_keyed nodeId _ (fun kp o => map (fun kv => (kv.1, opened kp kv.2)) <$> o)); [|done].
    intros m kp k. case_decide as Hk; subst.
    + destruct (jget (nodeId kp) m) eqn:E; [by rewrite jget_jset_eq|done].
    + destruct (jget (nodeId kp) m) eqn:E; [by rewrite jget_jset_ne|done].
Qed.

Definition sealed (es : list (string * NodeShareEntry)) : Prop := Forall (fun kv => decryptedShare kv.2 = JNull) es.

Lemma clear_nodes_sealed ids sh node :
  sealed (node_entries sh node) \/ node ∈ ids -> sealed (node_entries (fold_left clear_node ids sh) node).
Proof.
  revert sh. induction ids as [|id ids IH]; intros sh H; cbn [fold_left]; [destruct H as [H|H]; [done|set_solver]|].
  apply IH. destruct (decide (node = id)) as [->|Hn].
  - left. unfold clear_node, node_entries. destruct (jget id sh) as [es|] eqn:E; [|by rewrite E; constructor].
    rewrite jget_jset_eq. cbn. unfold sealed. apply Forall_map, list.Forall_true. done.
  - destruct H as [H|H]; [left|right; set_solver]. unfold clear_node.
    destruct (jget id sh) as [es|] eqn:E; [|done]. unfold node_entries. by rewrite jget_jset_ne.
Qed.

(** ** The in-process round on honest submissions *)

Lemma encodeShare_truthy sh : truthy (encodeShare sh) = true.
Proof. done. Qed.

Lemma filter_all {A} (f : A -> bool) l : Forall (fun a => f a = true) l -> List.filter f l = l.
Proof. induction 1 as [|a l Ha _ IH]; [done|]. cbn. by rewrite Ha, IH. Qed.

Lemma session_opens nodes hs s kp : kp ∈ nodes -> session_holds nodes hs s ->
  Forall (opens kp) (node_entries (shares s) (nodeId kp)).
Proof.
  intros Hkp (_ & Hnd & HK & HD). rewrite list.Forall_forall in HK. rewrite list.Forall_forall in HD.
  apply list.Forall_forall. intros [id e] Hin.
  specialize (HK kp Hkp). assert (id ∈ map sub_id hs) as Hid.
  { rewrite <- HK. apply list_elem_of_fmap. by exists (id, e). }
  apply elem_of_map_iff in Hid as (h & <- & Hh). destruct (HD h Hh) as (ss & _ & Hdec).
  apply list_elem_of_lookup in Hkp as [k Hk]. destruct (Hdec k kp Hk) as (e' & Hl & Hde).
  unfold session_look, node_entries in *. destruct (jget (nodeId kp) (shares s)) as [es|]; [|done]. cbn in Hl, Hin, HK.
  rewrite (elem_jget (sub_id h) e es) in Hl; [|by rewrite HK|done]. injection Hl as <-. by eexists.
Qed.

Lemma session_readable nodes hs s sh' :
  NoDup (map nodeId nodes) -> (2 <= length nodes)%nat -> session_holds nodes hs s ->
  (forall node, jget node sh' = match find_key nodeId node nodes with
                    | Some kp => map (fun kv => (kv.1, opened kp kv.2)) <$> jget node (shares s)
                    | None => jget node (shares s)
                    end) ->
  Forall (fun h => readable (map nodeId nodes) sh' (sub_id h) h.2) hs.
Proof.
  intros Hnid H2 (_ & _ & _ & HD) Hget. rewrite list.Forall_forall in HD |- *. intros h Hh.
  destruct (HD h Hh) as (ss & Hrec & Hdec). exists ss. rewrite length_map. split; [done|].
  assert (forall k node, map nodeId nodes !! k = Some node -> share_value sh' (sub_id h) node = encodeShare (share_at ss k)) as Hv.
  { intros k node Hk. change (map nodeId nodes) with (nodeId <$> nodes) in Hk. rewrite list_lookup_fmap in Hk.
    destruct (nodes !! k) as [kp|] eqn:Ek; [|done]. injection Hk as <-.
    destruct (Hdec k kp Ek) as (e & Hl & Hde). unfold share_value. rewrite Hget, (find_key_own nodeId nodes k kp) by done.
    unfold session_look in Hl. destruct (jget (nodeId kp) (shares s)) as [es|]; [|done]. cbn [mbind option_bind fmap option_fmap option_map] in *.
    rewrite jget_map. destruct (jget (sub_id h) es) as [e0|]; [|done]. cbn in Hl. injection Hl as <-.
    cbn. unfold opened. by rewrite Hde. }
  split; [intros k node Hk _; by apply Hv|]. rewrite filter_all, !length_map; [done|].
  apply Forall_map, list.Forall_forall. intros node Hn. apply list_elem_of_lookup in Hn as [k Hk]. by rewrite (Hv k node Hk).
Qed.

Lemma honest_round {NL : NaclLaws N} nodes hs s uuid :
  committee_ok nodes -> session_holds nodes hs s -> (2 <= length hs)%nat ->
  exists s' b, runMatchingRound s nodes uuid = (s', Ok (Matched b)) /\
    batchId b = uuid /\ matches b = matchIntents (map true_intent hs) /\
    verifySignedBatch b (map nodePublicInfo nodes) = Ok true /\
    sessionId s' = sessionId s /\ status s' = SSigned /\ signedBatch s' = Some b /\
    Forall (fun kp => sealed (node_entries (shares s') (nodeId kp))) nodes.
Proof.
  intros (Hok & Hnid & H2 & _ & Hsig) Hs Hlen. pose proof Hs as (HI & _).
  unfold runMatchingRound. rewrite HI, length_map. destruct (Nat.ltb_spec (length hs) 2); [lia|]. cbn [shares set_status].
  destruct (decrypt_nodes_ok nodes (shares s) Hnid) as (sh' & -> & Hget); [intros kp Hkp; by eapply session_opens|].
  cbn [intents set_shares set_status]. rewrite HI.
  rewrite reconstruct_all_true by (by eapply session_readable). cbn [app].
  destruct (sign_all_ok uuid (matchIntents (map true_intent hs)) nodes Hok) as (sigs & Hsigs & _). rewrite Hsigs.
  eexists _, _. split; [reflexivity|]. cbn. split_and!; try done.
  { apply (quorum_batch_accepted _ _ _ _ nodes nodes); try done. pose proof (ceil_two_thirds_spec (length nodes)). lia. }
  apply list.Forall_forall. intros kp Hkp. apply clear_nodes_sealed. right. apply elem_of_map_iff. by exists kp.
Qed.

(** ** The networked round with some nodes down *)

Lemma auth_ok token : requireInternalAuth token (Some token) = true.
Proof. unfold requireInternalAuth. by rewrite Nat.eqb_refl, bool_decide_true. Qed.

(** The answer of a node that is up. *)
Definition answer (st : node_shares) (kp : CommitteeNodeKeyPair) (id : string) : json :=
  match jget id st with
  | None => JNull
  | Some e => match decryptShare e (enc_secretKey kp) with Ok v => v | Err _ => JNull end
  end.

Lemma fold_jset_fresh (f : string -> json) ids m : NoDup ids -> (forall id, id ∈ ids -> id ∉ m.*1) ->
  fold_left (fun m id => jset id (f id) m) ids m = (m ++ map (fun id => (id, f id)) ids)%list.
Proof.
  revert m. induction ids as [|id ids IH]; intros m Hnd Hm; cbn [fold_left map]; [by rewrite app_nil_r|].
  apply list.NoDup_cons in Hnd as [Hni Hnd]. rewrite jset_fresh by (apply Hm; left). rewrite IH, <- app_assoc; [done|done|].
  intros id' Hin. rewrite fmap_app. apply not_elem_of_app. split; [apply Hm; by right|]. cbn. set_solver.
Qed.

Lemma post_decrypt_up token up sts ids kp : up (nodeId kp) = true -> NoDup ids ->
  post_decrypt token up sts ids kp =
    Some {| dr_nodeId := nodeId kp; dr_shares := map (fun id => (id, answer (default [] (jget (nodeId kp) sts)) kp id)) ids |}.
Proof.
  intros Hu Hnd. unfold post_decrypt, node_decrypt. rewrite Hu, auth_ok. cbn [negb]. do 2 f_equal.
  apply (fold_jset_fresh (answer (default [] (jget (nodeId kp) sts)) kp) ids []); [done|set_solver].
Qed.

Definition ups (up : string -> bool) (nodes : list CommitteeNodeKeyPair) : list CommitteeNodeKeyPair :=
  List.filter (fun kp => up (nodeId kp)) nodes.

Lemma omap_ups {A} (up : string -> bool) nodes (f : CommitteeNodeKeyPair -> option A) (g : CommitteeNodeKeyPair -> A) :
  (forall kp, kp ∈ nodes -> f kp = if up (nodeId kp) then Some (g kp) else None) ->
  omap id (map f nodes) = map g (ups up nodes).
Proof.
  intros Hf. unfold ups. induction nodes as [|kp nodes IH]; [done|]. cbn [map List.filter].
  rewrite (Hf kp) by left. destruct (up (nodeId kp)); cbn; rewrite IH; try done; intros kp' Hk; apply Hf; by right.
Qed.

Lemma ups_sublist up nodes : sublist (ups up nodes) nodes.
Proof. unfold ups. induction nodes as [|kp nodes IH]; cbn; [done|]. destruct (up (nodeId kp)); by constructor. Qed.

Lemma store_shares_jget l es id : NoDup l.*1 ->
  jget id (fold_left store_share l es) =
    (fun e => match jget id l with Some v => set_decrypted v e | None => e end) <$> jget id es.
Proof.
  intros Hnd. rewrite (fold_keyed (fst : string * json -> string) store_share (fun kv o => set_decrypted kv.2 <$> o)); [| |done].
  - destruct (jget id l) as [v|] eqn:E.
    + apply jget_Some_elem, list_elem_of_lookup in E as [i Hi].
      pose proof (find_key_own fst l i (id, v) Hnd Hi) as Hf. cbn in Hf. by rewrite Hf.
    + apply jget_None in E. rewrite find_key_None by done. by destruct (jget id es).
  - intros m [k v] k'. unfold store_share. cbn [fst snd]. case_decide as Hk; subst.
    + destruct (jget k' m) eqn:E; [by rewrite jget_jset_eq|done].
    + destruct (jget k m) eqn:E; [by rewrite jget_jset_ne|done].
Qed.

Lemma store_responses_jget rs sh node : NoDup (map dr_nodeId rs) ->
  jget node (fold_left store_response rs sh) =
    match find_key dr_nodeId node rs with
    | Some r => fold_left store_share (dr_shares r) <$> jget node sh
    | None => jget node sh
    end.
Proof.
  apply (fold_keyed dr_nodeId store_response (fun r o => fold_left store_share (dr_shares r) <$> o)).
  intros m r k. unfold store_response. case_decide as Hk; subst.
  - destruct (jget (dr_nodeId r) m) eqn:E; [by rewrite jget_jset_eq|done].
  - destruct (jget (dr_nodeId r) m) eqn:E; [by rewrite jget_jset_ne|done].
Qed.

Lemma map_pair_fst {A B} (f : A -> B) l : (map (fun a => (a, f a)) l).*1 = l.
Proof. induction l as [|a l IH]; [done|]. cbn. f_equal. exact IH. Qed.

(** The value the coordinator holds for node [kp] after the answers came in. *)
Lemma stored_value token up nodes sts ids sh k kp iid e :
  NoDup (map nodeId nodes) -> NoDup ids -> iid ∈ ids -> nodes !! k = Some kp -> sealed (node_entries sh (nodeId kp)) ->
  jget (nodeId kp) sh ≫= jget iid = Some e ->
  share_value (fold_left store_response (omap id (map (post_decrypt token up sts ids) nodes)) sh) iid (nodeId kp) =
    if up (nodeId kp) then answer (default [] (jget (nodeId kp) sts)) kp iid else JNull.
Proof.
  intros Hnid Hids Hin Hk Hseal He.
  set (g := fun kp => {| dr_nodeId := nodeId kp; dr_shares := map (fun i => (i, answer (default [] (jget (nodeId kp) sts)) kp i)) ids |}).
  rewrite (omap_ups up nodes (post_decrypt token up sts ids) g).
  2:{ intros kp' Hkp'. destruct (up (nodeId kp')) eqn:Eu; [by rewrite post_decrypt_up|]. unfold post_decrypt. by rewrite Eu. }
  assert (map dr_nodeId (map g (ups up nodes)) = map nodeId (ups up nodes)) as Emap by (rewrite map_map; done).
  assert (NoDup (map nodeId (ups up nodes))) as Hnu.
  { eapply sublist_NoDup; [exact Hnid|]. change (nodeId <$> ups up nodes `sublist_of` nodeId <$> nodes). apply fmap_sublist, ups_sublist. }
  unfold share_value. rewrite store_responses_jget by (by rewrite Emap).
  destruct (jget (nodeId kp) sh) as [es|] eqn:Ees; [|done]. cbn [mbind option_bind] in He.
  assert (kp ∈ nodes) as Hkp by (by eapply list_elem_of_lookup_2).
  destruct (up (nodeId kp)) eqn:Eu.
  - assert (g kp ∈ map g (ups up nodes)) as Hg.
    { apply elem_of_map_iff. exists kp. split; [done|]. apply list_elem_of_In, filter_In. by rewrite <- list_elem_of_In. }
    apply list_elem_of_lookup in Hg as [i Hi]. pose proof (find_key_own dr_nodeId _ i (g kp) ltac:(by rewrite Emap) Hi) as Hf.
    cbn [g dr_nodeId] in Hf. rewrite Hf. cbn [fmap option_fmap option_map mbind option_bind dr_shares].
    change (dr_shares (g kp)) with (map (fun i => (i, answer (default [] (jget (nodeId kp) sts)) kp i)) ids).
    rewrite store_shares_jget, He by (by rewrite map_pair_fst).
    cbn [fmap option_fmap option_map].
    rewrite (elem_jget iid (answer (default [] (jget (nodeId kp) sts)) kp iid)); [done| |].
    + by rewrite map_pair_fst.
    + apply elem_of_map_iff. by exists iid.
  - rewrite find_key_None; cbn [mbind option_bind]; rewrite ?He.
    + apply jget_Some_elem in He. unfold node_entries in Hseal. rewrite Ees in Hseal. cbn in Hseal. unfold sealed in Hseal.
      rewrite list.Forall_forall in Hseal. by apply (Hseal (iid, e)).
    + rewrite Emap. intros Hn. apply elem_of_map_iff in Hn as (kp' & Eid & Hin').
      apply list_elem_of_In, filter_In in Hin' as [_ Hu']. congruence.
Qed.

Definition stored (up : string -> bool) (nodes : list CommitteeNodeKeyPair) (sts : list (string * node_shares)) (h : submission) : Prop :=
  exists ss, recovers (length nodes) ss h.2 /\ forall k kp, nodes !! k = Some kp -> up (nodeId kp) = true ->
    exists e, jget (nodeId kp) sts ≫= jget (sub_id h) = Some e /\ decryptShare e (enc_secretKey kp) = Ok (encodeShare (share_at ss k)).

Definition sealed_session (s : SessionState) : Prop := forall node, sealed (node_entries (shares s) node).

Lemma filter_map_length {A B} (f : B -> bool) (g : A -> B) (h : A -> bool) l :
  (forall a, a ∈ l -> f (g a) = h a) -> length (List.filter f (map g l)) = length (List.filter h l).
Proof.
  induction l as [|a l IH]; intros H; [done|]. cbn. rewrite (H a) by left.
  destruct (h a); cbn; rewrite IH; try done; intros b Hb; apply H; by right.
Qed.

Lemma stored_readable token up nodes hs s sts :
  NoDup (map nodeId nodes) -> (2 <= length (ups up nodes))%nat ->
  session_holds nodes hs s -> sealed_session s -> Forall (stored up nodes sts) hs ->
  Forall (fun h => readable (map nodeId nodes)
    (fold_left store_response (omap id (map (post_decrypt token up sts (map sub_id hs)) nodes)) (shares s)) (sub_id h) h.2) hs.
Proof.
  intros Hnid H2 (_ & Hnd & _ & HD) Hseal Hst. rewrite list.Forall_forall in HD. rewrite list.Forall_forall in Hst.
  apply list.Forall_forall. intros h Hh. destruct (HD h Hh) as (ss0 & _ & Hent). destruct (Hst h Hh) as (ss & Hrec & Hdec).
  set (sh' := fold_left store_response _ _).
  assert (forall k kp, nodes !! k = Some kp -> share_value sh' (sub_id h) (nodeId kp) =
            if up (nodeId kp) then encodeShare (share_at ss k) else JNull) as Hv.
  { intros k kp Hk. destruct (Hent k kp Hk) as (e0 & Hl & _). unfold session_look in Hl.
    destruct (jget (nodeId kp) (shares s) ≫= jget (sub_id h)) as [e|] eqn:Ee; [|done].
    unfold sh'. rewrite (stored_value token up nodes sts _ _ k kp (sub_id h) e);
      [|done|done|apply elem_of_map_iff; by exists h|done|apply Hseal|done].
    destruct (up (nodeId kp)) eqn:Eu; [|done]. destruct (Hdec k kp Hk Eu) as (e' & Hl' & Hde). unfold answer.
    destruct (jget (nodeId kp) sts) as [st|]; [|done]. cbn in Hl' |- *. unfold id. by rewrite Hl', Hde. }
  exists ss. rewrite length_map. split_and!; [done| |].
  - intros k node Hk Ht. change (map nodeId nodes) with (nodeId <$> nodes) in Hk. rewrite list_lookup_fmap in Hk.
    destruct (nodes !! k) as [kp|] eqn:Ek; [|done]. injection Hk as <-. rewrite (Hv k kp Ek) in Ht |- *.
    by destruct (up (nodeId kp)).
  - rewrite map_map, (filter_map_length _ _ (fun kp => up (nodeId kp))); [done|].
    intros kp Hkp. apply list_elem_of_lookup in Hkp as [k Hk]. rewrite (Hv k kp Hk). by destruct (up (nodeId kp)).
Qed.

Lemma sign_all_ups {NL : NaclLaws N} token up nodes b ms : Forall node_ok nodes ->
  sign_all b ms (ups up nodes) = Ok (omap id (map (post_sign token up b ms) nodes)).
Proof.
  induction 1 as [|kp nodes Hkp _ IH]; [done|]. unfold ups in *. cbn [List.filter map]. unfold post_sign at 1, node_sign_batch.
  rewrite auth_ok. cbn [negb]. destruct (up (nodeId kp)); [|exact IH].
  destruct (sign_verifies b ms kp Hkp) as (s & Hs & _). cbn [sign_all]. rewrite Hs, IH. done.
Qed.

Lemma remote_round_ok {NL : NaclLaws N} token up nodes hs s sts uuid :
  committee_ok nodes -> (ceil_two_thirds (length nodes) <= length (ups up nodes))%nat ->
  session_holds nodes hs s -> sealed_session s -> Forall (stored up nodes sts) hs -> (2 <= length hs)%nat ->
  exists s' b, remote_round token up nodes sts s uuid = (s', Ok (Matched b)) /\
    matches b = matchIntents (map true_intent hs) /\ verifySignedBatch b (map nodePublicInfo nodes) = Ok true /\
    sessionId s' = sessionId s /\ status s' = SSigned /\ signedBatch s' = Some b /\
    Forall (fun kp => sealed (node_entries (shares s') (nodeId kp))) nodes.
Proof.
  intros (Hok & Hnid & H2 & _ & Hsig) Hq Hs Hseal Hst Hlen. pose proof Hs as (HI & Hnd & _).
  assert (2 <= length (ups up nodes))%nat as H2u by (pose proof (ceil_two_thirds_spec (length nodes)); lia).
  unfold remote_round, runMatchingRoundRemote. rewrite HI, !length_map.
  change (map fst (map (fun h : submission => (sub_id h, h.1)) hs)) with ((map (fun h : submission => (sub_id h, h.1)) hs).*1).
  rewrite map_fst_sub. destruct (Nat.ltb_spec (length hs) 2); [lia|].
  assert (length (omap id (map (post_decrypt token up sts (map sub_id hs)) nodes)) = length (ups up nodes)) as ->.
  { rewrite (omap_ups up nodes _ (fun kp => default {| dr_nodeId := ""; dr_shares := [] |} (post_decrypt token up sts (map sub_id hs) kp))).
    { by rewrite length_map. }
    intros kp _. destruct (up (nodeId kp)) eqn:Eu; [by rewrite post_decrypt_up|]. unfold post_decrypt. by rewrite Eu. }
  destruct (Nat.ltb_spec (length (ups up nodes)) (ceil_two_thirds (length nodes))); [lia|].
  cbn [shares intents set_shares set_status]. rewrite HI.
  rewrite reconstruct_all_true by (by apply stored_readable). cbn [app].
  set (ms := matchIntents (map true_intent hs)).
  assert (Forall node_ok (ups up nodes)) as Hoku.
  { rewrite list.Forall_forall in Hok |- *. intros kp Hkp. apply Hok. by eapply sublist_subseteq, Hkp; apply ups_sublist. }
  pose proof (sign_all_ups token up nodes uuid ms Hok) as Hsa.
  destruct (sign_all_ok uuid ms (ups up nodes) Hoku) as (sigs & Hsigs & Hm & _). rewrite Hsa in Hsigs. injection Hsigs as Esigs.
  rewrite Esigs. assert (length sigs = length (ups up nodes)) as Hls by (apply (f_equal length) in Hm; by rewrite !length_map in Hm).
  destruct (Nat.ltb_spec (length sigs) (ceil_two_thirds (length nodes))); [lia|].
  eexists _, _. split; [reflexivity|]. cbn. split_and!; try done.
  - apply (quorum_batch_accepted _ _ _ _ nodes (ups up nodes)); try done.
    + intros kp. apply sublist_subseteq, ups_sublist.
    + eapply sublist_NoDup; [exact Hsig|]. apply (fmap_sublist signingPubkey), (fmap_sublist nodePublicInfo), ups_sublist.
    + by rewrite Hsa, Esigs.
  - apply list.Forall_forall. intros kp Hkp. apply clear_nodes_sealed. right. apply elem_of_map_iff. by exists kp.
Qed.

(** ** From submissions to the round *)

Lemma add_to_session_sealed i s : sealed_session s -> sealed_session (add_to_session i s).
Proof.
  unfold sealed_session, add_to_session. cbn [shares]. generalize (shares s) as sh.
  induction (encryptedShares i) as [|e encs IH]; intros sh H; [done|]. cbn [fold_left]. apply IH. intros node.
  unfold node_entries. rewrite add_share_jget. case_decide; [|apply H]. cbn. unfold id.
  specialize (H node). unfold node_entries, sealed in *. apply list.Forall_forall. intros [k v] Hin.
  apply jset_elem in Hin as [[-> ->]|Hin]; [done|]. rewrite list.Forall_forall in H. by apply (H (k, v)).
Qed.

(** One open session holding exactly the submissions [hs]. *)
Definition collected (nodes : list CommitteeNodeKeyPair) (sid : string) (hs : list submission) (c : CommitteeState) : Prop :=
  exists s, sessions c = [(sid, s)] /\ sessionId s = sid /\ status s = SOpen /\ session_holds nodes hs s /\ sealed_session s.

Definition submit (nodes : list CommitteeNodeKeyPair) (now : MpcIntent -> Z) (c : CommitteeState) (h : submission) : CommitteeState :=
  (post_intent (length nodes) h.1 (now h.1) c).1.

Lemma honest_length {NL : NaclLaws N} nodes h : committee_ok nodes -> honest nodes h -> length (encryptedShares h.1) = length nodes.
Proof.
  intros Hc Hh. destruct (honest_dealt nodes h Hc Hh) as [E _]. apply (f_equal length) in E. by rewrite !length_map in E.
Qed.

Lemma post_intent_Reply n i now c : i_intentId i <> "" -> length (encryptedShares i) = n ->
  post_intent n i now c = ((addIntent i now c).1, Reply (i_intentId i, (addIntent i now c).2)).
Proof.
  intros Hne Hl. unfold post_intent. rewrite bool_decide_false by done. rewrite Hl, Nat.eqb_refl. cbn [negb].
  by destruct (addIntent i now c).
Qed.

Lemma submit_collected {NL : NaclLaws N} nodes now sid hs h c :
  committee_ok nodes -> honest nodes h -> sub_id h <> "" -> sub_id h ∉ map sub_id hs ->
  collected nodes sid hs c -> collected nodes sid (hs ++ [h]) (submit nodes now c h).
Proof.
  intros Hc Hh Hne Hfresh (s & Hs & Hid & Ho & Hhold & Hseal). unfold submit.
  rewrite post_intent_Reply by (by try apply honest_length). cbn [fst].
  unfold addIntent, getOrCreateOpenSession. rewrite Hs. cbn [map List.find snd]. unfold is_open at 1.
  rewrite bool_decide_true by done. exists (add_to_session h.1 s). cbn [fst sessions sessionId add_to_session]. rewrite Hs, Hid.
  cbn [jset]. rewrite decide_True by done. split_and!; try done; [by apply session_holds_add|by apply add_to_session_sealed].
Qed.

Lemma submit_all_collected {NL : NaclLaws N} nodes now sid hs0 hs c :
  committee_ok nodes -> Forall (honest nodes) hs -> "" ∉ map sub_id hs -> NoDup (map sub_id (hs0 ++ hs)) ->
  collected nodes sid hs0 c -> collected nodes sid (hs0 ++ hs) (fold_left (submit nodes now) hs c).
Proof.
  intros Hc Hh. revert hs0 c. induction Hh as [|h hs Hh _ IH]; intros hs0 c Hne Hnd Hcol; cbn [fold_left].
  { by rewrite app_nil_r. }
  rewrite cons_middle, app_assoc in Hnd |- *. cbn [map] in Hne. apply not_elem_of_cons in Hne as [Hne1 Hne2].
  apply IH; [done|done|]. apply submit_collected; try done.
  rewrite map_app, map_app in Hnd. apply list.NoDup_app in Hnd as [Hnd _]. apply list.NoDup_app in Hnd as (_ & Hnd & _).
  intros Hin. apply (Hnd _ Hin). cbn. left.
Qed.

Definition session_name (now : MpcIntent -> Z) (hs : list submission) : string :=
  "session-" +:+ toString (match hs with h :: _ => now h.1 | [] => 0 end).

Lemma submit_first nodes now h c0 : c0 = (createSession (session_name now [h]) (now h.1) newCommitteeState).1 ->
  submit nodes now newCommitteeState h =
  submit nodes now c0 h \/ (i_intentId h.1 = "" \/ length (encryptedShares h.1) <> length nodes).
Proof.
  intros ->. destruct (decide (i_intentId h.1 = "")); [by right; left|].
  destruct (decide (length (encryptedShares h.1) = length nodes)); [left|by right; right].
  unfold submit. by rewrite !post_intent_Reply.
Qed.

Lemma fresh_session_collected nodes sid now : collected nodes sid [] (createSession sid now newCommitteeState).1.
Proof.
  eexists. split_and!; [reflexivity|done|done| |intros node; constructor].
  split_and!; [done|constructor|by apply list.Forall_true|constructor].
Qed.

(** After the submissions the coordinator has one open session that holds
    them all. *)
Lemma submissions_collected {NL : NaclLaws N} nodes now hs :
  committee_ok nodes -> Forall (honest nodes) hs -> "" ∉ map sub_id hs -> NoDup (map sub_id hs) -> hs <> [] ->
  collected nodes (session_name now hs) hs (fold_left (submit nodes now) hs newCommitteeState).
Proof.
  intros Hc Hh Hne Hnd Hnil. destruct hs as [|h hs]; [done|]. cbn [fold_left]. inversion Hh as [|? ? Hh1 Hh2]; subst.
  destruct (submit_first nodes now h _ eq_refl) as [->|[E|E]].
  - apply (submit_all_collected nodes now _ [] (h :: hs)); try done. apply fresh_session_collected.
  - exfalso. apply Hne. cbn. unfold sub_id at 1. rewrite E. left.
  - by destruct (E (honest_length nodes h Hc Hh1)).
Qed.

(** ** Delivery to the nodes *)

Lemma deliver_jget token up i sts e node :
  jget node (deliver token up i sts e) =
    if decide (es_nodeId e = node) then (fun st => if up (es_nodeId e) then jset i e st else st) <$> jget node sts
    else jget node sts.
Proof.
  unfold deliver, node_put_share. rewrite auth_ok, (bool_decide_true (es_nodeId e = es_nodeId e)) by done. cbn [negb fst].
  case_decide as Hn; subst.
  - destruct (jget (es_nodeId e) sts) eqn:E; [|by rewrite E]. destruct (up (es_nodeId e)); [by rewrite jget_jset_eq|by rewrite E].
  - destruct (jget (es_nodeId e) sts) eqn:E; [|done]. destruct (up (es_nodeId e)); [by rewrite jget_jset_ne|done].
Qed.

Definition nodes_known (nodes : list CommitteeNodeKeyPair) (sts : list (string * node_shares)) : Prop :=
  Forall (fun kp => is_Some (jget (nodeId kp) sts)) nodes.

Lemma distribute_stored {NL : NaclLaws N} token up nodes hs h sts :
  committee_ok nodes -> honest nodes h -> sub_id h ∉ map sub_id hs -> nodes_known nodes sts ->
  Forall (stored up nodes sts) hs ->
  let sts' := distributeShares token up (sub_id h) (encryptedShares h.1) sts in
  nodes_known nodes sts' /\ Forall (stored up nodes sts') (hs ++ [h]).
Proof.
  intros Hc Hh Hfresh Hk Hst sts'. destruct (honest_dealt nodes h Hc Hh) as (Hids & ss & Hrec & Hdec).
  destruct Hc as (_ & Hnid & _). unfold nodes_known in *. rewrite list.Forall_forall in Hk.
  assert (forall k kp, nodes !! k = Some kp -> exists e st, encryptedShares h.1 !! k = Some e /\ jget (nodeId kp) sts = Some st /\
    decryptShare e (enc_secretKey kp) = Ok (encodeShare (share_at ss k)) /\
    jget (nodeId kp) sts' = Some (if up (nodeId kp) then jset (sub_id h) e st else st)) as Hget.
  { intros k kp Hkp. destruct (Hdec k kp Hkp) as (e & He & Hde).
    destruct (Hk kp ltac:(by eapply list_elem_of_lookup_2)) as [st Hst']. exists e, st. split_and!; try done.
    assert (es_nodeId e = nodeId kp) as Eid.
    { assert ((es_nodeId <$> encryptedShares h.1) !! k = (nodeId <$> nodes) !! k) as E by (f_equal; exact Hids).
      rewrite !list_lookup_fmap, He, Hkp in E. by injection E. }
    unfold sts', distributeShares.
    rewrite (fold_keyed es_nodeId _ (fun e o => (fun st : node_shares => if up (es_nodeId e) then jset (sub_id h) e st else st : node_shares) <$> o));
      [|intros m e' k'; apply deliver_jget|by rewrite Hids].
    rewrite <- Eid in Hst' |- *. rewrite (find_key_own es_nodeId _ k e) by (by rewrite ?Hids). by rewrite Hst'. }
  split.
  { apply list.Forall_forall. intros kp Hin. apply list_elem_of_lookup in Hin as [k Hkp].
    destruct (Hget k kp Hkp) as (? & ? & _ & _ & _ & ->). by eexists. }
  apply list.Forall_app. split; [|constructor; [|constructor]].
  - rewrite list.Forall_forall in Hst |- *. intros h' Hh'. destruct (Hst h' Hh') as (ss' & Hr' & Hd').
    exists ss'. split; [done|]. intros k kp Hkp Hu. destruct (Hd' k kp Hkp Hu) as (e' & Hl' & Hde'). exists e'. split; [|done].
    destruct (Hget k kp Hkp) as (e & st & _ & Hst' & _ & ->). rewrite Hst' in Hl'. cbn [mbind option_bind] in *.
    rewrite Hu, jget_jset_ne; [done|]. intros Eid. apply Hfresh. rewrite Eid. apply elem_of_map_iff. by exists h'.
  - exists ss. split; [done|]. intros k kp Hkp Hu. destruct (Hget k kp Hkp) as (e & st & _ & _ & Hde & ->).
    exists e. cbn [mbind option_bind]. by rewrite Hu, jget_jset_eq.
Qed.

Definition submit_remote (token : string) (up : string -> bool) (nodes : list CommitteeNodeKeyPair) (now : MpcIntent -> Z)
    (w : CommitteeState * list (string * node_shares)) (h : submission) : CommitteeState * list (string * node_shares) :=
  (post_intent_remote token up (length nodes) h.1 (now h.1) w).1.

Definition fresh_nodes (nodes : list CommitteeNodeKeyPair) : list (string * node_shares) := map (fun kp => (nodeId kp, [])) nodes.

Lemma fresh_nodes_known nodes : nodes_known nodes (fresh_nodes nodes).
Proof.
  apply list.Forall_forall. intros kp Hkp. destruct (jget (nodeId kp) (fresh_nodes nodes)) eqn:E; [by eexists|].
  apply jget_None in E. exfalso. apply E. unfold fresh_nodes.
  apply list_elem_of_fmap. exists (nodeId kp, []). split; [done|]. apply elem_of_map_iff. by exists kp.
Qed.

Lemma submit_remote_stored {NL : NaclLaws N} token up nodes now hs0 hs c sts :
  committee_ok nodes -> Forall (honest nodes) hs -> "" ∉ map sub_id hs -> NoDup (map sub_id (hs0 ++ hs)) ->
  nodes_known nodes sts -> Forall (stored up nodes sts) hs0 ->
  let w := fold_left (submit_remote token up nodes now) hs (c, sts) in
  w.1 = fold_left (submit nodes now) hs c /\ Forall (stored up nodes w.2) (hs0 ++ hs).
Proof.
  intros Hc Hh. revert hs0 c sts. induction Hh as [|h hs Hh _ IH]; intros hs0 c sts Hne Hnd Hk Hst; cbn [fold_left].
  { by rewrite app_nil_r. }
  cbn [map] in Hne. apply not_elem_of_cons in Hne as [Hne1 Hne2].
  rewrite cons_middle, app_assoc in Hnd |- *.
  assert (sub_id h ∉ map sub_id hs0) as Hf.
  { rewrite map_app, map_app in Hnd. apply list.NoDup_app in Hnd as [Hnd' _]. apply list.NoDup_app in Hnd' as (_ & Hnd' & _).
    intros Hin. apply (Hnd' _ Hin). cbn. left. }
  destruct (distribute_stored token up nodes hs0 h sts Hc Hh Hf Hk Hst) as [Hk' Hst'].
  assert (submit_remote token up nodes now (c, sts) h =
          (submit nodes now c h, distributeShares token up (sub_id h) (encryptedShares h.1) sts)) as ->.
  { unfold submit_remote, submit, post_intent_remote. cbn [fst snd].
    by rewrite post_intent_Reply by (by try apply honest_length). }
  by apply IH.
Qed.

(** ** Reachable committee states *)

Definition batch_ok (nodes : list CommitteeNodeKeyPair) (s : SessionState) : Prop :=
  status s = SSigned -> exists b, signedBatch s = Some b /\ sb_sessionId b = sessionId s /\
    verifySignedBatch b (map nodePublicInfo nodes) = Ok true.

Inductive committee_step (nodes : list CommitteeNodeKeyPair) (c : CommitteeState) : CommitteeState -> Prop :=
| step_intent i now : committee_step nodes c (post_intent (length nodes) i now c).1
| step_share node intent e : committee_step nodes c (post_share node intent e c).1
| step_match id uuid : committee_step nodes c (post_match (fun s => runMatchingRound s nodes uuid) id c).1
| step_timer (uuid : SessionState -> string) :
    committee_step nodes c (batch_timer (fun s => runMatchingRound s nodes (uuid s)) c).1.

Record committee_inv (nodes : list CommitteeNodeKeyPair) (c : CommitteeState) : Prop := {
  inv_keys : NoDup (sessions c).*1;
  inv_ids : Forall (fun kv => sessionId kv.2 = kv.1) (sessions c);
  inv_open : (length (getOpenSessions c) <= 1)%nat;
  inv_batches : Forall (batch_ok nodes) (allSessions c) }.

Lemma round_outcome {NL : NaclLaws N} nodes s uuid : committee_ok nodes ->
  let s' := (runMatchingRound s nodes uuid).1 in
  sessionId s' = sessionId s /\ (s' = s \/ (is_open s' = false /\ batch_ok nodes s')).
Proof.
  intros (Hok & _ & _ & _ & Hsig). unfold runMatchingRound, batch_ok.
  destruct (length (intents s) <? 2)%nat; [by auto|].
  destruct (decrypt_nodes nodes _) as [sh [r|]]; [split; [done|]; by right|].
  destruct (reconstruct_all _ _ _ _) as [l|r|r]; [|split; [done|]; by right..].
  destruct (sign_all uuid (matchIntents l) nodes) as [sigs|e] eqn:Es; [|split; [done|]; by right].
  split; [done|]. right. split; [done|]. intros _. eexists. split_and!; [reflexivity|done|].
  apply (quorum_batch_accepted _ _ _ _ nodes nodes); try done. pose proof (ceil_two_thirds_spec (length nodes)). lia.
Qed.

Definition open_count (l : list (string * SessionState)) : nat := length (List.filter is_open (map snd l)).

Lemma open_count_cons k s l : open_count ((k, s) :: l) = ((if is_open s then 1 else 0) + open_count l)%nat.
Proof. unfold open_count. cbn. by destruct (is_open s). Qed.

Lemma find_none_filter {A} (f : A -> bool) l : List.find f l = None -> List.filter f l = [].
Proof. induction l as [|a l IH]; [done|]. cbn. by destruct (f a). Qed.

Lemma open_count_jset k s l : (open_count (jset k s l) <= open_count l + (if is_open s then 1 else 0))%nat.
Proof.
  induction l as [|[k' s'] l IH]; cbn [jset]; [rewrite open_count_cons; lia|].
  case_decide; rewrite !open_count_cons; [destruct (is_open s'); lia|lia].
Qed.

Lemma open_count_replace k s old l : jget k l = Some old -> (is_open s = true -> is_open old = true) ->
  (open_count (jset k s l) <= open_count l)%nat.
Proof.
  intros Hg Ho. induction l as [|[k' s'] l IH]; [done|]. cbn [jset jget] in *.
  case_decide; rewrite !open_count_cons; [|specialize (IH Hg); lia].
  injection Hg as ->. destruct (is_open s) eqn:E; [rewrite Ho by done|]; lia.
Qed.

Lemma Forall_sessions (Q : SessionState -> Prop) (l : list (string * SessionState)) :
  Forall Q (map snd l) <-> forall k v, (k, v) ∈ l -> Q v.
Proof.
  rewrite list.Forall_forall. split.
  - intros H k v Hin. apply H, elem_of_map_iff. by exists (k, v).
  - intros H v Hv. apply elem_of_map_iff in Hv as ([k v'] & <- & Hin). by apply (H k).
Qed.

Lemma put_inv nodes s c : committee_inv nodes c -> (open_count (jset (sessionId s) s (sessions c)) <= 1)%nat -> batch_ok nodes s ->
  committee_inv nodes (put_session s c).
Proof.
  intros [Hk Hi _ Hb] Ho Hs. split; cbn [put_session sessions]; [by apply jset_nodup| |exact Ho|].
  - rewrite list.Forall_forall in Hi |- *. intros [k v] Hin. apply jset_elem in Hin as [[-> ->]|Hin]; [done|by apply Hi].
  - apply Forall_sessions. intros k v Hin. cbn [sessions put_session] in Hin.
    apply jset_elem in Hin as [[-> ->]|Hin]; [done|]. by apply (proj1 (Forall_sessions _ _) Hb k).
Qed.

Lemma inv_get nodes c id s : committee_inv nodes c -> getSession id c = Some s ->
  sessionId s = id /\ batch_ok nodes s.
Proof.
  intros [_ Hi _ Hb] Hg. apply jget_Some_elem in Hg. rewrite list.Forall_forall in Hi. split; [by apply (Hi (id, s))|].
  by apply (proj1 (Forall_sessions _ _) Hb id).
Qed.

(** Writing back a changed session that was not reopened. *)
Lemma replace_inv nodes c s s' : committee_inv nodes c -> getSession (sessionId s') c = Some s ->
  (is_open s' = true -> is_open s = true) -> batch_ok nodes s' -> committee_inv nodes (put_session s' c).
Proof.
  intros HI Hg Ho Hb. apply put_inv; [done| |done].
  pose proof (open_count_replace _ s' s _ Hg Ho). pose proof (inv_open _ _ HI) as Hop.
  unfold getOpenSessions in Hop. fold (open_count (sessions c)) in Hop. lia.
Qed.

Lemma round_inv {NL : NaclLaws N} nodes c id s uuid : committee_ok nodes -> committee_inv nodes c -> getSession id c = Some s ->
  committee_inv nodes (put_session (runMatchingRound s nodes uuid).1 c).
Proof.
  intros Hc HI Hg. destruct (inv_get nodes c id s HI Hg) as [Hid Hb].
  destruct (round_outcome nodes s uuid Hc) as [Eid Ho]. eapply replace_inv; [done|by rewrite Eid, Hid| |].
  - destruct Ho as [->|[-> _]]; done.
  - destruct Ho as [->|[_ ?]]; done.
Qed.

Lemma sweep_inv {NL : NaclLaws N} nodes (uuid : SessionState -> string) open c : committee_ok nodes -> committee_inv nodes c ->
  committee_inv nodes (batch_sweep (fun s => runMatchingRound s nodes (uuid s)) open c).1.
Proof.
  intros Hc. revert c. induction open as [|id open IH]; intros c HI; [done|]. cbn [batch_sweep].
  destruct (getSession id c) as [s|] eqn:Eg; [|by apply IH]. destruct (length (intents s) <? 2)%nat; [by apply IH|].
  pose proof (round_inv nodes c id s (uuid s) Hc HI Eg) as HI'.
  destruct (runMatchingRound s nodes (uuid s)) as [s' [r|e]]; [by apply IH|done].
Qed.

Lemma session_key nodes c s : committee_inv nodes c -> s ∈ allSessions c -> getSession (sessionId s) c = Some s.
Proof.
  intros [Hk Hi _ _] Hin. unfold allSessions in Hin. apply elem_of_map_iff in Hin as ([k v] & <- & Hin). cbn.
  rewrite list.Forall_forall in Hi. pose proof (Hi _ Hin) as E. cbn in E. subst k. by apply elem_jget.
Qed.

Lemma intent_inv nodes i now c : committee_inv nodes c -> committee_inv nodes (addIntent i now c).1.
Proof.
  intros HI. unfold addIntent, getOrCreateOpenSession. destruct (List.find is_open (map snd (sessions c))) as [s|] eqn:Ef.
  - apply find_some in Ef as [Hin Ho]. apply list_elem_of_In in Hin. pose proof (session_key nodes c s HI Hin) as Hg.
    destruct (inv_get nodes c _ s HI Hg) as [_ Hb].
    assert (committee_inv nodes (put_session (add_to_session i s) c)) as [? ? ? ?] by (by eapply replace_inv). by split.
  - cbn [createSession]. set (s := {| sessionId := "session-" +:+ toString now; startedAt := now; status := SOpen; intents := [];
              shares := []; signedBatch := None |}).
    assert (open_count (sessions c) = 0)%nat as E0.
    { unfold open_count. by rewrite find_none_filter. }
    assert (committee_inv nodes (put_session s c)) as HI1.
    { apply put_inv; [done| |done]. pose proof (open_count_jset (sessionId s) s (sessions c)) as Hj. rewrite E0 in Hj. destruct (is_open s); lia. }
    assert (committee_inv nodes (put_session (add_to_session i s) (put_session s c))) as [? ? ? ?].
    { eapply replace_inv; [done|apply jget_jset_eq|done|done]. }
    by split.
Qed.

Lemma step_inv {NL : NaclLaws N} nodes c c' : committee_ok nodes -> committee_inv nodes c -> committee_step nodes c c' ->
  committee_inv nodes c'.
Proof.
  intros Hc HI [i now|node intent e|id uuid|uuid].
  - unfold post_intent. case_bool_decide; [done|]. destruct (negb _); [done|].
    pose proof (intent_inv nodes i now c HI). by destruct (addIntent i now c).
  - unfold post_share. destruct (negb _); [done|]. unfold getSessionForIntent.
    destruct (jget intent (intentToSession c)) as [sid|]; [|done]. case_bool_decide; [done|].
    destruct (jget sid (sessions c)) as [s|] eqn:Eg; [|done]. destruct (jget node (shares s) ≫= jget intent); [|done].
    destruct (inv_get nodes c sid s HI Eg) as [Eid Hb]. cbn [fst].
    eapply replace_inv; [done|cbn [sessionId set_shares]; by rewrite Eid|done|done].
  - unfold post_match. destruct (getSession id c) as [s|] eqn:Eg; [|done]. destruct (negb _); [done|].
    pose proof (round_inv nodes c id s uuid Hc HI Eg). by destruct (runMatchingRound s nodes uuid).
  - by apply sweep_inv.
Qed.

Lemma reachable_inv {NL : NaclLaws N} nodes c : committee_ok nodes -> rtc (committee_step nodes) newCommitteeState c ->
  committee_inv nodes c.
Proof.
  intros Hc. apply (rtc_ind_r (fun c => committee_inv nodes c)).
  - split; cbn; [constructor|constructor|lia|constructor].
  - intros y z _ Hs HI. by eapply step_inv.
Qed.

Lemma inv_get_batches nodes c : committee_inv nodes c ->
  Forall (fun b => verifySignedBatch b (map nodePublicInfo nodes) = Ok true) (get_batches c).
Proof.
  intros [_ _ _ Hb]. unfold get_batches. induction Hb as [|s l Hs _ IH]; [constructor|]. cbn [List.filter].
  case_bool_decide as E; [|done]. destruct (Hs E) as (b & Eb & _ & Hv). cbn. rewrite Eb. by constructor.
Qed.

End Rounds.
Arguments Reply {A} a.
Arguments Refuse {A} code error.

(** ** Examples *)

Definition toy_intent (id inp out : string) (amt draw : Z) : MpcIntent :=
  {| i_intentId := id; userId := "u"; i_inputAsset := inp; i_outputAsset := out; expiryLedger := 0; policyId := "";
     noteNullifier := ""; noteCommitment := ""; recipientCommitment := "";
     encryptedShares := match splitAmountForCommittee (toString amt) (map nodePublicInfo toy_nodes) 2 [draw] toy_rnd with
                        | Some (Ok l) => l | _ => [] end;
     submittedAt := 0 |}.

Definition toy_subs : list submission := [(toy_intent "a" "USDC" "EURC" 70 5, 70); (toy_intent "b" "EURC" "USDC" 50 9, 50)].

Lemma toy_committee_ok : committee_ok toy_nodes.
Proof.
  split_and!; [apply toy_nodes_ok|by apply (bool_decide_eq_true_1 _); vm_compute|cbn; lia|by vm_compute|
    by apply (bool_decide_eq_true_1 _); vm_compute].
Qed.

Lemma toy_subs_honest : Forall (honest toy_nodes) toy_subs.
Proof.
  repeat constructor; try (vm_compute; congruence).
  - exists [5], toy_rnd, [5], []. split_and!; [apply toy_rnd_ok|done|by vm_compute|by vm_compute].
  - exists [9], toy_rnd, [9], []. split_and!; [apply toy_rnd_ok|done|by vm_compute|by vm_compute].
Qed.

(** The round cannot recover from a share that decrypts to something else than
    a pair of integers: the error escapes, the session stays in "matching" and
    the decrypted shares of its other intents stay in memory. *)
Definition bad_share : EncryptedShare :=
  match encryptShareForNode (JObj [("x", JStr "one")]) (hex_encode (box_public (pad32 "1"))) "node-1" (pad32 "a") "012345678901234567890123" with
  | Ok e => e | Err _ => {| es_nodeId := ""; ciphertext := ""; nonce := ""; senderPubkey := "" |}
  end.

Definition stuck_state : CommitteeState :=
  (post_share "node-1" "b" bad_share (fold_left (submit toy_nodes (fun _ => 7)) toy_subs newCommitteeState)).1.

Lemma malformed_share_strands_session :
  exists c' s' e err, post_match (fun s => runMatchingRound s toy_nodes "batch") "session-7" stuck_state = (c', Reply (Err err)) /\
    getSession "session-7" c' = Some s' /\ status s' = SMatching /\
    jget "node-1" (shares s') ≫= jget "a" = Some e /\ decryptedShare e <> JNull.
Proof. eexists _, _, _, _. split_and!; [vm_compute; reflexivity..|]. done. Qed.

(** The submissions of honest users are matched on their true amounts. *)
Lemma honest_submissions_match {N : Nacl} {NL : NaclLaws N} (nodes : list CommitteeNodeKeyPair) (hs : list submission)
    (now : MpcIntent -> Z) (uuid : string) :
  committee_ok nodes -> Forall (honest nodes) hs -> "" ∉ map sub_id hs -> NoDup (map sub_id hs) -> (2 <= length hs)%nat ->
  exists c' b, post_match (fun s => runMatchingRound s nodes uuid) (session_name now hs)
                 (fold_left (submit nodes now) hs newCommitteeState) = (c', Reply (Ok (Matched b))) /\
    matches b = matchIntents (map true_intent hs) /\ verifySignedBatch b (map nodePublicInfo nodes) = Ok true /\
    get_batches c' = [b] /\
    Forall (fun s => Forall (fun kp => sealed (node_entries (shares s) (nodeId kp))) nodes) (allSessions c').
Proof.
  intros Hc Hh Hne Hnd Hlen.
  destruct (submissions_collected nodes now hs Hc Hh Hne Hnd ltac:(intros ->; cbn in Hlen; lia)) as (s & Hs & Hid & Ho & Hhold & _).
  destruct (honest_round nodes hs s uuid Hc Hhold Hlen) as (s' & b & Hr & _ & Hm & Hv & Hid' & Hst & Hb & Hseal).
  unfold post_match, getSession. rewrite Hs. cbn [jget]. rewrite decide_True by done. unfold is_open. rewrite Ho.
  rewrite bool_decide_true by done. cbn [negb]. rewrite Hr. eexists _, b. split; [reflexivity|].
  unfold get_batches, allSessions, put_session. cbn [sessions]. rewrite Hs, Hid', Hid. cbn [jset]. rewrite decide_True by done.
  cbn [map snd List.filter]. rewrite bool_decide_true by done. cbn. rewrite Hb. split_and!; try done. by constructor; [|constructor].
Qed.

(** ** Properties *)

(** C1: the in-process committee end to end: users split their amounts with
    [splitAmountForCommittee] and submit them; the match request of the session
    they landed in returns a batch whose matches are exactly the netting of the
    true amounts, the batch verifies against the committee's public keys, it is
    the batch the coordinator then serves, and no decrypted share of a
    committee node is left in memory. *)
Theorem honest_round_end_to_end (N : Nacl) (NL : NaclLaws N) (nodes : list CommitteeNodeKeyPair) (hs : list submission)
    (now : MpcIntent -> Z) (uuid : string) :
  committee_ok nodes -> Forall (honest nodes) hs -> "" ∉ map sub_id hs -> NoDup (map sub_id hs) -> (2 <= length hs)%nat ->
  exists c' b, post_match (fun s => runMatchingRound s nodes uuid) (session_name now hs)
                 (fold_left (submit nodes now) hs newCommitteeState) = (c', Reply (Ok (Matched b))) /\
    matches b = matchIntents (map true_intent hs) /\ verifySignedBatch b (map nodePublicInfo nodes) = Ok true /\
    get_batches c' = [b] /\
    Forall (fun s => Forall (fun kp => sealed (node_entries (shares s) (nodeId kp))) nodes) (allSessions c').
Proof. apply honest_submissions_match. Qed.

Lemma honest_round_end_to_end_witness :
  exists c' b, post_match (fun s => runMatchingRound s toy_nodes "batch") (session_name (fun _ => 7) toy_subs)
                 (fold_left (submit toy_nodes (fun _ => 7)) toy_subs newCommitteeState) = (c', Reply (Ok (Matched b))) /\
    matches b = matchIntents (map true_intent toy_subs) /\ verifySignedBatch b (map nodePublicInfo toy_nodes) = Ok true /\
    get_batches c' = [b] /\
    Forall (fun s => Forall (fun kp => sealed (node_entries (shares s) (nodeId kp))) toy_nodes) (allSessions c').
Proof.
  apply (honest_round_end_to_end toyNacl toyNacl_laws toy_nodes toy_subs (fun _ => 7) "batch").
  - apply toy_committee_ok.
  - apply toy_subs_honest.
  - apply (bool_decide_eq_true_1 _). reflexivity.
  - apply (bool_decide_eq_true_1 _). reflexivity.
  - cbn. lia.
Defined.

(** C2: fault tolerance of the networked committee: with any set of nodes of
    size at least [ceil(2n/3)] reachable (the same ones for delivery, decryption
    and signing) and the others down, the round of the honest submissions still
    returns the netting of the true amounts in a batch that verifies, and
    clears the decrypted shares. *)
Theorem remote_round_tolerates_faults (N : Nacl) (NL : NaclLaws N) (token : string) (up : string -> bool)
    (nodes : list CommitteeNodeKeyPair) (hs : list submission) (now : MpcIntent -> Z) (uuid : string) :
  committee_ok nodes -> (ceil_two_thirds (length nodes) <= length (ups up nodes))%nat ->
  Forall (honest nodes) hs -> "" ∉ map sub_id hs -> NoDup (map sub_id hs) -> (2 <= length hs)%nat ->
  let w := fold_left (submit_remote token up nodes now) hs (newCommitteeState, fresh_nodes nodes) in
  exists c' b, post_match (fun s => remote_round token up nodes w.2 s uuid) (session_name now hs) w.1 = (c', Reply (Ok (Matched b))) /\
    matches b = matchIntents (map true_intent hs) /\ verifySignedBatch b (map nodePublicInfo nodes) = Ok true /\
    Forall (fun s => Forall (fun kp => sealed (node_entries (shares s) (nodeId kp))) nodes) (allSessions c').
Proof.
  intros Hc Hq Hh Hne Hnd Hlen w.
  destruct (submissions_collected nodes now hs Hc Hh Hne Hnd ltac:(intros ->; cbn in Hlen; lia)) as (s & Hs & Hid & Ho & Hhold & Hseal).
  destruct (submit_remote_stored token up nodes now [] hs newCommitteeState (fresh_nodes nodes) Hc Hh Hne Hnd
              (fresh_nodes_known nodes) ltac:(constructor)) as [Hw1 Hw2]. fold w in Hw1, Hw2.
  destruct (remote_round_ok token up nodes hs s w.2 uuid Hc Hq Hhold Hseal Hw2 Hlen) as (s' & b & Hr & Hm & Hv & Hid' & Hst & Hb & Hcl).
  unfold post_match, getSession. rewrite Hw1, Hs. cbn [jget]. rewrite decide_True by done. unfold is_open. rewrite Ho.
  rewrite bool_decide_true by done. cbn [negb]. rewrite Hr. eexists _, b. split; [reflexivity|].
  unfold allSessions, put_session. cbn [sessions]. rewrite Hs, Hid', Hid. cbn [jset]. rewrite decide_True by done.
  split_and!; try done. by constructor; [|constructor].
Qed.

Definition node2_down (node : string) : bool := negb (bool_decide (node = "node-2")).

Lemma remote_round_tolerates_faults_witness :
  let w := fold_left (submit_remote "tok" node2_down toy_nodes (fun _ => 7)) toy_subs (newCommitteeState, fresh_nodes toy_nodes) in
  exists c' b, post_match (fun s => remote_round "tok" node2_down toy_nodes w.2 s "batch") (session_name (fun _ => 7) toy_subs) w.1
      = (c', Reply (Ok (Matched b))) /\
    matches b = matchIntents (map true_intent toy_subs) /\ verifySignedBatch b (map nodePublicInfo toy_nodes) = Ok true /\
    Forall (fun s => Forall (fun kp => sealed (node_entries (shares s) (nodeId kp))) toy_nodes) (allSessions c').
Proof.
  apply (remote_round_tolerates_faults toyNacl toyNacl_laws "tok" node2_down toy_nodes toy_subs (fun _ => 7) "batch").
  - apply toy_committee_ok.
  - vm_compute. lia.
  - apply toy_subs_honest.
  - apply (bool_decide_eq_true_1 _). reflexivity.
  - apply (bool_decide_eq_true_1 _). reflexivity.
  - cbn. lia.
Defined.

(** C32: in every state the committee can reach by intent submissions, share
    deliveries, match requests and timer sweeps, whatever their contents and
    order, at most one session is open and every batch it serves verifies
    against the committee's public keys. *)
Theorem served_batches_verify (N : Nacl) (NL : NaclLaws N) (nodes : list CommitteeNodeKeyPair) (c : CommitteeState) :
  committee_ok nodes -> rtc (committee_step nodes) newCommitteeState c ->
  (length (getOpenSessions c) <= 1)%nat /\
  Forall (fun b => verifySignedBatch b (map nodePublicInfo nodes) = Ok true) (get_batches c).
Proof.
  intros Hc Hr. pose proof (reachable_inv nodes c Hc Hr) as HI. split; [apply (inv_open _ _ HI)|by apply inv_get_batches].
Qed.

Lemma served_batches_verify_witness :
  let c := (batch_timer (fun s => runMatchingRound s toy_nodes "batch") (fold_left (submit toy_nodes (fun _ => 7)) toy_subs newCommitteeState)).1 in
  length (get_batches c) = 1%nat /\ (length (getOpenSessions c) <= 1)%nat /\
  Forall (fun b => verifySignedBatch b (map nodePublicInfo toy_nodes) = Ok true) (get_batches c).
Proof.
  split; [vm_compute; reflexivity|]. apply (served_batches_verify toyNacl toyNacl_laws toy_nodes); [apply toy_committee_ok|].
  eapply rtc_l; [apply (step_intent toy_nodes _ (toy_intent "a" "USDC" "EURC" 70 5) 7)|].
  eapply rtc_l; [apply (step_intent toy_nodes _ (toy_intent "b" "EURC" "USDC" 50 9) 7)|].
  eapply rtc_l; [apply (step_timer toy_nodes _ (fun _ => "batch"))|]. apply rtc_refl.
Defined.
