(* ===== verification/Vault.v ===== *)
(** The note vault (packages/note-vault/src/index.ts) and the note manager
    (packages/sdk/src/notes.ts).

    WebCrypto is the class [WebCrypto]; [WebCryptoLaws] states what the code
    relies on: AES-GCM decrypts what it encrypted under the same key, nonce and
    additional data, its ciphertext carries a 16-byte tag, and the key
    derivation functions return 32 bytes.  Random bytes and clock readings are
    arguments.  A vault read back is the parsed JSON value. *)

From S2P Require Import Prelude Text Json.
Local Open Scope string_scope.
Local Open Scope Z_scope.

(** ** Base64 of the browser: [btoa] and the strict [atob] *)

Definition toB64 (bytes : string) : string := base64_encode bytes.

Definition is_b64_ws (c : ascii) : bool := bool_decide (byte_val c ∈ [9; 10; 12; 13; 32]).

Fixpoint strip_b64_ws (s : string) : string :=
  match s with
  | EmptyString => ""
  | String c s => if is_b64_ws c then strip_b64_ws s else String c (strip_b64_ws s)
  end.

Definition b64_std (c : ascii) : bool :=
  negb (bool_decide (byte_val c ∈ [45; 95])) && bool_decide (is_Some (b64_val c)).

Definition is_eq_sign (c : ascii) : bool := Ascii.eqb c "=".

(** Groups of four characters; only the last may be padded or short. *)
Fixpoint b64_valid (s : string) : bool :=
  match s with
  | EmptyString => true
  | String a (String b EmptyString) => b64_std a && b64_std b
  | String a (String b (String c EmptyString)) => b64_std a && b64_std b && b64_std c
  | String a (String b (String c (String d s))) =>
      b64_std a && b64_std b &&
      match s with
      | EmptyString => (b64_std c && (b64_std d || is_eq_sign d)) || (is_eq_sign c && is_eq_sign d)
      | _ => b64_std c && b64_std d && b64_valid s
      end
  | _ => false
  end.

Definition fromB64 (b64 : string) : result string :=
  let s := strip_b64_ws b64 in
  if b64_valid s then Ok (base64_decode s) else Err "InvalidCharacterError".

(** ** Types *)

Record NotePreimage := {
  owner_secret : string; spend_secret : string; blinding : string; pre_nonce : string;
  memo_commitment : string; compliance_tag : string; source_context : string }.

Inductive NoteStatus := Prepared | Active | Spent.

#[global] Instance NoteStatus_eq_dec : EqDecision NoteStatus.
Proof. solve_decision. Defined.

Record VaultNote := {
  vn_commitment : string; asset_id : string; amount_7dp : string; note_preimage : NotePreimage;
  deposit_id : option string; vn_status : NoteStatus; vn_created_at : string }.

Record NoteVault := { nv_vault_id : string; nv_created_at : string; updated_at : string; notes : list VaultNote }.

Inductive WrapperType := passkey_prf | stellar_ed25519_signature | recovery_file_secret | recovery_kit_password | evm_signature.

#[global] Instance WrapperType_eq_dec : EqDecision WrapperType.
Proof. solve_decision. Defined.

Inductive WrapperKdf := HKDF_SHA256 | PBKDF2_SHA256.

Record VaultWrapper := {
  w_id : string; w_type : WrapperType; w_active : bool; w_kdf : WrapperKdf; salt : string; wrapped_key : string;
  diagnostic_only : option bool; metadata : list (string * json) }.

Record VaultAad := { aad_app : string; aad_origin : string; aad_vault_id : string; aad_privy_user_id : string; vault_version : Z }.

Record EncryptedVaultEnvelope := {
  env_vault_id : string; env_privy_user_id : string; cipher_iv : string; env_aad : VaultAad; env_ciphertext : string;
  wrappers : list VaultWrapper }.

(** ** The objects as [JSON.stringify] sees them *)

Definition preimage_json (p : NotePreimage) : json :=
  JObj [("owner_secret", JStr (owner_secret p)); ("spend_secret", JStr (spend_secret p)); ("blinding", JStr (blinding p));
        ("nonce", JStr (pre_nonce p)); ("memo_commitment", JStr (memo_commitment p));
        ("compliance_tag", JStr (compliance_tag p)); ("source_context", JStr (source_context p))].

Definition note_status_name (s : NoteStatus) : string := match s with Prepared => "prepared" | Active => "active" | Spent => "spent" end.

Definition opt_field {A} (k : string) (f : A -> json) (o : option A) : list (string * json) :=
  match o with Some a => [(k, f a)] | None => [] end.

Definition note_json (n : VaultNote) : json :=
  JObj ([("commitment", JStr (vn_commitment n)); ("asset_id", JStr (asset_id n)); ("amount_7dp", JStr (amount_7dp n));
         ("note_preimage", preimage_json (note_preimage n))] ++ opt_field "deposit_id" JStr (deposit_id n) ++
        [("status", JStr (note_status_name (vn_status n))); ("created_at", JStr (vn_created_at n))]).

Definition vault_json (v : NoteVault) : json :=
  JObj [("version", JStr "shade-note-vault-v1"); ("vault_id", JStr (nv_vault_id v)); ("created_at", JStr (nv_created_at v));
        ("updated_at", JStr (updated_at v)); ("notes", JArr (map note_json (notes v)))].

Definition type_name (t : WrapperType) : string :=
  match t with
  | passkey_prf => "passkey_prf" | stellar_ed25519_signature => "stellar_ed25519_signature"
  | recovery_file_secret => "recovery_file_secret" | recovery_kit_password => "recovery_kit_password"
  | evm_signature => "evm_signature"
  end.

Definition wrapper_json (w : VaultWrapper) : json :=
  JObj ([("id", JStr (w_id w)); ("type", JStr (type_name (w_type w))); ("status", JStr (if w_active w then "active" else "revoked"));
         ("kdf", JStr (match w_kdf w with HKDF_SHA256 => "HKDF-SHA256" | PBKDF2_SHA256 => "PBKDF2-SHA256" end));
         ("salt", JStr (salt w)); ("wrapped_key", JStr (wrapped_key w))] ++
        opt_field "diagnostic_only" JBool (diagnostic_only w) ++ [("metadata", JObj (metadata w))]).

Definition aad_json (a : VaultAad) : json :=
  JObj [("app", JStr (aad_app a)); ("origin", JStr (aad_origin a)); ("vault_id", JStr (aad_vault_id a));
        ("privy_user_id", JStr (aad_privy_user_id a)); ("vault_version", JNum (vault_version a))].

Definition envelope_json (e : EncryptedVaultEnvelope) : json :=
  JObj [("version", JStr "shade-encrypted-vault-v1"); ("vault_id", JStr (env_vault_id e));
        ("privy_user_id", JStr (env_privy_user_id e));
        ("cipher", JObj [("name", JStr "AES-256-GCM"); ("iv", JStr (cipher_iv e)); ("tagLength", JNum 128)]);
        ("aad", aad_json (env_aad e)); ("ciphertext", JStr (env_ciphertext e));
        ("wrappers", JArr (map wrapper_json (wrappers e)))].

(** ** Security gates *)

Definition PLAINTEXT_FORBIDDEN : list string :=
  ["owner_secret"; "spend_secret"; "blinding"; "nonce"; "note_preimage"; "vault_master_key"; "raw_signature"; "private_key"; "secret"].

Definition forbidden (k : string) : bool := bool_decide (k ∈ PLAINTEXT_FORBIDDEN).

Fixpoint assertNoPlaintextNoteFields (v : json) : result unit :=
  match v with
  | JArr l =>
      (fix walk (l : list json) : result unit :=
         match l with [] => Ok tt | e :: l => let! _ := assertNoPlaintextNoteFields e in walk l end) l
  | JObj l =>
      (fix walk (l : list (string * json)) : result unit :=
         match l with
         | [] => Ok tt
         | kv :: l =>
             if forbidden kv.1 then Err ("plaintext note field " +:+ String dq (kv.1 +:+ String dq "") +:+ " is forbidden in stored/transmitted vault data")
             else let! _ := assertNoPlaintextNoteFields kv.2 in walk l
         end) l
  | _ => Ok tt
  end.

Definition redacted_key (k : string) : bool :=
  forbidden k || bool_decide (k = "wrapped_key") || bool_decide (k = "ciphertext").

Fixpoint redactVaultForLogs (v : json) : json :=
  match v with
  | JArr l => JArr (map redactVaultForLogs l)
  | JObj l => JObj (map (fun kv => (kv.1, if redacted_key kv.1 then JStr "[REDACTED]" else redactVaultForLogs kv.2)) l)
  | v => v
  end.

Definition falsy_prop (k : string) (v : json) : bool := match prop k v with Some p => negb (truthy p) | None => true end.
Definition is_text (s : string) (v : option json) : bool := match v with Some (JStr t) => bool_decide (t = s) | _ => false end.
Definition is_array (v : option json) : bool := match v with Some (JArr _) => true | _ => false end.

(** [env] is whatever was parsed. *)
Definition validateVaultEnvelope (env : json) : result unit :=
  throw_if negb (is_text "shade-encrypted-vault-v1" (prop "version" env)) with "bad envelope version" in
  throw_if falsy_prop "vault_id" env || falsy_prop "privy_user_id" env || falsy_prop "ciphertext" env
           || negb (is_text "AES-256-GCM" (prop "cipher" env ≫= prop "name")) with "malformed envelope" in
  throw_if negb (is_array (prop "wrappers" env)) with "envelope missing wrappers" in
  assertNoPlaintextNoteFields env.

Definition parseVaultEnvelope (text : string) : result json :=
  match JSON_parse text with
  | None => Err "SyntaxError"
  | Some env => let! _ := validateVaultEnvelope env in Ok env
  end.

(** ** Notes *)

Definition createEmptyNoteVault (vaultId now : string) : NoteVault :=
  {| nv_vault_id := vaultId; nv_created_at := now; updated_at := now; notes := [] |}.

Definition with_notes (v : NoteVault) (now : string) (l : list VaultNote) : NoteVault :=
  {| nv_vault_id := nv_vault_id v; nv_created_at := nv_created_at v; updated_at := now; notes := l |}.

Definition addNoteToVault (vault : NoteVault) (note : VaultNote) (now : string) : NoteVault :=
  with_notes vault now
    (List.filter (fun n => negb (bool_decide (vn_commitment n = vn_commitment note))) (notes vault) ++ [note]).

Record AddNoteParams := {
  p_commitment : string; p_asset_id : string; p_amount_7dp : string; p_note_preimage : NotePreimage; p_deposit_id : option string }.

Definition createVault (random16 now : string) : NoteVault := createEmptyNoteVault (hex_encode random16) now.

Definition addNote (vault : NoteVault) (p : AddNoteParams) (now now' : string) : NoteVault :=
  addNoteToVault vault
    {| vn_commitment := p_commitment p; asset_id := p_asset_id p; amount_7dp := p_amount_7dp p; note_preimage := p_note_preimage p;
       deposit_id := p_deposit_id p; vn_status := Prepared; vn_created_at := now |} now'.

Definition set_note_status (st : NoteStatus) (n : VaultNote) : VaultNote :=
  {| vn_commitment := vn_commitment n; asset_id := asset_id n; amount_7dp := amount_7dp n; note_preimage := note_preimage n;
     deposit_id := deposit_id n; vn_status := st; vn_created_at := vn_created_at n |}.

Definition flip_status (st : NoteStatus) (vault : NoteVault) (commitment now : string) : NoteVault :=
  with_notes vault now
    (map (fun n => if bool_decide (vn_commitment n = commitment) then set_note_status st n else n) (notes vault)).

Definition activate : NoteVault -> string -> string -> NoteVault := flip_status Active.
Definition markSpent : NoteVault -> string -> string -> NoteVault := flip_status Spent.

Definition list_notes (vault : NoteVault) (st : option NoteStatus) : list VaultNote :=
  match st with Some st => List.filter (fun n => bool_decide (vn_status n = st)) (notes vault) | None => notes vault end.

Definition find_note (vault : NoteVault) (commitment : string) : option VaultNote :=
  List.find (fun n => bool_decide (vn_commitment n = commitment)) (notes vault).

(** [None] is the SyntaxError of an amount that is no integer. *)
Fixpoint sum_amounts (acc : Z) (l : list VaultNote) : option Z :=
  match l with [] => Some acc | n :: l => BigInt (amount_7dp n) ≫= fun a => sum_amounts (acc + a) l end.
Definition totalActive7dp (vault : NoteVault) : option Z := sum_amounts 0 (list_notes vault (Some Active)).

(** ** Encryption *)

Class WebCrypto := {
  gcm_encrypt : string -> string -> option string -> string -> result string;   (** key, iv, AAD, plaintext *)
  gcm_decrypt : string -> string -> option string -> string -> result string;
  hkdf : string -> string -> string -> string;                                  (** secret, salt, info *)
  pbkdf2 : string -> string -> Z -> string;
  digest_sha256 : string -> string
}.

Definition is_key (k : string) : Prop := String.length k = 32%nat.
Definition is_iv (iv : string) : Prop := String.length iv = 12%nat.

Class WebCryptoLaws (W : WebCrypto) : Prop := {
  gcm_roundtrip : forall k iv aad m, is_key k -> is_iv iv ->
    exists c, gcm_encrypt k iv aad m = Ok c /\ gcm_decrypt k iv aad c = Ok m /\ String.length c = (String.length m + 16)%nat;
  hkdf_length : forall ikm s info, is_key (hkdf ikm s info);
  pbkdf2_length : forall pw s n, is_key (pbkdf2 pw s n)
}.

Definition PBKDF2_ITERS : Z := 310000.

Section Vault.
Context {W : WebCrypto}.

Definition generateNotePreimage (r : list string) : NotePreimage :=
  let h i := hex_encode (nth i r "") in
  {| owner_secret := h 0%nat; spend_secret := h 1%nat; blinding := h 2%nat; pre_nonce := h 3%nat;
     memo_commitment := h 4%nat; compliance_tag := h 5%nat; source_context := h 6%nat |}.

Definition buildNoteCommitment (p : NotePreimage) : string := "0x" +:+ hex_encode (digest_sha256 (stringify (preimage_json p))).

Definition AAD_BYTES (aad : VaultAad) : string := stringify (aad_json aad).

Definition encryptNoteVault (vault : NoteVault) (masterKey : string) (aad : VaultAad) (iv : string) : result (string * string) :=
  let! ct := gcm_encrypt masterKey iv (Some (AAD_BYTES aad)) (stringify (vault_json vault)) in
  Ok (toB64 ct, toB64 iv).

Definition decryptNoteVault (ciphertext iv masterKey : string) (aad : VaultAad) : result json :=
  let! ivb := fromB64 iv in
  let! ct := fromB64 ciphertext in
  let! pt := gcm_decrypt masterKey ivb (Some (AAD_BYTES aad)) ct in
  match JSON_parse pt with Some v => Ok v | None => Err "SyntaxError" end.

Definition createVaultEnvelope (vault : NoteVault) (masterKey privyUserId origin : string) (ws : list VaultWrapper) (iv : string)
    : result EncryptedVaultEnvelope :=
  let aad := {| aad_app := "Shade Protocol"; aad_origin := origin; aad_vault_id := nv_vault_id vault;
                aad_privy_user_id := privyUserId; vault_version := 1 |} in
  let! ci := encryptNoteVault vault masterKey aad iv in
  Ok {| env_vault_id := nv_vault_id vault; env_privy_user_id := privyUserId; cipher_iv := ci.2; env_aad := aad;
        env_ciphertext := ci.1; wrappers := ws |}.

Definition decryptEnvelope (env : EncryptedVaultEnvelope) (masterKey : string) : result json :=
  decryptNoteVault (env_ciphertext env) (cipher_iv env) masterKey (env_aad env).

(** ** Recovery wrappers *)

Definition wrapWithKey (wrappingKey masterKey iv : string) : result string :=
  let! ct := gcm_encrypt wrappingKey iv None masterKey in Ok (toB64 (iv +:+ ct)).

Definition unwrapWithKey (wrappingKey wrappedKeyB64 : string) : result string :=
  let! blob := fromB64 wrappedKeyB64 in
  gcm_decrypt wrappingKey (bytes_take 12 blob) None (bytes_drop 12 blob).

(** The random salt, wrapper id and nonce of one wrapper. *)
Record WrapRandom := { r_salt : string; r_id : string; r_iv : string }.

Definition make_wrapper (t : WrapperType) (k : WrapperKdf) (diag : option bool) (md : list (string * json)) (wk masterKey : string)
    (r : WrapRandom) : result VaultWrapper :=
  let! wrapped := wrapWithKey wk masterKey (r_iv r) in
  Ok {| w_id := hex_encode (r_id r); w_type := t; w_active := true; w_kdf := k; salt := toB64 (r_salt r); wrapped_key := wrapped;
        diagnostic_only := diag; metadata := md |}.

Definition unwrap_hkdf (info : string) (w : VaultWrapper) (secret : string) : result string :=
  let! s := fromB64 (salt w) in unwrapWithKey (hkdf secret s info) (wrapped_key w).

Definition wrapVaultKeyWithPasskeyPrf (masterKey prfOutput : string) md r : result VaultWrapper :=
  make_wrapper passkey_prf HKDF_SHA256 None md (hkdf prfOutput (r_salt r) "shade-vault-passkey-prf") masterKey r.
Definition unwrapVaultKeyWithPasskeyPrf (w : VaultWrapper) (prfOutput : string) : result string :=
  unwrap_hkdf "shade-vault-passkey-prf" w prfOutput.

Definition wrapVaultKeyWithStellarSignature (masterKey signature : string) md r : result VaultWrapper :=
  make_wrapper stellar_ed25519_signature HKDF_SHA256 None md (hkdf signature (r_salt r) "shade-vault-stellar-ed25519") masterKey r.
Definition unwrapVaultKeyWithStellarSignature (w : VaultWrapper) (signature : string) : result string :=
  unwrap_hkdf "shade-vault-stellar-ed25519" w signature.

Definition wrapVaultKeyWithRecoveryKitPassword (masterKey password : string) md r : result VaultWrapper :=
  make_wrapper recovery_kit_password PBKDF2_SHA256 None md (pbkdf2 password (r_salt r) PBKDF2_ITERS) masterKey r.
Definition unwrapVaultKeyWithRecoveryKitPassword (w : VaultWrapper) (password : string) : result string :=
  let! s := fromB64 (salt w) in unwrapWithKey (pbkdf2 password s PBKDF2_ITERS) (wrapped_key w).

Definition wrapVaultKeyWithRecoveryFileSecret (masterKey secret : string) md r : result VaultWrapper :=
  make_wrapper recovery_file_secret HKDF_SHA256 None md (hkdf secret (r_salt r) "shade-vault-recovery-file") masterKey r.
Definition unwrapVaultKeyWithRecoveryFileSecret (w : VaultWrapper) (secret : string) : result string :=
  unwrap_hkdf "shade-vault-recovery-file" w secret.

Definition diagnosticWrapVaultKeyWithEvmSignature (masterKey signature : string) (md : list (string * json)) r : result VaultWrapper :=
  make_wrapper evm_signature HKDF_SHA256 (Some true) (jset "diagnostic_only" (JBool true) md)
    (hkdf signature (r_salt r) "shade-vault-evm-diagnostic") masterKey r.

End Vault.

Record RecoveryFile := { rf_vault_id : string; rf_created_at : string; rf_secret : string; rf_wrapper : VaultWrapper }.

Definition buildRecoveryFile (vaultId secret : string) (w : VaultWrapper) (now : string) : RecoveryFile :=
  {| rf_vault_id := vaultId; rf_created_at := now; rf_secret := toB64 secret; rf_wrapper := w |}.

(** Equal lengths and equal bytes. *)
Definition diagnosticVerifyEvmSignatureStability (a b : string) : bool :=
  Nat.eqb (String.length a) (String.length b) && String.eqb a b.

(** ** Recovery policy *)

Inductive RecoveryPolicyStatus := Insufficient | Sufficient | Strong.

#[global] Instance RecoveryPolicyStatus_eq_dec : EqDecision RecoveryPolicyStatus.
Proof. solve_decision. Defined.

Record PolicyOpts := { mainnet : bool; min_wrappers : Z; allowEvmOnly : bool }.

Definition non_evm (w : VaultWrapper) : bool :=
  negb (bool_decide (w_type w = evm_signature)) && negb (bool_decide (diagnostic_only w = Some true)).
Definition strong_type (w : VaultWrapper) : bool :=
  bool_decide (w_type w = passkey_prf) || bool_decide (w_type w = stellar_ed25519_signature).

Definition evaluateRecoveryPolicy (ws : list VaultWrapper) (opts : PolicyOpts) : RecoveryPolicyStatus :=
  let active := List.filter w_active ws in
  let nonEvm := Z.of_nat (length (List.filter non_evm active)) in
  let strong := existsb strong_type active in
  if negb (allowEvmOnly opts) && (nonEvm =? 0) then Insufficient
  else if nonEvm <? min_wrappers opts then Insufficient
  else if mainnet opts then (if (2 <=? nonEvm) && strong then Strong else Insufficient)
  else if strong && (2 <=? nonEvm) then Strong else Sufficient.

(** ** Base64 round trip *)

Lemma b64_char_clean d : 0 <= d < 64 -> is_b64_ws (b64_char d) = false /\ b64_std (b64_char d) = true.
Proof.
  assert (forallb (fun d => negb (is_b64_ws (b64_char d)) && b64_std (b64_char d)) (Z.of_nat <$> seq 0 64) = true) as HF
    by (vm_compute; reflexivity).
  intros Hd. rewrite forallb_forall in HF. specialize (HF d). rewrite andb_true_iff, negb_true_iff in HF. apply HF.
  apply list_elem_of_In, list_elem_of_fmap. exists (Z.to_nat d). split; [lia|]. apply elem_of_seq. lia.
Qed.

Lemma b64_std_char d : 0 <= d < 64 -> b64_std (b64_char d) = true.
Proof. intros Hd. apply (b64_char_clean d Hd). Qed.

Lemma strip_b64_char d s : 0 <= d < 64 -> strip_b64_ws (String (b64_char d) s) = String (b64_char d) (strip_b64_ws s).
Proof. intros Hd. cbn [strip_b64_ws]. by destruct (b64_char_clean d Hd) as [-> _]. Qed.

Lemma b64_encode_clean s : strip_b64_ws (base64_encode s) = base64_encode s /\ b64_valid (base64_encode s) = true.
Proof.
  induction s as [[|a [|b [|c s]]] IH] using (induction_ltof1 _ String.length); unfold ltof in IH; [done|..];
    cbn [base64_encode]; pose proof (byte_val_range a);
    try (pose proof (byte_val_range b)); try (pose proof (byte_val_range c));
    rewrite !strip_b64_char by (Z.to_euclidean_division_equations; lia); cbn [b64_valid];
    rewrite !b64_std_char by (Z.to_euclidean_division_equations; lia).
  - done.
  - done.
  - destruct (IH s ltac:(cbn; lia)) as [-> E]. split; [done|]. cbn [andb orb]. by destruct (base64_encode s).
Qed.

Lemma fromB64_toB64 s : fromB64 (toB64 s) = Ok s.
Proof. unfold fromB64, toB64. destruct (b64_encode_clean s) as [-> ->]. by rewrite base64_decode_encode. Qed.

Lemma toB64_nonempty s : s <> "" -> toB64 s <> "".
Proof. intros Hs E. apply Hs. rewrite <- (base64_decode_encode s). unfold toB64 in E. by rewrite E. Qed.

(** ** Wrapping *)

Section Laws.
Context {W : WebCrypto} {WL : WebCryptoLaws W}.

Lemma make_wrapper_ok t k d md wk mk r : is_key wk -> is_iv (r_iv r) ->
  exists w, make_wrapper t k d md wk mk r = Ok w /\ w_type w = t /\ w_active w = true /\ diagnostic_only w = d /\
    fromB64 (salt w) = Ok (r_salt r) /\ unwrapWithKey wk (wrapped_key w) = Ok mk.
Proof.
  intros Hk Hi. unfold make_wrapper, wrapWithKey.
  destruct (gcm_roundtrip wk (r_iv r) None mk Hk Hi) as (c & -> & Hd & _). cbn [rbind].
  eexists. split; [reflexivity|]. cbn. split_and!; try done; [apply fromB64_toB64|].
  unfold unwrapWithKey. rewrite fromB64_toB64. cbn [rbind]. by destruct (bytes_take_app 12 (r_iv r) c Hi) as [-> ->].
Qed.

Lemma hkdf_wrapper_ok t d md info secret mk r : is_iv (r_iv r) ->
  exists w, make_wrapper t HKDF_SHA256 d md (hkdf secret (r_salt r) info) mk r = Ok w /\ w_type w = t /\ diagnostic_only w = d /\
    unwrap_hkdf info w secret = Ok mk.
Proof.
  intros Hi. destruct (make_wrapper_ok t HKDF_SHA256 d md (hkdf secret (r_salt r) info) mk r (hkdf_length _ _ _) Hi)
    as (w & Hw & Ht & _ & Hd & Hs & Hu). exists w. split_and!; try done. unfold unwrap_hkdf. by rewrite Hs.
Qed.

(** ** Envelopes *)

Lemma preimage_wf p : json_wf (preimage_json p).
Proof. split; [by apply (bool_decide_eq_true_1 _)|]. by repeat split. Qed.

Lemma note_wf n : json_wf (note_json n).
Proof.
  unfold note_json. destruct (deposit_id n); cbn [opt_field app];
    (split; [by apply (bool_decide_eq_true_1 _)|]); repeat split; by apply (bool_decide_eq_true_1 _).
Qed.

Lemma arr_wf l : Forall json_wf l -> json_wf (JArr l).
Proof. induction 1; cbn in *; auto. Qed.

Lemma vault_wf v : json_wf (vault_json v).
Proof.
  split; [by apply (bool_decide_eq_true_1 _)|]. cbn [fst snd]. do 4 (split; [done|]). split; [|done].
  apply arr_wf, list.Forall_forall. intros j Hj. apply list_elem_of_In, in_map_iff in Hj as (n & <- & _). apply note_wf.
Qed.

Lemma decrypt_encrypt_vault vault mk aad iv : is_key mk -> is_iv iv ->
  exists ct ivb, encryptNoteVault vault mk aad iv = Ok (ct, ivb) /\ ct <> "" /\
    decryptNoteVault ct ivb mk aad = Ok (vault_json vault).
Proof.
  intros Hk Hi. unfold encryptNoteVault.
  destruct (gcm_roundtrip mk iv (Some (AAD_BYTES aad)) (stringify (vault_json vault)) Hk Hi) as (c & -> & Hd & Hl). cbn [rbind].
  eexists _, _. split_and!; [reflexivity| |].
  - apply toB64_nonempty. intros ->. cbn in Hl. lia.
  - unfold decryptNoteVault. rewrite !fromB64_toB64. cbn [rbind]. rewrite Hd. cbn [rbind].
    by rewrite JSON_parse_stringify by apply vault_wf.
Qed.

End Laws.

(** ** The plaintext gate *)

(** Key [k] is bound to [x] somewhere inside the value. *)
Inductive binds (k : string) (x : json) : json -> Prop :=
| binds_here l : (k, x) ∈ l -> binds k x (JObj l)
| binds_field l k' v : (k', v) ∈ l -> binds k x v -> binds k x (JObj l)
| binds_elem l v : v ∈ l -> binds k x v -> binds k x (JArr l).

Definition no_plaintext (v : json) : Prop := forall k x, binds k x v -> k ∉ PLAINTEXT_FORBIDDEN.

Lemma gate_arr l : assertNoPlaintextNoteFields (JArr l) = Ok tt <-> Forall (fun v => assertNoPlaintextNoteFields v = Ok tt) l.
Proof.
  induction l as [|v l IH]; [done|]. rewrite list.Forall_cons, <- IH. cbn [assertNoPlaintextNoteFields].
  destruct (assertNoPlaintextNoteFields v) as [[]|e]; cbn [rbind]; [tauto|]. split; [done|intros [? _]; done].
Qed.

Lemma gate_obj l : assertNoPlaintextNoteFields (JObj l) = Ok tt <->
  Forall (fun kv => kv.1 ∉ PLAINTEXT_FORBIDDEN /\ assertNoPlaintextNoteFields kv.2 = Ok tt) l.
Proof.
  induction l as [|[k v] l IH]; [done|]. rewrite list.Forall_cons, <- IH. cbn [assertNoPlaintextNoteFields fst snd].
  unfold forbidden. case_bool_decide; [split; [done|tauto]|].
  destruct (assertNoPlaintextNoteFields v) as [[]|e]; cbn [rbind]; [tauto|]. split; [done|intros [[_ ?] _]; done].
Qed.

Lemma gate_iff v : assertNoPlaintextNoteFields v = Ok tt <-> no_plaintext v.
Proof.
  induction v as [| | | |l IH|l IH] using json_ind'; try (by split; [intros _ k x Hb; inversion Hb|]).
  - rewrite gate_arr, !list.Forall_forall. rewrite list.Forall_forall in IH. split.
    + intros H k x Hb. inversion Hb as [| |l' v Hin Hb']; subst. apply (proj1 (IH v Hin) (H v Hin) k x Hb').
    + intros H v Hin. apply (IH v Hin). intros k x Hb. apply (H k x). by eapply binds_elem.
  - rewrite gate_obj, !list.Forall_forall. rewrite list.Forall_forall in IH. split.
    + intros H k x Hb. inversion Hb as [l' Hin|l' k' v Hin Hb'|]; subst; [apply (H _ Hin)|].
      apply (proj1 (IH _ Hin) (proj2 (H _ Hin)) k x Hb').
    + intros H [k v] Hin. split; [apply (H k v); by constructor|]. apply (IH _ Hin). intros k' x Hb.
      apply (H k' x). by eapply binds_field.
Qed.

Lemma redact_binds v k x : binds k x (redactVaultForLogs v) -> redacted_key k = true -> x = JStr "[REDACTED]".
Proof.
  intros Hb Hk. induction v as [| | | |l IH|l IH] using json_ind'; try (by inversion Hb).
  - inversion Hb as [| |l' v Hin Hb']; subst. apply list_elem_of_In, in_map_iff in Hin as (v' & <- & Hin).
    rewrite list.Forall_forall in IH. apply (IH v'); [by apply list_elem_of_In|done].
  - cbn [redactVaultForLogs] in Hb. rewrite list.Forall_forall in IH. inversion Hb as [l' Hin|l' k' v Hin Hb'|]; subst;
      apply list_elem_of_In, in_map_iff in Hin as ([k2 v2] & E & Hin%list_elem_of_In); injection E as -> E; cbn in E; subst.
    + cbn. by rewrite Hk.
    + cbn in Hb'. destruct (redacted_key k'); [inversion Hb'|]. by apply (IH _ Hin).
Qed.

(** ** Notes *)

Definition note_amounts_ok (v : NoteVault) : Prop := Forall (fun n => is_Some (BigInt (amount_7dp n))) (notes v).
Definition vault_inv (v : NoteVault) : Prop := NoDup (map vn_commitment (notes v)).

Lemma sum_amounts_acc acc l : sum_amounts acc l = (fun s => acc + s) <$> sum_amounts 0 l.
Proof.
  revert acc. induction l as [|n l IH]; intros acc; cbn [sum_amounts]; [cbn; f_equal; lia|].
  destruct (BigInt (amount_7dp n)) as [a|]; [|done]. cbn [mbind option_bind]. rewrite IH, (IH (0 + a)).
  destruct (sum_amounts 0 l); [|done]. cbn. f_equal. lia.
Qed.

Lemma flip_commitments st v c now : map vn_commitment (notes (flip_status st v c now)) = map vn_commitment (notes v).
Proof. cbn. rewrite map_map. apply map_ext. intros n. by case_bool_decide. Qed.

Lemma addNote_inv v p now now' : vault_inv v -> vault_inv (addNote v p now now').
Proof.
  unfold vault_inv, addNote, addNoteToVault. cbn [notes with_notes]. intros Hnd. rewrite map_app. cbn [map vn_commitment].
  apply list.NoDup_app. split_and!; [|intros c Hc Hin; apply list_elem_of_singleton in Hin as ->|apply list.NoDup_singleton].
  - induction (notes v) as [|n l IH]; [constructor|]. cbn [map] in Hnd. apply list.NoDup_cons in Hnd as [Hni Hnd].
    cbn [List.filter]. case_bool_decide; cbn [negb map]; [by apply IH|]. apply list.NoDup_cons. split; [|by apply IH].
    intros Hin. apply Hni. apply list_elem_of_In, in_map_iff in Hin as (n' & <- & Hin). apply filter_In in Hin as [Hin _].
    by apply list_elem_of_In, in_map.
  - apply list_elem_of_In, in_map_iff in Hc as (n' & E & Hin). apply filter_In in Hin as [_ Hin]. by rewrite E, bool_decide_true in Hin.
Qed.

Lemma total_split st (l : list VaultNote) n :
  sum_amounts 0 (List.filter (fun n => bool_decide (vn_status n = st)) (n :: l)) =
    if bool_decide (vn_status n = st)
    then BigInt (amount_7dp n) ≫= fun a => (fun s => a + s) <$> sum_amounts 0 (List.filter (fun n => bool_decide (vn_status n = st)) l)
    else sum_amounts 0 (List.filter (fun n => bool_decide (vn_status n = st)) l).
Proof.
  cbn [List.filter]. case_bool_decide; [|done]. cbn [sum_amounts]. destruct (BigInt (amount_7dp n)); [|done]. cbn [mbind option_bind].
  by rewrite sum_amounts_acc, Z.add_0_l.
Qed.

Lemma flip_absent st c l : c ∉ map vn_commitment l ->
  map (fun n => if bool_decide (vn_commitment n = c) then set_note_status st n else n) l = l.
Proof.
  induction l as [|n l IH]; intros Hc; [done|]. cbn [map] in *. apply not_elem_of_cons in Hc as [Hn Hc].
  rewrite bool_decide_false, IH by done. done.
Qed.

(** What flipping one note's status does to the active total. *)
Lemma flip_total st v c now n a s :
  vault_inv v -> n ∈ notes v -> vn_commitment n = c -> BigInt (amount_7dp n) = Some a -> totalActive7dp v = Some s ->
  totalActive7dp (flip_status st v c now) =
    Some (s + (if bool_decide (st = Active) then a else 0) - (if bool_decide (vn_status n = Active) then a else 0)).
Proof.
  unfold vault_inv, totalActive7dp, list_notes. cbn [flip_status with_notes notes]. intros Hnd Hin <- Ha. revert s.
  induction (notes v) as [|m l IH]; intros s Hs; [by apply elem_of_nil in Hin|].
  cbn [map] in Hnd |- *. apply list.NoDup_cons in Hnd as [Hni Hnd]. rewrite total_split in Hs. rewrite total_split.
  apply elem_of_cons in Hin as [<-|Hin].
  - rewrite (bool_decide_true (vn_commitment n = vn_commitment n)) by done. rewrite flip_absent by done. cbn [vn_status set_note_status amount_7dp].
    rewrite Ha in *. cbn [mbind option_bind] in *.
    destruct (sum_amounts 0 (List.filter _ l)) as [t|]; [|by destruct (bool_decide (vn_status n = Active))].
    cbn in *. destruct (bool_decide (vn_status n = Active)), (bool_decide (st = Active)); injection Hs as <-; cbn; f_equal; lia.
  - assert (vn_commitment m <> vn_commitment n) as Hne.
    { intros E. apply Hni. rewrite E. by apply list_elem_of_In, in_map, list_elem_of_In. }
    rewrite (bool_decide_false (vn_commitment m = vn_commitment n)) by done.
    destruct (bool_decide (vn_status m = Active)).
    + destruct (BigInt (amount_7dp m)) as [b|]; [|done]. cbn [mbind option_bind] in *.
      destruct (sum_amounts 0 (List.filter _ l)) as [t|]; [|done]. rewrite (IH Hnd Hin t eq_refl). cbn in *.
      injection Hs as <-. f_equal. lia.
    + by apply IH.
Qed.

(** ** Stored envelopes *)

Definition wrapper_clean (w : VaultWrapper) : Prop := json_wf (JObj (metadata w)) /\ no_plaintext (JObj (metadata w)).

Lemma wrapper_wf w : wrapper_clean w -> json_wf (wrapper_json w).
Proof.
  intros [Hwf _]. unfold wrapper_json. destruct (diagnostic_only w); cbn [opt_field app];
    (split; [by apply (bool_decide_eq_true_1 _)|]); repeat split; apply Hwf.
Qed.

Lemma wrapper_gate w : wrapper_clean w -> assertNoPlaintextNoteFields (wrapper_json w) = Ok tt.
Proof.
  intros [_ Hn]. apply gate_iff in Hn. unfold wrapper_json. apply gate_obj.
  destruct (diagnostic_only w); cbn [opt_field app];
    repeat (apply list.Forall_cons; split; [split; [by apply (bool_decide_eq_true_1 _)|done || exact Hn]|]); constructor.
Qed.

Lemma envelope_wf e : Forall wrapper_clean (wrappers e) -> json_wf (envelope_json e).
Proof.
  intros Hw. split; [by apply (bool_decide_eq_true_1 _)|]. cbn [fst snd].
  do 3 (split; [done|]). split; [split; [by apply (bool_decide_eq_true_1 _)|by repeat split]|].
  split; [split; [by apply (bool_decide_eq_true_1 _)|by repeat split]|]. split; [done|]. split; [|done].
  apply arr_wf, Forall_map. eapply list.Forall_impl; [exact Hw|]. apply wrapper_wf.
Qed.

Lemma envelope_gate e : Forall wrapper_clean (wrappers e) -> assertNoPlaintextNoteFields (envelope_json e) = Ok tt.
Proof.
  intros Hw. apply gate_obj.
  repeat (apply list.Forall_cons; split; [split; [by apply (bool_decide_eq_true_1 _)|]|]); try done.
  apply gate_arr, Forall_map. eapply list.Forall_impl; [exact Hw|]. apply wrapper_gate.
Qed.

Lemma parse_envelope e : Forall wrapper_clean (wrappers e) -> env_vault_id e <> "" -> env_privy_user_id e <> "" -> env_ciphertext e <> "" ->
  parseVaultEnvelope (stringify (envelope_json e)) = Ok (envelope_json e).
Proof.
  intros Hw H1 H2 H3. unfold parseVaultEnvelope. rewrite JSON_parse_stringify by (by apply envelope_wf).
  unfold validateVaultEnvelope, falsy_prop.
  change (prop "version" (envelope_json e)) with (Some (JStr "shade-encrypted-vault-v1")).
  change (prop "vault_id" (envelope_json e)) with (Some (JStr (env_vault_id e))).
  change (prop "privy_user_id" (envelope_json e)) with (Some (JStr (env_privy_user_id e))).
  change (prop "ciphertext" (envelope_json e)) with (Some (JStr (env_ciphertext e))).
  change (prop "cipher" (envelope_json e) ≫= prop "name") with (Some (JStr "AES-256-GCM")).
  change (prop "wrappers" (envelope_json e)) with (Some (JArr (map wrapper_json (wrappers e)))).
  cbn [is_text truthy is_array negb]. rewrite !bool_decide_true by done. rewrite !bool_decide_false by done. cbn [negb orb].
  by rewrite envelope_gate.
Qed.

(** ** A concrete scheme for the examples *)

Definition toy_tag : string := "0123456789abcdef".

#[global] Instance toyCrypto : WebCrypto := {|
  gcm_encrypt := fun k iv aad m => Ok (toy_tag +:+ m); gcm_decrypt := fun k iv aad c => Ok (bytes_drop 16 c);
  hkdf := fun _ _ _ => "01234567890123456789012345678901"; pbkdf2 := fun _ _ _ => "01234567890123456789012345678901";
  digest_sha256 := fun s => s |}.

#[global] Instance toyCrypto_laws : WebCryptoLaws toyCrypto.
Proof.
  split; [|done|done]. intros k iv aad m _ _. exists (toy_tag +:+ m).
  split; [done|]. split; [|rewrite slen_app; cbn; lia]. cbn [gcm_decrypt toyCrypto].
  by destruct (bytes_take_app 16 toy_tag m eq_refl) as [_ ->].
Qed.

Definition toy_mk : string := "abcdefghijklmnopqrstuvwxyz012345".
Definition toy_iv : string := "0123456789ab".
Definition toy_random : WrapRandom := {| r_salt := "salt"; r_id := "id"; r_iv := toy_iv |}.
Definition toy_note (c : string) (st : NoteStatus) : VaultNote :=
  {| vn_commitment := c; asset_id := "USDC"; amount_7dp := "25"; note_preimage := generateNotePreimage ["s"];
     deposit_id := None; vn_status := st; vn_created_at := "t" |}.
Definition toy_vault : NoteVault := {| nv_vault_id := "v"; nv_created_at := "t"; updated_at := "t"; notes := [toy_note "c1" Prepared; toy_note "c2" Active] |}.
Definition toy_wrapper (t : WrapperType) (d : option bool) : VaultWrapper :=
  {| w_id := "w"; w_type := t; w_active := true; w_kdf := HKDF_SHA256; salt := ""; wrapped_key := ""; diagnostic_only := d;
     metadata := [("device", JStr "phone")] |}.

Lemma toy_wrapper_clean t d : wrapper_clean (toy_wrapper t d).
Proof. split; [split; [by apply (bool_decide_eq_true_1 _)|done]|]. apply gate_iff. reflexivity. Qed.

(** ** Properties *)

(** C39: a vault sealed into an envelope survives storage: the stored text
    passes [parseVaultEnvelope], its plaintext gate included, and the master
    key decrypts it to the vault that was sealed. *)
Theorem vault_envelope_roundtrip (W : WebCrypto) (WL : WebCryptoLaws W) (vault : NoteVault) (masterKey user origin iv : string)
    (ws : list VaultWrapper) :
  is_key masterKey -> is_iv iv -> nv_vault_id vault <> "" -> user <> "" -> Forall wrapper_clean ws ->
  exists env, createVaultEnvelope vault masterKey user origin ws iv = Ok env /\
    parseVaultEnvelope (stringify (envelope_json env)) = Ok (envelope_json env) /\
    decryptEnvelope env masterKey = Ok (vault_json vault).
Proof.
  intros Hk Hi Hv Hu Hw. unfold createVaultEnvelope. set (aad := Build_VaultAad _ _ _ _ _).
  destruct (decrypt_encrypt_vault vault masterKey aad iv Hk Hi) as (ct & ivb & -> & Hct & Hd). cbn [rbind].
  eexists. split_and!; [reflexivity|by apply parse_envelope|exact Hd].
Qed.

Lemma vault_envelope_roundtrip_witness :
  exists env, createVaultEnvelope toy_vault toy_mk "user" "https://shade" [toy_wrapper passkey_prf None; toy_wrapper evm_signature (Some true)] toy_iv = Ok env /\
    parseVaultEnvelope (stringify (envelope_json env)) = Ok (envelope_json env) /\
    decryptEnvelope env toy_mk = Ok (vault_json toy_vault).
Proof.
  apply (vault_envelope_roundtrip toyCrypto toyCrypto_laws); [reflexivity|reflexivity|discriminate|discriminate|].
  apply list.Forall_cons. split; [apply toy_wrapper_clean|]. apply list.Forall_cons. split; [apply toy_wrapper_clean|constructor].
Defined.

(** Every recovery method gives the master key back: the passkey, the
    Stellar signature, the recovery-kit password and the recovery-file secret
    each unwrap the key they wrapped; the EVM wrapper is always marked
    diagnostic. *)
Theorem recovery_wrappers_recover_key (W : WebCrypto) (WL : WebCryptoLaws W) (masterKey secret : string) (md : list (string * json))
    (r : WrapRandom) :
  is_iv (r_iv r) ->
  (exists w, wrapVaultKeyWithPasskeyPrf masterKey secret md r = Ok w /\ unwrapVaultKeyWithPasskeyPrf w secret = Ok masterKey) /\
  (exists w, wrapVaultKeyWithStellarSignature masterKey secret md r = Ok w /\ unwrapVaultKeyWithStellarSignature w secret = Ok masterKey) /\
  (exists w, wrapVaultKeyWithRecoveryKitPassword masterKey secret md r = Ok w /\ unwrapVaultKeyWithRecoveryKitPassword w secret = Ok masterKey) /\
  (exists w, wrapVaultKeyWithRecoveryFileSecret masterKey secret md r = Ok w /\ unwrapVaultKeyWithRecoveryFileSecret w secret = Ok masterKey) /\
  (exists w, diagnosticWrapVaultKeyWithEvmSignature masterKey secret md r = Ok w /\ non_evm w = false).
Proof.
  intros Hi. split_and!.
  1-2: edestruct hkdf_wrapper_ok as (w & Hw & _ & _ & Hu); [exact Hi|]; exists w; split; [exact Hw|exact Hu].
  - destruct (make_wrapper_ok recovery_kit_password PBKDF2_SHA256 None md (pbkdf2 secret (r_salt r) PBKDF2_ITERS) masterKey r
                (pbkdf2_length _ _ _) Hi) as (w & Hw & _ & _ & _ & Hs & Hu).
    exists w. split; [exact Hw|]. unfold unwrapVaultKeyWithRecoveryKitPassword. by rewrite Hs.
  - edestruct hkdf_wrapper_ok as (w & Hw & _ & _ & Hu); [exact Hi|]; exists w; split; [exact Hw|exact Hu].
  - edestruct hkdf_wrapper_ok as (w & Hw & Ht & _); [exact Hi|]. exists w. split; [exact Hw|]. unfold non_evm. by rewrite Ht.
Qed.

Lemma recovery_wrappers_recover_key_witness :
  exists w, wrapVaultKeyWithPasskeyPrf toy_mk "prf" [] toy_random = Ok w /\ unwrapVaultKeyWithPasskeyPrf w "prf" = Ok toy_mk.
Proof. apply (recovery_wrappers_recover_key toyCrypto toyCrypto_laws toy_mk "prf" [] toy_random). reflexivity. Defined.

(** The plaintext gate accepts a value exactly when none of the forbidden
    field names is a key anywhere inside it, and the log redaction leaves no
    forbidden or encrypted field with its value at any depth. *)
Theorem plaintext_gate_exact (v : json) :
  (assertNoPlaintextNoteFields v = Ok tt <-> no_plaintext v) /\
  (forall k x, binds k x (redactVaultForLogs v) -> redacted_key k = true -> x = JStr "[REDACTED]").
Proof. split; [apply gate_iff|apply redact_binds]. Qed.

(** The spendable balance follows the note lifecycle: activating a prepared
    note adds exactly its amount to [totalActive7dp], marking an active note
    spent takes exactly its amount off. *)
Theorem active_balance_tracks_lifecycle (v : NoteVault) (n : VaultNote) (now : string) (a s : Z) :
  vault_inv v -> n ∈ notes v -> BigInt (amount_7dp n) = Some a -> totalActive7dp v = Some s ->
  (vn_status n = Prepared -> totalActive7dp (activate v (vn_commitment n) now) = Some (s + a)) /\
  (vn_status n = Active -> totalActive7dp (markSpent v (vn_commitment n) now) = Some (s - a)).
Proof.
  intros Hinv Hin Ha Hs. split; intros Hst; unfold activate, markSpent;
    rewrite (flip_total _ v _ now n a s) by done; rewrite Hst; repeat case_bool_decide; try done; f_equal; lia.
Qed.

Lemma active_balance_tracks_lifecycle_witness :
  totalActive7dp (activate toy_vault "c1" "t2") = Some 50.
Proof.
  apply (active_balance_tracks_lifecycle toy_vault (toy_note "c1" Prepared) "t2" 25 25).
  - apply (bool_decide_eq_true_1 _). reflexivity.
  - left.
  - reflexivity.
  - reflexivity.
  - reflexivity.
Defined.

(** On mainnet only two independent non-EVM wrappers, one of them a passkey or a
    Stellar signature, satisfy the recovery policy; EVM wrappers alone never
    do unless explicitly allowed. *)
Lemma mainnet_policy ws opts : mainnet opts = true ->
  evaluateRecoveryPolicy ws opts <> Insufficient <->
  evaluateRecoveryPolicy ws opts = Strong /\
  2 <= Z.of_nat (length (List.filter non_evm (List.filter w_active ws))) /\
  min_wrappers opts <= Z.of_nat (length (List.filter non_evm (List.filter w_active ws))) /\
  existsb strong_type (List.filter w_active ws) = true.
Proof.
  intros Hm. unfold evaluateRecoveryPolicy. rewrite Hm. set (n := Z.of_nat _). set (st := existsb _ _).
  destruct (negb (allowEvmOnly opts) && (n =? 0)) eqn:E1.
  { breflect. split; [done|]. intros (_ & ? & _). lia. }
  destruct (Z.ltb_spec n (min_wrappers opts)); [split; [done|lia]|].
  destruct (Z.leb_spec 2 n); cbn [andb]; [|split; [done|lia]]. destruct st; [by split|split; [done|by intros (? & _)]].
Qed.
