(* ===== verification/Queue.v ===== *)
(** The durable job queue (packages/queue/src/index.ts).

    The tables [service_jobs] and [service_events] are lists in insertion
    order; one [JobQueue] call is one or more SQL statements, each of which is
    atomic.  Row ids, the clock and the number of seconds of a backoff are
    arguments.  Columns the code never reads ([claimed_at], [updated_at]) are
    left out. *)

From S2P Require Import Prelude Text Json.
Local Open Scope string_scope.
Local Open Scope Z_scope.

Inductive QueueName := prover | relayer.

#[global] Instance QueueName_eq_dec : EqDecision QueueName.
Proof. solve_decision. Defined.

Record ServiceJob := {
  job_id : string; job_type : string; queue : QueueName; idempotency_key : option string; payload : json;
  job_status : string; attempts : Z; max_attempts : Z; job_result : option json; job_error : option string;
  available_at : Z; created_at : Z }.

Record ServiceEvent := { ev_job : string; ev_status : string; ev_detail : option string }.

Record JobDb := { jobs : list ServiceJob; events : list ServiceEvent }.

Definition emptyDb : JobDb := {| jobs := []; events := [] |}.

(** [update service_jobs set ... where job_id=$1] *)
Definition update_job (id : string) (f : ServiceJob -> ServiceJob) (db : JobDb) : JobDb :=
  {| jobs := map (fun j => if bool_decide (job_id j = id) then f j else j) (jobs db); events := events db |}.

Definition event (id st : string) (detail : option string) (db : JobDb) : JobDb :=
  {| jobs := jobs db; events := (events db ++ [{| ev_job := id; ev_status := st; ev_detail := detail |}])%list |}.

Definition has_key (k : string) (j : ServiceJob) : bool := bool_decide (idempotency_key j = Some k).

(** The [select] of [enqueue]: skipped when the key is missing or empty. *)
Definition enqueue_lookup (key : option string) (db : JobDb) : option ServiceJob :=
  match key with
  | Some k => if bool_decide (k = "") then None else List.find (has_key k) (jobs db)
  | None => None
  end.

(** The [insert] of [enqueue], with the unique constraints of the table. *)
Definition enqueue_insert (q : QueueName) (jobType : string) (pl : json) (key : option string) (id : string) (now : Z) (db : JobDb)
    : JobDb * result ServiceJob :=
  if existsb (fun j => bool_decide (job_id j = id) || match key with Some k => has_key k j | None => false end) (jobs db)
  then (db, Err "duplicate key value violates unique constraint")
  else
    let j := {| job_id := id; job_type := jobType; queue := q; idempotency_key := key; payload := pl; job_status := "queued";
                attempts := 0; max_attempts := 3; job_result := None; job_error := None; available_at := now; created_at := now |} in
    let db := {| jobs := (jobs db ++ [j])%list; events := events db |} in
    (event id "queued" (Some ("enqueued " +:+ jobType)) db, Ok j).

Definition enqueue (q : QueueName) (jobType : string) (pl : json) (key : option string) (id : string) (now : Z) (db : JobDb)
    : JobDb * result ServiceJob :=
  match enqueue_lookup key db with
  | Some j => (db, Ok j)
  | None => enqueue_insert q jobType pl key id now db
  end.

Definition claimable_status (s : string) : bool := bool_decide (s = "queued") || bool_decide (s = "failed_retry").

(** [jobTypes && jobTypes.length]: an empty filter means no filter. *)
Definition type_ok (types : list string) (j : ServiceJob) : bool :=
  match types with [] => true | _ => bool_decide (job_type j ∈ types) end.

Definition eligible (q : QueueName) (types : list string) (now : Z) (j : ServiceJob) : bool :=
  bool_decide (queue j = q) && claimable_status (job_status j) && (available_at j <=? now) && type_ok types j.

(** The first of the oldest. *)
Fixpoint oldest (l : list ServiceJob) : option ServiceJob :=
  match l with
  | [] => None
  | j :: l => match oldest l with
              | Some k => if created_at k <? created_at j then Some k else Some j
              | None => Some j
              end
  end.

Definition claimed (j : ServiceJob) : ServiceJob :=
  {| job_id := job_id j; job_type := job_type j; queue := queue j; idempotency_key := idempotency_key j; payload := payload j;
     job_status := "claimed"; attempts := attempts j + 1; max_attempts := max_attempts j; job_result := job_result j;
     job_error := job_error j; available_at := available_at j; created_at := created_at j |}.

Definition claimNext (q : QueueName) (types : list string) (now : Z) (db : JobDb) : JobDb * option ServiceJob :=
  match oldest (List.filter (eligible q types now) (jobs db)) with
  | None => (db, None)
  | Some j => (update_job (job_id j) claimed db, Some (claimed j))
  end.

Definition with_status (st : string) (j : ServiceJob) : ServiceJob :=
  {| job_id := job_id j; job_type := job_type j; queue := queue j; idempotency_key := idempotency_key j; payload := payload j;
     job_status := st; attempts := attempts j; max_attempts := max_attempts j; job_result := job_result j;
     job_error := job_error j; available_at := available_at j; created_at := created_at j |}.

Definition setStatus (id st : string) (detail : option string) (db : JobDb) : JobDb :=
  event id st detail (update_job id (with_status st) db).

Definition with_outcome (st : string) (res : option json) (err : option string) (avail : Z) (j : ServiceJob) : ServiceJob :=
  {| job_id := job_id j; job_type := job_type j; queue := queue j; idempotency_key := idempotency_key j; payload := payload j;
     job_status := st; attempts := attempts j; max_attempts := max_attempts j; job_result := res;
     job_error := err; available_at := avail; created_at := created_at j |}.

Definition complete (id : string) (res : json) (st : string) (db : JobDb) : JobDb :=
  event id st (Some "completed") (update_job id (fun j => with_outcome st (Some res) None (available_at j) j) db).

Definition getJob (id : string) (db : JobDb) : option ServiceJob := List.find (fun j => bool_decide (job_id j = id)) (jobs db).

Definition getEvents (id : string) (db : JobDb) : list ServiceEvent :=
  List.filter (fun e => bool_decide (ev_job e = id)) (events db).

(** [s.slice(0, n)] *)
Definition slice0 (n : nat) (s : string) : string := String.substring 0 n s.

Definition fail_job (id err : string) (backoffSeconds now : Z) (db : JobDb) : JobDb :=
  let terminal := match getJob id db with Some j => max_attempts j <=? attempts j | None => true end in
  if terminal then
    event id "failed" (Some (slice0 500 err))
      (update_job id (fun j => with_outcome "failed" (job_result j) (Some (slice0 2000 err)) (available_at j) j) db)
  else
    event id "failed_retry" (Some (slice0 500 err))
      (update_job id (fun j => with_outcome "failed_retry" (job_result j) (Some (slice0 2000 err)) (now + backoffSeconds) j) db).

(** A worker iteration: claim, process, then record the outcome.  [process]
    runs the job against the database and returns or throws. *)
Definition run_once (q : QueueName) (types : list string) (process : ServiceJob -> JobDb -> JobDb * result json) (now : Z) (db : JobDb)
    : JobDb * bool :=
  match claimNext q types now db with
  | (db, None) => (db, false)
  | (db, Some j) =>
      match process j db with
      | (db, Ok r) => (complete (job_id j) r "ready" db, true)
      | (db, Err e) => (fail_job (job_id j) e 10 now db, true)
      end
  end.

(** ** Invariant *)

Definition job_ok (j : ServiceJob) : Prop :=
  max_attempts j = 3 /\ 0 <= attempts j <= 3 /\ (claimable_status (job_status j) = true -> attempts j < 3).

Record db_inv (db : JobDb) : Prop := {
  uniq_ids : NoDup (map job_id (jobs db));
  uniq_keys : NoDup (omap idempotency_key (jobs db));
  jobs_ok : Forall job_ok (jobs db) }.

(** The statuses the workers set while a job is in progress. *)
Definition progress_status (st : string) : Prop := claimable_status st = false.

(** One statement of a client or worker, and how many jobs it claimed. *)
Inductive queue_step (db : JobDb) : Z -> JobDb -> Prop :=
| qs_enqueue q ty pl key id now : queue_step db 0 (enqueue q ty pl key id now db).1
| qs_insert q ty pl key id now : queue_step db 0 (enqueue_insert q ty pl key id now db).1
| qs_claim q types now :
    queue_step db (match (claimNext q types now db).2 with Some _ => 1 | None => 0 end) (claimNext q types now db).1
| qs_status id st detail : progress_status st -> queue_step db 0 (setStatus id st detail db)
| qs_complete id res st : progress_status st -> queue_step db 0 (complete id res st db)
| qs_fail id err backoff now : queue_step db 0 (fail_job id err backoff now db).

Inductive queue_run : Z -> JobDb -> Prop :=
| qr_start : queue_run 0 emptyDb
| qr_step n k db db' : queue_run n db -> queue_step db k db' -> queue_run (n + k) db'.

Definition total_attempts (db : JobDb) : Z := fold_right (fun j n => attempts j + n) 0 (jobs db).

Lemma map_keep {A B} (g : A -> B) (c : A -> bool) (f : A -> A) l :
  (forall a, g (f a) = g a) -> map g (map (fun a => if c a then f a else a) l) = map g l.
Proof. intros Hf. rewrite map_map. apply map_ext. intros a. by destruct (c a). Qed.

Lemma omap_keep {A B} (g : A -> option B) (c : A -> bool) (f : A -> A) l :
  (forall a, g (f a) = g a) -> omap g (map (fun a => if c a then f a else a) l) = omap g l.
Proof. intros Hf. induction l as [|a l IH]; [done|]. cbn. destruct (c a); rewrite ?Hf; destruct (g a); by rewrite IH. Qed.

Lemma update_inv db id f :
  (forall j, job_id (f j) = job_id j) -> (forall j, idempotency_key (f j) = idempotency_key j) ->
  (forall j, j ∈ jobs db -> job_id j = id -> job_ok j -> job_ok (f j)) ->
  db_inv db -> db_inv (update_job id f db).
Proof.
  intros H1 H2 H3 [Hi Hk Hj]. split; cbn [jobs update_job].
  - by rewrite map_keep.
  - by rewrite omap_keep.
  - rewrite list.Forall_forall in Hj |- *. intros j Hin. apply list_elem_of_In, in_map_iff in Hin as (j0 & <- & Hin%list_elem_of_In).
    case_bool_decide; [apply H3|]; auto.
Qed.

Lemma event_inv db id st d : db_inv db -> db_inv (event id st d db).
Proof. by intros [? ? ?]. Qed.

Lemma oldest_spec l j : oldest l = Some j -> j ∈ l /\ Forall (fun k => created_at j <= created_at k) l.
Proof.
  revert j. induction l as [|a l IH]; intros j; cbn; [done|]. destruct (oldest l) as [k|] eqn:E.
  - destruct (IH k eq_refl) as [Hin Hall]. destruct (Z.ltb_spec (created_at k) (created_at a)); intros [= <-].
    + split; [by right|]. constructor; [lia|done].
    + split; [left|]. constructor; [lia|]. eapply list.Forall_impl; [exact Hall|]. cbn. lia.
  - intros [= <-]. destruct l as [|b l]; [|cbn in E; destruct (oldest l); [destruct (_ <? _)|]; done].
    split; [left|]. constructor; [lia|constructor].
Qed.

Lemma oldest_None l : oldest l = None -> l = [].
Proof. destruct l as [|a l]; [done|]. cbn. destruct (oldest l); [destruct (_ <? _)|]; done. Qed.

Lemma claim_cases q types now db : 
  (claimNext q types now db = (db, None) /\ Forall (fun j => eligible q types now j = false) (jobs db)) \/
  exists j, claimNext q types now db = (update_job (job_id j) claimed db, Some (claimed j)) /\ j ∈ jobs db /\
    eligible q types now j = true /\ Forall (fun k => eligible q types now k = true -> created_at j <= created_at k) (jobs db).
Proof.
  unfold claimNext. destruct (oldest _) as [j|] eqn:E; [right|left].
  - apply oldest_spec in E as [Hin Hall]. apply list_elem_of_In, filter_In in Hin as [Hin He]. exists j.
    split_and!; [done|by apply list_elem_of_In|done|]. rewrite list.Forall_forall in Hall |- *. intros k Hk Hek.
    apply Hall, list_elem_of_In, filter_In. split; [by apply list_elem_of_In|done].
  - apply oldest_None in E. split; [done|]. apply list.Forall_forall. intros j Hj.
    destruct (eligible q types now j) eqn:He; [|done]. exfalso.
    assert (j ∈ List.filter (eligible q types now) (jobs db)) as Hx by (apply list_elem_of_In, filter_In; by rewrite <- list_elem_of_In).
    rewrite E in Hx. by apply elem_of_nil in Hx.
Qed.

Lemma same_job db j k : db_inv db -> j ∈ jobs db -> k ∈ jobs db -> job_id j = job_id k -> j = k.
Proof.
  intros [Hi _ _] Hj Hk E. apply list_elem_of_lookup in Hj as [a Ha]. apply list_elem_of_lookup in Hk as [b Hb].
  assert (a = b) as ->; [|congruence]. eapply (NoDup_lookup (map job_id (jobs db))); [done| |].
  - change (map job_id (jobs db)) with (job_id <$> jobs db). rewrite list_lookup_fmap, Ha. reflexivity.
  - change (map job_id (jobs db)) with (job_id <$> jobs db). rewrite list_lookup_fmap, Hb. cbn. by rewrite E.
Qed.

Lemma getJob_elem db id j : getJob id db = Some j -> j ∈ jobs db /\ job_id j = id.
Proof. intros H. apply find_some in H as [Hin Hid]. apply bool_decide_eq_true in Hid. by rewrite list_elem_of_In. Qed.

Lemma elem_getJob db j : db_inv db -> j ∈ jobs db -> getJob (job_id j) db = Some j.
Proof.
  intros Hinv Hin. destruct (getJob (job_id j) db) as [k|] eqn:E.
  - apply getJob_elem in E as [Hk Hid]. f_equal. by eapply same_job.
  - exfalso. unfold getJob in E. pose proof (find_none _ _ E j) as Hn. cbn in Hn.
    rewrite bool_decide_true in Hn by done. by apply list_elem_of_In, Hn in Hin.
Qed.

Lemma insert_inv q ty pl key id now db : db_inv db -> db_inv (enqueue_insert q ty pl key id now db).1.
Proof.
  intros [Hi Hk Hj]. unfold enqueue_insert. destruct (existsb _ (jobs db)) eqn:E; [done|].
  assert (forall j, j ∈ jobs db -> job_id j <> id /\ (forall k, key = Some k -> idempotency_key j <> Some k)) as Hnew.
  { intros j Hin%list_elem_of_In. pose proof (proj2 (not_true_iff_false _) E) as Hn. split.
    - intros Eid. apply Hn, existsb_exists. exists j. by rewrite bool_decide_true.
    - intros k -> Ek. apply Hn, existsb_exists. exists j. split; [done|]. unfold has_key. rewrite (bool_decide_true (_ = Some k)) by done.
      apply orb_true_r. }
  apply event_inv. split; cbn [jobs].
  - rewrite map_app. apply list.NoDup_app. split_and!; [done| |apply list.NoDup_singleton].
    intros x Hx Hin. apply list_elem_of_singleton in Hin. cbn in Hin. subst x.
    apply list_elem_of_In, in_map_iff in Hx as (j & Ej & Hj'%list_elem_of_In). by apply (Hnew j Hj').
  - rewrite omap_app. apply list.NoDup_app. split_and!; [done| |destruct key; cbn; [apply list.NoDup_singleton|constructor]].
    intros x Hx Hin. cbn in Hin. destruct key as [k|]; [|by apply elem_of_nil in Hin]. apply list_elem_of_singleton in Hin as ->.
    apply list_elem_of_omap in Hx as (j & Hj' & Ej). by apply (proj2 (Hnew j Hj') k).
  - apply list.Forall_app. split; [done|]. constructor; [|constructor]. split_and!; cbn; try done; lia.
Qed.

Lemma total_attempts_same db id f : (forall j, attempts (f j) = attempts j) -> total_attempts (update_job id f db) = total_attempts db.
Proof.
  intros Hf. unfold total_attempts, update_job. cbn [jobs]. induction (jobs db) as [|j l IH]; [done|]. cbn. rewrite IH.
  case_bool_decide; by rewrite ?Hf.
Qed.

Lemma total_attempts_claim db j : db_inv db -> j ∈ jobs db -> total_attempts (update_job (job_id j) claimed db) = total_attempts db + 1.
Proof.
  intros [Hi _ _] Hin. unfold total_attempts, update_job. cbn [jobs]. revert Hi Hin. induction (jobs db) as [|k l IH]; intros Hi Hin.
  { by apply elem_of_nil in Hin. }
  cbn [map] in Hi. apply list.NoDup_cons in Hi as [Hni Hi]. cbn [map fold_right]. apply elem_of_cons in Hin as [<-|Hin].
  - rewrite bool_decide_true by done. cbn [attempts claimed].
    assert (map (fun k => if bool_decide (job_id k = job_id j) then claimed k else k) l = l) as ->; [|lia].
    rewrite <- (map_id l) at 2. apply map_ext_in. intros k Hk. rewrite bool_decide_false; [done|]. intros E. apply Hni. rewrite <- E.
    by apply list_elem_of_In, in_map.
  - rewrite IH by done. rewrite bool_decide_false; [lia|]. intros E. apply Hni. rewrite E. by apply list_elem_of_In, in_map, list_elem_of_In.
Qed.

Lemma insert_total q ty pl key id now db : total_attempts (enqueue_insert q ty pl key id now db).1 = total_attempts db.
Proof.
  unfold enqueue_insert. destruct (existsb _ _); [done|]. unfold total_attempts. cbn [fst event jobs]. rewrite fold_right_app. done.
Qed.

Lemma fail_inv id err backoff now db : db_inv db ->
  db_inv (fail_job id err backoff now db) /\ total_attempts (fail_job id err backoff now db) = total_attempts db + 0.
Proof.
  intros HI. unfold fail_job. destruct (getJob id db) as [j0|] eqn:E; [destruct (Z.leb_spec (max_attempts j0) (attempts j0))|];
    (split; [|etransitivity; [apply (total_attempts_same db id); done|lia]]); apply event_inv, update_inv; try done;
    intros j Hj Eid (Hm & Ha & Hc); split_and!; cbn; try done; try lia. intros _.
  apply getJob_elem in E as [Hj0 Eid0]. assert (j = j0) as -> by (eapply same_job; [done..|congruence]). lia.
Qed.

Lemma queue_step_inv db k db' : db_inv db -> queue_step db k db' -> db_inv db' /\ total_attempts db' = total_attempts db + k.
Proof.
  intros HI [q ty pl key id now|q ty pl key id now|q types now|id st detail Hst|id res st Hst|id err backoff now].
  - unfold enqueue. destruct (enqueue_lookup key db); [split; [done|cbn; lia]|]. split; [by apply insert_inv|]. rewrite insert_total. lia.
  - split; [by apply insert_inv|]. rewrite insert_total. lia.
  - destruct (claim_cases q types now db) as [[-> _]|(j & -> & Hin & He & _)]; [split; [done|cbn; lia]|]. cbn [fst snd].
    split; [|by apply total_attempts_claim]. apply update_inv; try done. intros j' Hk Eid (Hm & Ha & Hc).
    assert (j' = j) as -> by (by eapply same_job). unfold eligible in He. breflect. split_and!; cbn; [done|..|done]; specialize (Hc ltac:(done)); lia.
  - split; [|etransitivity; [apply (total_attempts_same db id (with_status st)); done|lia]].
    apply event_inv, update_inv; try done. intros j _ _ (? & [? ?] & _). split_and!; try done.
    intros E. change (claimable_status st = true) in E. by rewrite Hst in E.
  - split; [|etransitivity; [apply (total_attempts_same db id (fun j => with_outcome st (Some res) None (available_at j) j)); done|lia]].
    apply event_inv, update_inv; try done. intros j _ _ (? & [? ?] & _). split_and!; try done.
    intros E. change (claimable_status st = true) in E. by rewrite Hst in E.
  - apply fail_inv; done.
Qed.

Lemma queue_run_inv n db : queue_run n db -> db_inv db /\ n = total_attempts db.
Proof.
  induction 1 as [|n k db db' _ [HI ->] Hs]; [split; [split; constructor|done]|].
  destruct (queue_step_inv db k db' HI Hs) as [HI' ->]. by split.
Qed.

Lemma total_bound l : Forall job_ok l -> fold_right (fun j n => attempts j + n) 0 l <= 3 * Z.of_nat (length l).
Proof. induction 1 as [|j l (_ & ? & _) _ IH]; cbn [fold_right length]; lia. Qed.

(** ** Properties *)

Definition toy_job : ServiceJob :=
  {| job_id := "j1"; job_type := "A"; queue := relayer; idempotency_key := Some "k1"; payload := JNull; job_status := "queued";
     attempts := 0; max_attempts := 3; job_result := None; job_error := None; available_at := 5; created_at := 5 |}.

Definition toy_db : JobDb :=
  (enqueue relayer "B" JNull (Some "k2") "j2" 7 (enqueue relayer "A" JNull (Some "k1") "j1" 5 emptyDb).1).1.

(** Bounded work: along any interleaving of enqueues, claims, status
    updates, completions and failures, from any number of clients and workers,
    no two rows share an id or an idempotency key, and the number of times a job
    was handed to a worker is at most three per row: every row counts its claims
    in [attempts], a row waiting for a worker has fewer than [max_attempts]. *)
Theorem queue_work_bounded (claims : Z) (db : JobDb) :
  queue_run claims db -> db_inv db /\ claims = total_attempts db /\ claims <= 3 * Z.of_nat (length (jobs db)).
Proof.
  intros Hr. destruct (queue_run_inv claims db Hr) as [HI ->]. split_and!; [done|done|]. apply total_bound, (jobs_ok _ HI).
Qed.

Lemma queue_work_bounded_witness :
  let db := fail_job "j1" "boom" 10 9 (claimNext relayer [] 9 toy_db).1 in
  db_inv db /\ 1 = total_attempts db /\ 1 <= 3 * Z.of_nat (length (jobs db)).
Proof.
  apply (queue_work_bounded 1).
  apply (qr_step 1 0 (claimNext relayer [] 9 toy_db).1); [|apply qs_fail].
  apply (qr_step 0 1 toy_db); [|apply (qs_claim toy_db relayer [] 9)].
  apply (qr_step 0 0 (enqueue relayer "A" JNull (Some "k1") "j1" 5 emptyDb).1); [|apply qs_enqueue].
  apply (qr_step 0 0 emptyDb); [apply qr_start|apply qs_enqueue].
Defined.

(** A claim takes the oldest available job of the queue and types asked
    for, marks exactly that row claimed, and the row is not available to any
    later claim until it is failed back: no job is processed by two workers. *)
Theorem claim_is_exclusive (n : Z) (db db' : JobDb) (q : QueueName) (types : list string) (now : Z) (j : ServiceJob) :
  queue_run n db -> claimNext q types now db = (db', Some j) ->
  (exists j0, j0 ∈ jobs db /\ j = claimed j0 /\ eligible q types now j0 = true /\
     Forall (fun k => eligible q types now k = true -> created_at j0 <= created_at k) (jobs db)) /\
  (forall k, k ∈ jobs db -> job_id k <> job_id j -> k ∈ jobs db') /\
  (forall q' types' now' db'' k, claimNext q' types' now' db' = (db'', Some k) -> job_id k <> job_id j).
Proof.
  intros Hr Hc. destruct (queue_run_inv n db Hr) as [HI _].
  destruct (claim_cases q types now db) as [[E _]|(j0 & E & Hin & He & Hold)]; rewrite E in Hc; [done|].
  injection Hc as <- <-. split_and!; [by exists j0| |].
  - intros k Hk Hne. cbn [update_job jobs]. apply list_elem_of_In, in_map_iff. exists k.
    rewrite bool_decide_false by done. by rewrite <- list_elem_of_In.
  - intros q' types' now' db'' k Hk Eid. cbn [claimed job_id] in Eid.
    destruct (claim_cases q' types' now' (update_job (job_id j0) claimed db)) as [[E' _]|(k0 & E' & Hin' & He' & _)];
      rewrite E' in Hk; [done|]. injection Hk as _ <-. cbn [claimed job_id] in Eid. cbn [update_job jobs] in Hin'.
    apply list_elem_of_In, in_map_iff in Hin' as (k1 & Ek & _).
    destruct (bool_decide (job_id k1 = job_id j0)) eqn:Hb; subst k0.
    + unfold eligible in He'. breflect. assert (claimable_status (job_status (claimed k1)) = false) by reflexivity. congruence.
    + apply bool_decide_eq_false in Hb. done.
Qed.

Lemma claim_is_exclusive_witness :
  let r := claimNext relayer [] 9 toy_db in
  (exists j0, j0 ∈ jobs toy_db /\ claimed toy_job = claimed j0 /\ eligible relayer [] 9 j0 = true /\
     Forall (fun k => eligible relayer [] 9 k = true -> created_at j0 <= created_at k) (jobs toy_db)) /\
  (forall k, k ∈ jobs toy_db -> job_id k <> "j1" -> k ∈ jobs r.1) /\
  (forall q' types' now' db'' k, claimNext q' types' now' r.1 = (db'', Some k) -> job_id k <> "j1").
Proof.
  apply (claim_is_exclusive 0 toy_db (claimNext relayer [] 9 toy_db).1 relayer [] 9 (claimed toy_job)); [|reflexivity].
  apply (qr_step 0 0 (enqueue relayer "A" JNull (Some "k1") "j1" 5 emptyDb).1); [|apply qs_enqueue].
  apply (qr_step 0 0 emptyDb); [apply qr_start|apply qs_enqueue].
Defined.
