(* ===== verification/Settler.v ===== *)
(** Persisting signed batches and dispatching their settlement
    (apps/mpc-committee/src/persist.ts and settler.ts).

    The tables the two files touch are the fields of [MpcDb].  Each SQL
    statement is atomic and keeps its effect when a later one throws; the
    foreign keys of db/migrations/007_mpc.sql are checked.  The JSONB columns
    [matches_json] and [signatures_json] come back as arrays. *)

From S2P Require Import Prelude Text Json Committee Queue.
Local Open Scope string_scope.
Local Open Scope Z_scope.

Record BatchRow := {
  batch_id : string; session_id : string; batch_hash : string; match_count : Z; matches_json : list MatchResult;
  signatures_json : list NodeSignature; settlement_status : string; b_created_at : Z }.

Record SignatureRow := { sr_batch : string; sr_node : string; sr_pubkey : string; sr_signature : string }.

Record SessionRow := { sn_id : string; sn_status : string; sn_match_count : Z }.

Record IntentRow := {
  intent_id : string; note_nullifier : string; note_commitment : string; recipient_commitment : string;
  ir_status : string; matched_with : option string }.

Record MpcDb := {
  mpc_batches : list BatchRow; mpc_batch_signatures : list SignatureRow; mpc_sessions : list SessionRow;
  mpc_intents : list IntentRow;
  rfq_intents : list string;      (** [intents.intent_hash] *)
  job_db : JobDb }.

Definition set_batches (l : list BatchRow) (db : MpcDb) : MpcDb :=
  {| mpc_batches := l; mpc_batch_signatures := mpc_batch_signatures db; mpc_sessions := mpc_sessions db;
     mpc_intents := mpc_intents db; rfq_intents := rfq_intents db; job_db := job_db db |}.
Definition set_sigs (l : list SignatureRow) (db : MpcDb) : MpcDb :=
  {| mpc_batches := mpc_batches db; mpc_batch_signatures := l; mpc_sessions := mpc_sessions db;
     mpc_intents := mpc_intents db; rfq_intents := rfq_intents db; job_db := job_db db |}.
Definition set_sessions (l : list SessionRow) (db : MpcDb) : MpcDb :=
  {| mpc_batches := mpc_batches db; mpc_batch_signatures := mpc_batch_signatures db; mpc_sessions := l;
     mpc_intents := mpc_intents db; rfq_intents := rfq_intents db; job_db := job_db db |}.
Definition set_intents (l : list IntentRow) (db : MpcDb) : MpcDb :=
  {| mpc_batches := mpc_batches db; mpc_batch_signatures := mpc_batch_signatures db; mpc_sessions := mpc_sessions db;
     mpc_intents := l; rfq_intents := rfq_intents db; job_db := job_db db |}.
Definition set_jobs (j : JobDb) (db : MpcDb) : MpcDb :=
  {| mpc_batches := mpc_batches db; mpc_batch_signatures := mpc_batch_signatures db; mpc_sessions := mpc_sessions db;
     mpc_intents := mpc_intents db; rfq_intents := rfq_intents db; job_db := j |}.

(** ** Persisting *)

(** [ON CONFLICT DO NOTHING] on the primary key. *)
Definition insert_batch (sessionId : string) (batch : SignedMatchBatch) (now : Z) (db : MpcDb) : MpcDb * result unit :=
  if existsb (fun r => bool_decide (batch_id r = batchId batch)) (mpc_batches db) then (db, Ok tt)
  else if negb (existsb (fun s => bool_decide (sn_id s = sessionId)) (mpc_sessions db))
  then (db, Err "violates foreign key constraint on mpc_sessions")
  else (set_batches (mpc_batches db ++ [{| batch_id := batchId batch; session_id := sessionId; batch_hash := batchHash batch;
          match_count := Z.of_nat (length (matches batch)); matches_json := matches batch; signatures_json := signatures batch;
          settlement_status := "pending"; b_created_at := now |}]) db, Ok tt).

Definition insert_signature (b : string) (db : MpcDb) (s : NodeSignature) : MpcDb :=
  if existsb (fun r => bool_decide (sr_batch r = b) && bool_decide (sr_node r = ns_nodeId s)) (mpc_batch_signatures db) then db
  else set_sigs (mpc_batch_signatures db ++
         [{| sr_batch := b; sr_node := ns_nodeId s; sr_pubkey := ns_signingPubkey s; sr_signature := signature s |}]) db.

Definition close_session (id : string) (count : Z) (db : MpcDb) : MpcDb :=
  set_sessions (map (fun s => if bool_decide (sn_id s = id) then {| sn_id := sn_id s; sn_status := "signed"; sn_match_count := count |} else s)
                  (mpc_sessions db)) db.

Definition has_intent (id : string) (db : MpcDb) : bool := existsb (fun r => bool_decide (intent_id r = id)) (mpc_intents db).

Definition mark_matched (a b : string) (db : MpcDb) : MpcDb * result unit :=
  if has_intent a db && negb (has_intent b db) then (db, Err "violates foreign key constraint on mpc_intents")
  else (set_intents (map (fun r => if bool_decide (intent_id r = a) then
          {| intent_id := intent_id r; note_nullifier := note_nullifier r; note_commitment := note_commitment r;
             recipient_commitment := recipient_commitment r; ir_status := "matched"; matched_with := Some b |} else r)
          (mpc_intents db)) db, Ok tt).

Fixpoint mark_all (ms : list MatchResult) (db : MpcDb) : MpcDb * result unit :=
  match ms with
  | [] => (db, Ok tt)
  | m :: ms =>
      match mark_matched (intentAId m) (intentBId m) db with
      | (db, Err e) => (db, Err e)
      | (db, Ok _) =>
          match mark_matched (intentBId m) (intentAId m) db with
          | (db, Err e) => (db, Err e)
          | (db, Ok _) => mark_all ms db
          end
      end
  end.

Definition persistSignedBatch (sessionId : string) (batch : SignedMatchBatch) (now : Z) (db : MpcDb) : MpcDb * result unit :=
  match insert_batch sessionId batch now db with
  | (db, Err e) => (db, Err e)
  | (db, Ok _) =>
      let db := fold_left (insert_signature (batchId batch)) (signatures batch) db in
      let db := close_session sessionId (Z.of_nat (length (matches batch))) db in
      mark_all (matches batch) db
  end.

(** ** Settling *)

Definition fetchIntentNote (db : MpcDb) (id : string) : option IntentRow :=
  List.find (fun r => bool_decide (intent_id r = id)) (mpc_intents db).

Definition isRfqRouted (db : MpcDb) (id : string) : bool := bool_decide (id ∈ rfq_intents db).

Definition settle_key (b : BatchRow) (i : nat) : string := "mpc_settle:" +:+ batch_id b +:+ ":" +:+ toString (Z.of_nat i).

Definition signature_json (s : NodeSignature) : json :=
  JObj [("nodeId", JStr (ns_nodeId s)); ("signingPubkey", JStr (ns_signingPubkey s)); ("signature", JStr (signature s))].

Definition note_field (f : IntentRow -> string) (o : option IntentRow) : json :=
  match o with Some r => JStr (f r) | None => JNull end.

Definition settle_payload (db : MpcDb) (b : BatchRow) (i : nat) (m : MatchResult) : json :=
  let noteA := fetchIntentNote db (intentAId m) in
  let noteB := fetchIntentNote db (intentBId m) in
  JObj [("batchId", JStr (batch_id b)); ("batchHash", JStr (batch_hash b)); ("signatures", JArr (map signature_json (signatures_json b)));
        ("matchIndex", JNum (Z.of_nat i)); ("sessionId", JStr (session_id b)); ("intentAId", JStr (intentAId m));
        ("intentBId", JStr (intentBId m)); ("matchedAmount7dp", JStr (matchedAmount7dp m)); ("inputAsset", JStr (m_inputAsset m));
        ("outputAsset", JStr (m_outputAsset m)); ("nullifierA", note_field note_nullifier noteA);
        ("nullifierB", note_field note_nullifier noteB); ("outputCommitmentA", note_field recipient_commitment noteA);
        ("outputCommitmentB", note_field recipient_commitment noteB)].

Definition routed (db : MpcDb) (m : MatchResult) : bool := isRfqRouted db (intentAId m) || isRfqRouted db (intentBId m).

(** The loop over the matches; [gen i] is the row id drawn for match [i]. *)
Fixpoint settle_loop (gen : nat -> string) (now : Z) (b : BatchRow) (i : nat) (ms : list MatchResult) (queued : nat) (db : MpcDb)
    : MpcDb * result nat :=
  match ms with
  | [] => (db, Ok queued)
  | m :: ms =>
      if routed db m then settle_loop gen now b (S i) ms queued db
      else
        match enqueue relayer "MPC_SETTLE_SUBMIT" (settle_payload db b i m) (Some (settle_key b i)) (gen i) now (job_db db) with
        | (j, Err e) => (set_jobs j db, Err e)
        | (j, Ok _) => settle_loop gen now b (S i) ms (S queued) (set_jobs j db)
        end
  end.

Definition set_settlement (id st : string) (db : MpcDb) : MpcDb :=
  set_batches (map (fun r => if bool_decide (batch_id r = id) then
    {| batch_id := batch_id r; session_id := session_id r; batch_hash := batch_hash r; match_count := match_count r;
       matches_json := matches_json r; signatures_json := signatures_json r; settlement_status := st; b_created_at := b_created_at r |}
    else r) (mpc_batches db)) db.

Definition queueSettlementJobs (gen : nat -> string) (now : Z) (b : BatchRow) (db : MpcDb) : MpcDb * result unit :=
  match settle_loop gen now b 0 (matches_json b) 0 db with
  | (db, Err e) => (db, Err e)
  | (db, Ok queued) => (set_settlement (batch_id b) (if (0 <? queued)%nat then "queued" else "rfq_routed") db, Ok tt)
  end.

Definition older (a b : BatchRow) : bool := b_created_at a <? b_created_at b.

Definition pending_batches (db : MpcDb) : list BatchRow :=
  firstn 50 (js_sort older (List.filter (fun b => bool_decide (settlement_status b = "pending")) (mpc_batches db))).

Fixpoint settle_all (gen : string -> nat -> string) (now : Z) (bs : list BatchRow) (db : MpcDb) : MpcDb * result unit :=
  match bs with
  | [] => (db, Ok tt)
  | b :: bs =>
      match queueSettlementJobs (gen (batch_id b)) now b db with
      | (db, Err e) => (db, Err e)
      | (db, Ok _) => settle_all gen now bs db
      end
  end.

Definition settleOnce (gen : string -> nat -> string) (now : Z) (db : MpcDb) : MpcDb * result nat :=
  let rows := pending_batches db in
  match settle_all gen now rows db with
  | (db, Err e) => (db, Err e)
  | (db, Ok _) => (db, Ok (length rows))
  end.

(** One round of the polling loop: an error is logged and the next round
    starts from whatever was done. *)
Definition settler_round (gen : string -> nat -> string) (now : Z) (db : MpcDb) : MpcDb := (settleOnce gen now db).1.

(** ** What one batch enqueues *)

Definition key_taken (k : string) (l : list ServiceJob) : bool := existsb (has_key k) l.

Definition settle_job (gen : nat -> string) (now : Z) (db : MpcDb) (b : BatchRow) (i : nat) (m : MatchResult) : ServiceJob :=
  {| job_id := gen i; job_type := "MPC_SETTLE_SUBMIT"; queue := relayer; idempotency_key := Some (settle_key b i);
     payload := settle_payload db b i m; job_status := "queued"; attempts := 0; max_attempts := 3; job_result := None;
     job_error := None; available_at := now; created_at := now |}.

(** One job per match that is not RFQ-routed and not already queued. *)
Fixpoint new_jobs (gen : nat -> string) (now : Z) (db : MpcDb) (b : BatchRow) (i : nat) (ms : list MatchResult) : list ServiceJob :=
  match ms with
  | [] => []
  | m :: ms =>
      ((if routed db m || key_taken (settle_key b i) (jobs (job_db db)) then [] else [settle_job gen now db b i m])
       ++ new_jobs gen now db b (S i) ms)%list
  end.

Lemma settle_key_inj b i k : settle_key b i = settle_key b k -> i = k.
Proof.
  unfold settle_key. intros E.
  assert (forall s t u, s +:+ t = s +:+ u -> t = u) as Hinj.
  { clear. induction s as [|c s IH]; intros t u E; [done|]. rewrite !sapp_cons in E. injection E as E. by apply IH. }
  apply Hinj, Hinj in E. apply (Hinj ":") in E. apply toString_inj in E. lia.
Qed.

Lemma settle_key_nonempty b i : settle_key b i <> "".
Proof. done. Qed.

Lemma find_existsb {A} (f : A -> bool) l : List.find f l = None <-> existsb f l = false.
Proof. induction l as [|a l IH]; [done|]. cbn. destruct (f a); [done|]. by rewrite IH. Qed.

Lemma enqueue_taken q ty pl b i id now db : key_taken (settle_key b i) (jobs db) = true ->
  exists j, enqueue q ty pl (Some (settle_key b i)) id now db = (db, Ok j).
Proof.
  intros Ht. unfold enqueue, enqueue_lookup. rewrite bool_decide_false by apply settle_key_nonempty.
  destruct (List.find _ _) as [j|] eqn:E; [by exists j|]. apply find_existsb in E. unfold key_taken in Ht. congruence.
Qed.

Lemma enqueue_fresh ty pl b i id now db :
  key_taken (settle_key b i) (jobs db) = false -> id ∉ map job_id (jobs db) ->
  exists j, enqueue relayer ty pl (Some (settle_key b i)) id now db =
    (event id "queued" (Some ("enqueued " +:+ ty)) {| jobs := (jobs db ++ [j])%list; events := events db |}, Ok j) /\
    j = {| job_id := id; job_type := ty; queue := relayer; idempotency_key := Some (settle_key b i); payload := pl; job_status := "queued";
           attempts := 0; max_attempts := 3; job_result := None; job_error := None; available_at := now; created_at := now |}.
Proof.
  intros Ht Hid. unfold enqueue, enqueue_lookup, enqueue_insert. rewrite bool_decide_false by apply settle_key_nonempty.
  unfold key_taken in Ht. rewrite (proj2 (find_existsb _ _) Ht).
  assert (existsb (fun j => bool_decide (job_id j = id) || has_key (settle_key b i) j) (jobs db) = false) as ->;
    [|eexists; split; reflexivity].
  apply not_true_iff_false. intros (j & Hin & [Hj|Hj]%orb_prop)%existsb_exists.
  - apply bool_decide_eq_true in Hj. apply Hid. rewrite <- Hj. by apply list_elem_of_In, in_map.
  - apply not_true_iff_false in Ht. apply Ht, existsb_exists. by exists j.
Qed.

(** Only the job table changes during the loop. *)
Lemma new_jobs_ext gen now db db' b i ms :
  mpc_intents db' = mpc_intents db -> rfq_intents db' = rfq_intents db ->
  (forall k, (i <= k)%nat -> key_taken (settle_key b k) (jobs (job_db db')) = key_taken (settle_key b k) (jobs (job_db db))) ->
  new_jobs gen now db' b i ms = new_jobs gen now db b i ms.
Proof.
  intros HI HR. revert i. induction ms as [|m ms IH]; intros i Hk; [done|]. cbn [new_jobs]. rewrite IH by (intros; apply Hk; lia).
  rewrite Hk by done. unfold routed, isRfqRouted, settle_job, settle_payload, fetchIntentNote. by rewrite HI, HR.
Qed.

Definition ids_fresh (gen : nat -> string) (i : nat) (db : MpcDb) : Prop :=
  forall k, (i <= k)%nat -> gen k ∉ map job_id (jobs (job_db db)).

Lemma settle_loop_ok gen now b i ms queued db : Inj (=) (=) gen -> ids_fresh gen i db ->
  exists db' n, settle_loop gen now b i ms queued db = (db', Ok (queued + n)%nat) /\
    jobs (job_db db') = (jobs (job_db db) ++ new_jobs gen now db b i ms)%list /\
    n = length (List.filter (fun m => negb (routed db m)) ms) /\
    mpc_intents db' = mpc_intents db /\ rfq_intents db' = rfq_intents db /\ mpc_batches db' = mpc_batches db.
Proof.
  intros Hg. revert i queued db. induction ms as [|m ms IH]; intros i queued db Hf; cbn [settle_loop new_jobs List.filter].
  { exists db, 0%nat. rewrite app_nil_r, Nat.add_0_r. by split_and!. }
  destruct (routed db m) eqn:Er; cbn [orb negb].
  { destruct (IH (S i) queued db) as (db' & n & ? & ? & ?); [intros k Hk; apply Hf; lia|]. by exists db', n. }
  destruct (key_taken (settle_key b i) (jobs (job_db db))) eqn:Et; cbn [app length].
  - destruct (enqueue_taken relayer "MPC_SETTLE_SUBMIT" (settle_payload db b i m) b i (gen i) now (job_db db) Et) as [j ->].
    assert (set_jobs (job_db db) db = db) as -> by (by destruct db).
    destruct (IH (S i) (S queued) db) as (db' & n & -> & Hj & -> & ?); [intros k Hk; apply Hf; lia|].
    eexists db', _. split; [do 2 f_equal|by rewrite Hj]. lia.
  - destruct (enqueue_fresh "MPC_SETTLE_SUBMIT" (settle_payload db b i m) b i (gen i) now (job_db db) Et (Hf i (le_n i))) as (j & -> & Ej).
    set (db1 := set_jobs _ db).
    assert (forall k, (S i <= k)%nat -> key_taken (settle_key b k) (jobs (job_db db1)) = key_taken (settle_key b k) (jobs (job_db db))) as Hk.
    { intros k Hk. unfold key_taken, db1. cbn [job_db set_jobs event jobs]. rewrite existsb_app. subst j. cbn [existsb has_key idempotency_key].
      unfold has_key at 2. cbn [idempotency_key]. rewrite bool_decide_false; [by rewrite !orb_false_r|].
      intros E. apply (inj Some), settle_key_inj in E. lia. }
    destruct (IH (S i) (S queued) db1) as (db' & n & -> & Hj & -> & ? & ? & ?).
    { intros k Hk'. unfold db1. cbn [job_db set_jobs event jobs]. rewrite map_app. apply not_elem_of_app. split; [apply Hf; lia|].
      subst j. cbn. intros Hin%list_elem_of_singleton%Hg. lia. }
    eexists db', _. split; [do 2 f_equal|]; [|split_and!; try done].
    + assert (forall m', routed db1 m' = routed db m') as Hr by done. rewrite (filter_ext _ (fun m => negb (routed db m))); [lia|done].
    + rewrite Hj, (new_jobs_ext gen now db db1) by done. unfold db1. cbn [job_db set_jobs event jobs]. rewrite <- app_assoc. by subst j.
Qed.

Lemma new_jobs_cover gen now db b i ms k m : ms !! k = Some m -> routed db m = false ->
  key_taken (settle_key b (i + k)) (jobs (job_db db) ++ new_jobs gen now db b i ms) = true.
Proof.
  unfold key_taken. rewrite existsb_app. revert i k. induction ms as [|m0 ms IH]; intros i k Hk Hr; [done|]. cbn [new_jobs].
  destruct k as [|k]; cbn in Hk.
  - injection Hk as ->. rewrite Hr, Nat.add_0_r. cbn [orb].
    destruct (key_taken (settle_key b i) (jobs (job_db db))) eqn:E; unfold key_taken in E; rewrite E; [done|].
    cbn [app existsb]. assert (has_key (settle_key b i) (settle_job gen now db b i m) = true) as ->; [|done].
    unfold has_key. by rewrite bool_decide_true.
  - specialize (IH (S i) k Hk Hr). rewrite existsb_app. replace (S i + k)%nat with (i + S k)%nat in IH by lia.
    apply orb_true_iff in IH as [->| ->]; [done|]. by rewrite !orb_true_r.
Qed.

Lemma new_jobs_none gen now db b i ms :
  (forall k m, ms !! k = Some m -> routed db m = false -> key_taken (settle_key b (i + k)) (jobs (job_db db)) = true) ->
  new_jobs gen now db b i ms = [].
Proof.
  revert i. induction ms as [|m ms IH]; intros i H; [done|]. cbn [new_jobs]. rewrite IH.
  - destruct (routed db m) eqn:Er; [done|]. specialize (H 0%nat m eq_refl Er). rewrite Nat.add_0_r in H. by rewrite H.
  - intros k m' Hk Hr. replace (S i + k)%nat with (i + S k)%nat by lia. by apply (H (S k) m').
Qed.

Lemma dispatch gen now b db : Inj (=) (=) gen -> ids_fresh gen 0 db ->
  exists db', queueSettlementJobs gen now b db = (db', Ok tt) /\
    jobs (job_db db') = (jobs (job_db db) ++ new_jobs gen now db b 0 (matches_json b))%list /\
    mpc_intents db' = mpc_intents db /\ rfq_intents db' = rfq_intents db /\
    Forall (fun r => batch_id r = batch_id b -> settlement_status r = if forallb (routed db) (matches_json b) then "rfq_routed" else "queued")
      (mpc_batches db').
Proof.
  intros Hg Hf. unfold queueSettlementJobs.
  destruct (settle_loop_ok gen now b 0 (matches_json b) 0 db Hg Hf) as (db' & n & -> & Hj & -> & HI & HR & HB). cbn [Nat.add].
  eexists. split; [reflexivity|]. split_and!; [exact Hj|exact HI|exact HR|]. cbn [set_settlement mpc_batches set_batches].
  apply Forall_map, list.Forall_forall. intros r _. case_bool_decide as Hid; [|done]. intros _. cbn [settlement_status].
  clear. induction (matches_json b) as [|m ms IH]; [done|]. cbn. by destruct (routed db m).
Qed.

(** ** Examples *)

Definition toy_batch_row : BatchRow :=
  {| batch_id := "b1"; session_id := "s1"; batch_hash := "h"; match_count := 2; matches_json := [toy_match "x" "y"; toy_match "p" "q"];
     signatures_json := []; settlement_status := "pending"; b_created_at := 1 |}.

Definition toy_mpc_db : MpcDb :=
  {| mpc_batches := [toy_batch_row]; mpc_batch_signatures := []; mpc_sessions := [{| sn_id := "s1"; sn_status := "open"; sn_match_count := 0 |}];
     mpc_intents := [{| intent_id := "x"; note_nullifier := "n"; note_commitment := "c"; recipient_commitment := "r"; ir_status := "pending";
                        matched_with := None |}];
     rfq_intents := ["q"]; job_db := emptyDb |}.

Definition toy_gen (p : string) (i : nat) : string := p +:+ toString (Z.of_nat i).

Lemma toy_gen_inj : Inj (=) (=) (toy_gen "job-").
Proof. intros i k E. unfold toy_gen in E. cbn in E. injection E as E. apply toString_inj in E. lia. Qed.
Lemma toy_gen_inj2 : Inj (=) (=) (toy_gen "again-").
Proof. intros i k E. unfold toy_gen in E. cbn in E. injection E as E. apply toString_inj in E. lia. Qed.

(** ** Properties *)

(** Settlement dispatch is exactly-once and respects the RFQ boundary:
    dispatching a batch adds precisely one relayer job for each match neither of
    whose intents belongs to an RFQ and that has no job yet, and none for the
    others; the batch's status says whether anything was left to this path; and
    dispatching the same batch again, as after a crash before the status
    update, adds no job. *)
Theorem settlement_dispatch_exactly_once (gen gen' : nat -> string) (now now' : Z) (b : BatchRow) (db : MpcDb) :
  Inj (=) (=) gen -> ids_fresh gen 0 db -> Inj (=) (=) gen' ->
  exists db', queueSettlementJobs gen now b db = (db', Ok tt) /\
    jobs (job_db db') = (jobs (job_db db) ++ new_jobs gen now db b 0 (matches_json b))%list /\
    Forall (fun r => batch_id r = batch_id b -> settlement_status r = if forallb (routed db) (matches_json b) then "rfq_routed" else "queued")
      (mpc_batches db') /\
    (ids_fresh gen' 0 db' -> exists db'', queueSettlementJobs gen' now' b db' = (db'', Ok tt) /\ jobs (job_db db'') = jobs (job_db db')).
Proof.
  intros Hg Hf Hg'. destruct (dispatch gen now b db Hg Hf) as (db' & Hq & Hj & HI & HR & HS). exists db'. split_and!; try done.
  intros Hf'. destruct (dispatch gen' now' b db' Hg' Hf') as (db'' & Hq' & Hj' & _). exists db''. split; [done|].
  rewrite Hj', new_jobs_none; [by rewrite app_nil_r|]. intros k m Hk Hr. rewrite Hj.
  apply (new_jobs_cover gen now db b 0 (matches_json b) k m Hk). unfold routed, isRfqRouted in *. by rewrite HR in Hr.
Qed.

Lemma settlement_dispatch_exactly_once_witness :
  exists db', queueSettlementJobs (toy_gen "job-") 5 toy_batch_row toy_mpc_db = (db', Ok tt) /\
    jobs (job_db db') = (jobs (job_db toy_mpc_db) ++ new_jobs (toy_gen "job-") 5 toy_mpc_db toy_batch_row 0 (matches_json toy_batch_row))%list /\
    Forall (fun r => batch_id r = batch_id toy_batch_row ->
              settlement_status r = if forallb (routed toy_mpc_db) (matches_json toy_batch_row) then "rfq_routed" else "queued")
      (mpc_batches db') /\
    (ids_fresh (toy_gen "again-") 0 db' -> exists db'', queueSettlementJobs (toy_gen "again-") 6 toy_batch_row db' = (db'', Ok tt) /\
       jobs (job_db db'') = jobs (job_db db')).
Proof.
  apply (settlement_dispatch_exactly_once (toy_gen "job-") (toy_gen "again-") 5 6 toy_batch_row toy_mpc_db toy_gen_inj).
  - intros k _. cbn. apply not_elem_of_nil.
  - exact toy_gen_inj2.
Defined.

(** A batch without matches is filed as RFQ-routed. *)
Lemma empty_batch_marked_routed gen now b db : matches_json b = [] ->
  queueSettlementJobs gen now b db = (set_settlement (batch_id b) "rfq_routed" db, Ok tt).
Proof. intros E. unfold queueSettlementJobs. by rewrite E. Qed.
