(* ===== verification/CommitteeService.v ===== *)
(** The committee's servers around the matching rounds of [Rounds]
    (apps/mpc-committee/src/server.ts, coordinator-server.ts): start-up and node
    list, read-only routes, external verification of batches, and the match
    route and timer with their persistence, followed by the settler.

    The service is the committee's memory beside the database, [None] when
    [DATABASE_URL] is not set.  A round with its persistence is one step: the
    in-process round awaits nothing, and no other writer of mpc_batches exists. *)

From S2P Require Import Prelude Text Json Committee Matching Rounds Queue Settler.
Local Open Scope string_scope.
Local Open Scope Z_scope.

(** ** Start-up of the networked coordinator *)

Record NodeEndpoint := { ne_nodeId : string; url : string }.

Definition parse_pair (pair : string) : result NodeEndpoint :=
  let parts := split_on "=" pair in
  let nodeId := default "" (parts !! 0%nat) in
  let u := default "" (parts !! 1%nat) in
  throw_if bool_decide (nodeId = "") || bool_decide (u = "")
    with "invalid MPC_NODE_URLS entry: " +:+ String dq (pair +:+ String dq " (expected nodeId=url)") in
  Ok {| ne_nodeId := trim nodeId; url := trim u |}.

Definition parseNodeUrls (spec : string) : result (list NodeEndpoint) := rmap parse_pair (split_on "," spec).

Definition response_ok (status : Z) : bool := (200 <=? status) && (status <=? 299).

(** [get] is the answer to [GET url/info]: a thrown error, or a status and the
    decoded body.  [Promise.all] rejects as soon as one request fails; of
    several failures the first of the list is named here. *)
Definition fetchCommitteeInfo (get : NodeEndpoint -> result (Z * CommitteeNodeInfo)) (endpoints : list NodeEndpoint)
    : result (list CommitteeNodeInfo) :=
  rmap (fun n => let! r := get n in
                 throw_if negb (response_ok r.1) with "node " +:+ ne_nodeId n +:+ " /info failed: " +:+ toString r.1 in
                 Ok r.2) endpoints.

Definition required (name hint : string) (env : list (string * string)) : result string :=
  let v := default "" (jget name env) in
  throw_if bool_decide (v = "") with name +:+ hint in Ok v.

(** What the module holds once it is loaded. *)
Record Coordinator := { endpoints : list NodeEndpoint; internal_token : string; committee : list CommitteeNodeInfo }.

Definition coordinator_boot (env : list (string * string)) (get : NodeEndpoint -> result (Z * CommitteeNodeInfo)) : result Coordinator :=
  let! spec := required "MPC_NODE_URLS"
    " is required, e.g. node-1=http://localhost:8091,node-2=...,node-3=..." env in
  let! eps := parseNodeUrls spec in
  let! token := required "MPC_INTERNAL_TOKEN" " is required — authenticates this coordinator to every node" env in
  let! infos := fetchCommitteeInfo get eps in
  Ok {| endpoints := eps; internal_token := token; committee := infos |}.

Section Service.
Context {N : Nacl}.

(** ** Reading *)

(** The body of GET /v1/mpc/sessions/:sessionId. *)
Record SessionView := {
  sv_sessionId : string; sv_status : string; intentCount : nat; sv_startedAt : Z; sv_signedBatch : option SignedMatchBatch }.

Definition get_session (id : string) (c : CommitteeState) : reply SessionView :=
  match getSession id c with
  | None => Refuse 404 "session not found"
  | Some s => Reply {| sv_sessionId := sessionId s; sv_status := status_name (status s); intentCount := length (intents s);
                       sv_startedAt := startedAt s; sv_signedBatch := signedBatch s |}
  end.

(** POST /v1/mpc/verify; [None] for a body without a batch. *)
Record Verdict := { valid : bool; nodeCount : nat; sigCount : nat }.

Definition verify_batch (infos : list CommitteeNodeInfo) (batch : option SignedMatchBatch) : reply (result Verdict) :=
  match batch with
  | None => Refuse 400 "batch required"
  | Some b => Reply (let! v := verifySignedBatch b infos in
                     Ok {| valid := v; nodeCount := length infos; sigCount := length (signatures b) |})
  end.

(** ** Matching and persisting *)

Definition service : Type := CommitteeState * option MpcDb.
Definition round_fn : Type := SessionState -> SessionState * result CoordinatorResult.

(** [if (result.ok && dbPool) await persistSignedBatch(...)] *)
Definition persist_outcome (sid : string) (now : Z) (r : result CoordinatorResult) (d : option MpcDb)
    : option MpcDb * result CoordinatorResult :=
  match r, d with
  | Ok (Matched batch), Some db =>
      let '(db, p) := persistSignedBatch sid batch now db in
      (Some db, match p with Ok _ => r | Err e => Err e end)
  | _, _ => (d, r)
  end.

(** POST /v1/mpc/sessions/:sessionId/match *)
Definition match_route (round : round_fn) (now : Z) (id : string) (w : service) : service * reply (result CoordinatorResult) :=
  match getSession id w.1 with
  | None => (w, Refuse 404 "session not found")
  | Some s =>
      if negb (is_open s) then (w, Reply (Ok (NotMatched ("session already in status '" +:+ status_name (status s) +:+ "'"))))
      else
        let '(s', r) := round s in
        let '(d, r) := persist_outcome (sessionId s) now r w.2 in
        ((put_session s' w.1, d), Reply r)
  end.

(** One tick of the timer.  The interval's callback has no [try]: an error of
    the round or of the database ends the tick. *)
Fixpoint timer_sweep (round : round_fn) (now : Z) (open : list string) (w : service) : service * result unit :=
  match open with
  | [] => (w, Ok tt)
  | id :: open =>
      match getSession id w.1 with
      | None => timer_sweep round now open w
      | Some s =>
          if (length (intents s) <? 2)%nat then timer_sweep round now open w
          else
            let '(s', r) := round s in
            let '(d, r) := persist_outcome (sessionId s) now r w.2 in
            let w := (put_session s' w.1, d) in
            match r with Err e => (w, Err e) | Ok _ => timer_sweep round now open w end
      end
  end.

Definition timer_tick (round : round_fn) (now : Z) (w : service) : service * result unit :=
  timer_sweep round now (map sessionId (getOpenSessions w.1)) w.

(** ** The service and the settler together *)

(** A step of the service's memory and database.  Other programs write to the
    database too: the API inserts sessions, intents and jobs of its own, workers
    change jobs; none writes mpc_batches or enqueues a settlement. *)
Definition is_settlement (j : ServiceJob) : Prop := job_type j = "MPC_SETTLE_SUBMIT".

Definition others_write (d d' : MpcDb) : Prop :=
  mpc_batches d' = mpc_batches d /\
  (forall j', j' ∈ jobs (job_db d') -> is_settlement j' -> exists j, j ∈ jobs (job_db d) /\ is_settlement j /\ payload j = payload j').

Inductive service_step (nodes : list CommitteeNodeKeyPair) (c : CommitteeState) (d : MpcDb) : CommitteeState -> MpcDb -> Prop :=
| sv_intent i now : service_step nodes c d (post_intent (length nodes) i now c).1 d
| sv_share node intent e : service_step nodes c d (post_share node intent e c).1 d
| sv_match id uuid now c' d' r : match_route (fun s => runMatchingRound s nodes uuid) now id (c, Some d) = ((c', Some d'), r) ->
    service_step nodes c d c' d'
| sv_timer (uuid : SessionState -> string) now c' d' r :
    timer_tick (fun s => runMatchingRound s nodes (uuid s)) now (c, Some d) = ((c', Some d'), r) -> service_step nodes c d c' d'
| sv_settler gen now : service_step nodes c d c (settler_round gen now d)
| sv_others d' : others_write d d' -> service_step nodes c d c d'
| sv_restart : service_step nodes c d newCommitteeState d.

Inductive service_reaches (nodes : list CommitteeNodeKeyPair) : CommitteeState -> MpcDb -> Prop :=
| reach_start d : mpc_batches d = [] -> Forall (fun j => ~ is_settlement j) (jobs (job_db d)) -> service_reaches nodes newCommitteeState d
| reach_step c d c' d' : service_reaches nodes c d -> service_step nodes c d c' d' -> service_reaches nodes c' d'.

(** A batch the committee signed. *)
Definition signed_by (nodes : list CommitteeNodeKeyPair) (b : SignedMatchBatch) : Prop :=
  batchHash b = computeBatchHash (batchId b) (matches b) /\ verifySignedBatch b (map nodePublicInfo nodes) = Ok true.

(** A stored row read back as a batch. *)
Definition row_batch (r : BatchRow) : SignedMatchBatch :=
  {| batchId := batch_id r; sb_sessionId := session_id r; matches := matches_json r; batchHash := batch_hash r; signatures := signatures_json r |}.

Definition row_signed (nodes : list CommitteeNodeKeyPair) (r : BatchRow) : Prop := signed_by nodes (row_batch r).

(** A settlement payload taken from a match of a batch the committee signed. *)
Definition settles_signed (nodes : list CommitteeNodeKeyPair) (p : json) : Prop :=
  exists b i m d, row_signed nodes b /\ matches_json b !! i = Some m /\ p = settle_payload d b i m.

Definition job_signed (nodes : list CommitteeNodeKeyPair) (j : ServiceJob) : Prop := is_settlement j -> settles_signed nodes (payload j).

Record db_signed (nodes : list CommitteeNodeKeyPair) (d : MpcDb) : Prop := {
  rows_signed : Forall (row_signed nodes) (mpc_batches d);
  jobs_signed : Forall (job_signed nodes) (jobs (job_db d)) }.

(** *** Rounds *)

Lemma round_signed {NL : NaclLaws N} nodes s uuid s' b : committee_ok nodes ->
  runMatchingRound s nodes uuid = (s', Ok (Matched b)) -> signed_by nodes b.
Proof.
  intros (Hok & _ & _ & _ & Hsig). unfold runMatchingRound. intros H. destruct (length (intents s) <? 2)%nat; [done|].
  destruct (decrypt_nodes nodes _) as [sh [r|]]; [done|]. destruct (reconstruct_all _ _ _ _) as [l|r|r]; [|done..].
  destruct (sign_all uuid (matchIntents l) nodes) as [sigs|e] eqn:Es; [|done]. injection H as _ <-. split; [done|].
  apply (quorum_batch_accepted _ _ _ _ nodes nodes); try done. pose proof (ceil_two_thirds_spec (length nodes)). lia.
Qed.

(** *** Persisting keeps the tables signed *)

Lemma mark_matched_keeps a b d : let d' := (mark_matched a b d).1 in mpc_batches d' = mpc_batches d /\ job_db d' = job_db d.
Proof. unfold mark_matched. by destruct (_ && _). Qed.

Lemma mark_all_keeps ms d : let d' := (mark_all ms d).1 in mpc_batches d' = mpc_batches d /\ job_db d' = job_db d.
Proof.
  revert d. induction ms as [|m ms IH]; intros d; [done|]. cbn [mark_all].
  pose proof (mark_matched_keeps (intentAId m) (intentBId m) d) as [E1 E2]. destruct (mark_matched _ _ d) as [d1 [u|e]]; [|done].
  pose proof (mark_matched_keeps (intentBId m) (intentAId m) d1) as [E3 E4]. destruct (mark_matched _ _ d1) as [d2 [u2|e]]; cbn in *.
  - destruct (IH d2) as [E5 E6]. split; congruence.
  - split; congruence.
Qed.

Lemma insert_signatures_keep b sigs d : let d' := fold_left (insert_signature b) sigs d in
  mpc_batches d' = mpc_batches d /\ job_db d' = job_db d.
Proof.
  revert d. induction sigs as [|s sigs IH]; intros d; [done|]. cbn [fold_left]. destruct (IH (insert_signature b d s)) as [E1 E2].
  cbn zeta. rewrite E1, E2. unfold insert_signature. by destruct (existsb _ _).
Qed.

Lemma persist_signed nodes sid b now d : signed_by nodes b -> db_signed nodes d -> db_signed nodes (persistSignedBatch sid b now d).1.
Proof.
  intros Hb [Hr Hj]. unfold persistSignedBatch, insert_batch.
  set (d1 := set_batches _ d). assert (db_signed nodes d1) as H1.
  { split; [|done]. cbn. apply Forall_app. split; [done|]. apply Forall_singleton. by destruct b. }
  assert (forall d0, db_signed nodes d0 -> db_signed nodes (mark_all (matches b)
            (close_session sid (Z.of_nat (length (matches b))) (fold_left (insert_signature (batchId b)) (signatures b) d0))).1) as Hm.
  { intros d0 [Hr0 Hj0]. destruct (mark_all_keeps (matches b) (close_session sid (Z.of_nat (length (matches b)))
      (fold_left (insert_signature (batchId b)) (signatures b) d0))) as [E1 E2].
    destruct (insert_signatures_keep (batchId b) (signatures b) d0) as [E3 E4].
    split; [by rewrite E1; cbn; rewrite E3|by rewrite E2; cbn; rewrite E4]. }
  destruct (existsb _ (mpc_batches d)); [by apply Hm; split|]. destruct (negb _); [by split|]. by apply Hm.
Qed.

(** *** Settling enqueues only signed matches *)

Lemma enqueue_jobs q ty pl key id now db j : j ∈ jobs (enqueue q ty pl key id now db).1 ->
  j ∈ jobs db \/ (job_type j = ty /\ payload j = pl).
Proof.
  unfold enqueue, enqueue_insert. destruct (enqueue_lookup key db); [by left|]. destruct (existsb _ _); [by left|].
  cbn [fst event jobs]. intros [H|H%list_elem_of_singleton]%elem_of_app; [by left|right; by subst j].
Qed.

Lemma settle_loop_signed nodes gen now b i ms n d : row_signed nodes b -> (forall k m, ms !! k = Some m -> matches_json b !! (i + k)%nat = Some m) ->
  db_signed nodes d -> let d' := (settle_loop gen now b i ms n d).1 in db_signed nodes d' /\ mpc_batches d' = mpc_batches d.
Proof.
  intros Hb. revert i n d. induction ms as [|m ms IH]; intros i n d Hm [Hr Hj]; [done|]. cbn [settle_loop].
  assert (forall k m', ms !! k = Some m' -> matches_json b !! (S i + k)%nat = Some m') as Hm'.
  { intros k m' Hk. replace (S i + k)%nat with (i + S k)%nat by lia. by apply Hm. }
  destruct (routed d m); [by apply IH|].
  pose proof (fun j => enqueue_jobs relayer "MPC_SETTLE_SUBMIT" (settle_payload d b i m) (Some (settle_key b i)) (gen i) now (job_db d) j) as Hq.
  destruct (enqueue _ _ _ _ _ _ (job_db d)) as [jd r]. cbn [fst] in Hq.
  assert (db_signed nodes (set_jobs jd d)) as Hd.
  { split; [done|]. cbn. apply list.Forall_forall. intros j' [Hin|[_ Hp]]%Hq; [by apply (proj1 (list.Forall_forall _ _) Hj)|].
    intros _. exists b, i, m, d. split_and!; try done. specialize (Hm 0%nat m eq_refl). by rewrite Nat.add_0_r in Hm. }
  destruct r as [j|e].
  - destruct (IH (S i) (S n) (set_jobs jd d) Hm' Hd) as [? ->]. done.
  - done.
Qed.

Lemma set_settlement_signed nodes id st d : db_signed nodes d -> db_signed nodes (set_settlement id st d).
Proof.
  intros [Hr Hj]. split; [|done]. cbn. apply Forall_map. eapply list.Forall_impl; [exact Hr|]. intros r Hs. by case_bool_decide.
Qed.

Lemma settle_all_signed nodes gen now bs d : Forall (row_signed nodes) bs -> db_signed nodes d -> db_signed nodes (settle_all gen now bs d).1.
Proof.
  intros Hb. revert d. induction Hb as [|b bs Hs _ IH]; intros d Hd; [done|]. cbn [settle_all]. unfold queueSettlementJobs.
  pose proof (settle_loop_signed nodes (gen (batch_id b)) now b 0 (matches_json b) 0 d Hs (fun _ _ E => E) Hd) as [Hl _].
  destruct (settle_loop _ _ b 0 _ 0 d) as [d' [n|e]]; [|done]. apply IH. by apply set_settlement_signed.
Qed.

Lemma firstn_sub {A} n (l : list A) x : x ∈ firstn n l -> x ∈ l.
Proof. rewrite <- (firstn_skipn n l) at 2. intros H. apply elem_of_app. by left. Qed.

Lemma pending_rows d r : r ∈ pending_batches d -> r ∈ mpc_batches d.
Proof.
  unfold pending_batches. intros H%firstn_sub. rewrite js_sort_perm in H. apply list_elem_of_In, filter_In in H as [H _].
  by apply list_elem_of_In.
Qed.

Lemma NoDup_map_filter {A} (f : A -> string) (p : A -> bool) l : NoDup (map f l) -> NoDup (map f (List.filter p l)).
Proof.
  induction l as [|a l IH]; [done|]. cbn [map List.filter]. intros [Hni Hnd]%list.NoDup_cons. destruct (p a); [|by apply IH].
  cbn [map]. apply list.NoDup_cons. split; [|by apply IH]. intros (x & E & Hx)%elem_of_map_iff. apply Hni. fold (map f l).
  rewrite <- E. apply elem_of_map_iff. exists x. split; [done|]. apply list_elem_of_In, filter_In in Hx as [Hx _]. by apply list_elem_of_In.
Qed.

Lemma pending_ids d : NoDup (map batch_id (mpc_batches d)) -> NoDup (map batch_id (pending_batches d)).
Proof.
  intros H. apply (NoDup_map_filter batch_id (fun b => bool_decide (settlement_status b = "pending"))) in H. unfold pending_batches.
  set (l := List.filter _ _) in *. assert (NoDup (map batch_id (js_sort older l))) as Hs by (by rewrite js_sort_perm).
  rewrite <- (firstn_skipn 50 (js_sort older l)), map_app in Hs. by apply list.NoDup_app in Hs as [? _].
Qed.

Lemma settler_signed nodes gen now d : db_signed nodes d -> db_signed nodes (settler_round gen now d).
Proof.
  intros Hd. unfold settler_round, settleOnce. pose proof (settle_all_signed nodes gen now (pending_batches d) d) as H.
  destruct (settle_all gen now (pending_batches d) d) as [d' [n|e]]; apply H; try done; apply list.Forall_forall;
    intros r Hr%pending_rows; by apply (proj1 (list.Forall_forall _ _) (rows_signed _ _ Hd)).
Qed.

(** *** The invariant of the service *)

Definition service_inv (nodes : list CommitteeNodeKeyPair) (c : CommitteeState) (d : MpcDb) : Prop :=
  committee_inv nodes c /\ db_signed nodes d.

Lemma persist_outcome_signed {NL : NaclLaws N} nodes s uuid sid now d s' r : committee_ok nodes ->
  runMatchingRound s nodes uuid = (s', r) -> db_signed nodes d ->
  exists d' r', persist_outcome sid now r (Some d) = (Some d', r') /\ db_signed nodes d'.
Proof.
  intros Hc Hr Hd. destruct r as [[b|reason]|e]; [|by eexists _, _..]. cbn [persist_outcome].
  pose proof (persist_signed nodes sid b now d (round_signed nodes s uuid s' b Hc Hr) Hd) as Hp.
  destruct (persistSignedBatch sid b now d) as [d' p]. by eexists _, _.
Qed.

Lemma timer_inv {NL : NaclLaws N} nodes (uuid : SessionState -> string) now open c d : committee_ok nodes -> service_inv nodes c d ->
  exists c' d' r, timer_sweep (fun s => runMatchingRound s nodes (uuid s)) now open (c, Some d) = ((c', Some d'), r) /\ service_inv nodes c' d'.
Proof.
  intros Hc. revert c d. induction open as [|id open IH]; intros c d [HI Hd]; cbn [timer_sweep fst snd]; [by exists c, d, (Ok tt)|].
  destruct (getSession id c) as [s|] eqn:Eg; [|by apply IH]. destruct (length (intents s) <? 2)%nat; [by apply IH|].
  pose proof (round_inv nodes c id s (uuid s) Hc HI Eg) as HI'. destruct (runMatchingRound s nodes (uuid s)) as [s' r] eqn:Er.
  destruct (persist_outcome_signed nodes s (uuid s) (sessionId s) now d s' r Hc Er Hd) as (d' & r' & -> & Hd').
  destruct r' as [x|e]; [by apply IH|]. by exists (put_session s' c), d', (Err e).
Qed.

Lemma match_inv {NL : NaclLaws N} nodes id uuid now c d : committee_ok nodes -> service_inv nodes c d ->
  exists c' d' r, match_route (fun s => runMatchingRound s nodes uuid) now id (c, Some d) = ((c', Some d'), r) /\ service_inv nodes c' d'.
Proof.
  intros Hc [HI Hd]. unfold match_route. cbn [fst snd]. destruct (getSession id c) as [s|] eqn:Eg; [|by eexists _, _, _].
  destruct (negb (is_open s)); [by eexists _, _, _|].
  pose proof (round_inv nodes c id s uuid Hc HI Eg) as HI'. destruct (runMatchingRound s nodes uuid) as [s' r] eqn:Er.
  destruct (persist_outcome_signed nodes s uuid (sessionId s) now d s' r Hc Er Hd) as (d' & r' & -> & Hd'). by eexists _, _, _.
Qed.

Lemma service_reachable_inv {NL : NaclLaws N} nodes c d : committee_ok nodes -> service_reaches nodes c d -> service_inv nodes c d.
Proof.
  intros Hc. induction 1 as [d Hb Hj|c d c' d' _ [HI Hd] Hs].
  - split; [apply (reachable_inv nodes _ Hc); by apply rtc_refl|]. split; [by rewrite Hb|].
    eapply list.Forall_impl; [exact Hj|]. intros j Hn Ht. by destruct (Hn Ht).
  - destruct Hs as [i now|node intent e|id uuid now c' d' r E|uuid now c' d' r E|gen now|d' [Eb Ho]|].
    + split; [|done]. eapply step_inv; [done..|apply step_intent].
    + split; [|done]. eapply step_inv; [done..|apply step_share].
    + destruct (match_inv nodes id uuid now c d Hc (conj HI Hd)) as (c1 & d1 & r1 & E1 & H1). rewrite E in E1. by injection E1 as <- <- <-.
    + destruct (timer_inv nodes uuid now (map sessionId (getOpenSessions c)) c d Hc (conj HI Hd)) as (c1 & d1 & r1 & E1 & H1).
      unfold timer_tick in E. cbn [fst] in E. rewrite E in E1. by injection E1 as <- <- <-.
    + split; [done|]. by apply settler_signed.
    + split; [done|]. destruct Hd as [Hr Hj]. split; [by rewrite Eb|]. apply list.Forall_forall. intros j' Hin Ht.
      destruct (Ho j' Hin Ht) as (j & Hj' & Hjt & <-). by apply (proj1 (list.Forall_forall _ _) Hj).
    + split; [|done]. apply (reachable_inv nodes _ Hc). by apply rtc_refl.
Qed.

(** *** What a settler round leaves behind *)

(** Row ids drawn for different batches or matches differ, and none is taken. *)
Definition draws_fresh (gen : string -> nat -> string) (d : MpcDb) : Prop :=
  (forall b i b' i', gen b i = gen b' i' -> b = b' /\ i = i') /\ forall b i, gen b i ∉ map job_id (jobs (job_db d)).

Definition queued_for (b : BatchRow) (i : nat) (d : MpcDb) : Prop := key_taken (settle_key b i) (jobs (job_db d)) = true.

Lemma key_taken_app k l l' : key_taken k l = true -> key_taken k (l ++ l') = true.
Proof. unfold key_taken. intros H. by rewrite existsb_app, H. Qed.

Lemma new_jobs_ids gen now d b i ms x : x ∈ map job_id (new_jobs gen now d b i ms) -> exists k, x = gen k.
Proof.
  revert i. induction ms as [|m ms IH]; intros i; cbn [new_jobs]; [by intros ?%elem_of_nil|]. rewrite map_app.
  intros [Hx|Hx]%elem_of_app; [|by apply (IH (S i))].
  destruct (_ || _); cbn in Hx; [by apply elem_of_nil in Hx|]. apply list_elem_of_singleton in Hx. by exists i.
Qed.

Lemma settle_all_covers gen now bs d : (forall b i b' i', gen b i = gen b' i' -> b = b' /\ i = i') -> NoDup (map batch_id bs) ->
  (forall b i, b ∈ bs -> gen (batch_id b) i ∉ map job_id (jobs (job_db d))) ->
  exists d' l, settle_all gen now bs d = (d', Ok tt) /\ jobs (job_db d') = (jobs (job_db d) ++ l)%list /\
    forall b i m, b ∈ bs -> matches_json b !! i = Some m -> routed d m = false -> queued_for b i d'.
Proof.
  intros Hg. revert d. induction bs as [|b bs IH]; intros d Hnd Hf.
  { exists d, []. rewrite app_nil_r. split_and!; try done. intros b i m H. by apply elem_of_nil in H. }
  apply list.NoDup_cons in Hnd as [Hni Hnd]. cbn [settle_all].
  assert (Inj (=) (=) (gen (batch_id b))) as Hinj by (intros i k E; by destruct (Hg _ _ _ _ E)).
  destruct (dispatch (gen (batch_id b)) now b d Hinj) as (d1 & Hq & Hj & HI & HR & _).
  { intros k _. apply Hf. apply elem_of_cons. by left. }
  rewrite Hq. destruct (IH d1 Hnd) as (d2 & l & Hs & Hj2 & Hc).
  { intros b' i Hb'. rewrite Hj, map_app. intros [Hx|Hx]%elem_of_app; [apply (Hf b' i); [|done]; apply elem_of_cons; by right|].
    apply new_jobs_ids in Hx as [k E]. apply Hg in E as [E _]. apply Hni. fold (map batch_id bs). rewrite <- E. apply elem_of_map_iff. by exists b'. }
  exists d2, (new_jobs (gen (batch_id b)) now d b 0 (matches_json b) ++ l)%list.
  split_and!; [done|by rewrite Hj2, Hj, app_assoc|]. intros b' i m [->|Hb']%elem_of_cons Hm Hr.
  - unfold queued_for. rewrite Hj2. apply key_taken_app. rewrite Hj. by apply (new_jobs_cover (gen (batch_id b)) now d b 0 (matches_json b) i m).
  - apply (Hc b' i m Hb' Hm). unfold routed, isRfqRouted in *. by rewrite HR.
Qed.

Lemma persist_inserts sid b now d d' : batchId b ∉ map batch_id (mpc_batches d) -> persistSignedBatch sid b now d = (d', Ok tt) ->
  exists r, mpc_batches d' = (mpc_batches d ++ [r])%list /\ batch_id r = batchId b /\ matches_json r = matches b /\ settlement_status r = "pending".
Proof.
  intros Hn. unfold persistSignedBatch, insert_batch.
  destruct (existsb _ (mpc_batches d)) eqn:Ee.
  { apply existsb_exists in Ee as (r & Hin & Hr%bool_decide_eq_true). destruct Hn. rewrite <- Hr. apply elem_of_map_iff. exists r.
    split; [done|]. by apply list_elem_of_In. }
  destruct (negb _); [done|]. set (d1 := set_batches _ d). intros H.
  destruct (mark_all_keeps (matches b) (close_session sid (Z.of_nat (length (matches b)))
      (fold_left (insert_signature (batchId b)) (signatures b) d1))) as [E1 _].
  destruct (insert_signatures_keep (batchId b) (signatures b) d1) as [E2 _]. cbn [fst] in E1. rewrite H in E1. cbn [fst] in E1.
  eexists. split; [rewrite E1; cbn [close_session mpc_batches set_sessions]; rewrite E2; reflexivity|done].
Qed.

Lemma match_route_persists round now id c d c' d' b : match_route round now id (c, Some d) = ((c', Some d'), Reply (Ok (Matched b))) ->
  exists s s', getSession id c = Some s /\ round s = (s', Ok (Matched b)) /\ persistSignedBatch (sessionId s) b now d = (d', Ok tt).
Proof.
  unfold match_route. cbn [fst snd]. destruct (getSession id c) as [s|]; [|done]. destruct (negb (is_open s)); [done|].
  destruct (round s) as [s' [[b'|e]|e]] eqn:Er; cbn [persist_outcome]; [|done..].
  destruct (persistSignedBatch _ b' now d) as [d1 [[]|e]] eqn:Ep; [|done]. intros [= _ <- <-]. by exists s, s'.
Qed.

End Service.

(** ** Node list and committee *)

(** A node id or url without separators. *)
Definition plain_char (c : ascii) : bool := negb (Ascii.eqb c ",") && negb (Ascii.eqb c "=") && negb (is_ws c).
Definition plain (s : string) : Prop := s <> "" /\ str_forall plain_char s = true.

Definition endpoint_text (e : NodeEndpoint) : string := ne_nodeId e +:+ String "=" (url e).
Definition endpoints_text (l : list NodeEndpoint) : string := join "," (map endpoint_text l).

Lemma str_forall_impl (f g : ascii -> bool) s : (forall c, f c = true -> g c = true) -> str_forall f s = true -> str_forall g s = true.
Proof. intros H. induction s as [|c s IH]; [done|]. cbn [str_forall]. intros [Hc Hs]%andb_prop. by rewrite H, IH. Qed.

Lemma split_on_none c s : str_forall (fun a => negb (Ascii.eqb a c)) s = true -> split_on c s = [s].
Proof. induction s as [|a s IH]; [done|]. cbn [str_forall split_on]. intros [Ha%negb_true_iff Hs]%andb_prop. by rewrite Ha, IH. Qed.

Lemma split_on_app c s t : str_forall (fun a => negb (Ascii.eqb a c)) s = true -> split_on c (s +:+ String c t) = s :: split_on c t.
Proof.
  induction s as [|a s IH]; cbn [str_forall]; [intros _; change ("" +:+ String c t) with (String c t); cbn [split_on]; by rewrite Ascii.eqb_refl|].
  intros [Ha%negb_true_iff Hs]%andb_prop. rewrite sapp_cons. cbn [split_on]. by rewrite Ha, IH.
Qed.

Lemma split_join l : l <> [] -> Forall (fun s => str_forall (fun a => negb (Ascii.eqb a ",")) s = true) l -> split_on "," (join "," l) = l.
Proof.
  induction l as [|s l IH]; [done|]. intros _ HF. apply list.Forall_cons in HF as [Hs Hl]. destruct l as [|t l]; [by apply split_on_none|].
  rewrite join_cons, split_on_app by done. by rewrite IH.
Qed.

Lemma plain_no c s : (forall a, plain_char a = true -> Ascii.eqb a c = false) -> plain s -> str_forall (fun a => negb (Ascii.eqb a c)) s = true.
Proof. intros H [_ Hs]. eapply str_forall_impl; [|exact Hs]. intros a Ha. by rewrite H. Qed.

Lemma plain_facts a : plain_char a = true -> Ascii.eqb a "," = false /\ Ascii.eqb a "=" = false /\ is_ws a = false.
Proof. unfold plain_char. intros [[?%negb_true_iff ?%negb_true_iff]%andb_prop ?%negb_true_iff]%andb_prop. done. Qed.

Lemma plain_trim s : plain s -> trim s = s.
Proof. intros [_ Hs]. apply trim_id. eapply str_forall_impl; [|exact Hs]. intros a (_ & _ & E)%plain_facts. by rewrite E. Qed.

Lemma parse_pair_text e : plain (ne_nodeId e) -> plain (url e) -> parse_pair (endpoint_text e) = Ok e.
Proof.
  intros Hn Hu. unfold parse_pair, endpoint_text. rewrite split_on_app by (apply plain_no; [by intros a (_ & ? & _)%plain_facts|done]).
  rewrite split_on_none by (apply plain_no; [by intros a (_ & ? & _)%plain_facts|done]). cbn [lookup list_lookup default].
  rewrite !bool_decide_false by (by apply Hn || by apply Hu). cbn [orb]. rewrite !plain_trim by done. by destruct e.
Qed.

Lemma node_urls_parse l : l <> [] -> Forall (fun e => plain (ne_nodeId e) /\ plain (url e)) l -> parseNodeUrls (endpoints_text l) = Ok l.
Proof.
  intros Hl H. unfold parseNodeUrls, endpoints_text. rewrite split_join.
  - clear Hl. induction H as [|e l [Hn Hu] _ IH]; [done|]. cbn [map rmap]. by rewrite parse_pair_text, IH.
  - by destruct l.
  - apply Forall_map. eapply list.Forall_impl; [exact H|]. intros e [Hn Hu]. unfold endpoint_text.
    rewrite str_forall_app. cbn [str_forall]. by rewrite !plain_no by (try done; by intros a (? & _)%plain_facts).
Qed.

(** A coordinator started from its printed configuration knows the committee. *)
Lemma boot_learns_committee {N : Nacl} env get l nodes token :
  jget "MPC_NODE_URLS" env = Some (endpoints_text l) -> jget "MPC_INTERNAL_TOKEN" env = Some token -> token <> "" ->
  l <> [] -> Forall (fun e => plain (ne_nodeId e) /\ plain (url e)) l ->
  Forall2 (fun e kp => get e = Ok (200, nodePublicInfo kp)) l nodes ->
  coordinator_boot env get = Ok {| endpoints := l; internal_token := token; committee := map nodePublicInfo nodes |}.
Proof.
  intros Hu Ht Hne Hl Hp Hg. unfold coordinator_boot, required. rewrite Hu, Ht. cbn [default]. unfold id.
  rewrite bool_decide_false; cbn [rbind].
  - rewrite node_urls_parse by done. cbn [rbind]. rewrite bool_decide_false by done. cbn [rbind].
    assert (fetchCommitteeInfo get l = Ok (map nodePublicInfo nodes)) as ->; [|done].
    unfold fetchCommitteeInfo. clear Hl Hu Hp. induction Hg as [|e kp l nodes He _ IH]; [done|]. cbn [map rmap]. rewrite He. cbn [rbind].
    by rewrite IH.
  - destruct l as [|e l]; [done|]. apply list.Forall_cons in Hp as [[[Hn _] _] _]. unfold endpoints_text. cbn [map].
    unfold endpoint_text at 1. destruct (ne_nodeId e); [done|]. by destruct l.
Qed.

(** A batch the committee signed passes the public verification. *)
Lemma signed_batch_verified {N : Nacl} nodes b : signed_by nodes b ->
  verify_batch (map nodePublicInfo nodes) (Some b) =
    Reply (Ok {| valid := true; nodeCount := length nodes; sigCount := length (signatures b) |}).
Proof. intros [_ Hv]. unfold verify_batch. by rewrite Hv, length_map. Qed.

(** A session whose batch could not be stored is lost: it is closed, so neither
    the match route nor the timer persists it again. *)
Lemma closed_session_not_matched round now id w s : getSession id w.1 = Some s -> is_open s = false ->
  match_route round now id w = (w, Reply (Ok (NotMatched ("session already in status '" +:+ status_name (status s) +:+ "'")))).
Proof. intros Hg Ho. unfold match_route. by rewrite Hg, Ho. Qed.

Lemma closed_session_not_swept {N : Nacl} nodes id c s : committee_inv nodes c -> getSession id c = Some s -> is_open s = false ->
  id ∉ map sessionId (getOpenSessions c).
Proof.
  intros HI Hg Ho (t & Et & Hin)%elem_of_map_iff. unfold getOpenSessions in Hin.
  apply list_elem_of_In, filter_In in Hin as [Hin Hto]. apply list_elem_of_In in Hin. pose proof (session_key nodes c t HI Hin) as Hk.
  rewrite Et, Hg in Hk. injection Hk as ->. congruence.
Qed.

(** The networked round keeps whatever signatures the nodes return: one that
    does not verify makes the whole batch fail, however many others do. *)
Lemma unchecked_signature_voids_batch {N : Nacl} s eps decrypts uuid sign s' b sig infos :
  runMatchingRoundRemote s eps decrypts uuid sign = (s', Ok (Matched b)) -> Some sig ∈ sign uuid (matches b) ->
  verifyNodeSignature uuid (matches b) sig <> Ok true -> verifySignedBatch b infos <> Ok true.
Proof.
  unfold runMatchingRoundRemote. intros H Hin Hbad Hv. repeat (case_match; try done). injection H as _ <-. cbn [matches] in *.
  apply verifySignedBatch_iff in Hv as (Hv & _). cbn [signatures batchId matches] in Hv. rewrite list.Forall_forall in Hv.
  destruct (Hv sig) as [_ ?]; [|done]. apply list_elem_of_omap. by exists (Some sig).
Qed.

(** ** Examples *)

Definition toy_db : MpcDb :=
  {| mpc_batches := []; mpc_batch_signatures := []; mpc_sessions := [{| sn_id := "session-7"; sn_status := "open"; sn_match_count := 0 |}];
     mpc_intents := []; rfq_intents := []; job_db := emptyDb |}.
Definition toy_round : round_fn := fun s => runMatchingRound s toy_nodes "batch".
Definition toy_service : service := (fold_left (submit toy_nodes (fun _ => 7)) toy_subs newCommitteeState, Some toy_db).
Definition toy_matched : service := (match_route toy_round 9 "session-7" toy_service).1.
Definition toy_stored : MpcDb := default toy_db toy_matched.2.
Definition toy_draw (b : string) (i : nat) : string := toString (Z.of_nat i) +:+ "-" +:+ b.
Definition toy_settled : MpcDb := settler_round toy_draw 10 toy_stored.
Definition toy_reply : reply (result CoordinatorResult) := (match_route toy_round 9 "session-7" toy_service).2.

Lemma toy_draw_inj b i b' i' : toy_draw b i = toy_draw b' i' -> b = b' /\ i = i'.
Proof.
  unfold toy_draw. intros E. assert (forall z, str_forall (fun c => negb (Ascii.eqb c "-")) (toString (Z.of_nat z)) = true) as Hd.
  { intros z. unfold toString. rewrite (proj2 (Z.ltb_ge _ _)) by lia. destruct (dec_nonneg_spec (Z.of_nat z) ltac:(lia)) as (_ & Hz & _).
    eapply str_forall_impl; [|exact Hz]. intros c Hc. destruct (Ascii.eqb_spec c "-") as [->|]; [by vm_compute in Hc|done]. }
  apply (f_equal (split_on "-")) in E as Es. change ("-" +:+ b) with (String "-" b) in Es. change ("-" +:+ b') with (String "-" b') in Es.
  rewrite !split_on_app in Es by apply Hd. injection Es as Et _. apply toString_inj in Et. split; [|lia].
  rewrite Et in E. clear - E. revert E. generalize (toString (Z.of_nat i')). intros s. induction s as [|c s IH]; cbn; intros E; injection E; auto.
Qed.

(** ** Properties *)


(** No signed match is dropped.  When a match request answers with a batch
    whose id is new, then after one round of the settler, with at most fifty
    batches pending, every match of the batch that does not belong to an RFQ
    has its settlement job in the queue. *)
Theorem signed_matches_are_queued (round : round_fn) (gen : string -> nat -> string) (now now' : Z) (id : string) (c c' : CommitteeState)
    (d d' : MpcDb) (b : SignedMatchBatch) :
  match_route round now id (c, Some d) = ((c', Some d'), Reply (Ok (Matched b))) ->
  NoDup (map batch_id (mpc_batches d)) -> batchId b ∉ map batch_id (mpc_batches d) ->
  (length (List.filter (fun r => bool_decide (settlement_status r = "pending")) (mpc_batches d')) <= 50)%nat -> draws_fresh gen d' ->
  forall i m, matches b !! i = Some m -> routed d' m = false ->
  exists r, batch_id r = batchId b /\ queued_for r i (settler_round gen now' d').
Proof.
  intros Hm Hnd Hnew Hlen [Hg Hf] i m Hi Hr. destruct (match_route_persists _ _ _ _ _ _ _ _ Hm) as (s & s' & _ & _ & Hp).
  destruct (persist_inserts _ _ _ _ _ Hnew Hp) as (r & Hrows & Hid & Hms & Hst). exists r. split; [done|].
  destruct (settle_all_covers gen now' (pending_batches d') d' Hg) as (d2 & l & Hs & _ & Hc).
  - assert (NoDup (map batch_id (mpc_batches d'))) as Hnd'.
    { rewrite Hrows, map_app. apply list.NoDup_app. split_and!; [done| |apply NoDup_singleton].
      intros x Hx Hy. cbn in Hy. apply list_elem_of_singleton in Hy as ->. by rewrite Hid in Hx. }
    by apply pending_ids.
  - intros; apply Hf.
  - unfold settler_round, settleOnce. rewrite Hs. apply (Hc r i m); [|by rewrite Hms|done].
    unfold pending_batches. rewrite firstn_all2 by (by rewrite js_sort_perm). rewrite js_sort_perm. apply list_elem_of_In, filter_In.
    split; [|by apply bool_decide_eq_true]. apply list_elem_of_In. rewrite Hrows. apply elem_of_app. right. by apply list_elem_of_singleton.
Qed.


Lemma signed_matches_are_queued_witness :
  exists b, toy_reply = Reply (Ok (Matched b)) /\ length (matches b) = 1%nat /\
    forall i m, matches b !! i = Some m -> routed toy_stored m = false ->
    exists r, batch_id r = batchId b /\ queued_for r i (settler_round toy_draw 10 toy_stored).
Proof.
  destruct toy_reply as [[[b|e]|e]|n e] eqn:Er; [|by vm_compute in Er..]. exists b. split; [done|].
  split; [vm_compute in Er; injection Er as <-; reflexivity|].
  apply (signed_matches_are_queued toy_round toy_draw 9 10 "session-7" toy_service.1 toy_matched.1 toy_db toy_stored b).
  - unfold toy_reply in Er. rewrite <- Er. vm_compute. reflexivity.
  - constructor.
  - apply not_elem_of_nil.
  - vm_compute. lia.
  - split; [apply toy_draw_inj|]. intros b0 i. apply not_elem_of_nil.
Defined.

(** Two honest nodes out of three sign, the third returns a signature under an
    unknown key: the round succeeds, the batch is rejected everywhere. *)
Definition stray_signature : NodeSignature := {| ns_nodeId := "node-3"; ns_signingPubkey := "00"; signature := "00" |}.
Definition toy_remote : SessionState * result CoordinatorResult :=
  match getSession "session-7" toy_service.1 with
  | None => ({| sessionId := ""; startedAt := 0; status := SFailed; intents := []; shares := []; signedBatch := None |}, Err "")
  | Some s =>
      runMatchingRoundRemote s (map nodeId toy_nodes)
        (map (fun kp => Some {| dr_nodeId := nodeId kp;
                dr_shares := map (fun kv => (kv.1, match decryptShare (en_encryptedShare kv.2) (enc_secretKey kp) with Ok v => v | Err _ => JNull end))
                                 (node_entries (shares s) (nodeId kp)) |}) toy_nodes) "batch"
        (fun b ms => (map (fun kp => match signBatch b ms kp with Ok g => Some g | Err _ => None end) (firstn 2 toy_nodes) ++ [Some stray_signature])%list)
  end.

Lemma stray_signature_voids_batch : exists s b, toy_remote = (s, Ok (Matched b)) /\ status s = SSigned /\
  length (signatures b) = 3%nat /\ verifySignedBatch b (map nodePublicInfo toy_nodes) = Ok false.
Proof. eexists _, _. split_and!; vm_compute; reflexivity. Qed.
