(* ===== verification/Rfq.v ===== *)
(** Requests for quotes (packages/rfq/src/rfq.ts), the simulated remittance
    (remit.ts) and the solver's quote and fill handlers
    (apps/solver/src/server.ts).

    SHA-256, the Stellar key pairs and the string collation of
    [localeCompare] are classes.  Ledger numbers are integers. *)

From S2P Require Import Prelude Text Json.
Local Open Scope string_scope.
Local Open Scope Z_scope.

Class NodeCrypto := {
  sha256_digest : string -> string;
  kp_public : string -> result string;             (** raw key of [Keypair.fromSecret] *)
  kp_sign : string -> string -> result string;     (** secret, message *)
  ed25519_verify : string -> string -> string -> bool   (** key, message, signature *)
}.

Class NodeCryptoLaws (C : NodeCrypto) : Prop := {
  kp_verifies : forall secret pk m sg, kp_public secret = Ok pk -> kp_sign secret m = Ok sg -> ed25519_verify pk m sg = true
}.

Class Collation := { locale_lt : string -> string -> bool }.

Class CollationLaws (L : Collation) : Prop := {
  locale_asym : forall a b, locale_lt a b = true -> locale_lt b a = false;
  locale_ntrans : forall a b c, locale_lt a b = false -> locale_lt b c = false -> locale_lt a c = false
}.

Module Rfq.

Inductive RfqState :=
| INTENT_CREATED | INTENT_ENCRYPTED | INTENT_PUBLISHED_TO_ALLOWED_SOLVERS | QUOTE_RECEIVED | QUOTE_VALIDATED | QUOTE_ACCEPTED
| SOLVER_INVENTORY_LOCKED | FILL_CREATED | FILL_EXECUTED_IF_REQUIRED | PROOF_REQUESTED | PROOF_GENERATED | PROOF_VERIFIED_LOCALLY
| SETTLEMENT_SUBMITTED | SETTLED | FAILED_RECOVERABLE | EXPIRED | CANCELLED.

Inductive AmountMode := exact_in | exact_out | max_in.

Record Intent := {
  user_pubkey_commitment : string; input_asset : string; output_asset : string; amount_mode : AmountMode; amount : string;
  min_output : string; expiry_ledger : Z; allowed_solvers_root : string; compliance_policy_id : string; destination : string }.

Record Quote := {
  quote_id : string; intent_hash : string; solver_id : string; q_input_asset : string; q_output_asset : string; gross_input : string;
  net_output : string; fee : string; valid_until_ledger : Z; solver_inventory_commitment : string }.

Definition mode_name (m : AmountMode) : string := match m with exact_in => "exact_in" | exact_out => "exact_out" | max_in => "max_in" end.

Definition intent_fields (i : Intent) : list (string * json) :=
  [("intent_type", JStr "PRIVATE_RFQ"); ("version", JStr "1.0"); ("user_pubkey_commitment", JStr (user_pubkey_commitment i));
   ("input_asset", JStr (input_asset i)); ("output_asset", JStr (output_asset i)); ("amount_mode", JStr (mode_name (amount_mode i)));
   ("amount", JStr (amount i)); ("min_output", JStr (min_output i)); ("expiry_ledger", JNum (expiry_ledger i));
   ("allowed_solvers_root", JStr (allowed_solvers_root i)); ("compliance_policy_id", JStr (compliance_policy_id i));
   ("destination", JStr (destination i)); ("replay_domain", JStr "shade:stellar:testnet:rfq:v1")].

Definition quote_fields (q : Quote) : list (string * json) :=
  [("quote_id", JStr (quote_id q)); ("intent_hash", JStr (intent_hash q)); ("solver_id", JStr (solver_id q));
   ("input_asset", JStr (q_input_asset q)); ("output_asset", JStr (q_output_asset q)); ("gross_input", JStr (gross_input q));
   ("net_output", JStr (net_output q)); ("fee", JStr (fee q)); ("valid_until_ledger", JNum (valid_until_ledger q));
   ("solver_inventory_commitment", JStr (solver_inventory_commitment q)); ("settlement_method", JStr "proof_of_fill")].

Definition strip0x (s : string) : string := match strip_prefix "0x" s with Some t => t | None => s end.

Section Stable.
Context {L : Collation}.

Definition key_lt {A} (a b : string * A) : bool := locale_lt a.1 b.1.

(** The entries are printed and then sorted by key, which is the order the
    sorted entries are printed in. *)
Fixpoint stable (v : json) : string :=
  match v with
  | JArr l => "[" +:+ join "," (map stable l) +:+ "]"
  | JObj l => "{" +:+ join "," (map (fun kv => quote kv.1 +:+ ":" +:+ kv.2) (js_sort key_lt (map (fun kv => (kv.1, stable kv.2)) l))) +:+ "}"
  | v => stringify v
  end.

End Stable.

Definition PRICE_SCALE : Z := 1000000000.

(** Sixteen bytes, most significant first; [x & 0xff] and [x >>= 8] act on
    the two's complement. *)
Fixpoint be_bytes (n : nat) (x : Z) (acc : string) : string :=
  match n with O => acc | S n => be_bytes n (Z.shiftr x 8) (String (byte_of (Z.land x 255)) acc) end.
Definition i128beBytes (v : Z) : string := be_bytes 16 v "".

Record AtomicSwapTerms := {
  quoteHashHex : string; outputAssetIdHex : string; quotedOutput : Z; minOutput : Z; priceScaled : Z; recipientStrkey : string }.

Section Hashing.
Context {C : NodeCrypto} {L : Collation}.

Definition sha256_hex (s : string) : string := hex_encode (sha256_digest s).

Definition intentHash (i : Intent) : string := "0x" +:+ sha256_hex (stable (JObj (intent_fields i))).
Definition quoteHash (q : Quote) : string := "0x" +:+ sha256_hex (stable (JObj (quote_fields q))).

Definition signQuoteStellar (quoteHashHex stellarSecret : string) : result (string * string) :=
  let! pk := kp_public stellarSecret in
  let! sg := kp_sign stellarSecret (hex_decode (strip0x quoteHashHex)) in
  Ok (hex_encode sg, hex_encode pk).

Definition recipientHashBytes (strkey : string) : string := String (byte_of 0) (bytes_take 31 (sha256_digest strkey)).

Definition swap_bytes (t : AtomicSwapTerms) : string :=
  hex_decode (strip0x (quoteHashHex t)) +:+ hex_decode (strip0x (outputAssetIdHex t)) +:+ i128beBytes (quotedOutput t) +:+
  i128beBytes (minOutput t) +:+ i128beBytes (priceScaled t) +:+ recipientHashBytes (recipientStrkey t).

Definition atomicSwapHash (t : AtomicSwapTerms) : string := "0x" +:+ sha256_hex (swap_bytes t).

Definition signAtomicSwap (t : AtomicSwapTerms) (stellarSecret : string) : result (string * (string * string)) :=
  let! sp := signQuoteStellar (atomicSwapHash t) stellarSecret in Ok (atomicSwapHash t, sp).

End Hashing.

(** BigInt division truncates. *)
Definition quotedFromPrice (inputAmount7dp priceScaled : Z) : Z := Z.quot (inputAmount7dp * priceScaled) PRICE_SCALE.

Definition priceQuote (grossInput7dp feeBps : Z) : Z * Z :=
  let fee := Z.quot (grossInput7dp * feeBps) 10000 in (grossInput7dp - fee, fee).

(** [s.padStart(n, "0")] *)
Fixpoint zeros (n : nat) : string := match n with O => "" | S n => String "0" (zeros n) end.
Definition padStart0 (n : nat) (s : string) : string := zeros (n - String.length s) +:+ s.

(** [.replace(/^0+(\d)/, "$1")] *)
Fixpoint strip_zeros (s : string) : string :=
  match s with
  | String "0" ((String c _) as t) => if is_digit c then strip_zeros t else s
  | _ => s
  end.

Definition usdc7ToDecimal (v : Z) : string :=
  let s := padStart0 8 (toString v) in
  let n := (String.length s - 7)%nat in
  strip_zeros (bytes_take n s +:+ "." +:+ bytes_drop n s).

(** AES-256-GCM under the padded master key; [gcm] returns ciphertext and tag. *)
Definition rfq_key (masterKeyHex : string) : string :=
  let h := strip0x masterKeyHex in hex_decode (bytes_take 64 (h +:+ zeros (64 - String.length h))).

Definition encryptIntent {L : Collation} (gcm : string -> string -> string -> result (string * string)) (i : Intent) (masterKeyHex iv : string)
    : result (string * string * string) :=
  let! ct := gcm (rfq_key masterKeyHex) iv (stable (JObj (intent_fields i))) in
  Ok (hex_encode ct.1, hex_encode iv, hex_encode ct.2).

(** ** Remittance *)

Record RemitQuote := {
  rq_quoteId : string; amount7dp : string; payoutAmountMinor : string; currency : string; recipientMetadata : string;
  anchorId : string; policyId : string; expiryLedger : Z }.

Record RemitReceipt := { rr_quoteId : string; settlementHash : string; rr_payoutAmountMinor : string; rr_currency : string; rr_anchorId : string }.

Section Remit.
Context {C : NodeCrypto}.

Definition recipientMetadataCommitment (md blindingHex : string) : string := "0x" +:+ sha256_hex (md +:+ "|" +:+ blindingHex).

Definition remit_json (q : RemitQuote) (commitment : string) : json :=
  JObj [("quoteId", JStr (rq_quoteId q)); ("amount7dp", JStr (amount7dp q)); ("payoutAmountMinor", JStr (payoutAmountMinor q));
        ("currency", JStr (currency q)); ("recipientMetadataCommitment", JStr commitment); ("anchorId", JStr (anchorId q));
        ("policyId", JStr (policyId q)); ("expiryLedger", JNum (expiryLedger q)); ("simulated", JBool true)].

Definition remitSettlementHash (q : RemitQuote) (commitment : string) : string := "0x" +:+ sha256_hex (stringify (remit_json q commitment)).

Definition simulateRemitReceipt (q : RemitQuote) (blindingHex : string) (currentLedger : Z) : result (string * RemitReceipt) :=
  throw_if currentLedger >? expiryLedger q with "remit quote expired" in
  let mc := recipientMetadataCommitment (recipientMetadata q) blindingHex in
  let h := remitSettlementHash q mc in
  Ok (h, {| rr_quoteId := rq_quoteId q; settlementHash := h; rr_payoutAmountMinor := payoutAmountMinor q; rr_currency := currency q;
            rr_anchorId := anchorId q |}).

Definition receiptMatchesSettlement (r : RemitReceipt) (q : RemitQuote) (blindingHex : string) : bool :=
  bool_decide (settlementHash r = remitSettlementHash q (recipientMetadataCommitment (recipientMetadata q) blindingHex)).

End Remit.

(** ** The solver *)

Definition env_map := list (string * string).
Definition env_get (k : string) (env : env_map) : string := default "" (jget k env).

Inductive outcome (A : Type) := Reply (a : A) | Throw (statusCode : Z) (message : string).
Arguments Reply {A} a.
Arguments Throw {A} statusCode message.

Definition missing_env (keys : list string) (env : env_map) : list string := List.filter (fun k => bool_decide (env_get k env = "")) keys.

Definition require_env {A} (keys : list string) (env : env_map) (k : outcome A) : outcome A :=
  match missing_env keys env with [] => k | l => Throw 503 ("solver env required: " +:+ join ", " l) end.

(** [String(v ?? d)] *)
Definition string_or (d : string) (v : option json) : string :=
  match v with None | Some JNull => d | Some v => to_primitive v end.

Record QuoteResponse := { qr_quote : Quote; quote_hash : string; solver_pubkey : string; solver_sig : string; fill_amount_6dp : string }.

Section Solver.
Context {C : NodeCrypto} {L : Collation}.

(** POST /v1/quote.  The address and USDC balance read from the chain, the
    parsed fee and expiry and the quote id are arguments; an uncaught error is
    answered with 500. *)
Definition post_quote (env : env_map) (address : string) (usdc6 feeBps expiry : Z) (uuid : string) (intent : json) : outcome QuoteResponse :=
  require_env ["ARB_SOLVER_PRIVATE_KEY"; "ARB_SEPOLIA_RPC_URL"; "ARB_SEPOLIA_USDC_ADDRESS"; "STELLAR_SOLVER_SECRET"; "STELLAR_SOLVER_PUBLIC"] env
  (match BigInt (string_or "0" (prop "amount" intent)) with
   | None => Throw 500 "SyntaxError"
   | Some gross7 =>
       if gross7 <=? 0 then Throw 400 "intent amount required (7dp)"
       else
         let '(net7, fee7) := priceQuote gross7 feeBps in
         let fillAmount6 := Z.quot net7 10 in
         if usdc6 <? fillAmount6 then
           Throw 409 ("insufficient inventory: have " +:+ toString usdc6 +:+ " (6dp), need " +:+ toString fillAmount6)
         else
           let q := {| quote_id := uuid; intent_hash := string_or "" (prop "intent_hash" intent);
                       solver_id := "stellar:" +:+ env_get "STELLAR_SOLVER_PUBLIC" env; q_input_asset := "USDC:Stellar:SAC";
                       q_output_asset := "USDC:ArbitrumSepolia"; gross_input := usdc7ToDecimal gross7; net_output := usdc7ToDecimal net7;
                       fee := usdc7ToDecimal fee7; valid_until_ledger := expiry;
                       solver_inventory_commitment := sha256_hex (address +:+ ":" +:+ toString usdc6) |} in
           let qHash := quoteHash q in
           match signQuoteStellar qHash (env_get "STELLAR_SOLVER_SECRET" env) with
           | Err e => Throw 500 e
           | Ok (sg, pk) => Reply {| qr_quote := q; quote_hash := qHash; solver_pubkey := pk; solver_sig := sg; fill_amount_6dp := toString fillAmount6 |}
           end
   end).

(** POST /v1/fill.  [bal] is the solver's balance, [transfer] sends the tokens
    and returns the transaction hash. *)
Definition post_fill (env : env_map) (bal : Z) (transfer : string -> Z -> result string) (recipient amount_6dp : string) : outcome (string * string * string * string) :=
  require_env ["ARB_SOLVER_PRIVATE_KEY"; "ARB_SEPOLIA_RPC_URL"; "ARB_SEPOLIA_USDC_ADDRESS"] env
  (if bool_decide (recipient = "") || bool_decide (amount_6dp = "") then Throw 400 "recipient and amount_6dp required"
   else match BigInt amount_6dp with
        | None => Throw 500 "SyntaxError"
        | Some amount6 =>
            if bal <? amount6 then Throw 409 ("insufficient inventory: have " +:+ toString bal +:+ ", need " +:+ toString amount6)
            else match transfer recipient amount6 with
                 | Err e => Throw 500 e
                 | Ok h => Reply (h, sha256_hex h, toString amount6, recipient)
                 end
        end).

End Solver.

(** ** The canonical text *)

Lemma sort_ins_map {A B} (lt : B -> B -> bool) (lt' : A -> A -> bool) (f : A -> B) x l :
  (forall a b, lt (f a) (f b) = lt' a b) -> sort_ins lt (f x) (map f l) = map f (sort_ins lt' x l).
Proof. intros H. induction l as [|y l IH]; [done|]. cbn. rewrite H, IH. by destruct (lt' x y). Qed.

Lemma js_sort_map {A B} (lt : B -> B -> bool) (lt' : A -> A -> bool) (f : A -> B) l :
  (forall a b, lt (f a) (f b) = lt' a b) -> js_sort lt (map f l) = map f (js_sort lt' l).
Proof.
  intros H. unfold js_sort. change (@nil B) with (map f []). generalize (@nil A) as acc.
  induction l as [|x l IH]; intros acc; [done|]. cbn. by rewrite (sort_ins_map lt lt'), IH.
Qed.

Definition scalar (v : json) : Prop := match v with JArr _ | JObj _ => False | _ => True end.

Section Canonical.
Context {L : Collation}.

(** Of an object without nested values, [stable] is the JSON text of its
    sorted entries. *)
Lemma stable_flat l : Forall (fun kv => scalar kv.2) l -> stable (JObj l) = stringify (JObj (js_sort key_lt l)).
Proof.
  intros Hs. cbn [stable stringify]. do 3 f_equal.
  rewrite (js_sort_map key_lt key_lt (fun kv : string * json => (kv.1, stable kv.2))), map_map by done.
  apply map_ext_in. intros [k v] Hin. cbn. do 3 f_equal. rewrite list.Forall_forall in Hs.
  apply list_elem_of_In, js_sort_elem, Hs in Hin. by destruct v.
Qed.

Lemma flat_wf l : NoDup l.*1 -> Forall (fun kv => scalar kv.2) l -> json_wf (JObj l).
Proof.
  intros Hnd Hs. split; [done|]. clear Hnd. induction Hs as [|[k v] l H _ IH]; [done|]. split; [by destruct v|done].
Qed.

Lemma stable_flat_inj l l' : NoDup l.*1 -> NoDup l'.*1 -> Forall (fun kv => scalar kv.2) l -> Forall (fun kv => scalar kv.2) l' ->
  stable (JObj l) = stable (JObj l') -> l ≡ₚ l'.
Proof.
  intros Hn Hn' Hs Hs' E. rewrite !stable_flat in E by done.
  apply stringify_inj in E; [| |]; [|apply flat_wf..]; rewrite ?js_sort_perm; try done.
  injection E as E. by rewrite <- (js_sort_perm key_lt l), E, js_sort_perm.
Qed.

Lemma stable_order_independent {LL : CollationLaws L} l l' :
  Forall (fun kv => scalar kv.2) l -> separated key_lt l -> l ≡ₚ l' -> stable (JObj l) = stable (JObj l').
Proof.
  intros Hs Hsep Hp. rewrite !stable_flat by (done || by rewrite <- Hp). do 2 f_equal.
  apply js_sort_perm_invariant; [intros a b; apply locale_asym|intros a b c; apply locale_ntrans|done|done].
Qed.

End Canonical.

Lemma perm_jget {V} (l l' : list (string * V)) k : NoDup l.*1 -> l ≡ₚ l' -> jget k l = jget k l'.
Proof.
  intros Hn Hp. assert (NoDup l'.*1) as Hn' by (by rewrite <- Hp). destruct (jget k l) as [v|] eqn:E.
  - apply jget_Some_elem in E. rewrite Hp in E. symmetry. by apply elem_jget.
  - apply jget_None in E. rewrite Hp in E. symmetry. by apply jget_None.
Qed.

Lemma quote_fields_inj q q' : quote_fields q ≡ₚ quote_fields q' -> q = q'.
Proof.
  intros Hp. assert (forall k, jget k (quote_fields q) = jget k (quote_fields q')) as H.
  { intros k. apply perm_jget; [by apply (bool_decide_eq_true_1 _)|done]. }
  destruct q, q'. pose proof (H "quote_id") as H1. pose proof (H "intent_hash") as H2. pose proof (H "solver_id") as H3.
  pose proof (H "input_asset") as H4. pose proof (H "output_asset") as H5. pose proof (H "gross_input") as H6.
  pose proof (H "net_output") as H7. pose proof (H "fee") as H8. pose proof (H "valid_until_ledger") as H9.
  pose proof (H "solver_inventory_commitment") as H10. clear H Hp.
  vm_compute in H1, H2, H3, H4, H5, H6, H7, H8, H9, H10. congruence.
Qed.

Lemma intent_fields_inj i i' : intent_fields i ≡ₚ intent_fields i' -> i = i'.
Proof.
  intros Hp. assert (forall k, jget k (intent_fields i) = jget k (intent_fields i')) as H.
  { intros k. apply perm_jget; [by apply (bool_decide_eq_true_1 _)|done]. }
  destruct i as [? ? ? m1 ? ? ? ? ? ?], i' as [? ? ? m2 ? ? ? ? ? ?].
  pose proof (H "user_pubkey_commitment") as H1. pose proof (H "input_asset") as H2. pose proof (H "output_asset") as H3.
  pose proof (H "amount_mode") as H4. pose proof (H "amount") as H5. pose proof (H "min_output") as H6.
  pose proof (H "expiry_ledger") as H7. pose proof (H "allowed_solvers_root") as H8. pose proof (H "compliance_policy_id") as H9.
  pose proof (H "destination") as H10. clear H Hp.
  vm_compute in H1, H2, H3, H5, H6, H7, H8, H9, H10.
  assert (m1 = m2) as -> by (destruct m1, m2; vm_compute in H4; congruence). congruence.
Qed.

Lemma quote_fields_ok q : NoDup (quote_fields q).*1 /\ Forall (fun kv => scalar kv.2) (quote_fields q).
Proof. split; [by apply (bool_decide_eq_true_1 _)|by repeat constructor]. Qed.
Lemma intent_fields_ok i : NoDup (intent_fields i).*1 /\ Forall (fun kv => scalar kv.2) (intent_fields i).
Proof. split; [by apply (bool_decide_eq_true_1 _)|by repeat constructor]. Qed.

(** ** Fixed-width integers *)

Fixpoint be_val (s : string) : Z :=
  match s with EmptyString => 0 | String c s => byte_val c * 256 ^ Z.of_nat (String.length s) + be_val s end.

Lemma be_bytes_length n x acc : String.length (be_bytes n x acc) = (n + String.length acc)%nat.
Proof. revert x acc. induction n as [|n IH]; intros x acc; [done|]. cbn [be_bytes]. rewrite IH. cbn. lia. Qed.

Lemma be_bytes_val n x acc :
  be_val (be_bytes n x acc) = (x mod 256 ^ Z.of_nat n) * 256 ^ Z.of_nat (String.length acc) + be_val acc.
Proof.
  revert x acc. induction n as [|n IH]; intros x acc; cbn [be_bytes].
  { rewrite Z.mod_1_r. lia. }
  rewrite IH. cbn [be_val String.length]. change 255 with (Z.ones 8). rewrite Z.land_ones, Z.shiftr_div_pow2 by lia.
  change (2 ^ 8) with 256. rewrite byte_val_of by (apply Z.mod_pos_bound; lia).
  rewrite !Nat2Z.inj_succ, !Z.pow_succ_r by lia.
  rewrite (Z.rem_mul_r x 256 (256 ^ Z.of_nat n)) by (try apply Z.pow_pos_nonneg; lia). ring.
Qed.

Lemma i128_inj v w : - 2 ^ 127 <= v < 2 ^ 127 -> - 2 ^ 127 <= w < 2 ^ 127 -> i128beBytes v = i128beBytes w -> v = w.
Proof.
  intros Hv Hw E. apply (f_equal be_val) in E. unfold i128beBytes in E. rewrite !be_bytes_val in E. cbn [be_val String.length] in E.
  change (256 ^ Z.of_nat 16) with (2 ^ 128) in E. rewrite Z.pow_0_r in E.
  assert (v mod 2 ^ 128 = w mod 2 ^ 128) as Em by lia.
  pose proof (Z.div_mod v (2 ^ 128)). pose proof (Z.div_mod w (2 ^ 128)).
  change (2 ^ 127) with 170141183460469231731687303715884105728 in *. change (2 ^ 128) with 340282366920938463463374607431768211456 in *. lia.
Qed.

Lemma i128_length v : String.length (i128beBytes v) = 16%nat.
Proof. apply be_bytes_length. Qed.

(** ** Prices *)

Lemma priceQuote_spec gross bps : let '(net, fee) := priceQuote gross bps in
  net + fee = gross /\ (0 <= gross -> 0 <= bps <= 10000 -> 0 <= fee <= gross /\ 10000 * fee <= gross * bps < 10000 * fee + 10000).
Proof.
  unfold priceQuote. split; [lia|]. intros Hg Hb. rewrite Z.quot_div_nonneg by nia.
  pose proof (Z.div_mod (gross * bps) 10000). pose proof (Z.mod_pos_bound (gross * bps) 10000).
  split; [|lia]. split; [apply Z.div_pos; nia|]. apply Z.div_le_upper_bound; nia.
Qed.

Lemma zeros_parse n s : parse_digits (zeros n +:+ s) 0 = parse_digits s 0.
Proof. induction n as [|n IH]; [done|]. cbn [zeros]. rewrite sapp_cons. cbn. apply IH. Qed.

Lemma zeros_digits n : str_forall is_digit (zeros n) = true.
Proof. by induction n. Qed.

Lemma zeros_length n : String.length (zeros n) = n.
Proof. induction n as [|n IH]; [done|]. cbn. by rewrite IH. Qed.

(** [strip_zeros] on digits before a point. *)
Lemma strip_zeros_spec a t : a <> "" -> str_forall is_digit a = true ->
  exists a', strip_zeros (a +:+ "." +:+ t) = a' +:+ "." +:+ t /\ a' <> "" /\ forall u, parse_digits (a' +:+ u) 0 = parse_digits (a +:+ u) 0.
Proof.
  induction a as [|c a IH]; intros Hne Hd; [done|]. rewrite sapp_cons. cbn [str_forall] in Hd. apply andb_prop in Hd as [Hc Hd].
  destruct (decide (c = "0"%char)) as [->|Hn0].
  - destruct a as [|d a].
    + exists "0". by split_and!.
    + assert (strip_zeros (String "0" (String d a +:+ "." +:+ t)) = strip_zeros (String d a +:+ "." +:+ t)) as ->.
      { rewrite sapp_cons. cbn [strip_zeros]. cbn [str_forall] in Hd. apply andb_prop in Hd as [-> _]. done. }
      destruct (IH ltac:(done) Hd) as (a' & -> & Ha' & Hp). exists a'. split_and!; try done.
  - exists (String c a). split_and!; try done. rewrite sapp_cons. destruct c as [[] [] [] [] [] [] [] []]; done.
Qed.

Lemma toString_nonneg_digits v : 0 <= v -> toString v <> "" /\ str_forall is_digit (toString v) = true /\ parse_digits (toString v) 0 = Some v.
Proof.
  intros Hv. assert (toString v = dec_nonneg v) as -> by (unfold toString; destruct (Z.ltb_spec v 0); [lia|done]).
  by apply dec_nonneg_spec.
Qed.

(** A printed amount has seven decimals, and its digits without the point
    are the amount. *)
Lemma usdc7_spec v : 0 <= v -> exists a b, usdc7ToDecimal v = a +:+ "." +:+ b /\ a <> "" /\ String.length b = 7%nat /\
  parse_digits (a +:+ b) 0 = Some v.
Proof.
  intros Hv. destruct (toString_nonneg_digits v Hv) as (Hne & Hd & Hp). unfold usdc7ToDecimal, padStart0.
  set (s := zeros (8 - String.length (toString v)) +:+ toString v).
  assert (8 <= String.length s)%nat as Hl by (unfold s; rewrite slen_app, zeros_length; lia).
  assert (str_forall is_digit s = true) as Hds by (unfold s; by rewrite str_forall_app, zeros_digits, Hd).
  assert (parse_digits s 0 = Some v) as Hps by (unfold s; by rewrite zeros_parse).
  set (n := (String.length s - 7)%nat). pose proof (bytes_take_drop n s) as Htd.
  assert (bytes_take n s <> "") as Hne'.
  { intros E. pose proof (bytes_take_length n s ltac:(lia)) as Hx. rewrite E in Hx. cbn in Hx. lia. }
  assert (str_forall is_digit (bytes_take n s) = true) as Hdt.
  { rewrite <- Htd, str_forall_app in Hds. by apply andb_prop in Hds as [? _]. }
  destruct (strip_zeros_spec (bytes_take n s) (bytes_drop n s) Hne' Hdt) as (a & -> & Ha & Hpa).
  exists a, (bytes_drop n s). split_and!; [done|done|rewrite bytes_drop_length; lia|]. by rewrite Hpa, Htd.
Qed.

Definition collision {C : NodeCrypto} : Prop := exists s t, s <> t /\ sha256_digest s = sha256_digest t.

Lemma sha256_hex_inj {C : NodeCrypto} s t : "0x" +:+ sha256_hex s = "0x" +:+ sha256_hex t -> s = t \/ collision.
Proof.
  intros E. cbn in E. injection E as E. apply hex_encode_inj in E.
  destruct (decide (s = t)) as [->|Hne]; [by left|]. right. by exists s, t.
Qed.

Lemma strip0x_0x s : strip0x ("0x" +:+ s) = s.
Proof. done. Qed.

(** Terms in the ranges the contract's types have. *)
Definition terms_ok (t : AtomicSwapTerms) : Prop :=
  String.length (hex_decode (strip0x (quoteHashHex t))) = 32%nat /\ String.length (hex_decode (strip0x (outputAssetIdHex t))) = 32%nat /\
  - 2 ^ 127 <= quotedOutput t < 2 ^ 127 /\ - 2 ^ 127 <= minOutput t < 2 ^ 127 /\ - 2 ^ 127 <= priceScaled t < 2 ^ 127.

Definition same_terms {C : NodeCrypto} (t u : AtomicSwapTerms) : Prop :=
  hex_decode (strip0x (quoteHashHex t)) = hex_decode (strip0x (quoteHashHex u)) /\
  hex_decode (strip0x (outputAssetIdHex t)) = hex_decode (strip0x (outputAssetIdHex u)) /\
  quotedOutput t = quotedOutput u /\ minOutput t = minOutput u /\ priceScaled t = priceScaled u /\
  recipientHashBytes (recipientStrkey t) = recipientHashBytes (recipientStrkey u).

Lemma swap_bytes_inj {C : NodeCrypto} t u : terms_ok t -> terms_ok u -> swap_bytes t = swap_bytes u -> same_terms t u.
Proof.
  intros (Hq & Ho & H1 & H2 & H3) (Hq' & Ho' & H1' & H2' & H3') E. unfold swap_bytes in E.
  apply sapp_inj_length in E as [E1 E]; [|congruence]. apply sapp_inj_length in E as [E2 E]; [|congruence].
  apply sapp_inj_length in E as [E3 E]; [|by rewrite !i128_length]. apply sapp_inj_length in E as [E4 E]; [|by rewrite !i128_length].
  apply sapp_inj_length in E as [E5 E6]; [|by rewrite !i128_length].
  split_and!; [done|done|by apply i128_inj|by apply i128_inj|by apply i128_inj|done].
Qed.

(** ** Remittance *)

Definition remit_bound (q q' : RemitQuote) : Prop :=
  rq_quoteId q = rq_quoteId q' /\ amount7dp q = amount7dp q' /\ payoutAmountMinor q = payoutAmountMinor q' /\ currency q = currency q' /\
  anchorId q = anchorId q' /\ policyId q = policyId q' /\ expiryLedger q = expiryLedger q'.

Lemma remit_json_wf q c : json_wf (remit_json q c).
Proof. split; [by apply (bool_decide_eq_true_1 _)|]. by repeat split. Qed.

Lemma last_bar a b c d : str_forall (fun x => negb (Ascii.eqb x "|")) b = true -> str_forall (fun x => negb (Ascii.eqb x "|")) d = true ->
  a +:+ "|" +:+ b = c +:+ "|" +:+ d -> a = c /\ b = d.
Proof.
  change ("|" +:+ b) with (String "|" b). change ("|" +:+ d) with (String "|" d).
  revert c. induction a as [|x a IH]; intros c Hb Hd E.
  - change ("" +:+ String "|" b) with (String "|" b) in E. destruct c as [|y c]; [change ("" +:+ String "|" d) with (String "|" d) in E; by injection E as ->|]. rewrite sapp_cons in E. injection E as <- E. exfalso. rewrite E in Hb.
    rewrite str_forall_app in Hb. apply andb_prop in Hb as [_ Hb]. done.
  - destruct c as [|y c].
    + change ("" +:+ String "|" d) with (String "|" d) in E. rewrite sapp_cons in E. injection E as -> E. exfalso.
      rewrite <- E, str_forall_app in Hd. by apply andb_prop in Hd as [_ Hd].
    + rewrite !sapp_cons in E. injection E as -> E. destruct (IH c Hb Hd E) as [-> ->]. done.
Qed.

Definition bar_free_hex (s : string) : Prop := str_forall (fun x => negb (Ascii.eqb x "|")) s = true.

Lemma remit_hash_binds {C : NodeCrypto} q q' c c' :
  remitSettlementHash q c = remitSettlementHash q' c' -> (remit_bound q q' /\ c = c') \/ collision.
Proof.
  intros E. apply sha256_hex_inj in E as [E|E]; [left|by right].
  apply stringify_inj in E; [|apply remit_json_wf..]. unfold remit_bound. injection E. naive_solver.
Qed.

(** ** Examples *)

#[global] Instance toyNode : NodeCrypto := {|
  sha256_digest := fun s => padStart0 32 (toString (fold_left (fun n c => Z.modulo (n * 31 + byte_val c) 1000003) (String.list_ascii_of_string s) 7));
  kp_public := fun sk => Ok sk; kp_sign := fun sk m => Ok (sk +:+ m); ed25519_verify := fun pk m sg => bool_decide (sg = pk +:+ m) |}.

#[global] Instance byteCollation : Collation := {| locale_lt := str_ltb |}.

#[global] Instance byteCollation_laws : CollationLaws byteCollation.
Proof. split; [intros a b; apply str_ltb_asym|intros a b c; apply str_ltb_ntrans]. Qed.

Definition toy_env : env_map :=
  [("ARB_SOLVER_PRIVATE_KEY", "k"); ("ARB_SEPOLIA_RPC_URL", "u"); ("ARB_SEPOLIA_USDC_ADDRESS", "a"); ("STELLAR_SOLVER_SECRET", "s");
   ("STELLAR_SOLVER_PUBLIC", "p")].

Definition toy_quote (id : string) : Quote :=
  {| quote_id := id; intent_hash := "0x01"; solver_id := "stellar:p"; q_input_asset := "USDC"; q_output_asset := "XLM"; gross_input := "1.0";
     net_output := "0.9"; fee := "0.1"; valid_until_ledger := 9; solver_inventory_commitment := "c" |}.

Definition toy_remit : RemitQuote :=
  {| rq_quoteId := "q"; amount7dp := "100"; payoutAmountMinor := "8300"; currency := "INR"; recipientMetadata := "upi|alice"; anchorId := "a";
     policyId := "p"; expiryLedger := 50 |}.

(** ** Properties *)

(** The hashes the solver signs bind every field: two quotes, or two
    intents, with the same hash are equal, or they exhibit a SHA-256 collision;
    and the hash does not depend on the order in which the fields were set. *)
Theorem rfq_hashes_bind (C : NodeCrypto) (L : Collation) (LL : CollationLaws L) (q q' : Quote) (i i' : Intent) (l : list (string * json)) :
  separated key_lt (quote_fields q) ->
  (quoteHash q = quoteHash q' -> q = q' \/ collision) /\
  (intentHash i = intentHash i' -> i = i' \/ collision) /\
  (quote_fields q ≡ₚ l -> "0x" +:+ sha256_hex (stable (JObj l)) = quoteHash q).
Proof.
  intros Hsep. split_and!.
  - intros E. apply sha256_hex_inj in E as [E|E]; [left|by right]. apply quote_fields_inj.
    apply stable_flat_inj in E; [done|apply quote_fields_ok..].
  - intros E. apply sha256_hex_inj in E as [E|E]; [left|by right]. apply intent_fields_inj.
    apply stable_flat_inj in E; [done|apply intent_fields_ok..].
  - intros Hp. unfold quoteHash. by rewrite (stable_order_independent (quote_fields q) l) by (done || apply quote_fields_ok).
Qed.

Lemma rfq_hashes_bind_witness :
  quoteHash (toy_quote "a") = quoteHash (toy_quote "a") -> toy_quote "a" = toy_quote "a" \/ collision.
Proof.
  apply (rfq_hashes_bind toyNode byteCollation byteCollation_laws (toy_quote "a") (toy_quote "a")
           {| user_pubkey_commitment := ""; input_asset := ""; output_asset := ""; amount_mode := exact_in; amount := ""; min_output := "";
              expiry_ledger := 0; allowed_solvers_root := ""; compliance_policy_id := ""; destination := "" |}
           {| user_pubkey_commitment := ""; input_asset := ""; output_asset := ""; amount_mode := exact_in; amount := ""; min_output := "";
              expiry_ledger := 0; allowed_solvers_root := ""; compliance_policy_id := ""; destination := "" |} []).
  intros a b Ha Hb H1 H2. destruct a as [k v], b as [k' v'].
  assert (k = k') as -> by (apply str_ltb_total; assumption).
  assert (NoDup (quote_fields (toy_quote "a")).*1) as Hn by (apply (bool_decide_eq_true_1 _); reflexivity).
  apply (elem_jget k' v _ Hn) in Ha. apply (elem_jget k' v' _ Hn) in Hb. congruence.
Defined.

(** The atomic-swap hash has an unambiguous layout: with 32-byte hashes and
    128-bit amounts, two terms with the same swap hash agree on the quote, the
    output asset, the quoted and minimal output, the price and the recipient's
    hash, or they exhibit a SHA-256 collision. *)
Theorem atomic_swap_hash_binds (C : NodeCrypto) (t u : AtomicSwapTerms) :
  terms_ok t -> terms_ok u -> atomicSwapHash t = atomicSwapHash u -> same_terms t u \/ collision.
Proof.
  intros Ht Hu E. apply sha256_hex_inj in E as [E|E]; [left; by apply swap_bytes_inj|by right].
Qed.

Definition toy_terms : AtomicSwapTerms :=
  {| quoteHashHex := "0x" +:+ hex_encode "01234567890123456789012345678901"; outputAssetIdHex := hex_encode "01234567890123456789012345678901";
     quotedOutput := 5; minOutput := -3; priceScaled := 7; recipientStrkey := "GABC" |}.

Lemma atomic_swap_hash_binds_witness : same_terms toy_terms toy_terms \/ collision.
Proof.
  apply (atomic_swap_hash_binds toyNode toy_terms toy_terms); [| |reflexivity];
    (split_and!; try reflexivity; vm_compute; congruence).
Defined.

(** A solver's answer is a sound quote: the fee and the net amount add up
    to the positive gross amount, the fill fits the inventory and is the net
    amount rounded down to six decimals, the printed amounts are exact, and the
    signature verifies over the hash of exactly the quote returned. *)
Theorem solver_quote_sound (C : NodeCrypto) (L : Collation) (CL : NodeCryptoLaws C) (env : env_map) (address uuid : string)
    (usdc6 feeBps expiry : Z) (intent : json) (r : QuoteResponse) :
  0 <= feeBps <= 10000 -> post_quote env address usdc6 feeBps expiry uuid intent = Reply r ->
  exists gross net fee7 fill, 0 < gross /\ net + fee7 = gross /\ 0 <= fee7 /\ 0 <= net /\ fill <= usdc6 /\ 10 * fill <= net < 10 * fill + 10 /\
    gross_input (qr_quote r) = usdc7ToDecimal gross /\ net_output (qr_quote r) = usdc7ToDecimal net /\
    fee (qr_quote r) = usdc7ToDecimal fee7 /\ fill_amount_6dp r = toString fill /\
    (exists a b, usdc7ToDecimal net = a +:+ "." +:+ b /\ String.length b = 7%nat /\ parse_digits (a +:+ b) 0 = Some net) /\
    quote_hash r = quoteHash (qr_quote r) /\
    ed25519_verify (hex_decode (solver_pubkey r)) (hex_decode (strip0x (quote_hash r))) (hex_decode (solver_sig r)) = true.
Proof.
  intros Hbps. unfold post_quote, require_env. destruct (missing_env _ _); [|done].
  destruct (BigInt _) as [gross|]; [|done]. destruct (Z.leb_spec gross 0); [done|].
  pose proof (priceQuote_spec gross feeBps) as Hp. destruct (priceQuote gross feeBps) as [net fee7]. destruct Hp as [Hsum Hp].
  specialize (Hp ltac:(lia) Hbps). destruct (Z.ltb_spec usdc6 (Z.quot net 10)) as [|Hinv]; [done|].
  set (q := Build_Quote _ _ _ _ _ _ _ _ _ _). unfold signQuoteStellar.
  destruct (kp_public _) as [pk|] eqn:Ek; cbn [rbind]; [|done]. destruct (kp_sign _ _) as [sg|] eqn:Es; cbn [rbind]; [|done].
  intros [= <-]. cbn [qr_quote quote_hash solver_pubkey solver_sig fill_amount_6dp].
  rewrite Z.quot_div_nonneg in * by lia. exists gross, net, fee7, (net / 10).
  pose proof (Z.div_mod net 10). pose proof (Z.mod_pos_bound net 10).
  destruct (usdc7_spec net ltac:(lia)) as (a & b & E & _ & Hb & Hpd).
  split_and!; try lia; try reflexivity; [by exists a, b|]. rewrite !hex_decode_encode. by apply (kp_verifies _ _ _ _ Ek Es).
Qed.

#[global] Instance toyNode_laws : NodeCryptoLaws toyNode.
Proof. split. intros secret pk m sg [= <-] [= <-]. cbn. by apply bool_decide_true. Qed.

Definition toy_quote_request : json := JObj [("amount", JStr "1000"); ("intent_hash", JStr "0x01")].

Definition toy_response : QuoteResponse :=
  match post_quote toy_env "addr" 5000 50 99 "id" toy_quote_request with
  | Reply r => r
  | Throw _ _ => {| qr_quote := toy_quote ""; quote_hash := ""; solver_pubkey := ""; solver_sig := ""; fill_amount_6dp := "" |}
  end.

Lemma solver_quote_sound_witness :
  exists gross net fee7 fill, 0 < gross /\ net + fee7 = gross /\ 0 <= fee7 /\ 0 <= net /\ fill <= 5000 /\ 10 * fill <= net < 10 * fill + 10 /\
    gross_input (qr_quote toy_response) = usdc7ToDecimal gross /\ net_output (qr_quote toy_response) = usdc7ToDecimal net /\
    fee (qr_quote toy_response) = usdc7ToDecimal fee7 /\ fill_amount_6dp toy_response = toString fill /\
    (exists a b, usdc7ToDecimal net = a +:+ "." +:+ b /\ String.length b = 7%nat /\ parse_digits (a +:+ b) 0 = Some net) /\
    quote_hash toy_response = quoteHash (qr_quote toy_response) /\
    ed25519_verify (hex_decode (solver_pubkey toy_response)) (hex_decode (strip0x (quote_hash toy_response))) (hex_decode (solver_sig toy_response)) = true.
Proof.
  apply (solver_quote_sound toyNode byteCollation toyNode_laws toy_env "addr" "id" 5000 50 99 toy_quote_request toy_response); [lia|].
  vm_compute. reflexivity.
Defined.

(** Remittance receipts bind their settlement: an expired quote is refused,
    a receipt issued for a live quote matches it, and a receipt that matches a
    quote agrees with the quote it was issued for on every bound field and on
    the recipient, unless SHA-256 collides (the blinding factors are
    hexadecimal, so free of the separator). *)
Theorem remit_receipt_binds (C : NodeCrypto) (q q' : RemitQuote) (blinding blinding' : string) (ledger : Z) :
  bar_free_hex blinding -> bar_free_hex blinding' ->
  (expiryLedger q < ledger -> simulateRemitReceipt q blinding ledger = Err "remit quote expired") /\
  (ledger <= expiryLedger q -> exists h r, simulateRemitReceipt q blinding ledger = Ok (h, r) /\ settlementHash r = h /\
     receiptMatchesSettlement r q blinding = true /\
     (receiptMatchesSettlement r q' blinding' = true ->
        (remit_bound q q' /\ recipientMetadata q = recipientMetadata q' /\ blinding = blinding') \/ collision)).
Proof.
  intros Hb Hb'. unfold simulateRemitReceipt. split.
  { intros H. rewrite Z.gtb_ltb. by destruct (Z.ltb_spec (expiryLedger q) ledger); [|lia]. }
  intros H. rewrite Z.gtb_ltb. destruct (Z.ltb_spec (expiryLedger q) ledger); [lia|]. eexists _, _. split_and!; [reflexivity|done|by apply bool_decide_true|].
  unfold receiptMatchesSettlement. cbn [settlementHash]. intros E%bool_decide_eq_true. apply remit_hash_binds in E as [[Hbd Ec]|E]; [|by right].
  apply sha256_hex_inj in Ec as [Ec|Ec]; [|by right]. left. destruct (last_bar _ _ _ _ Hb Hb' Ec) as [-> ->]. done.
Qed.

Lemma remit_receipt_binds_witness :
  exists h r, simulateRemitReceipt toy_remit "0a" 50 = Ok (h, r) /\ settlementHash r = h /\ receiptMatchesSettlement r toy_remit "0a" = true /\
    (receiptMatchesSettlement r toy_remit "0b" = true ->
        (remit_bound toy_remit toy_remit /\ recipientMetadata toy_remit = recipientMetadata toy_remit /\ "0a" = "0b") \/ collision).
Proof. apply (remit_receipt_binds toyNode toy_remit toy_remit "0a" "0b" 50); [reflexivity|reflexivity|vm_compute; congruence]. Defined.

End Rfq.
