(* ===== verification/Assets.v ===== *)
(** The asset registry (packages/assets/src/index.ts) and the reduction of
    32-byte hashes to field elements that the clients share with the contract
    (contracts/stellar/shielded_pool/src/lib.rs, [hash_to_field]).

    SHA-256 is the operation of [NodeCrypto].  The names every JavaScript object
    inherits ("constructor", "toString") are not looked up. *)

From S2P Require Import Prelude Text Json Rfq.
Local Open Scope string_scope.
Local Open Scope Z_scope.

(** SHA-256 digests have 32 bytes. *)
Class Sha256Laws (C : NodeCrypto) : Prop := { sha256_length : forall s, String.length (sha256_digest s) = 32%nat }.

Definition syntax_error (t : string) : string := "SyntaxError: Cannot convert " +:+ t +:+ " to a BigInt".

(** [BigInt(t)] of a text, its failure thrown. *)
Definition to_bigint (t : string) : result Z := match BigInt t with Some z => Ok z | None => Err (syntax_error t) end.

(** [z.toString(16)] *)
Definition hex_text (z : Z) : string := if z <? 0 then "-" +:+ toString16 (- z) else toString16 z.
(** ["0x" + z.toString(16).padStart(64, "0")] *)
Definition bytes32_text (z : Z) : string := "0x" +:+ padStart64 (hex_text z).

Module Assets.

Record AssetConfig := { symbol : string; cfg_assetIdHex : string; cfg_assetIdField : string; tokenContract : string; decimals : Z }.

Definition DEFAULT_USDC : string := "CBIELTK6YBZJU5UP2WWQEUCYKLPU6AUNZ2BQ4WWFEIE3USCIHMXQDAMA".
Definition DEFAULT_XLM : string := "CDLZFC3SYJYDZT7K67VZ75HPJVIEUVNIXF47ZG2FB2RMQQVU2HHGCYSC".

Section Assets.
Context {C : NodeCrypto}.
Variable env : string -> option string.

(** The decimal text of the first 31 bytes of the digest. *)
Definition assetIdField (token : string) : result string :=
  let! z := to_bigint ("0x" +:+ hex_encode (bytes_take 31 (sha256_digest token))) in Ok (toString z).

Definition assetIdHex (token : string) : result string :=
  let! f := assetIdField token in let! z := to_bigint f in Ok (bytes32_text z).

Definition makeAssetConfig (sym token : string) (decimals : Z) : result AssetConfig :=
  let! f := assetIdField token in
  let! h := assetIdHex token in
  Ok {| symbol := sym; cfg_assetIdHex := h; cfg_assetIdField := f; tokenContract := token; decimals := decimals |}.

Definition USDC_TOKEN : string := default DEFAULT_USDC (env "USDC_SAC_CONTRACT").
Definition XLM_TOKEN : string := default DEFAULT_XLM (env "XLM_SAC_CONTRACT").

(** The registry in the order of its keys. *)
Definition ASSETS : result (list (string * AssetConfig)) :=
  let! usdc := makeAssetConfig "USDC" USDC_TOKEN 7 in
  let! xlm := makeAssetConfig "XLM" XLM_TOKEN 7 in
  Ok [("USDC", usdc); ("XLM", xlm)].

Definition assetBySymbol (sym : string) : result AssetConfig :=
  let! assets := ASSETS in
  match jget sym assets with Some cfg => Ok cfg | None => Err ("unknown asset symbol: " +:+ sym) end.

Definition assetByIdHex (idHex : string) : result AssetConfig :=
  let! assets := ASSETS in
  let norm := if has_0x idHex then toLowerCase idHex else "0x" +:+ toLowerCase idHex in
  match List.find (fun a => bool_decide (toLowerCase (cfg_assetIdHex a) = norm)) (map snd assets) with
  | Some a => Ok a
  | None => Err ("unknown assetId: " +:+ idHex)
  end.

End Assets.
End Assets.

(** ** Big-endian bytes, hexadecimal and decimal texts *)

Fixpoint be_acc (s : string) (acc : Z) : Z := match s with EmptyString => acc | String c s => be_acc s (acc * 256 + byte_val c) end.
(** The integer whose big-endian bytes are [s]. *)
Definition be (s : string) : Z := be_acc s 0.

Lemma be_acc_bound s acc : 0 <= acc -> acc * 256 ^ Z.of_nat (String.length s) <= be_acc s acc < (acc + 1) * 256 ^ Z.of_nat (String.length s).
Proof.
  revert acc. induction s as [|c s IH]; intros acc Ha; cbn [be_acc String.length]; [lia|].
  pose proof (byte_val_range c) as Hc. specialize (IH (acc * 256 + byte_val c) ltac:(lia)).
  rewrite Nat2Z.inj_succ, Z.pow_succ_r by lia. set (p := 256 ^ Z.of_nat (String.length s)) in *.
  assert (0 < p) by (apply Z.pow_pos_nonneg; lia). nia.
Qed.

Lemma be_bound s : 0 <= be s < 256 ^ Z.of_nat (String.length s).
Proof. pose proof (be_acc_bound s 0 ltac:(lia)). unfold be. lia. Qed.

Lemma parse_hex_encode s acc : parse_hex (hex_encode s) acc = Some (be_acc s acc).
Proof.
  revert acc. induction s as [|c s IH]; intros acc; [done|]. cbn [hex_encode parse_hex be_acc].
  destruct (hex_byte c) as [-> ->]. rewrite IH. do 2 f_equal. pose proof (Z.div_mod (byte_val c) 16). lia.
Qed.

Lemma hex_encode_no_ws s : str_forall (fun c => negb (is_ws c)) (hex_encode s) = true.
Proof.
  induction s as [|c s IH]; [done|]. cbn [hex_encode str_forall]. rewrite IH.
  destruct c as [[] [] [] [] [] [] [] []]; vm_compute; done.
Qed.

Lemma BigInt_hex s : s <> "" -> BigInt ("0x" +:+ hex_encode s) = Some (be s).
Proof.
  intros Hs. unfold BigInt. rewrite trim_id by (cbn; apply hex_encode_no_ws). destruct s as [|c s]; [done|].
  change (parse_hex (hex_encode (String c s)) 0 = Some (be (String c s))). apply parse_hex_encode.
Qed.

(** [w] hexadecimal digits of [n], most significant first, before [acc]. *)
Fixpoint fixed16 (w : nat) (n : Z) (acc : string) : string :=
  match w with O => acc | S w => fixed16 w (n / 16) (String (hex_char (n mod 16)) acc) end.

Lemma fixed16_be s k a : 0 <= a -> fixed16 (2 * String.length s + k) (be_acc s a) "" = fixed16 k a (hex_encode s).
Proof.
  assert (forall acc, 0 <= a -> fixed16 (2 * String.length s + k) (be_acc s a) acc = fixed16 k a (hex_encode s +:+ acc)) as G; [|intros Ha; rewrite G by done].
  { revert k a. induction s as [|c s IH]; intros k a acc Ha; [done|]. cbn [be_acc hex_encode String.length].
    pose proof (byte_val_range c) as Hc. replace (2 * S (String.length s) + k)%nat with (2 * String.length s + S (S k))%nat by lia.
    rewrite IH by (done || lia). cbn [fixed16]. rewrite !sapp_cons.
    replace ((a * 256 + byte_val c) / 16 / 16) with a by (rewrite Z.div_div by lia; apply Z.div_unique with (byte_val c); lia).
    replace ((a * 256 + byte_val c) / 16 mod 16) with (byte_val c / 16).
    2:{ replace (a * 256 + byte_val c) with (byte_val c + (a * 16) * 16) by lia. rewrite Z.div_add by lia.
        rewrite Z.mod_add by lia. symmetry. apply Z.mod_small. pose proof (Z.div_pos (byte_val c) 16). 
        split; [lia|]. apply Z.div_lt_upper_bound; lia. }
    replace ((a * 256 + byte_val c) mod 16) with (byte_val c mod 16); [done|].
    replace (a * 256 + byte_val c) with (byte_val c + (a * 16) * 16) by lia. by rewrite Z.mod_add by lia. }
  by rewrite sapp_nil_r.
Qed.

Lemma zeros16_snoc n t : zeros16 n +:+ String "0" t = String "0" (zeros16 n +:+ t).
Proof. induction n as [|n IH]; [done|]. cbn [zeros16]. by rewrite !sapp_cons, IH. Qed.

Lemma fixed16_zero w acc : fixed16 w 0 acc = zeros16 w +:+ acc.
Proof.
  revert acc. induction w as [|w IH]; intros acc; [done|]. cbn [fixed16]. change (0 / 16) with 0. rewrite IH.
  change (hex_char (0 mod 16)) with "0"%char. by rewrite zeros16_snoc.
Qed.

Lemma hex_digits_fixed fuel w n acc : 0 <= n < 16 ^ Z.of_nat w -> (0 < w)%nat -> n < 16 ^ Z.of_nat fuel -> (0 < fuel)%nat ->
  exists k, hex_digits fuel n acc = fixed16 k n acc /\ (k <= w)%nat /\ fixed16 w n acc = zeros16 (w - k) +:+ hex_digits fuel n acc /\
    String.length (hex_digits fuel n acc) = (k + String.length acc)%nat.
Proof.
  revert w n acc. induction fuel as [|fuel IH]; intros w n acc Hn Hw Hf Hp; [lia|]. cbn [hex_digits].
  destruct w as [|w]; [lia|]. destruct (Z.eqb_spec (n / 16) 0) as [E|E].
  - exists 1%nat. cbn [fixed16]. rewrite E, fixed16_zero. replace (S w - 1)%nat with w by lia. repeat split; lia.
  - assert (0 < n / 16) by (pose proof (Z.div_pos n 16); lia).
    rewrite Nat2Z.inj_succ, Z.pow_succ_r in Hn, Hf by lia.
    assert (n / 16 < 16 ^ Z.of_nat w) by (apply Z.div_lt_upper_bound; lia).
    assert (n / 16 < 16 ^ Z.of_nat fuel) by (apply Z.div_lt_upper_bound; lia).
    destruct w as [|w]; [cbn in *; lia|]. destruct fuel as [|fuel]; [cbn in *; lia|].
    destruct (IH (S w) (n / 16) (String (hex_char (n mod 16)) acc)) as (k & Ha & Hb & Hc & Hd); [lia..|].
    exists (S k). cbn [fixed16] in *. rewrite Hc, Hd. split_and!; [done|lia|done|cbn; lia].
Qed.

Lemma log2_pow16 n : 0 <= n -> n < 16 ^ Z.of_nat (S (Z.to_nat (Z.log2 n))).
Proof.
  intros Hn. destruct (Z.eq_dec n 0) as [->|]; [done|]. destruct (Z.log2_spec n) as [_ Hu]; [lia|]. pose proof (Z.log2_nonneg n).
  eapply Z.lt_le_trans; [exact Hu|]. rewrite Nat2Z.inj_succ, Z2Nat.id by lia. apply Z.pow_le_mono_l. lia.
Qed.

(** Padding the hexadecimal digits to 64 gives the bytes back. *)
Lemma bytes32_text_be s : String.length s = 32%nat -> bytes32_text (be s) = "0x" +:+ hex_encode s.
Proof.
  intros Hs. pose proof (be_bound s) as Hb. rewrite Hs in Hb. unfold bytes32_text, hex_text. destruct (Z.ltb_spec (be s) 0); [lia|]. f_equal.
  unfold padStart64, toString16.
  destruct (hex_digits_fixed (S (Z.to_nat (Z.log2 (be s)))) 64 (be s) "") as (k & _ & Hk & Hf & Hl);
    [replace (16 ^ Z.of_nat 64) with (256 ^ Z.of_nat 32) by done; lia|lia|apply log2_pow16; lia|lia|].
  rewrite Hl. cbn [String.length]. rewrite Nat.add_0_r, <- Hf. pose proof (fixed16_be s 0 0 ltac:(done)) as E. by rewrite Hs in E.
Qed.

Lemma be_zero_byte s : be (String (byte_of 0) s) = be s.
Proof. done. Qed.

(** [hash_to_field] of the contract: a zero byte and the first 31 bytes. *)
Definition contract_hash_to_field (h : string) : string := String (byte_of 0) (bytes_take 31 h).

Definition BLS12_381_R : Z := 52435875175126190479447740508185965837690552500527637822603658699938581184513.

Section Registry.
Context {C : NodeCrypto} {CL : Sha256Laws C}.
Variable env : string -> option string.
Import Assets.

Lemma take31_length s : String.length s = 32%nat -> String.length (bytes_take 31 s) = 31%nat.
Proof. intros H. apply bytes_take_length. lia. Qed.

Lemma take31_field s : String.length s = 32%nat ->
  to_bigint ("0x" +:+ hex_encode (bytes_take 31 s)) = Ok (be (bytes_take 31 s)) /\ 0 <= be (bytes_take 31 s) < 2 ^ 248 /\
  bytes32_text (be (bytes_take 31 s)) = "0x" +:+ hex_encode (contract_hash_to_field s).
Proof.
  intros H%take31_length. pose proof (be_bound (bytes_take 31 s)) as Hb. rewrite H in Hb. split_and!; [|lia..|].
  - unfold to_bigint. by rewrite BigInt_hex by (intros E; by rewrite E in H).
  - rewrite <- be_zero_byte, bytes32_text_be; [done|]. cbn [String.length]. by rewrite H.
Qed.

Lemma assetIdField_eq token : assetIdField token = Ok (toString (be (bytes_take 31 (sha256_digest token)))).
Proof. unfold assetIdField. by destruct (take31_field _ (sha256_length token)) as [-> _]. Qed.

Lemma assetIdHex_eq token : assetIdHex token = Ok ("0x" +:+ hex_encode (contract_hash_to_field (sha256_digest token))).
Proof.
  unfold assetIdHex. rewrite assetIdField_eq. cbn [rbind]. unfold to_bigint at 1. rewrite BigInt_toString. cbn [rbind].
  by destruct (take31_field _ (sha256_length token)) as (_ & _ & ->).
Qed.

Definition config (sym token : string) : AssetConfig :=
  {| symbol := sym; cfg_assetIdHex := "0x" +:+ hex_encode (contract_hash_to_field (sha256_digest token));
     cfg_assetIdField := toString (be (bytes_take 31 (sha256_digest token))); tokenContract := token; decimals := 7 |}.

Lemma ASSETS_eq : ASSETS env = Ok [("USDC", config "USDC" (USDC_TOKEN env)); ("XLM", config "XLM" (XLM_TOKEN env))].
Proof. unfold ASSETS, makeAssetConfig. by rewrite !assetIdField_eq, !assetIdHex_eq. Qed.

End Registry.
