(* ===== verification/Relayer.v ===== *)
(** The relayer worker (apps/relayer/src/worker.ts).

    A job runs in a small state and error monad: the world is the job database
    and the log of calls to services outside the process (chains, Circle, the
    prover and the coinutils binary).  What each call answers is the function
    [answer].  The environment after [loadEnv] and the matches stored for a
    batch are arguments.  Job payloads are JSON values; a field the source casts
    to [string] is read as its text.  Network settings that no branch depends on
    (RPC URL, passphrase, retries, chain id, scratch directory) are left out of
    the recorded calls. *)

From S2P Require Import Prelude Effects Text Json Committee Queue.
Local Open Scope string_scope.
Local Open Scope Z_scope.

(** ** Calls and the monad *)

Inductive Call :=
| ArcInvoke (contract method : string) (args : list json) (wallet : option string)  (** no wallet: read only *)
| SorobanInvoke (contract method : string) (args : list string) (readOnly : bool)
| BroadcastSignedTx (raw : string)
| BroadcastSignedXdr (xdr : string)
| CctpInbound (request : json)
| ValidateInboundBurn (request : json)
| PostUserBurnInbound (request : json)
| FetchAttestation (apiBase : string) (sourceDomain : Z) (txHash : string)
| BuildMpcProof (request : json)
| ReadFile (path : string)
| ComputeRoot (state : json).

Record World := { w_jobs : JobDb; w_calls : list Call }.

Definition M : Type -> Type := SE World.

Definition RELAYER_JOB_TYPES : list string :=
  ["CCTP_INBOUND"; "CCTP_INBOUND_AFTER_USER_BURN"; "CCTP_INBOUND_BURN"; "CCTP_FETCH_ATTESTATION"; "STELLAR_MINT_FORWARD"; "REGISTER_NOTE";
   "WITHDRAW_PUBLIC_SUBMIT"; "WITHDRAW_CCTP_BURN"; "RFQ_SETTLE_SUBMIT"; "RFQ_ATOMIC_SWAP_SUBMIT"; "CCTP_OUTBOUND_ATTESTATION";
   "CCTP_OUTBOUND_MINT"; "MPC_SETTLE_SUBMIT"; "STREAM_SETTLE_BATCH"].

Definition INBOUND_ALIASES : list string := ["CCTP_INBOUND_BURN"; "CCTP_FETCH_ATTESTATION"; "STELLAR_MINT_FORWARD"; "REGISTER_NOTE"].

(** ** The environment *)

Definition EnvMap := list (string * string).

Definition split_lines (s : string) : list string := split_on "010" s.

Fixpoint drop_cr (s : string) : string :=
  match s with
  | EmptyString => ""
  | String c EmptyString => if Ascii.eqb c "013" then "" else s
  | String c s => String c (drop_cr s)
  end.

(** The parts of a line before and after its first equals sign. *)
Fixpoint cut_eq (s : string) : option (string * string) :=
  match s with
  | EmptyString => None
  | String c s => if Ascii.eqb c "=" then Some ("", s) else '(k, v) ← cut_eq s; Some (String c k, v)
  end.

Definition is_comment (s : string) : bool := match trim_left s with String "#" _ => true | _ => false end.

Definition env_line (override : bool) (env : EnvMap) (raw : string) : EnvMap :=
  let line := drop_cr raw in
  match cut_eq line with
  | None => env
  | Some (k, v) => if is_comment line then env else if override || negb (jhas k env) then jset k v env else env
  end.

(** [None] when the file does not exist. *)
Definition parseEnvFile (env : EnvMap) (file : option string) (override : bool) : EnvMap :=
  match file with None => env | Some text => fold_left (env_line override) (split_lines text) env end.

Definition loadEnv (process_env : EnvMap) (parent dot generated : option string) : EnvMap :=
  let env := parseEnvFile process_env parent false in
  let env := parseEnvFile env dot false in
  parseEnvFile env generated true.

Definition env_get (k : string) (env : EnvMap) : string := default "" (jget k env).

(** ** Payload access *)

Definition is_truthy (o : option json) : bool := match o with Some v => truthy v | None => false end.
(** [String(p.k)] *)
Definition String_prop (k : string) (p : json) : string := match prop k p with Some v => to_primitive v | None => "undefined" end.
(** [String(p.k ?? d)] *)
Definition String_or (d k : string) (p : json) : string :=
  match prop k p with None | Some JNull => d | Some v => to_primitive v end.
(** [p.k], where a missing field is sent as [undefined]. *)
Definition raw_prop (k : string) (p : json) : json := match prop k p with Some v => v | None => JNull end.
Definition is_Some_b {A} (o : option A) : bool := match o with Some _ => true | None => false end.

Section Relayer.
Context {N : Nacl}.
Variable answer : Call -> result json.
Variable env : EnvMap.

Definition call (c : Call) : M json :=
  fun w => ({| w_jobs := w_jobs w; w_calls := (w_calls w ++ [c])%list |}, answer c).

Definition set_status (job : ServiceJob) (st detail : string) : M unit :=
  fun w => ({| w_jobs := setStatus (job_id job) st (Some detail) (w_jobs w); w_calls := w_calls w |}, Ok tt).

Definition text_of (v : json) : string := to_primitive v.
Definition tx_field (k : string) (r : json) : json := raw_prop k r.

(** ** Inbound transfers *)

Definition coin_json (path : string) (c : json) : M json :=
  match prop "coin" c with
  | None | Some JNull => throw "TypeError: Cannot read properties of undefined (reading 'commitment')"
  | Some coin =>
      ret (JObj [("path", JStr path); ("commitmentHex", raw_prop "commitment_hex" c); ("commitmentDecimal", raw_prop "commitment" coin);
                 ("value7dp", raw_prop "value" coin);
                 ("assetIdField", match prop "asset_id" coin with None | Some JNull => JStr "" | Some v => v end)])
  end.

(** [JSON.parse(readFileSync(path))]: the answer of [ReadFile] is the parsed file. *)
Definition coinFromPath (path : string) : M json := run! c := call (ReadFile path) in coin_json path c.

Definition bigint_or_throw (s : string) : M Z :=
  match BigInt s with Some z => ret z | None => throw "SyntaxError: Cannot convert to a BigInt" end.

Definition cctp_inbound (job : ServiceJob) (p : json) (pool : string) : M json :=
  if negb (bool_decide (env_get "ENABLE_OPERATOR_TESTNET_DEPOSIT" env = "true")) then
    throw "operator-driven CCTP_INBOUND is disabled (set ENABLE_OPERATOR_TESTNET_DEPOSIT=true for dev/test); app deposits use CCTP_INBOUND_AFTER_USER_BURN"
  else
    run! _ := set_status job "burning" "CCTP burn + attestation + mint_and_forward + register" in
    run! amount6 := bigint_or_throw (String_or "1000000" "amount6" p) in
    run! coin := coinFromPath (String_prop "coinPath" p) in
    run! r := call (CctpInbound (JObj [("amount6", JNum amount6); ("commitmentHex", JStr (String_prop "commitmentHex" p));
                    ("encryptedNotePayloadHashHex", JStr (String_prop "encryptedNotePayloadHashHex" p));
                    ("policyIdHex", JStr (String_prop "policyIdHex" p)); ("fast", JBool true); ("targetContract", JStr pool);
                    ("newRootHex", JStr (String_prop "newRootHex" p)); ("coin", coin)])) in
    ret (JObj [("burnTxHash", raw_prop "burnTxHash" r); ("mintForwardTxHash", raw_prop "mintForwardTxHash" r);
               ("leafIndex", raw_prop "leafIndex" r); ("root", raw_prop "root" r); ("amount7", raw_prop "amount7" r)]).

(** [p.k !== undefined] *)
Definition defined (k : string) (p : json) : bool := match prop k p with Some _ => true | None => false end.

Definition after_user_burn (job : ServiceJob) (p : json) (pool : string) : M json :=
  run! _ := set_status job "validating_burn" "verify user burn tx" in
  let burnTxHash := String_prop "burn_tx_hash" p in
  run! expected := bigint_or_throw (String_prop "expected_amount6" p) in
  run! maxFee := (if is_truthy (prop "expected_max_fee6" p)
                 then (run! f := bigint_or_throw (String_prop "expected_max_fee6" p) in ret (JNum f)) else ret JNull) in
  run! v := call (ValidateInboundBurn (JObj [("burnTxHash", JStr burnTxHash); ("expectedSender", JStr (String_prop "source_wallet_address" p));
                   ("expectedAmount6", JNum expected); ("pool", JStr pool); ("expectedMaxFee6", maxFee);
                   ("expectedFinality", if defined "expected_finality" p then Number_value (raw_prop "expected_finality" p) else JNull)])) in
  run! amount6 := bigint_or_throw (String_prop "amount6" v) in
  run! _ := set_status job "burn_validated" ("sender " +:+ bytes_take 10 (String_prop "sender" v) +:+ "…, " +:+ toString amount6 +:+ " (6dp)") in
  if is_truthy (prop "proof" p) && is_truthy (prop "publicSignals" p) then
    let arcPool := env_get "ARC_SHIELDED_POOL_CONTRACT" env in
    let arcRelayerKey := env_get "ARC_RELAYER_PRIVATE_KEY" env in
    if bool_decide (arcPool = "") || bool_decide (arcRelayerKey = "") then
      throw "CCTP_INBOUND_AFTER_USER_BURN (Arc) missing ARC_SHIELDED_POOL_CONTRACT / ARC_RELAYER_PRIVATE_KEY"
    else
      run! _ := set_status job "submitting" "pool.receiveDeposit (Arc)" in
      run! r := call (ArcInvoke arcPool "receiveDeposit"
                 [match prop "source_domain" p with None | Some JNull => JNum 3 | Some d => Number_value d end; JStr (toBytes32 burnTxHash);
                  JStr (String_prop "token" p); JNum (amount6 * 10); JStr (String_prop "commitment" p);
                  JStr (String_prop "encryptedNotePayloadHashHex" p); JStr (String_prop "policyIdHex" p); raw_prop "proof" p;
                  raw_prop "publicSignals" p] (Some arcRelayerKey)) in
      run! _ := set_status job "note_registered" ("Arc tx " +:+ String_prop "hash" r) in
      ret (JObj [("state", JStr "active"); ("burnTxHash", JStr burnTxHash); ("receiveDepositTxHash", raw_prop "hash" r);
                 ("commitment", JStr (String_prop "commitment" p))])
  else if negb (is_truthy (prop "coinPath" p)) then
    run! _ := set_status job "awaiting_proof_witness" "burn validated; note witness not provided to relayer (prover path)" in
    ret (JObj [("validated", JBool true); ("burnTxHash", JStr burnTxHash); ("sender", raw_prop "sender" v); ("amount6", JStr (toString amount6));
               ("state", JStr "burn_validated"); ("note", JStr "supply coin witness via prover path to complete mint/forward/register")])
  else
    run! _ := set_status job "completing_stellar_side" "attestation + mint_forward + proof + register" in
    run! coin := coinFromPath (String_prop "coinPath" p) in
    run! r := call (PostUserBurnInbound (JObj [("burnTxHash", JStr burnTxHash); ("pool", JStr pool); ("amount6", JNum amount6);
                     ("commitmentHex", JStr (String_prop "commitment" p));
                     ("encryptedNotePayloadHashHex", JStr (String_prop "encryptedNotePayloadHashHex" p));
                     ("policyIdHex", JStr (String_prop "policyIdHex" p)); ("newRootHex", JStr (String_prop "newRootHex" p)); ("coin", coin)])) in
    run! _ := set_status job "note_registered" ("leaf " +:+ String_prop "leafIndex" r) in
    ret (JObj [("state", JStr "active"); ("burnTxHash", raw_prop "burnTxHash" r); ("mintForwardTxHash", raw_prop "mintForwardTxHash" r);
               ("receiveDepositTxHash", raw_prop "receiveDepositTxHash" r); ("root", raw_prop "root" r);
               ("leafIndex", raw_prop "leafIndex" r); ("commitment", JStr (String_prop "commitment" p)); ("amount7", raw_prop "amount7" r)]).

(** ** Submissions *)

Definition withdraw_submit (job : ServiceJob) (p : json) : M json :=
  if is_truthy (prop "signedRawTx" p) then
    run! _ := set_status job "broadcasting" ("broadcast signed " +:+ job_type job +:+ " (Arc)") in
    run! r := call (BroadcastSignedTx (String_prop "signedRawTx" p)) in
    ret (JObj [("txHash", raw_prop "hash" r); ("status", raw_prop "status" r)])
  else if is_truthy (prop "signedXdr" p) then
    run! _ := set_status job "broadcasting" ("broadcast signed " +:+ job_type job +:+ " (Stellar)") in
    run! r := call (BroadcastSignedXdr (String_prop "signedXdr" p)) in
    ret (JObj [("txHash", raw_prop "hash" r); ("status", raw_prop "status" r)])
  else throw (job_type job +:+ " requires a client-signed payload: signedRawTx (Arc) or signedXdr (Stellar)").

(** [BigInt(b.k)] *)
Definition bigint_prop (k : string) (b : json) : M Z :=
  match prop k b ≫= BigInt_json with Some z => ret z | None => throw "Cannot convert to a BigInt" end.

(** The integer conversions of every element, in order. *)
Fixpoint check_batch (l : list json) : M unit :=
  match l with
  | [] => ret tt
  | b :: l =>
      run! _ := bigint_prop "channelId" b in
      run! _ := bigint_prop "expiryBlock" b in
      run! _ := bigint_prop "cumulative" b in
      check_batch l
  end.

(** For a batch that is no array only the error is modelled. *)
Definition stream_settle (job : ServiceJob) (p : json) : M json :=
  let escrow := env_get "ARC_STREAM_ESCROW_CONTRACT" env in
  let arcRpcUrl := env_get "ARC_RPC_URL" env in
  let relayerPrivateKey := env_get "ARC_RELAYER_PRIVATE_KEY" env in
  if bool_decide (escrow = "") || bool_decide (arcRpcUrl = "") || bool_decide (relayerPrivateKey = "") then
    throw "STREAM_SETTLE_BATCH missing ARC_STREAM_ESCROW_CONTRACT / ARC_RPC_URL / ARC_RELAYER_PRIVATE_KEY"
  else
    match raw_prop "batch" p with
    | JNull | JArr [] => throw "STREAM_SETTLE_BATCH: empty batch"
    | JArr batch =>
        run! _ := set_status job "submitting" ("StreamEscrow.settleBatch (" +:+ toString (Z.of_nat (length batch)) +:+ " channels)") in
        run! _ := check_batch batch in
        run! r := call (ArcInvoke escrow "settleBatch" [JArr (map (raw_prop "proof") batch); JArr (map (raw_prop "publicSignals") batch)]
                         (Some relayerPrivateKey)) in
        ret (JObj [("txHash", raw_prop "hash" r); ("settled", JNum (Z.of_nat (length batch)))])
    | _ => throw "TypeError: batch is not an array"
    end.

Definition rfq_settle (job : ServiceJob) (p : json) (pool : string) : M json :=
  if is_truthy (prop "proof" p) && is_truthy (prop "publicSignals" p) then
    run! _ := set_status job "submitting" "pool.rfqSettle (Arc)" in
    let arcPool := env_get "ARC_SHIELDED_POOL_CONTRACT" env in
    let arcRelayerKey := env_get "ARC_RELAYER_PRIVATE_KEY" env in
    if bool_decide (arcPool = "") || bool_decide (arcRelayerKey = "") then
      throw "RFQ_SETTLE_SUBMIT (Arc) missing ARC_SHIELDED_POOL_CONTRACT / ARC_RELAYER_PRIVATE_KEY"
    else
      run! r := call (ArcInvoke arcPool "rfqSettle"
                 [raw_prop "toSolver" p; raw_prop "quoteHash" p; raw_prop "intentHash" p; raw_prop "fillReceiptHash" p;
                  raw_prop "solverPubkey" p; raw_prop "solverSig" p; raw_prop "proof" p; raw_prop "publicSignals" p] (Some arcRelayerKey)) in
      ret (JObj [("txHash", raw_prop "hash" r)])
  else
    run! _ := set_status job "submitting" "pool.rfq_settle (Stellar)" in
    run! r := call (SorobanInvoke pool "rfq_settle"
               ["--to_solver"; String_prop "toSolver" p; "--proof_bytes"; String_prop "proofHex" p; "--pub_signals_bytes"; String_prop "publicHex" p;
                "--quote_hash"; String_prop "quoteHash" p; "--intent_hash"; String_prop "intentHash" p;
                "--fill_receipt_hash"; String_prop "fillReceiptHash" p; "--solver_pubkey"; String_prop "solverPubkey" p;
                "--solver_sig"; String_prop "solverSig" p] false) in
    ret (JObj [("txHash", raw_prop "txHash" r)]).

Definition atomic_swap (job : ServiceJob) (p : json) (pool : string) : M json :=
  run! _ := set_status job "submitting" "pool.rfq_settle_atomic_swap" in
  run! r := call (SorobanInvoke pool "rfq_settle_atomic_swap"
             ["--user_xlm_recipient"; String_prop "userXlmRecipient" p; "--solver_usdc_recipient"; String_prop "solverUsdcRecipient" p;
              "--proof_bytes"; String_prop "proofHex" p; "--pub_signals_bytes"; String_prop "publicHex" p;
              "--quote_hash"; String_prop "quoteHash" p; "--intent_hash"; String_prop "intentHash" p;
              "--fill_receipt_hash"; String_prop "fillReceiptHash" p; "--output_asset_id"; String_prop "outputAssetId" p;
              "--quoted_output"; String_prop "quotedOutput" p; "--min_output"; String_prop "minOutput" p;
              "--price_scaled"; String_prop "priceScaled" p; "--solver_pubkey"; String_prop "solverPubkey" p;
              "--solver_sig"; String_prop "solverSig" p] false) in
  ret (JObj [("txHash", raw_prop "txHash" r)]).

(** ** Outbound transfers *)

Definition outbound_attestation (job : ServiceJob) (p : json) : M json :=
  run! _ := set_status job "polling" "Circle attestation" in
  let apiBase := match jget "CCTP_ATTESTATION_API_BASE" env with Some b => b | None => "https://iris-api-sandbox.circle.com" end in
  run! att := call (FetchAttestation apiBase 27 (String_prop "burnTxHash" p)) in   (** [LOCKED_CCTP.stellarDomain] *)
  if negb (truthy att) then ret (JObj [("status", JStr "pending"); ("note", JStr "attestation not yet available; retry")])
  else ret (JObj [("status", raw_prop "status" att); ("message", raw_prop "message" att); ("attestation", raw_prop "attestation" att)]).

Variable messageTransmitter : string.   (** [LOCKED_CCTP.arbitrumSepoliaMessageTransmitter] *)

Definition outbound_mint (job : ServiceJob) (p : json) : M json :=
  if negb (is_truthy (prop "message" p)) || negb (is_truthy (prop "attestation" p)) then
    ret (JObj [("status", JStr "pending"); ("note", JStr "message/attestation required from CCTP_OUTBOUND_ATTESTATION")])
  else
    run! _ := set_status job "minting" "Arbitrum receiveMessage" in
    ret (JObj [("status", JStr "submit_via_arbitrum"); ("messageTransmitter", JStr messageTransmitter);
               ("note", JStr "receiveMessage(message, attestation) on Arbitrum Sepolia")]).

(** ** Committee settlement *)

(** The stored matches of a batch; [None] when there is no row or no database. *)
Variable stored_matches : string -> option (list MatchResult).
(** The [commitment] column of the pool's leaves; [None] without a database. *)
Variable pool_leaves : option (list string).
Variable unsafe_proofless : bool.   (** ENABLE_UNSAFE_PROOFLESS_MPC_SETTLE *)

(** The five fields the worker copies; prices are dropped. *)
Definition copy_match (m : MatchResult) : MatchResult :=
  {| intentAId := intentAId m; intentBId := intentBId m; matchedAmount7dp := matchedAmount7dp m; m_inputAsset := m_inputAsset m;
     m_outputAsset := m_outputAsset m; m_priceScaled := None; m_assetIn := None; m_assetOut := None |}.

Definition batch_matches (p : json) : list MatchResult :=
  match match stored_matches (String_prop "batchId" p) with Some l => map copy_match l | None => [] end with
  | [] =>
      if is_truthy (prop "intentAId" p) && is_truthy (prop "intentBId" p) then
        [{| intentAId := String_prop "intentAId" p; intentBId := String_prop "intentBId" p; matchedAmount7dp := String_prop "matchedAmount7dp" p;
            m_inputAsset := String_prop "inputAsset" p; m_outputAsset := String_prop "outputAsset" p;
            m_priceScaled := None; m_assetIn := None; m_assetOut := None |}]
      else []
  | l => l
  end.

(** [p.signatures], an array of objects with three text fields. *)
Definition signature_of (v : json) : option NodeSignature :=
  match prop "nodeId" v, prop "signingPubkey" v, prop "signature" v with
  | Some (JStr n), Some (JStr k), Some (JStr s) => Some {| ns_nodeId := n; ns_signingPubkey := k; signature := s |}
  | _, _, _ => None
  end.
Fixpoint signatures_of (l : list json) : option (list NodeSignature) :=
  match l with
  | [] => Some []
  | v :: l => s ← signature_of v; r ← signatures_of l; Some (s :: r)
  end.

Definition batch_of (p : json) (sigs : list NodeSignature) : SignedMatchBatch :=
  {| batchId := String_prop "batchId" p; sb_sessionId := String_prop "sessionId" p; batchHash := String_prop "batchHash" p;
     matches := batch_matches p; signatures := sigs |}.

Fixpoint texts_of (l : list json) : option (list string) :=
  match l with [] => Some [] | JStr s :: l => r ← texts_of l; Some (s :: r) | _ => None end.

Fixpoint chain_nodes (i : nat) (keys : list string) : list CommitteeNodeInfo :=
  match keys with
  | [] => []
  | k :: keys =>
      {| ni_nodeId := "chain-" +:+ toString (Z.of_nat i); encryptionPubkey := ""; signingPubkey := toLowerCase k |} :: chain_nodes (S i) keys
  end.

Definition is_arc (p : json) : bool := is_truthy (prop "proof" p) && is_truthy (prop "publicSignals" p).

Definition keys_to_committee (r : json) (empty : string) : M (list CommitteeNodeInfo) :=
  match r with
  | JArr [] => throw empty
  | JArr l => match texts_of l with Some keys => ret (chain_nodes 0 keys) | None => throw "TypeError" end
  | _ => throw "TypeError"
  end.

(** The committee registered on chain. *)
Definition pin_committee (p : json) (pool : string) : M (list CommitteeNodeInfo) :=
  if is_arc p then
    let arcPool := env_get "ARC_SHIELDED_POOL_CONTRACT" env in
    if bool_decide (arcPool = "") then throw "MPC_SETTLE_SUBMIT (Arc) missing ARC_SHIELDED_POOL_CONTRACT to pin on-chain committee"
    else catch (run! r := call (ArcInvoke arcPool "getCommittee" [] None) in
                keys_to_committee (raw_prop "returnValue" r) "on-chain committee is empty — call pool.setCommittee() first")
               (fun e => throw ("MPC batch " +:+ String_prop "batchId" p +:+ ": failed to pin committee from pool.getCommittee() (Arc): " +:+ e))
  else
    catch (run! r := call (SorobanInvoke pool "get_committee" [] true) in
           match JSON_parse (String_prop "returnValue" r) with
           | Some v => keys_to_committee v "on-chain committee is empty — call pool.set_committee() first"
           | None => throw "SyntaxError"
           end)
          (fun e => throw ("MPC batch " +:+ String_prop "batchId" p +:+ ": failed to pin committee from pool.get_committee(): " +:+ e)).

Definition json_length (v : json) : Z := match v with JArr l => Z.of_nat (length l) | JStr s => Z.of_nat (String.length s) | _ => 0 end.

Definition submit_arc (job : ServiceJob) (p : json) (sigs : list NodeSignature) : M json :=
  let arcPool := env_get "ARC_SHIELDED_POOL_CONTRACT" env in
  let arcRelayerKey := env_get "ARC_RELAYER_PRIVATE_KEY" env in
  if bool_decide (arcPool = "") || bool_decide (arcRelayerKey = "") then
    throw "MPC_SETTLE_SUBMIT (Arc) missing ARC_SHIELDED_POOL_CONTRACT / ARC_RELAYER_PRIVATE_KEY"
  else
    let method := if json_length (raw_prop "publicSignals" p) =? 20 then "mpcSettlePriced" else "mpcSettle" in
    run! _ := set_status job "submitting" ("pool." +:+ method +:+ " match[" +:+ String_prop "matchIndex" p +:+ "] (Arc)") in
    run! r := call (ArcInvoke arcPool method
               [JStr (toBytes32 (String_prop "batchHash" p)); JArr (map (fun s => JStr (toBytes32 (ns_signingPubkey s))) sigs);
                JArr (map (fun s => JStr (toBytes32 (signature s))) sigs); raw_prop "proof" p; raw_prop "publicSignals" p] (Some arcRelayerKey)) in
    ret (JObj [("settled", JBool true); ("onChain", JBool true); ("batchId", raw_prop "batchId" p); ("matchIndex", raw_prop "matchIndex" p);
               ("txHash", raw_prop "hash" r); ("zkProof", JObj [("generated", JBool true); ("verified", JBool true)]);
               ("note", JStr ("pool." +:+ method +:+ " confirmed with ZK proof (Arc)"))]).

(** [BigInt(h.startsWith("0x") ? h : "0x" + h).toString()] *)
Definition toDecimal (h : string) : result string :=
  match BigInt (toBytes32 h) with Some z => Ok (toString z) | None => Err "SyntaxError: Cannot convert to a BigInt" end.

Fixpoint all_decimal (l : list string) : result (list string) :=
  match l with [] => Ok [] | h :: l => let! d := toDecimal h in let! r := all_decimal l in Ok (d :: r) end.

(** A row that is no integer is caught like an unavailable database. *)
Definition leaves_decimal : list string :=
  match pool_leaves with None => [] | Some l => match all_decimal l with Ok d => d | Err _ => [] end end.

Definition computeMpcRoot (outA outB : string) : M string :=
  run! a := lift (toDecimal outA) in
  run! b := lift (toDecimal outB) in
  run! out := call (ComputeRoot (JObj [("commitments", JArr (map JStr (leaves_decimal ++ [a; b]))); ("scope", JStr "mpc_settle")])) in
  run! z := bigint_or_throw (trim (text_of out)) in
  ret (padStart64 (toString16 z)).

Definition coin_file (path : string) : M json := run! raw := call (ReadFile path) in coin_json path raw.

(** [None] when the proof was not attempted or its generation failed. *)
Definition generate_proof (job : ServiceJob) (p : json) : M (option json) :=
  if is_truthy (prop "coinAPath" p) && is_truthy (prop "coinBPath" p) && is_truthy (prop "assocPath" p) then
    catch (run! _ := set_status job "proving" ("generating mpc_settlement ZK proof for batch " +:+ String_prop "batchId" p) in
           run! a := coin_file (String_prop "coinAPath" p) in
           run! b := coin_file (String_prop "coinBPath" p) in
           run! proof := call (BuildMpcProof (JObj [("coinA", a); ("coinB", b); ("commitmentsDecimal", JArr (map JStr leaves_decimal));
                          ("assocPath", JStr (String_prop "assocPath" p));
                          ("scope", JStr (match prop "scope" p with
                                          | None | Some JNull => match jget "POOL_SCOPE" env with Some s => s | None => "shade-pool-testnet-v1" end
                                          | Some v => to_primitive v end));
                          ("batchHashHex", JStr (String_prop "batchHash" p)); ("poolId", JStr (String_or "0" "poolId" p));
                          ("chainId", JStr (String_or "27" "chainId" p)); ("matchedAmount7dp", JStr (String_prop "matchedAmount7dp" p));
                          ("deadlineLedger", JStr (String_or "0" "deadlineLedger" p))])) in
           run! _ := set_status job "proof_ready" ("ZK proof generated — locally verified: " +:+ String_prop "locallyVerified" proof
                      +:+ ", nullifierA: " +:+ bytes_take 10 (String_prop "nullifierHashAHex" proof) +:+ "…") in
           ret (Some proof))
          (fun _ => ret None)
  else ret None.

(** The proof and public signals, when both came back non-empty. *)
Definition proof_hex (k : string) (proof : option json) : option string :=
  match proof with Some r => if is_truthy (prop k r) then Some (String_prop k r) else None | None => None end.

Definition proofless_error : string :=
  "mpc_settlement proof generation failed or circuit artifacts missing; refusing to submit proofless mpc_settle (build circuits/mpc_settlement and supply coin/assoc witness paths; ENABLE_UNSAFE_PROOFLESS_MPC_SETTLE is dev-only and must never be used in E2E acceptance)".

Definition quoted_or_null (o : option string) : string := match o with Some h => quote h | None => "null" end.

Definition submit_stellar (job : ServiceJob) (p : json) (pool : string) (sigs : list NodeSignature) : M json :=
  run! proof := generate_proof job p in
  let zkProofHex := proof_hex "proofHex" proof in
  let zkPublicHex := proof_hex "publicHex" proof in
  if negb (is_truthy (prop "nullifierA" p)) || negb (is_truthy (prop "nullifierB" p)) || negb (is_truthy (prop "outputCommitmentA" p))
     || negb (is_truthy (prop "outputCommitmentB" p)) then
    throw ("MPC batch " +:+ String_prop "batchId" p +:+ " match[" +:+ String_prop "matchIndex" p +:+ "]: note data missing from DB — intent not submitted through API")
  else if (negb (is_Some_b zkProofHex) || negb (is_Some_b zkPublicHex)) && negb unsafe_proofless then throw proofless_error
  else
    run! _ := set_status job "submitting" ("pool.mpc_settle match[" +:+ String_prop "matchIndex" p +:+ "]") in
    run! newRoot := computeMpcRoot (String_prop "outputCommitmentA" p) (String_prop "outputCommitmentB" p) in
    run! r := call (SorobanInvoke pool "mpc_settle"
               ["--nullifier_a"; stripHex (String_prop "nullifierA" p); "--nullifier_b"; stripHex (String_prop "nullifierB" p);
                "--output_commitment_a"; stripHex (String_prop "outputCommitmentA" p);
                "--output_commitment_b"; stripHex (String_prop "outputCommitmentB" p); "--new_root"; newRoot;
                "--batch_hash"; stripHex (String_prop "batchHash" p);
                "--signer_pubkeys"; stringify (JArr (map (fun s => JStr (stripHex (ns_signingPubkey s))) sigs));
                "--signatures"; stringify (JArr (map (fun s => JStr (stripHex (signature s))) sigs));
                "--proof_bytes"; quoted_or_null zkProofHex; "--pub_signals_bytes"; quoted_or_null zkPublicHex] false) in
    ret (JObj [("settled", JBool true); ("onChain", JBool true); ("batchId", raw_prop "batchId" p); ("matchIndex", raw_prop "matchIndex" p);
               ("txHash", raw_prop "txHash" r); ("nullifierA", raw_prop "nullifierA" p); ("nullifierB", raw_prop "nullifierB" p);
               ("zkProof", if is_Some_b zkProofHex then JObj [("generated", JBool true); ("verified", raw_prop "locallyVerified" (default JNull proof))]
                           else JObj [("generated", JBool false)]);
               ("note", JStr (if is_Some_b zkProofHex
                              then "pool.mpc_settle confirmed with ZK proof (verified=" +:+ String_prop "locallyVerified" (default JNull proof) +:+ ")"
                              else "pool.mpc_settle submitted WITHOUT proof (ENABLE_UNSAFE_PROOFLESS_MPC_SETTLE dev-only; on-chain settle will reject this)"))]).

Definition mpc_settle (job : ServiceJob) (p : json) (pool : string) : M json :=
  run! committee := pin_committee p pool in
  match raw_prop "signatures" p with
  | JArr l =>
      match signatures_of l with
      | None => throw "TypeError: malformed signature"
      | Some sigs =>
          run! valid := lift (verifySignedBatch (batch_of p sigs) committee) in
          if negb valid then
            throw ("MPC batch " +:+ String_prop "batchId" p +:+ ": signature verification failed (" +:+ toString (Z.of_nat (length sigs)) +:+ " sigs, need ≥2/3)")
          else
            run! _ := set_status job "verified_signatures"
                       ("batch " +:+ String_prop "batchId" p +:+ " — " +:+ toString (Z.of_nat (length sigs)) +:+ " committee sigs valid") in
            if is_arc p then submit_arc job p sigs else submit_stellar job p pool sigs
      end
  | _ => throw "TypeError: signatures is not iterable"
  end.

(** ** Dispatch *)

Definition processRelayerJob (job : ServiceJob) : M json :=
  let p := payload job in
  let pool := match prop "pool" p with None | Some JNull => env_get "SHIELDED_POOL_CONTRACT" env | Some v => to_primitive v end in
  let relayerSecret := env_get "STELLAR_RELAYER_SECRET" env in
  if bool_decide (pool = "") || bool_decide (relayerSecret = "") then throw "relayer missing SHIELDED_POOL_CONTRACT / STELLAR_RELAYER_SECRET"
  else
    let t := job_type job in
    if bool_decide (t = "CCTP_INBOUND") || bool_decide (t ∈ INBOUND_ALIASES) then cctp_inbound job p pool
    else if bool_decide (t = "WITHDRAW_PUBLIC_SUBMIT") || bool_decide (t = "WITHDRAW_CCTP_BURN") then withdraw_submit job p
    else if bool_decide (t = "STREAM_SETTLE_BATCH") then stream_settle job p
    else if bool_decide (t = "RFQ_SETTLE_SUBMIT") then rfq_settle job p pool
    else if bool_decide (t = "RFQ_ATOMIC_SWAP_SUBMIT") then atomic_swap job p pool
    else if bool_decide (t = "CCTP_OUTBOUND_ATTESTATION") then outbound_attestation job p
    else if bool_decide (t = "CCTP_OUTBOUND_MINT") then outbound_mint job p
    else if bool_decide (t = "CCTP_INBOUND_AFTER_USER_BURN") then after_user_burn job p pool
    else if bool_decide (t = "MPC_SETTLE_SUBMIT") then mpc_settle job p pool
    else throw ("unknown relayer job type " +:+ t).

Definition runRelayerOnce (now : Z) (w : World) : World * bool :=
  match claimNext relayer RELAYER_JOB_TYPES now (w_jobs w) with
  | (_, None) => (w, false)
  | (db, Some job) =>
      match processRelayerJob job {| w_jobs := db; w_calls := w_calls w |} with
      | (w, Ok r) => ({| w_jobs := complete (job_id job) r "ready" (w_jobs w); w_calls := w_calls w |}, true)
      | (w, Err e) => ({| w_jobs := fail_job (job_id job) e 10 now (w_jobs w); w_calls := w_calls w |}, true)
      end
  end.

(** ** Which calls a computation can make *)

Definition emits {A} (Q : Call -> Prop) (m : M A) : Prop :=
  forall w, exists new, w_calls (m w).1 = (w_calls w ++ new)%list /\ Forall Q new.

Section Emits.
Context (Q : Call -> Prop).

Lemma emits_pure {A} (m : M A) : (forall w, w_calls (m w).1 = w_calls w) -> emits Q m.
Proof. intros H w. exists []. by rewrite H, app_nil_r. Qed.

Lemma emits_ret {A} (a : A) : emits Q (ret a).
Proof. by apply emits_pure. Qed.
Lemma emits_throw {A} e : emits Q (throw e : M A).
Proof. by apply emits_pure. Qed.
Lemma emits_lift {A} (r : result A) : emits Q (lift r).
Proof. by apply emits_pure. Qed.
Lemma emits_status job st d : emits Q (set_status job st d).
Proof. by apply emits_pure. Qed.

Lemma emits_call c : Q c -> emits Q (call c).
Proof. intros H w. exists [c]. split; [done|by repeat constructor]. Qed.

Lemma emits_bind {A B} (c : M A) (k : A -> M B) :
  emits Q c -> (forall a, (exists w, (c w).2 = Ok a) -> emits Q (k a)) -> emits Q (bindM c k).
Proof.
  intros Hc Hk w. unfold bindM. destruct (Hc w) as (new & E & HQ). destruct (c w) as [w1 [a|e]] eqn:Ec; cbn in E; [|by exists new].
  destruct (Hk a ltac:(exists w; by rewrite Ec) w1) as (new' & E' & HQ'). exists (new ++ new')%list.
  rewrite E', E, app_assoc. split; [done|]. by apply list.Forall_app.
Qed.

Lemma emits_catch {A} (c : M A) d : emits Q c -> (forall e, emits Q (d e)) -> emits Q (catch c d).
Proof.
  intros Hc Hd w. unfold catch. destruct (Hc w) as (new & E & HQ). destruct (c w) as [w1 [a|e]]; cbn in E; [by exists new|].
  destruct (Hd e w1) as (new' & E' & HQ'). exists (new ++ new')%list. rewrite E', E, app_assoc. split; [done|]. by apply list.Forall_app.
Qed.

End Emits.

Ltac emits :=
  repeat first
    [ apply emits_ret | apply emits_throw | apply emits_lift | apply emits_status
    | apply emits_bind; [|intros ? _] | apply emits_catch; [|intros ?]
    | apply emits_call; done
    | match goal with |- emits _ (match ?x with _ => _ end) => destruct x end
    | progress (unfold bigint_or_throw, bigint_prop, coinFromPath, coin_file, coin_json, computeMpcRoot, keys_to_committee) ].

(** A state-changing committee settlement. *)
Definition settle_call (c : Call) : bool :=
  match c with
  | ArcInvoke _ m _ (Some _) => bool_decide (m = "mpcSettle") || bool_decide (m = "mpcSettlePriced")
  | SorobanInvoke _ m _ false => bool_decide (m = "mpc_settle")
  | _ => false
  end.

Definition quiet (c : Call) : Prop := settle_call c = false.

Lemma check_batch_emits Q l : emits Q (check_batch l).
Proof. induction l as [|b l IH]; cbn [check_batch]; emits. exact IH. Qed.

Lemma other_jobs_quiet job p pool :
  emits quiet (cctp_inbound job p pool) /\ emits quiet (after_user_burn job p pool) /\ emits quiet (withdraw_submit job p) /\
  emits quiet (stream_settle job p) /\ emits quiet (rfq_settle job p pool) /\ emits quiet (atomic_swap job p pool) /\
  emits quiet (outbound_attestation job p) /\ emits quiet (outbound_mint job p).
Proof.
  split_and!; unfold cctp_inbound, after_user_burn, withdraw_submit, stream_settle, rfq_settle, atomic_swap, outbound_attestation, outbound_mint;
    emits; apply check_batch_emits.
Qed.

Lemma emits_weaken {A} (Q Q' : Call -> Prop) (m : M A) : (forall c, Q c -> Q' c) -> emits Q m -> emits Q' m.
Proof. intros H Hm w. destruct (Hm w) as (new & ? & HF). exists new. split; [done|]. by eapply list.Forall_impl. Qed.

Lemma root_quiet a b : emits quiet (computeMpcRoot a b).
Proof. unfold computeMpcRoot. emits. Qed.

Lemma pin_quiet p pool : emits quiet (pin_committee p pool).
Proof. unfold pin_committee. emits. Qed.

Lemma generate_quiet job p : emits quiet (generate_proof job p).
Proof. unfold generate_proof. emits. Qed.

(** ** Committee settlements are authorised *)

Lemma pin_indep p pool w w' : (pin_committee p pool w).2 = (pin_committee p pool w').2.
Proof.
  unfold pin_committee, catch, bindM, call, keys_to_committee, throw, ret. destruct (is_arc p).
  - case_bool_decide; [done|]. destruct (answer _) as [r|]; [|done]. destruct (raw_prop "returnValue" r) as [| | | |[|v l]|]; try done.
    by destruct (texts_of (v :: l)).
  - destruct (answer _) as [r|]; [|done]. destruct (JSON_parse _) as [v|]; [|done]. destruct v as [| | | |[|v l]|]; try done.
    by destruct (texts_of (v :: l)).
Qed.

Definition authorized (p : json) (pool : string) : Prop :=
  exists committee l sigs, (forall w, (pin_committee p pool w).2 = Ok committee) /\ raw_prop "signatures" p = JArr l /\
    signatures_of l = Some sigs /\ accepted_batch (batch_of p sigs) committee.

(** A Stellar settlement carries the proof and its public signals. *)
Definition carries_proof (c : Call) : Prop :=
  match c with
  | SorobanInvoke _ _ args _ => unsafe_proofless = true \/ exists h1 h2, args !! 17%nat = Some (quote h1) /\ args !! 19%nat = Some (quote h2)
  | _ => True
  end.

Lemma submit_arc_emits Q job p sigs : (forall c, settle_call c = true -> carries_proof c -> Q c) -> emits Q (submit_arc job p sigs).
Proof.
  intros HQ. unfold submit_arc. case_match; [apply emits_throw|]. apply emits_bind; [apply emits_status|intros _ _].
  apply emits_bind; [|intros ? _; apply emits_ret]. apply emits_call. apply HQ; [|done]. cbn. by destruct (_ =? _).
Qed.

Lemma submit_stellar_emits (Q : Call -> Prop) job p pool sigs :
  (forall c, quiet c -> Q c) -> (forall c, settle_call c = true -> carries_proof c -> Q c) -> emits Q (submit_stellar job p pool sigs).
Proof.
  intros Hq HQ. unfold submit_stellar. apply emits_bind.
  { eapply emits_weaken; [exact Hq|apply generate_quiet]. }
  intros proof _. case_match; [apply emits_throw|]. destruct (_ && negb unsafe_proofless) eqn:Ep; [apply emits_throw|].
  apply emits_bind; [apply emits_status|intros _ _]. apply emits_bind.
  { eapply emits_weaken; [exact Hq|apply root_quiet]. }
  intros newRoot _. apply emits_bind; [|intros ? _; apply emits_ret]. apply emits_call. apply HQ; [done|]. cbn [carries_proof].
  destruct unsafe_proofless; [by left|]. right. rewrite andb_true_r in Ep. apply orb_false_elim in Ep as [E1 E2].
  destruct (proof_hex "proofHex" proof) as [h1|]; [|done]. destruct (proof_hex "publicHex" proof) as [h2|]; [|done]. by exists h1, h2.
Qed.

Lemma mpc_settle_emits job p pool :
  emits (fun c => settle_call c = true -> authorized p pool /\ carries_proof c) (mpc_settle job p pool).
Proof.
  assert (forall c, quiet c -> settle_call c = true -> authorized p pool /\ carries_proof c) as Hq.
  { intros c H1 H2. unfold quiet in H1. congruence. }
  unfold mpc_settle. apply emits_bind.
  { eapply emits_weaken; [exact Hq|apply pin_quiet]. }
  intros committee [w0 Hpin]. destruct (raw_prop "signatures" p) as [| | | |l|] eqn:El; try apply emits_throw.
  destruct (signatures_of l) as [sigs|] eqn:Es; [|apply emits_throw].
  apply emits_bind; [apply emits_lift|]. intros valid [w1 Hv]. cbn in Hv. destruct valid; cbn [negb]; [|apply emits_throw].
  assert (authorized p pool) as Hauth.
  { exists committee, l, sigs. split_and!; try done; [intros w; by rewrite (pin_indep p pool w w0)|]. by apply verifySignedBatch_iff. }
  apply emits_bind; [apply emits_status|intros _ _]. destruct (is_arc p).
  - apply submit_arc_emits. by auto.
  - apply submit_stellar_emits; [exact Hq|]. by auto.
Qed.

(** A settlement that was sent and answered. *)
Definition confirmed (w : World) (r : json) : Prop :=
  exists c v, c ∈ w_calls w /\ settle_call c = true /\ answer c = Ok v /\ prop "settled" r = Some (JBool true) /\
    (prop "txHash" r = Some (raw_prop "hash" v) \/ prop "txHash" r = Some (raw_prop "txHash" v)).

Lemma call_ret_confirmed c (f : json -> json) w w' r : settle_call c = true ->
  (forall v, prop "settled" (f v) = Some (JBool true) /\
     (prop "txHash" (f v) = Some (raw_prop "hash" v) \/ prop "txHash" (f v) = Some (raw_prop "txHash" v))) ->
  bindM (call c) (fun v => ret (f v)) w = (w', Ok r) -> confirmed w' r.
Proof.
  intros Hs Hf H. apply bindM_Ok in H as (v & w1 & Hc & Hr). unfold call in Hc. injection Hc as <- Hv. injection Hr as <- <-.
  destruct (Hf v) as [? ?]. exists c, v. split_and!; try done. cbn. apply elem_of_app. right. by apply list_elem_of_singleton.
Qed.

Lemma submit_arc_confirmed job p sigs w w' r : submit_arc job p sigs w = (w', Ok r) -> confirmed w' r.
Proof.
  unfold submit_arc. case_match; [done|]. intros (_ & w1 & _ & Hx)%bindM_Ok.
  eapply call_ret_confirmed; [|intros v|exact Hx]; [cbn; by destruct (_ =? _)|]. by split; [|left].
Qed.

Lemma submit_stellar_confirmed job p pool sigs w w' r : submit_stellar job p pool sigs w = (w', Ok r) -> confirmed w' r.
Proof.
  unfold submit_stellar. intros (proof & w1 & _ & Hx)%bindM_Ok. case_match; [done|]. case_match; [done|].
  apply bindM_Ok in Hx as (_ & w2 & _ & Hx). apply bindM_Ok in Hx as (root & w3 & _ & Hx).
  eapply call_ret_confirmed; [|intros v|exact Hx]; [done|]. by split; [|right].
Qed.

Lemma mpc_settle_confirmed job p pool w w' r : mpc_settle job p pool w = (w', Ok r) -> confirmed w' r.
Proof.
  unfold mpc_settle. intros (committee & w1 & _ & H)%bindM_Ok. destruct (raw_prop "signatures" p) as [| | | |l|]; try done.
  destruct (signatures_of l) as [sigs|]; [|done]. apply bindM_Ok in H as (valid & w2 & _ & H). destruct valid; [|done]. cbn [negb] in H.
  apply bindM_Ok in H as (_ & w3 & _ & H). destruct (is_arc p); [by eapply submit_arc_confirmed|by eapply submit_stellar_confirmed].
Qed.

Definition job_pool (job : ServiceJob) : string :=
  match prop "pool" (payload job) with None | Some JNull => env_get "SHIELDED_POOL_CONTRACT" env | Some v => to_primitive v end.

Lemma quiet_weaken {A} p pool (m : M A) : emits quiet m -> emits (fun c => settle_call c = true -> authorized p pool /\ carries_proof c) m.
Proof. apply emits_weaken. intros c H1 H2. unfold quiet in H1. congruence. Qed.

Lemma process_emits job :
  emits (fun c => settle_call c = true -> authorized (payload job) (job_pool job) /\ carries_proof c) (processRelayerJob job).
Proof.
  unfold processRelayerJob. fold (job_pool job).
  destruct (other_jobs_quiet job (payload job) (job_pool job)) as (H1 & H2 & H3 & H4 & H5 & H6 & H7 & H8).
  repeat (case_match; [first [apply emits_throw|by apply quiet_weaken|apply mpc_settle_emits]|]). apply emits_throw.
Qed.

Lemma process_mpc job w w' r : job_type job = "MPC_SETTLE_SUBMIT" -> processRelayerJob job w = (w', Ok r) ->
  mpc_settle job (payload job) (job_pool job) w = (w', Ok r).
Proof.
  intros Ht. unfold processRelayerJob. rewrite Ht. fold (job_pool job).
  destruct (bool_decide (job_pool job = "") || bool_decide (env_get "STELLAR_RELAYER_SECRET" env = "")); [done|]. intros H. exact H.
Qed.

(** ** Keys read from the EVM contract *)

Lemma has_0x_app k : has_0x k = true -> exists t, k = "0x" +:+ t.
Proof.
  unfold has_0x. destruct k as [|a [|b t]]; [done|..]; cbn [strip_prefix].
  - by destruct (Ascii.eqb "0" a).
  - destruct (Ascii.eqb_spec "0" a) as [<-|]; [|done]. destruct (Ascii.eqb_spec "x" b) as [<-|]; [|done]. by exists t.
Qed.

Lemma chain_nodes_keys i keys : map signingPubkey (chain_nodes i keys) = map toLowerCase keys.
Proof. revert i. induction keys as [|k keys IH]; intros i; [done|]. cbn. by rewrite IH. Qed.

Lemma chain_nodes_length i keys : length (chain_nodes i keys) = length keys.
Proof. revert i. induction keys as [|k keys IH]; intros i; [done|]. cbn. by rewrite IH. Qed.

(** With prefixed keys no batch is ever accepted. *)
Lemma prefixed_keys_reject b keys : (forall m sg, sign_verify m sg "" <> Ok true) -> keys <> [] ->
  Forall (fun k => has_0x k = true) keys -> ~ accepted_batch b (chain_nodes 0 keys).
Proof.
  intros Hv Hne H0 (HA & _ & Hq). rewrite chain_nodes_length in Hq.
  destruct (signatures b) as [|sg sigs].
  { cbn in Hq. pose proof (ceil_two_thirds_spec (length keys)). destruct keys; [done|]. cbn in *. lia. }
  apply Forall_inv in HA as [Hin Hver]. rewrite chain_nodes_keys in Hin. apply elem_of_map_iff in Hin as (k & Ek & Hk).
  rewrite list.Forall_forall in H0. destruct (has_0x_app k (H0 k Hk)) as [t ->]. rewrite lower_0x in Ek.
  unfold verifyNodeSignature in Hver. rewrite <- Ek, hex_decode_0x in Hver. by apply Hv in Hver.
Qed.

Lemma texts_of_ne v l keys : texts_of (v :: l) = Some keys -> keys <> [].
Proof. cbn. destruct v; try done. destruct (texts_of l); [|done]. by intros [= <-]. Qed.

Lemma pin_arc p pool committee v w : is_arc p = true -> (pin_committee p pool w).2 = Ok committee ->
  answer (ArcInvoke (env_get "ARC_SHIELDED_POOL_CONTRACT" env) "getCommittee" [] None) = Ok v ->
  exists l keys, raw_prop "returnValue" v = JArr l /\ texts_of l = Some keys /\ keys <> [] /\ committee = chain_nodes 0 keys.
Proof.
  intros Harc Hp Ha. unfold pin_committee in Hp. rewrite Harc in Hp. case_bool_decide; [done|].
  unfold catch, bindM, call, keys_to_committee, throw, ret in Hp. rewrite Ha in Hp.
  destruct (raw_prop "returnValue" v) as [| | | |[|x l]|]; try done. destruct (texts_of (x :: l)) as [keys|] eqn:E; [|done].
  injection Hp as <-. exists (x :: l), keys. split_and!; try done. by eapply texts_of_ne.
Qed.

End Relayer.

(** ** Examples *)

(** The toy scheme with the key-size check of the library. *)
Definition strictNacl : Nacl := {|
  box_public := @box_public toyNacl; sign_public := @sign_public toyNacl; box := @box toyNacl; box_open := @box_open toyNacl;
  sign_detached := @sign_detached toyNacl;
  sign_verify := fun m s pk => if bool_decide (pk = "") then Err "bad public key size" else @sign_verify toyNacl m s pk;
  sha256 := @sha256 toyNacl |}.

Definition toy_relayer_env : EnvMap :=
  [("SHIELDED_POOL_CONTRACT", "C"); ("STELLAR_RELAYER_SECRET", "S"); ("ARC_SHIELDED_POOL_CONTRACT", "0xpool"); ("ARC_RELAYER_PRIVATE_KEY", "0xkey")].

Definition toy_answer (c : Call) : result json :=
  match c with
  | ArcInvoke _ "getCommittee" _ _ => Ok (JObj [("returnValue", JArr [JStr "0xab"; JStr "0xcd"])])
  | _ => Ok (JObj [("hash", JStr "0xh")])
  end.

Definition toy_mpc_job : ServiceJob :=
  {| job_id := "j"; job_type := "MPC_SETTLE_SUBMIT"; queue := relayer; idempotency_key := None;
     payload := JObj [("batchId", JStr "b"); ("proof", JStr "p"); ("publicSignals", JArr []); ("signatures", JArr [])];
     job_status := "claimed"; attempts := 1; max_attempts := 3; job_result := None; job_error := None; available_at := 0; created_at := 0 |}.

(** ** Properties *)


(** The Arc settlement path cannot succeed: the contract returns its
    committee as 0x-prefixed hexadecimal, the worker compares these texts with
    the signers' keys and decodes the same text as hexadecimal, which yields the
    empty key that the signature library rejects; so whatever the batch and its
    signatures, the job fails and nothing is sent. *)
Theorem arc_mpc_settlement_always_fails (N : Nacl) (answer : Call -> result json) (env : EnvMap) (transmitter : string)
    (stored : string -> option (list MatchResult)) (leaves : option (list string)) (unsafe : bool) (job : ServiceJob) (w : World)
    (v : json) (l : list json) (keys : list string) :
  (forall m sg, sign_verify m sg "" <> Ok true) ->
  job_type job = "MPC_SETTLE_SUBMIT" -> is_arc (payload job) = true ->
  answer (ArcInvoke (env_get "ARC_SHIELDED_POOL_CONTRACT" env) "getCommittee" [] None) = Ok v ->
  raw_prop "returnValue" v = JArr l -> texts_of l = Some keys -> Forall (fun k => has_0x k = true) keys ->
  let res := processRelayerJob answer env transmitter stored leaves unsafe job w in
  (exists e, res.2 = Err e) /\ exists new, w_calls res.1 = (w_calls w ++ new)%list /\ Forall (fun c => settle_call c = false) new.
Proof.
  intros Hv Ht Harc Ha Hl Hk H0 res.
  assert (~ authorized answer env stored (payload job) (job_pool env job)) as Hno.
  { intros (committee & l' & sigs & Hpin & _ & _ & Hacc).
    destruct (pin_arc answer env (payload job) (job_pool env job) committee v w Harc (Hpin w) Ha) as (l2 & keys2 & Hl2 & Hk2 & Hne & ->).
    rewrite Hl in Hl2. injection Hl2 as <-. rewrite Hk in Hk2. injection Hk2 as <-.
    by apply (prefixed_keys_reject (batch_of stored (payload job) sigs) keys). }
  destruct (process_emits answer env transmitter stored leaves unsafe job w) as (new & Hnew & HF).
  assert (Forall (fun c => settle_call c = false) new) as Hquiet.
  { eapply list.Forall_impl; [exact HF|]. intros c Hc. cbn in Hc. destruct (settle_call c); [|done]. by destruct (Hc eq_refl). }
  split; [|by exists new]. unfold res. destruct (processRelayerJob _ _ _ _ _ _ job w) as [w' [r|e]] eqn:E; [|by exists e]. exfalso.
  apply process_mpc in E; [|done]. unfold mpc_settle in E. apply bindM_Ok in E as (committee & w1 & Hpin & E).
  destruct (raw_prop "signatures" (payload job)) as [| | | |ls|] eqn:Els; try done.
  destruct (signatures_of ls) as [sigs|] eqn:Esg; [|done]. apply bindM_Ok in E as (valid & w2 & Hver & E). injection Hver as _ Hver.
  destruct valid; [|done]. apply Hno. exists committee, ls, sigs. split_and!; try done; [|by apply verifySignedBatch_iff].
  intros w0. rewrite (pin_indep answer env (payload job) (job_pool env job) w0 w). by rewrite Hpin.
Qed.

Lemma arc_mpc_settlement_always_fails_witness :
  exists e, (@processRelayerJob strictNacl toy_answer toy_relayer_env "" (fun _ => None) None false toy_mpc_job
               {| w_jobs := emptyDb; w_calls := [] |}).2 = Err e.
Proof.
  apply (arc_mpc_settlement_always_fails strictNacl toy_answer toy_relayer_env "" (fun _ => None) None false toy_mpc_job
           {| w_jobs := emptyDb; w_calls := [] |} (JObj [("returnValue", JArr [JStr "0xab"; JStr "0xcd"])]) [JStr "0xab"; JStr "0xcd"] ["0xab"; "0xcd"]).
  - intros m sg. cbn. discriminate.
  - reflexivity.
  - reflexivity.
  - reflexivity.
  - reflexivity.
  - reflexivity.
  - repeat constructor.
Defined.
