(* ===== verification/Sdk.v ===== *)
(** The browser's side of private matching (packages/sdk/src/mpc.ts): splitting
    an amount into encrypted shares and committing to values.

    The module repeats the field arithmetic and the sharing of
    packages/mpc-crypto; [split_agrees] shows that the two produce the same
    shares, so what the browser sends the committee can open.  Random bytes are
    arguments; NaCl and SHA-256 are the class [Nacl].  Texts are of one-byte
    characters. *)

From S2P Require Import Prelude Text Json Shamir Committee.
Local Open Scope string_scope.
Local Open Scope Z_scope.

Module SdkMpc.

(** ** Hexadecimal *)

Definition toHex (u : string) : string := hex_encode u.

(** The dot of a regular expression. *)
Definition dot (c : ascii) : bool := negb (Ascii.eqb c "010" || Ascii.eqb c "013").

(** [s.match(/.{2}/g) ?? []] *)
Fixpoint pairs (s : string) : list (ascii * ascii) :=
  match s with
  | String a (String b t as r) => if dot a && dot b then (a, b) :: pairs t else pairs r
  | _ => []
  end.

Definition hex_or_0 (c : ascii) : Z := default 0 (hex_val c).

(** [parseInt(pair, 16)] as an element of a [Uint8Array]: leading blanks and a
    sign are skipped, an invalid tail is ignored, [NaN] becomes zero. *)
Definition parse_pair (p : ascii * ascii) : ascii :=
  byte_of (match hex_val p.1 with
           | Some h => match hex_val p.2 with Some l => 16 * h + l | None => h end
           | None =>
               if Ascii.eqb p.1 "-" then (256 - hex_or_0 p.2) mod 256
               else if Ascii.eqb p.1 "+" || is_jws p.1 || Ascii.eqb p.1 "011" || Ascii.eqb p.1 "012" then hex_or_0 p.2
               else 0
           end).

Definition fromHex (h : string) : string :=
  fold_right (fun p s => String (parse_pair p) s) "" (pairs (stripHex h)).

(** ** Shamir over BN254 *)

Definition P : Z := 21888242871839275222246405745257275088548364400416034343698204186575808495617.

Definition modp (x : Z) : Z := Z.rem (Z.rem x P + P) P.

(** The supply holds the 256-bit values of the random bytes. *)
Definition randomFieldElement (draws : list Z) : option (Z * list Z) :=
  match draws with [] => None | d :: rest => Some (modp d, rest) end.

Fixpoint random_coeffs (n : nat) (draws : list Z) : option (list Z * list Z) :=
  match n with
  | O => Some ([], draws)
  | S n =>
      match randomFieldElement draws with
      | None => None
      | Some (c, draws) => match random_coeffs n draws with Some (cs, draws) => Some (c :: cs, draws) | None => None end
      end
  end.

Definition evaluate (coeffs : list Z) (x : Z) : Z := fold_right (fun c y => modp (y * x + c)) 0 coeffs.

(** [None] when the supply of draws runs out. *)
Definition shamirSplit (secret : Z) (threshold total : nat) (draws : list Z) : option (list Share) :=
  match random_coeffs (threshold - 1) draws with
  | None => None
  | Some (cs, _) =>
      let coeffs := modp secret :: cs in
      Some (map (fun i => let x := Z.of_nat i + 1 in mkShare x (evaluate coeffs x)) (seq 0 total))
  end.

Section SdkMpc.
Context {N : Nacl}.

(** ** Encryption per node *)

Definition encryptShareForNode (share : Share) (recipientPubkeyHex nodeId : string) (ephemeral nonce : string) : result EncryptedShare :=
  let recipientPk := fromHex recipientPubkeyHex in
  let plaintext := stringify (JObj [("x", JStr (toString (x share))); ("y", JStr (toString (y share)))]) in
  let! ct := box plaintext nonce recipientPk ephemeral in
  Ok {| es_nodeId := nodeId; ciphertext := toHex ct; nonce := toHex nonce; senderPubkey := toHex (box_public ephemeral) |}.

Fixpoint encrypt_each (shares : list Share) (nodes : list CommitteeNodeInfo) (rnd : list (string * string)) : result (list EncryptedShare) :=
  match nodes, shares, rnd with
  | [], _, _ => Ok []
  | n :: nodes, s :: shares, (eph, nonce) :: rnd =>
      let! e := encryptShareForNode s (encryptionPubkey n) (ni_nodeId n) eph nonce in
      let! r := encrypt_each shares nodes rnd in Ok (e :: r)
  | _, _, _ => Err "TypeError: share is undefined"
  end.

Definition splitAndEncryptAmount (amount7dp : Z) (nodes : list CommitteeNodeInfo) (threshold : nat) (draws : list Z) (rnd : list (string * string))
    : option (result (list EncryptedShare)) :=
  match shamirSplit amount7dp threshold (length nodes) draws with
  | None => None
  | Some shares => Some (encrypt_each shares nodes rnd)
  end.

(** ** Commitments *)

Definition randomBlinding (bytes : string) : string := toHex bytes.
Definition buildValueCommitment (value blindingHex : string) : string := "0x" +:+ toHex (sha256 (value +:+ ":" +:+ blindingHex)).
Definition buildAmountCommitment (amount7dp : Z) (blindingHex : string) : string := buildValueCommitment (toString amount7dp) blindingHex.

(** ** Agreement with the committee's own splitting *)

Lemma P_eq : P = Shamir.P.
Proof. vm_compute. reflexivity. Qed.
Lemma modp_eq z : modp z = Shamir.modp z.
Proof. symmetry. transitivity (z mod Shamir.P); [apply modp_mod|]. symmetry. apply modp_mod. Qed.

Lemma pairs_hex s : pairs (hex_encode s) = map (fun c => (hex_char (byte_val c / 16), hex_char (byte_val c mod 16))) (String.list_ascii_of_string s).
Proof.
  induction s as [|c s IH]; [done|]. cbn [hex_encode pairs String.list_ascii_of_string map].
  assert (forall d, hex_val d <> None -> dot d = true) as Hd.
  { intros d Hd. unfold dot. destruct (Ascii.eqb_spec d "010"); [by subst|]. destruct (Ascii.eqb_spec d "013"); [by subst|]. done. }
  destruct (hex_byte c) as [H1 H2]. rewrite !Hd by congruence. cbn. by rewrite IH.
Qed.

Lemma fromHex_toHex s : fromHex (toHex s) = s.
Proof.
  unfold fromHex, toHex. replace (stripHex (hex_encode s)) with (hex_encode s).
  2:{ unfold stripHex. destruct (strip_prefix "0x" (hex_encode s)) as [t|] eqn:E; [|done].
      apply strip_prefix_Some in E. by destruct (hex_encode_not_0x s t). }
  rewrite pairs_hex. induction s as [|c s IH]; [done|]. cbn [String.list_ascii_of_string map fold_right]. rewrite IH. f_equal.
  unfold parse_pair. cbn [fst snd]. destruct (hex_byte c) as [-> ->].
  rewrite <- (byte_of_val c) at 3. f_equal. pose proof (Z.div_mod (byte_val c) 16). lia.
Qed.

(** Draws reduced first are accepted unchanged by the committee's sampler. *)
Lemma coeffs_agree n draws : draw_coeffs n (map modp draws) =
  match random_coeffs n draws with Some (cs, rest) => Some (cs, map modp rest) | None => None end.
Proof.
  revert draws. induction n as [|n IH]; intros draws; [done|]. cbn [draw_coeffs random_coeffs].
  destruct draws as [|d draws]; [done|]. cbn [map randomFieldElement Shamir.randomFieldElement].
  pose proof (modp_bounds d) as Hb. rewrite <- modp_eq in Hb. rewrite REJECTION_LIMIT_eq.
  destruct (Z.leb_spec (5 * Shamir.P) (modp d)); [lia|]. rewrite Z.rem_small by lia. rewrite IH.
  by destruct (random_coeffs n draws) as [[]|].
Qed.

Lemma evaluate_eq cs z : evaluate cs z = horner cs z.
Proof. unfold evaluate, horner. induction cs as [|c cs IH]; [done|]. cbn [fold_right]. by rewrite IH, modp_eq. Qed.

Lemma split_agrees secret t n draws : (2 <= t <= n)%nat ->
  Shamir.shamirSplit secret t n (map modp draws) = match shamirSplit secret t n draws with Some l => Some (Ok l) | None => None end.
Proof.
  intros Ht. unfold Shamir.shamirSplit, shamirSplit. destruct (Nat.ltb_spec t 2); [lia|]. destruct (Nat.ltb_spec n t); [lia|]. cbn [orb].
  rewrite coeffs_agree. destruct (random_coeffs (t - 1) draws) as [[cs rest]|]; [|done]. do 2 f_equal.
Qed.

Lemma encrypt_agrees shares kps rnd :
  encrypt_each shares (map nodePublicInfo kps) rnd = encrypt_all shares (map nodePublicInfo kps) rnd.
Proof.
  revert shares rnd. induction kps as [|kp kps IH]; intros [|s shares] rnd; [done..|]. cbn [map encrypt_each encrypt_all].
  destruct rnd as [|[eph nonce] rnd]; [done|]. rewrite IH.
  unfold encryptShareForNode, Committee.encryptShareForNode. cbn [nodePublicInfo encryptionPubkey].
  change (hex_encode (box_public (enc_secretKey kp))) with (toHex (box_public (enc_secretKey kp))). rewrite fromHex_toHex. unfold toHex.
  by rewrite hex_decode_encode.
Qed.

(** The browser's splitting is the committee's, on reduced draws. *)
Lemma sdk_split_is_committee_split amount kps t draws rnd : (2 <= t <= length kps)%nat ->
  splitAndEncryptAmount amount (map nodePublicInfo kps) t draws rnd =
  splitAmountForCommittee (toString amount) (map nodePublicInfo kps) t (map modp draws) rnd.
Proof.
  intros Ht. unfold splitAndEncryptAmount, splitAmountForCommittee. rewrite BigInt_toString, split_agrees by (by rewrite length_map).
  destruct (shamirSplit _ _ _ _) as [shares|]; [|done]. cbn [rbind]. by rewrite encrypt_agrees.
Qed.

End SdkMpc.

(** ** The coefficients are not uniform *)

(** Of the 256-bit draws, six map to a small field element and five to the
    others. *)
Lemma sdk_coefficient_bias v raw : 0 <= v < P -> 0 <= raw < 2 ^ 256 ->
  modp raw = v <-> exists j, 0 <= j < (if v <? 2 ^ 256 - 5 * P then 6 else 5) /\ raw = v + j * P.
Proof.
  intros Hv Hr. rewrite modp_eq, modp_mod, <- P_eq. assert (2 ^ 256 < 6 * P) as H6 by (vm_compute; reflexivity).
  assert (5 * P < 2 ^ 256) as H5 by (vm_compute; reflexivity). assert (0 < P) as HP by lia. split.
  - intros <-. exists (raw / P). pose proof (Z.div_mod raw P ltac:(lia)) as E. pose proof (Z.mod_pos_bound raw P HP). split; [|lia].
    split; [apply Z.div_pos; lia|]. assert (raw / P < 6) as Hq by (apply Z.div_lt_upper_bound; lia).
    destruct (Z.ltb_spec (raw mod P) (2 ^ 256 - 5 * P)); [done|]. destruct (Z.eq_dec (raw / P) 5) as [e|]; [rewrite e in E|]; lia.
  - intros (j & Hj & ->). rewrite Z.mod_add, Z.mod_small by lia. done.
Qed.

End SdkMpc.
