(* ===== verification/Intents.v ===== *)
(** The SDK's client of the API (packages/sdk/src/intents.ts): building and
    submitting a private intent, and polling quotes, settlements and deposits.

    The network answers through [fetch] and the clock through [clock], both given
    the history of the calls made so far. *)

From S2P Require Import Prelude Effects Text Json Committee Sdk.
Local Open Scope string_scope.
Local Open Scope Z_scope.

Module Intents.

Record IntentParams := {
  inputAsset : string; outputAsset : string; amountMode : string; amount7dp : string; minOutput7dp : string; expiryLedger : Z;
  noteCommitment : string; destination : string; policyId : option string; noteNullifier : option string; recipientCommitment : option string;
  encryptedShares : option (list EncryptedShare) }.

Record PrivateIntentBuildParams := {
  b_amount7dp : Z; b_minOutput7dp : Z; b_noteCommitment : string; b_noteNullifier : string; b_recipientCommitment : string;
  b_destinationAddress : string; b_inputAsset : string; b_outputAsset : string; b_expiryLedger : Z; b_policyId : option string }.

Record IntentBlindings := { amountBlinding : string; minOutputBlinding : string; destinationBlinding : string }.

(** What one call of [buildPrivateIntent] draws. *)
Record Randomness := { r_amount : string; r_minOutput : string; r_destination : string; r_field : list Z; r_boxes : list (string * string) }.

Inductive Call :=
| Fetch (method url : string) (headers : list (string * string)) (body : option string)
| ReadClock
| Delay (ms : Z).

Record Response := { status : Z; text : string }.

Definition M : Type -> Type := SE (list Call).

Definition member (k : string) (v : json) : json := default JNull (prop k v).
(** [obj.k] of a value that must not be null. *)
Definition get_prop (k : string) (v : json) : result json :=
  match v with JNull => Err "TypeError: Cannot read properties of null" | _ => Ok (member k v) end.

Definition share_json (e : EncryptedShare) : json := JObj
  [("nodeId", JStr (es_nodeId e)); ("ciphertext", JStr (ciphertext e)); ("nonce", JStr (nonce e)); ("senderPubkey", JStr (senderPubkey e))].

Definition zeros (n : nat) : string := "0x" +:+ String.concat "" (repeat "00" n).

Definition given (o : option string) : bool := match o with Some EmptyString | None => false | Some _ => true end.
Definition opt_field (k : string) (o : option string) : list (string * json) := match o with Some s => [(k, JStr s)] | None => [] end.

(** The body of [submit], with the fields [JSON.stringify] drops left out. *)
Definition submit_body (p : IntentParams) : json := JObj
  ([("intent_type", JStr "PRIVATE_RFQ"); ("version", JStr "1.0"); ("user_pubkey_commitment", JStr (noteCommitment p));
    ("input_asset", JStr (inputAsset p)); ("output_asset", JStr (outputAsset p)); ("amount_mode", JStr (amountMode p));
    ("amount_commitment", JStr (amount7dp p)); ("min_output_commitment", JStr (minOutput7dp p)); ("expiry_ledger", JNum (expiryLedger p));
    ("allowed_solvers_root", JStr (zeros 32)); ("compliance_policy_id", JStr (default "shade:default-testnet-policy:v1" (policyId p)));
    ("destination_commitment", JStr (destination p)); ("replay_domain", JStr "shade:stellar:testnet:rfq:v1"); ("signature", JStr (zeros 64))] ++
   match encryptedShares p with
   | Some ((_ :: _) as es) =>
       if given (noteNullifier p) then
         opt_field "note_nullifier" (noteNullifier p) ++ [("note_commitment", JStr (noteCommitment p))] ++
         opt_field "recipient_commitment" (recipientCommitment p) ++ [("encrypted_shares", JArr (map share_json es))]
       else []
   | _ => []
   end)%list.

(** The committee's public keys as the API answers them. *)
Definition node_of (v : json) : result CommitteeNodeInfo :=
  match prop "nodeId" v, prop "encryptionPubkey" v with
  | Some (JStr i), Some (JStr k) =>
      Ok {| ni_nodeId := i; encryptionPubkey := k; signingPubkey := match prop "signingPubkey" v with Some (JStr s) => s | _ => "" end |}
  | _, _ => Err "TypeError: malformed committee node"
  end.
Fixpoint nodes_of (l : list json) : result (list CommitteeNodeInfo) :=
  match l with [] => Ok [] | v :: l => let! n := node_of v in let! r := nodes_of l in Ok (n :: r) end.
Definition node_json (n : CommitteeNodeInfo) : json := JObj
  [("nodeId", JStr (ni_nodeId n)); ("encryptionPubkey", JStr (encryptionPubkey n)); ("signingPubkey", JStr (signingPubkey n))].

(** The payload and the blindings, once the committee is known. *)
Definition private_payload `{N : Nacl} (p : PrivateIntentBuildParams) (nodes : list CommitteeNodeInfo) (r : Randomness)
    : result (IntentParams * IntentBlindings) :=
  let ab := SdkMpc.randomBlinding (r_amount r) in
  let mb := SdkMpc.randomBlinding (r_minOutput r) in
  let db := SdkMpc.randomBlinding (r_destination r) in
  match SdkMpc.splitAndEncryptAmount (b_amount7dp p) nodes 2 (r_field r) (r_boxes r) with
  | None => Err "out of randomness"
  | Some shares =>
      let! es := shares in
      Ok ({| inputAsset := b_inputAsset p; outputAsset := b_outputAsset p; amountMode := "exact_in";
             amount7dp := SdkMpc.buildAmountCommitment (b_amount7dp p) ab; minOutput7dp := SdkMpc.buildAmountCommitment (b_minOutput7dp p) mb;
             expiryLedger := b_expiryLedger p; noteCommitment := b_noteCommitment p;
             destination := SdkMpc.buildValueCommitment (b_destinationAddress p) db; policyId := b_policyId p;
             noteNullifier := Some (b_noteNullifier p); recipientCommitment := Some (b_recipientCommitment p); encryptedShares := Some es |},
          {| amountBlinding := ab; minOutputBlinding := mb; destinationBlinding := db |})
  end.

Section IntentClient.
Context {N : Nacl}.
Variable fetch : list Call -> Call -> result Response.
Variable clock : list Call -> Z.
Variables (apiBase : string) (authToken : option string).

Definition headers : list (string * string) :=
  [("Content-Type", "application/json")] ++ (if given authToken then [("Authorization", "Bearer " +:+ default "" authToken)] else [])%list.

Definition send (c : Call) : M Response := fun h => ((h ++ [c])%list, fetch h c).
Definition read_clock : M Z := fun h => ((h ++ [ReadClock])%list, Ok (clock h)).
Definition delay (ms : Z) : M unit := fun h => ((h ++ [Delay ms])%list, Ok tt).

Definition res_ok (r : Response) : bool := (200 <=? status r) && (status r <? 300).
Definition res_json (r : Response) : M json := match JSON_parse (text r) with Some v => ret v | None => throw "SyntaxError: Unexpected token in JSON" end.

Definition get (path : string) : M json :=
  run! res := send (Fetch "GET" (apiBase +:+ path) headers None) in
  if negb (res_ok res) then throw ("GET " +:+ path +:+ ": " +:+ toString (status res) +:+ " " +:+ text res) else res_json res.

Definition post (path : string) (body : json) : M json :=
  run! res := send (Fetch "POST" (apiBase +:+ path) headers (Some (stringify body))) in
  if negb (res_ok res) then throw ("POST " +:+ path +:+ ": " +:+ toString (status res) +:+ " " +:+ text res) else res_json res.

Definition fetchCommittee : M json := run! data := get "/v1/mpc/committee" in lift (get_prop "nodes" data).

Definition buildPrivateIntent (p : PrivateIntentBuildParams) (r : Randomness) : M (IntentParams * IntentBlindings) :=
  run! nodes := fetchCommittee in
  match nodes with
  | JArr l => lift (let! ns := nodes_of l in private_payload p ns r)
  | _ => throw "TypeError: nodes is not an array"
  end.

Definition submit (p : IntentParams) : M json := post "/v1/intents" (submit_body p).

Definition acceptQuote (quoteId : string) : M json := post ("/v1/quotes/" +:+ quoteId +:+ "/accept") (JObj []).

(** ** Polling *)

(** [while (Date.now() < deadline) { try { probe } catch {} await delay }]: the
    probe's value, [Some None] after the deadline, [None] out of fuel. *)
Fixpoint poll_until (fuel : nat) (probe : M (option json)) (deadline intervalMs : Z) : M (option (option json)) :=
  match fuel with
  | O => ret None
  | S fuel =>
      run! t := read_clock in
      if t <? deadline then
        run! found := catch probe (fun _ => ret None) in
        match found with
        | Some v => ret (Some (Some v))
        | None => run! _ := delay intervalMs in poll_until fuel probe deadline intervalMs
        end
      else ret (Some None)
  end.

Definition start_poll (fuel : nat) (probe : M (option json)) (timeoutMs intervalMs : Z) : M (option (option json)) :=
  run! t := read_clock in poll_until fuel probe (t + timeoutMs) intervalMs.

(** [data.quotes?.[0]], when truthy *)
Definition first_quote (data : json) : result (option json) :=
  let! qs := get_prop "quotes" data in
  Ok (match qs with JArr (q :: _) => if truthy q then Some q else None | _ => None end).

Definition quote_probe (intentId : string) : M (option json) :=
  run! data := get ("/v1/intents/" +:+ intentId +:+ "/quotes") in lift (first_quote data).

Definition pollQuote (fuel : nat) (intentId : string) (timeoutMs intervalMs : Z) : M (option json) :=
  run! found := start_poll fuel (quote_probe intentId) timeoutMs intervalMs in
  match found with
  | None => ret None
  | Some (Some q) => ret (Some q)
  | Some None => throw ("pollQuote: no quote after " +:+ toString timeoutMs +:+ "ms for intent " +:+ intentId)
  end.

(** The answer when its [state] is one of the terminal ones. *)
Definition terminal_state (terminal : list string) (data : json) : result (option string) :=
  let! st := get_prop "state" data in
  Ok (match st with JStr s => if bool_decide (s ∈ terminal) then Some s else None | _ => None end).

Definition settlement_probe (intentId : string) : M (option json) :=
  run! data := get ("/v1/intents/" +:+ intentId) in
  run! st := lift (terminal_state ["settled"; "failed"; "expired"] data) in
  ret (match st with
       | Some s => Some (JObj ([("state", JStr s)] ++ match prop "tx_hash" data with Some h => [("txHash", h)] | None => [] end)%list)
       | None => None
       end).

Definition trackSettlement (fuel : nat) (intentId : string) (timeoutMs intervalMs : Z) : M (option json) :=
  run! found := start_poll fuel (settlement_probe intentId) timeoutMs intervalMs in
  ret (match found with
       | None => None
       | Some (Some s) => Some s
       | Some None => Some (JObj [("state", JStr "pending"); ("detail", JStr ("not settled after " +:+ toString timeoutMs +:+ "ms"))])
       end).

Definition deposit_probe (depositId : string) : M (option json) :=
  run! data := get ("/v1/deposits/" +:+ depositId) in
  run! st := lift (terminal_state ["registered"; "failed"] data) in
  ret (match st with Some _ => Some data | None => None end).

Definition trackDeposit (fuel : nat) (depositId : string) (timeoutMs intervalMs : Z) : M (option json) :=
  run! found := start_poll fuel (deposit_probe depositId) timeoutMs intervalMs in
  ret (match found with None => None | Some (Some d) => Some d | Some None => Some (JObj [("state", JStr "pending")]) end).

End IntentClient.
End Intents.
