(* ===== verification/Keys.v ===== *)
(** The committee's node keys (apps/mpc-committee/src/keys.ts): secrets encrypted
    at rest, and the loading of the keys when a node starts.

    The table is a list of rows; before each statement of a start, the rows other
    processes insert at that moment are added.  AES-256-GCM of node:crypto is the
    class [Aes256Gcm]; the order of the database's text collation is a variable. *)

From S2P Require Import Prelude Effects Text Json Committee.
Local Open Scope string_scope.
Local Open Scope Z_scope.

Class Aes256Gcm := {
  seal : string -> string -> string -> result (string * string);        (** key, iv, plaintext: ciphertext and tag *)
  unseal : string -> string -> string -> string -> result string        (** key, iv, tag, ciphertext *)
}.

Definition gcm_key (k : string) : Prop := String.length k = 32%nat.
Definition gcm_iv (iv : string) : Prop := String.length iv = 12%nat.

Class Aes256GcmLaws (G : Aes256Gcm) : Prop := {
  seal_opens : forall k iv m, gcm_key k -> gcm_iv iv ->
    exists c t, seal k iv m = Ok (c, t) /\ String.length t = 16%nat /\ unseal k iv t c = Ok m
}.

Module Keys.

Record KeyRow := { node_id : string; encryption_pubkey : string; encryption_secret : string; signing_pubkey : string; signing_secret : string }.

(** A node's key pairs with both halves, as tweetnacl returns them. *)
Record KeyPair := { kp_nodeId : string; enc_publicKey : string; enc_secret : string; sign_publicKey : string; sign_secret : string }.

(** What one iteration of the generating loop draws. *)
Record Draw := { d_box : string; d_sign : string; d_iv1 : string; d_iv2 : string }.

(** The table, and the rows that other processes insert before each of the
    statements to come. *)
Record World := { db : list KeyRow; others : list (list KeyRow) }.
Definition M : Type -> Type := SE World.

Definition insert_row (d : list KeyRow) (r : KeyRow) : list KeyRow :=
  if bool_decide (node_id r ∈ map node_id d) then d else (d ++ [r])%list.
Definition merge (d rs : list KeyRow) : list KeyRow := fold_left insert_row rs d.

Definition stmt {A} (f : list KeyRow -> list KeyRow * A) : M A := fun w =>
  let (d, a) := f (merge (db w) (hd [] (others w))) in ({| db := d; others := tl (others w) |}, Ok a).

(** [new Map(l)] *)
Definition Map_of {V} (l : list (string * V)) : jmap string V := fold_left (fun m kv => jset kv.1 kv.2 m) l [].

Definition loadEncryptionKey (secret : option string) : result string :=
  match secret with
  | Some hex => if Nat.eqb (String.length hex) 64 then Ok (hex_decode hex)
                else Err "MPC_KEY_ENCRYPTION_SECRET must be set to a 32-byte (64 hex char) key"
  | None => Err "MPC_KEY_ENCRYPTION_SECRET must be set to a 32-byte (64 hex char) key"
  end.

Section Keys.
Context {N : Nacl} {G : Aes256Gcm}.
Variable text_lt : string -> string -> bool.

Definition encryptSecret (plainHex key iv : string) : result string :=
  let! sealed := seal key iv (hex_decode plainHex) in
  Ok (hex_encode (iv +:+ sealed.2 +:+ sealed.1)).

Definition decryptSecret (encHex key : string) : result string :=
  let raw := hex_decode encHex in
  let iv := bytes_take 12 raw in
  let authTag := bytes_take 16 (bytes_drop 12 raw) in
  let ciphertext := bytes_drop 28 raw in
  let! plaintext := unseal key iv authTag ciphertext in
  Ok (hex_encode plaintext).

Definition rowToKeyPair (row : KeyRow) (encKey : string) : result KeyPair :=
  let! es := decryptSecret (encryption_secret row) encKey in
  let! ss := decryptSecret (signing_secret row) encKey in
  Ok {| kp_nodeId := node_id row; enc_publicKey := hex_decode (encryption_pubkey row); enc_secret := hex_decode es;
        sign_publicKey := hex_decode (signing_pubkey row); sign_secret := hex_decode ss |}.

Definition keyPairToRow (kp : KeyPair) (encKey iv1 iv2 : string) : result KeyRow :=
  let! es := encryptSecret (hex_encode (enc_secret kp)) encKey iv1 in
  let! ss := encryptSecret (hex_encode (sign_secret kp)) encKey iv2 in
  Ok {| node_id := kp_nodeId kp; encryption_pubkey := hex_encode (enc_publicKey kp); encryption_secret := es;
        signing_pubkey := hex_encode (sign_publicKey kp); signing_secret := ss |}.

Definition fresh_pair (id : string) (r : Draw) : KeyPair :=
  {| kp_nodeId := id; enc_publicKey := box_public (d_box r); enc_secret := d_box r;
     sign_publicKey := sign_public (d_sign r); sign_secret := d_sign r |}.

(** [select ... where node_id = any(ids) order by node_id] *)
Definition select_rows (ids : list string) (d : list KeyRow) : list KeyRow :=
  js_sort (fun a b => text_lt (node_id a) (node_id b)) (filter (fun r => node_id r ∈ ids) d).

(** The loop over the node ids; the iteration [i] draws [rnd i] when it has to
    generate. *)
Fixpoint generate (encKey : string) (existing : jmap string KeyPair) (rnd : nat -> Draw) (i : nat) (nodeIds : list string) (keypairs : list KeyPair)
    : M (list KeyPair) :=
  match nodeIds with
  | [] => ret keypairs
  | id :: nodeIds =>
      match jget id existing with
      | Some kp => generate encKey existing rnd (S i) nodeIds (keypairs ++ [kp])%list
      | None =>
          let kp := fresh_pair id (rnd i) in
          run! row := lift (keyPairToRow kp encKey (d_iv1 (rnd i)) (d_iv2 (rnd i))) in
          run! _ := stmt (fun d => (insert_row d row, tt)) in
          generate encKey existing rnd (S i) nodeIds (keypairs ++ [kp])%list
      end
  end.

Definition loadOrGenerateKeys (secret : option string) (nodeIds : list string) (rnd : nat -> Draw) : M (list KeyPair) :=
  run! encKey := lift (loadEncryptionKey secret) in
  run! _ := stmt (fun d => (d, tt)) in
  run! rows := stmt (fun d => (d, select_rows nodeIds d)) in
  if Nat.eqb (length rows) (length nodeIds) then
    let byId := Map_of (map (fun r => (node_id r, r)) rows) in
    lift (rmap (fun id => match jget id byId with
                          | Some row => rowToKeyPair row encKey
                          | None => Err "TypeError: Cannot read properties of undefined"
                          end) nodeIds)
  else
    run! kps := lift (rmap (fun r => rowToKeyPair r encKey) rows) in
    generate encKey (Map_of (map (fun kp => (kp_nodeId kp, kp)) kps)) rnd 0 nodeIds [].

(** ** The table *)

Definition keyed (d : list KeyRow) : Prop := NoDup (map node_id d).

Lemma insert_row_keyed d r : keyed d -> keyed (insert_row d r).
Proof.
  unfold keyed, insert_row. intros Hd. case_bool_decide as Hr; [done|]. rewrite map_app. apply list.NoDup_app. split_and!; [done| |apply NoDup_singleton].
  intros x Hx ->%list_elem_of_singleton. done.
Qed.

Lemma insert_row_grows d r : d ⊆ insert_row d r.
Proof. unfold insert_row. case_bool_decide; [done|]. intros x Hx. apply elem_of_app. by left. Qed.

Lemma merge_keyed rs d : keyed d -> keyed (merge d rs).
Proof. revert d. induction rs as [|r rs IH]; intros d Hd; [done|]. by apply IH, insert_row_keyed. Qed.

Lemma merge_grows rs d : d ⊆ merge d rs.
Proof. revert d. induction rs as [|r rs IH]; intros d; [done|]. etrans; [apply (insert_row_grows d r)|apply IH]. Qed.

Lemma merge_elem rs d r : r ∈ merge d rs -> r ∈ d \/ r ∈ rs.
Proof.
  revert d. induction rs as [|s rs IH]; intros d Hr; [by left|]. destruct (IH _ Hr) as [H|H]; [|right; by right].
  revert H. unfold insert_row. case_bool_decide; [by left|]. rewrite elem_of_app, list_elem_of_singleton. intros [?| ->]; [by left|right; by left].
Qed.

Lemma keyed_inj d r s : keyed d -> r ∈ d -> s ∈ d -> node_id r = node_id s -> r = s.
Proof.
  intros Hd [i Hi]%list_elem_of_lookup [j Hj]%list_elem_of_lookup E. unfold keyed in Hd.
  assert (i = j) as -> by (eapply (NoDup_lookup _ _ _ (node_id r) Hd); [by rewrite list_lookup_fmap, Hi|by rewrite list_lookup_fmap, Hj, E]).
  congruence.
Qed.

Lemma Map_of_nodup {V} (l : list (string * V)) : NoDup l.*1 -> Map_of l = l.
Proof. intros Hl. apply (jset_all_fresh l []). done. Qed.

Lemma select_elem ids d r : r ∈ select_rows ids d <-> r ∈ d /\ node_id r ∈ ids.
Proof. unfold select_rows. rewrite js_sort_elem, list_elem_of_filter. tauto. Qed.

Lemma select_keyed ids d : keyed d -> keyed (select_rows ids d).
Proof.
  unfold keyed, select_rows. intros Hd. rewrite (Permutation_map node_id (js_sort_perm _ _)).
  induction d as [|r d IH]; [done|]. cbn [map] in Hd. apply list.NoDup_cons in Hd as [Hr Hd].
  rewrite filter_cons. case_decide; [|by apply IH]. cbn [map]. apply list.NoDup_cons. split; [|by apply IH].
  intros Hin. apply Hr. apply list_elem_of_fmap in Hin as (s & -> & [_ Hs]%list_elem_of_filter). by apply list_elem_of_fmap_2.
Qed.

(** As many rows as distinct ids: every id has one. *)
Lemma select_full ids d id : keyed d -> length (select_rows ids d) = length ids -> id ∈ ids -> exists r, r ∈ d /\ node_id r = id.
Proof.
  intros Hd Hl Hid. assert (map node_id (select_rows ids d) ⊆+ ids) as Hsub.
  { apply NoDup_submseteq; [by apply select_keyed|]. intros x (r & -> & [_ Hr]%select_elem)%list_elem_of_fmap. done. }
  apply submseteq_length_Permutation in Hsub; [|rewrite length_map; lia].
  rewrite <- Hsub in Hid. apply list_elem_of_fmap in Hid as (r & -> & [Hr _]%select_elem). by exists r.
Qed.

(** ** Keys at rest *)

Definition draw_ok (r : Draw) : Prop := box_secret (d_box r) /\ Committee.sign_secret (d_sign r) /\ gcm_iv (d_iv1 r) /\ gcm_iv (d_iv2 r).

(** The public halves belong to the secret ones. *)
Definition kp_ok (kp : KeyPair) : Prop :=
  enc_publicKey kp = box_public (enc_secret kp) /\ sign_publicKey kp = sign_public (sign_secret kp) /\
  box_secret (enc_secret kp) /\ Committee.sign_secret (sign_secret kp).

(** The node as the committee's code knows it. *)
Definition node_of (kp : KeyPair) : CommitteeNodeKeyPair := generateNodeKeyPair (kp_nodeId kp) (enc_secret kp) (sign_secret kp).

Definition readable (key : string) (r : KeyRow) : Prop := exists kp, rowToKeyPair r key = Ok kp /\ kp_ok kp.
Definition holds (key : string) (d : list KeyRow) (kp : KeyPair) : Prop := exists r, r ∈ d /\ rowToKeyPair r key = Ok kp.

Lemma row_id r key kp : rowToKeyPair r key = Ok kp -> kp_nodeId kp = node_id r.
Proof. unfold rowToKeyPair. intros (es & _ & (ss & _ & [= <-])%rbind_Ok)%rbind_Ok. done. Qed.

Lemma loaded_key secret key : loadEncryptionKey secret = Ok key -> secret <> None.
Proof. by destruct secret. Qed.

Lemma secret_roundtrip {GL : Aes256GcmLaws G} key iv s : gcm_key key -> gcm_iv iv ->
  exists c, encryptSecret (hex_encode s) key iv = Ok c /\ decryptSecret c key = Ok (hex_encode s).
Proof.
  intros Hk Hi. destruct (seal_opens key iv s Hk Hi) as (c & t & Hs & Ht & Ho). unfold encryptSecret, decryptSecret.
  rewrite hex_decode_encode, Hs. cbn [rbind fst snd]. eexists. split; [done|]. rewrite hex_decode_encode.
  destruct (bytes_take_app 12 iv (t +:+ c) Hi) as [-> ->]. destruct (bytes_take_app 16 t c Ht) as [-> _].
  assert (bytes_drop 28 (iv +:+ t +:+ c) = c) as ->.
  { rewrite <- sapp_assoc. apply (bytes_take_app 28 (iv +:+ t) c). rewrite slen_app. unfold gcm_iv in Hi. lia. }
  rewrite Ho. done.
Qed.

Lemma row_roundtrip {GL : Aes256GcmLaws G} key iv1 iv2 kp : gcm_key key -> gcm_iv iv1 -> gcm_iv iv2 ->
  exists r, keyPairToRow kp key iv1 iv2 = Ok r /\ node_id r = kp_nodeId kp /\ rowToKeyPair r key = Ok kp.
Proof.
  intros Hk H1 H2. unfold keyPairToRow, rowToKeyPair.
  destruct (secret_roundtrip key iv1 (enc_secret kp) Hk H1) as (c1 & -> & D1). destruct (secret_roundtrip key iv2 (sign_secret kp) Hk H2) as (c2 & -> & D2).
  cbn [rbind]. eexists. split; [done|]. split; [done|]. cbn. rewrite D1, D2. cbn [rbind]. rewrite !hex_decode_encode. by destruct kp.
Qed.

(** ** Generating *)

Definition away (ids : list string) (rs : list (list KeyRow)) : Prop := Forall (Forall (fun r => node_id r ∉ ids)) rs.

Lemma stmt_run {A} (f : list KeyRow -> list KeyRow * A) w :
  stmt f w = ({| db := (f (merge (db w) (hd [] (others w)))).1; others := tl (others w) |}, Ok (f (merge (db w) (hd [] (others w)))).2).
Proof. unfold stmt. by destruct (f _). Qed.

Lemma merge_away ids d rs id : away ids rs -> id ∈ ids -> id ∉ map node_id d -> id ∉ map node_id (merge d (hd [] rs)).
Proof.
  intros Ha Hid Hd Hm. apply list_elem_of_fmap in Hm as (r & -> & [Hr|Hr]%merge_elem).
  - apply Hd. by apply list_elem_of_fmap_2.
  - destruct rs as [|l rs]; [by apply not_elem_of_nil in Hr|]. inversion Ha as [|? ? Hl]; subst. rewrite list.Forall_forall in Hl. by apply (Hl r Hr).
Qed.

Lemma away_tl ids rs : away ids rs -> away ids (tl rs).
Proof. intros Ha. destruct rs; [done|]. by inversion Ha. Qed.

Lemma away_cons id ids rs : away (id :: ids) rs -> away ids rs.
Proof. apply Forall_impl. intros l. apply Forall_impl. intros r. set_solver. Qed.

Lemma generate_spec {GL : Aes256GcmLaws G} key existing rnd ids i acc w : gcm_key key -> (forall j, draw_ok (rnd j)) -> keyed (db w) -> NoDup ids ->
  exists w' kps, generate key existing rnd i ids acc w = (w', Ok (acc ++ kps)%list) /\ db w ⊆ db w' /\ keyed (db w') /\
    Forall2 (fun id kp => jget id existing = Some kp \/ (jget id existing = None /\ kp_nodeId kp = id /\ kp_ok kp)) ids kps /\
    (away ids (others w) -> (forall id, id ∈ ids -> jget id existing = None -> id ∉ map node_id (db w)) ->
     Forall2 (fun id kp => jget id existing = Some kp \/ holds key (db w') kp) ids kps).
Proof.
  intros Hkey Hrnd. revert i acc w. induction ids as [|id ids IH]; intros i acc w Hd Hnd.
  { exists w, []. rewrite app_nil_r. done. }
  apply list.NoDup_cons in Hnd as [Hid Hnd]. cbn [generate]. destruct (jget id existing) as [kp|] eqn:Hex.
  - destruct (IH (S i) (acc ++ [kp])%list w Hd Hnd) as (w' & kps & -> & Hsub & Hd' & HF & HH). exists w', (kp :: kps).
    rewrite <- app_assoc. split_and!; [done..| |]; [constructor; [by left|done]|].
    intros Ha Hfresh. constructor; [by left|]. apply HH; [by eapply away_cons|]. intros x Hx. apply Hfresh. by right.
  - set (kp := fresh_pair id (rnd i)). destruct (Hrnd i) as (B1 & B2 & B3 & B4).
    destruct (row_roundtrip key _ _ kp Hkey B3 B4) as (row & Hrow & Hri & Hback). unfold bindM at 1, lift at 1. rewrite Hrow. unfold bindM at 1. rewrite stmt_run.
    set (d1 := merge (db w) (hd [] (others w))). cbn [fst snd].
    destruct (IH (S i) (acc ++ [kp])%list {| db := insert_row d1 row; others := tl (others w) |}) as (w' & kps & -> & Hsub & Hd' & HF & HH);
      [by apply insert_row_keyed, merge_keyed|done|]. exists w', (kp :: kps). cbn [db others] in Hsub, HH.
    rewrite <- app_assoc. split_and!; [done| |done| |].
    + etrans; [apply (merge_grows (hd [] (others w)))|]. etrans; [apply insert_row_grows|]. done.
    + constructor; [right; by split_and!|done].
    + intros Ha Hfresh. assert (id ∉ map node_id d1) as Hid1 by (eapply merge_away; [done|by left|apply Hfresh; [by left|done]]).
      constructor; [right|].
      * exists row. split; [|done]. apply Hsub. unfold insert_row. rewrite Hri. rewrite bool_decide_false by done. apply elem_of_app. right. by apply list_elem_of_singleton.
      * apply HH; [by eapply away_cons, away_tl|]. intros x Hx Hxe. unfold insert_row. rewrite Hri. rewrite bool_decide_false by done.
        rewrite map_app, elem_of_app. intros [H|H].
        -- revert H. eapply merge_away; [done|by right|apply Hfresh; [by right|done]].
        -- apply list_elem_of_singleton in H as ->. by rewrite Hri in Hx.
Qed.

(** ** Starting a node *)

(** The table as the [SELECT] of a start sees it. *)
Definition seen (w : World) : list KeyRow := merge (merge (db w) (hd [] (others w))) (hd [] (tl (others w))).

Lemma load_unfold secret ids rnd key w : loadEncryptionKey secret = Ok key ->
  loadOrGenerateKeys secret ids rnd w =
  (let w2 := {| db := seen w; others := tl (tl (others w)) |} in
   let rows := select_rows ids (seen w) in
   if Nat.eqb (length rows) (length ids) then
     (w2, rmap (fun id => match jget id (Map_of (map (fun r => (node_id r, r)) rows)) with
                          | Some row => rowToKeyPair row key
                          | None => Err "TypeError: Cannot read properties of undefined"
                          end) ids)
   else match rmap (fun r => rowToKeyPair r key) rows with
        | Ok kps => generate key (Map_of (map (fun kp => (kp_nodeId kp, kp)) kps)) rnd 0 ids [] w2
        | Err e => (w2, Err e)
        end).
Proof.
  intros Hk. unfold loadOrGenerateKeys, bindM at 1, lift at 1. rewrite Hk. unfold bindM at 1. rewrite stmt_run. unfold bindM at 1. rewrite stmt_run.
  cbn [fst snd db others]. fold (seen w). destruct (Nat.eqb _ _); [done|]. unfold bindM, lift. by destruct (rmap _ _).
Qed.

Lemma seen_keyed w : keyed (db w) -> keyed (seen w).
Proof. intros Hd. by do 2 apply merge_keyed. Qed.

Lemma seen_grows w : db w ⊆ seen w.
Proof. unfold seen. etrans; [apply merge_grows|apply merge_grows]. Qed.

(** A row found by its id in the [Map] of the selected rows. *)
Lemma byId_get ids d r : keyed d -> r ∈ d -> node_id r ∈ ids ->
  jget (node_id r) (Map_of (map (fun r => (node_id r, r)) (select_rows ids d))) = Some r.
Proof.
  intros Hd Hr Hid. assert ((map (fun r => (node_id r, r)) (select_rows ids d)).*1 = map node_id (select_rows ids d)) as E.
  { rewrite <- list_fmap_compose. by apply list_fmap_ext. }
  pose proof (select_keyed ids d Hd) as Hnd. unfold keyed in Hnd. rewrite <- E in Hnd. rewrite Map_of_nodup by done.
  apply elem_jget; [done|]. apply list_elem_of_fmap. exists r. split; [done|]. by apply select_elem.
Qed.

(** The pairs decrypted before generating, as a map. *)
Lemma existing_get key ids d kps id : keyed d -> Forall2 (fun r kp => rowToKeyPair r key = Ok kp) (select_rows ids d) kps -> id ∈ ids ->
  let existing := Map_of (map (fun kp => (kp_nodeId kp, kp)) kps) in
  match jget id existing with
  | Some kp => holds key d kp /\ kp_nodeId kp = id
  | None => id ∉ map node_id d
  end.
Proof.
  intros Hd HF Hid existing. assert (map kp_nodeId kps = map node_id (select_rows ids d)) as Eids.
  { induction HF as [|r kp rs kps E _ IH]; [done|]. cbn [map]. by rewrite IH, (row_id r key kp E). }
  assert (existing = map (fun kp => (kp_nodeId kp, kp)) kps) as ->.
  { apply Map_of_nodup. rewrite <- list_fmap_compose. change (NoDup (map kp_nodeId kps)). rewrite Eids. by apply select_keyed. }
  destruct (jget id _) as [kp|] eqn:E.
  - apply jget_Some_elem, list_elem_of_fmap in E as (kp' & [= -> ->] & Hkp). split; [|done].
    apply list_elem_of_lookup in Hkp as [i Hi]. destruct (Forall2_lookup_r _ _ _ _ _ HF Hi) as (r & Hr & Hrk).
    exists r. split; [|done]. apply list_elem_of_lookup_2, select_elem in Hr. tauto.
  - apply jget_None in E. intros Hin. apply E. rewrite <- list_fmap_compose. change (id ∈ map kp_nodeId kps). rewrite Eids.
    apply list_elem_of_fmap in Hin as (r & -> & Hr). apply list_elem_of_fmap_2. by apply select_elem.
Qed.

(** What a start whose rows are readable does, whatever others insert. *)
Lemma load_spec {GL : Aes256GcmLaws G} secret key ids rnd w :
  loadEncryptionKey secret = Ok key -> gcm_key key -> (forall j, draw_ok (rnd j)) -> keyed (db w) -> NoDup ids ->
  (forall r, r ∈ seen w -> node_id r ∈ ids -> readable key r) ->
  exists w' kps, loadOrGenerateKeys secret ids rnd w = (w', Ok kps) /\ seen w ⊆ db w' /\ keyed (db w') /\
    Forall2 (fun id kp => kp_nodeId kp = id /\ kp_ok kp) ids kps /\
    Forall2 (fun id kp => id ∈ map node_id (seen w) -> holds key (seen w) kp) ids kps /\
    (away ids (others w) -> Forall (holds key (db w')) kps).
Proof.
  intros Hl Hkey Hrnd Hd Hnd Hread. rewrite (load_unfold _ _ _ _ _ Hl). cbn zeta.
  pose proof (seen_keyed w Hd) as Hs. set (d := seen w) in *. destruct (Nat.eqb_spec (length (select_rows ids d)) (length ids)) as [El|_].
  - destruct (rmap_Forall2 (fun id => match jget id (Map_of (map (fun r => (node_id r, r)) (select_rows ids d))) with
                          | Some row => rowToKeyPair row key | None => Err "TypeError: Cannot read properties of undefined" end) ids) as (kps & E & HF).
    { apply list.Forall_forall. intros id Hid. destruct (select_full ids d id Hs El Hid) as (r & Hr & <-).
      rewrite byId_get by done. destruct (Hread r Hr Hid) as (kp & -> & _). by eexists. }
    rewrite E. exists {| db := d; others := tl (tl (others w)) |}, kps. cbn [db].
    assert (Forall2 (fun id kp => holds key d kp /\ kp_nodeId kp = id /\ kp_ok kp) ids kps) as HH.
    { clear -HF El Hs Hread. assert (forall id, id ∈ ids -> exists r, r ∈ d /\ node_id r = id) as Hall by (intros; by apply (select_full ids d)).
      revert HF. generalize (fun id (H : id ∈ ids) => H). generalize ids at 1 4 5. intros l Hsub HF. induction HF as [|id kp l kps E HF IH]; constructor.
      - assert (id ∈ ids) as Hid by (apply Hsub; by left). destruct (Hall id Hid) as (r & Hr & <-). rewrite byId_get in E by done.
        destruct (Hread r Hr Hid) as (kp' & E' & Hok). rewrite E in E'. injection E' as <-. split; [by exists r|]. by split; [apply (row_id r key)|].
      - apply IH. intros x Hx. apply Hsub. by right. }
    split_and!; [done|done|done| | |].
    + eapply list.Forall2_impl; [exact HH|]. by intros ?? (? & ? & ?).
    + eapply list.Forall2_impl; [exact HH|]. by intros ?? (? & ? & ?).
    + intros _. eapply Forall2_Forall_r; [exact HH|]. apply list.Forall_forall. by intros ?? ? (? & _).
  - destruct (rmap_Forall2 (fun r => rowToKeyPair r key) (select_rows ids d)) as (kps & -> & HF).
    { apply list.Forall_forall. intros r [Hr Hid]%select_elem. destruct (Hread r Hr Hid) as (kp & E & _). by exists kp. }
    destruct (generate_spec key (Map_of (map (fun kp => (kp_nodeId kp, kp)) kps)) rnd ids 0 [] {| db := d; others := tl (tl (others w)) |} Hkey Hrnd Hs Hnd)
      as (w' & ks & -> & Hsub & Hd' & HG & HA). cbn [app db others] in *. exists w', ks.
    assert (forall id kp, id ∈ ids -> jget id (Map_of (map (fun kp => (kp_nodeId kp, kp)) kps)) = Some kp -> holds key d kp /\ kp_nodeId kp = id /\ kp_ok kp) as Hex.
    { intros id kp Hid E. pose proof (existing_get key ids d kps id Hs HF Hid) as Hx. cbn zeta in Hx. rewrite E in Hx. destruct Hx as [(r & Hr & Hrk) <-].
      rewrite (row_id _ _ _ Hrk) in Hid. destruct (Hread r Hr Hid) as (kp' & E' & Hok). rewrite Hrk in E'. injection E' as <-.
      split_and!; [by exists r|done|done]. }
    split_and!; [done|done|done| | |].
    + apply Forall2_same_length_lookup. split; [by apply Forall2_length in HG|]. intros i id kp Hi Hk.
      pose proof (Forall2_lookup_lr _ _ _ _ _ _ HG Hi Hk) as [E|(_ & ? & ?)]; [|done]. apply (Hex id kp); [by eapply list_elem_of_lookup_2|done].
    + apply Forall2_same_length_lookup. split; [by apply Forall2_length in HG|]. intros i id kp Hi Hk Hin. apply list_elem_of_lookup_2 in Hi as Hid.
      pose proof (Forall2_lookup_lr _ _ _ _ _ _ HG Hi Hk) as [E|(E & _)]; [by apply (Hex id kp)|].
      pose proof (existing_get key ids d kps id Hs HF Hid) as Hx. cbn zeta in Hx. by rewrite E in Hx.
    + intros Ha. apply away_tl, away_tl in Ha. assert (Forall2 (fun id kp => jget id (Map_of (map (fun kp => (kp_nodeId kp, kp)) kps)) = Some kp \/ holds key (db w') kp) ids ks) as HH.
      { apply HA; [done|]. intros id Hid E. pose proof (existing_get key ids d kps id Hs HF Hid) as Hx. cbn zeta in Hx. by rewrite E in Hx. }
      apply Forall_lookup. intros i kp Hk. destruct (Forall2_lookup_r _ _ _ _ _ HH Hk) as (id & Hi & [E|Hh]); [|done].
      destruct (Hex id kp) as [(r & Hr & Hrk) _]; [by eapply list_elem_of_lookup_2|done|]. exists r. split; [by apply Hsub|done].
Qed.

Lemma seen_away ids w r : away ids (others w) -> r ∈ seen w -> node_id r ∈ ids -> r ∈ db w.
Proof.
  intros Ha Hr Hid. assert (forall d rs, away ids rs -> r ∈ merge d (hd [] rs) -> r ∈ d) as Hm.
  { intros d rs Hrs [|Hin]%merge_elem; [done|]. destruct rs as [|l rs]; [by apply not_elem_of_nil in Hin|].
    inversion Hrs as [|? ? Hl]; subst. rewrite list.Forall_forall in Hl. by destruct (Hl r Hin). }
  apply (Hm _ (others w) Ha), (Hm _ (tl (others w)) (away_tl _ _ Ha)). done.
Qed.

(** Reloading, at any later table. *)
Lemma reload {GL : Aes256GcmLaws G} secret key d ids kps rnd w : loadEncryptionKey secret = Ok key -> gcm_key key -> (forall j, draw_ok (rnd j)) ->
  keyed (db w) -> d ⊆ db w -> NoDup ids -> Forall kp_ok kps -> Forall (holds key d) kps -> ids ⊆ map kp_nodeId kps ->
  exists w' kps', loadOrGenerateKeys secret ids rnd w = (w', Ok kps') /\ map kp_nodeId kps' = ids /\ kps' ⊆ kps.
Proof.
  intros Hl Hkey Hrnd Hd Hsub Hnd Hok Hh Hids. pose proof (seen_keyed w Hd) as Hs.
  assert (forall r, r ∈ seen w -> node_id r ∈ ids -> exists kp, kp ∈ kps /\ rowToKeyPair r key = Ok kp) as Hrow.
  { intros r Hr Hid. apply Hids in Hid. apply list_elem_of_fmap in Hid as (kp & Eid & Hkp).
    rewrite list.Forall_forall in Hh. destruct (Hh kp Hkp) as (s & Hsd & Hsk). exists kp. split; [done|].
    rewrite (keyed_inj (seen w) r s Hs Hr); [done| |by rewrite Eid, (row_id _ _ _ Hsk)]. by apply seen_grows, Hsub. }
  destruct (load_spec secret key ids rnd w Hl Hkey Hrnd Hd Hnd) as (w' & kps' & E & _ & _ & HF & HH & _).
  { intros r Hr Hid. destruct (Hrow r Hr Hid) as (kp & Hkp & E). exists kp. split; [done|]. rewrite list.Forall_forall in Hok. by apply Hok. }
  exists w', kps'. split; [done|]. assert (Forall2 (fun id kp => kp_nodeId kp = id) ids kps') as HI by (eapply list.Forall2_impl; [exact HF|by intros ?? []]).
  split; [by clear -HI; induction HI as [|? ? ? ? E ? IH]; cbn [map]; rewrite ?E, ?IH|].
  intros kp [i Hi]%list_elem_of_lookup. destruct (Forall2_lookup_r _ _ _ _ _ HH Hi) as (id & Hid & Hhold).
  apply list_elem_of_lookup_2 in Hid as Hin. destruct Hhold as (r & Hr & Hrk).
  - apply Hids, list_elem_of_fmap in Hin as (kp0 & -> & Hkp0). rewrite list.Forall_forall in Hh. destruct (Hh kp0 Hkp0) as (r & Hr & Hrk).
    rewrite (row_id _ _ _ Hrk). apply list_elem_of_fmap_2. by apply seen_grows, Hsub.
  - pose proof (Forall2_lookup_lr _ _ _ _ _ _ HI Hid Hi) as Hkid. cbn in Hkid. rewrite <- Hkid, (row_id _ _ _ Hrk) in Hin.
    destruct (Hrow r Hr Hin) as (kp' & Hkp' & E'). rewrite Hrk in E'. by injection E' as <-.
Qed.

(** C33: the committee keeps its identity over restarts.  A start whose secret is
    set, that can read the rows of its own ids and meets no insertion of them by
    another process, returns one well-formed key pair per id, in order, whose
    public halves are those of its secret ones; and every later start, of all the
    ids or of some (as the separate node servers do), whatever has been inserted
    since and whatever it draws, returns those same key pairs. *)
Theorem committee_survives_restart {GL : Aes256GcmLaws G} secret key ids rnd w :
  loadEncryptionKey secret = Ok key -> gcm_key key -> (forall j, draw_ok (rnd j)) -> keyed (db w) -> NoDup ids ->
  (forall r, r ∈ db w -> node_id r ∈ ids -> readable key r) -> away ids (others w) ->
  exists w' kps, loadOrGenerateKeys secret ids rnd w = (w', Ok kps) /\ map kp_nodeId kps = ids /\ Forall kp_ok kps /\ db w ⊆ db w' /\
    forall ids' rnd' w2, (forall j, draw_ok (rnd' j)) -> keyed (db w2) -> db w' ⊆ db w2 -> NoDup ids' -> ids' ⊆ ids ->
      exists w3 kps', loadOrGenerateKeys secret ids' rnd' w2 = (w3, Ok kps') /\ map kp_nodeId kps' = ids' /\ kps' ⊆ kps.
Proof.
  intros Hl Hkey Hrnd Hd Hnd Hread Ha.
  destruct (load_spec secret key ids rnd w Hl Hkey Hrnd Hd Hnd) as (w' & kps & E & Hsub & _ & HF & _ & Hstored).
  { intros r Hr Hid. apply Hread; [by apply (seen_away ids)|done]. }
  assert (map kp_nodeId kps = ids) as Eids by (clear -HF; induction HF as [|? ? ? ? [E _] ? IH]; cbn [map]; by rewrite ?E, ?IH).
  assert (Forall kp_ok kps) as Hok by (eapply Forall2_Forall_r; [exact HF|]; apply list.Forall_forall; by intros ?? ? []).
  exists w', kps. split_and!; [done..|by etrans; [apply seen_grows|]|].
  intros ids' rnd' w2 Hrnd' Hd2 Hsub2 Hnd' Hids. apply (reload secret key (db w') ids' kps rnd' w2); try done; [by apply Hstored|by rewrite Eids].
Qed.

(** A start with a key that cannot decrypt a stored row of its ids fails and
    writes nothing: the table keeps what it had and what others inserted. *)
Theorem wrong_key_replaces_nothing secret key ids rnd w r e :
  loadEncryptionKey secret = Ok key -> keyed (db w) -> r ∈ db w -> node_id r ∈ ids -> rowToKeyPair r key = Err e ->
  exists e', loadOrGenerateKeys secret ids rnd w = ({| db := seen w; others := tl (tl (others w)) |}, Err e').
Proof.
  intros Hl Hd Hr Hid He. rewrite (load_unfold _ _ _ _ _ Hl). cbn zeta. pose proof (seen_keyed w Hd) as Hs. apply seen_grows in Hr.
  destruct (Nat.eqb _ _).
  - match goal with |- context [rmap ?f ids] => destruct (rmap_Err f ids (node_id r) e Hid) as [e' ->] end; [by rewrite byId_get|]. by exists e'.
  - destruct (rmap_Err (fun r => rowToKeyPair r key) (select_rows ids (seen w)) r e) as [e' ->]; [by apply select_elem|done|]. by exists e'.
Qed.

(** Two nodes starting together on an empty table: the one whose insertion comes
    second goes on with key pairs that are not in the table. *)
Lemma start_race_diverges {GL : Aes256GcmLaws G} secret key id rnd rnd' row kp :
  loadEncryptionKey secret = Ok key -> gcm_key key -> (forall j, draw_ok (rnd j)) ->
  node_id row = id -> rowToKeyPair row key = Ok kp ->
  let first := loadOrGenerateKeys secret [id] rnd {| db := []; others := [[]; []; [row]] |} in
  first.2 = Ok [fresh_pair id (rnd 0%nat)] /\
  (loadOrGenerateKeys secret [id] rnd' {| db := db first.1; others := [] |}).2 = Ok [kp].
Proof.
  intros Hl Hkey Hrnd Hid Hrow first. destruct (Hrnd 0%nat) as (_ & _ & B3 & B4).
  destruct (row_roundtrip key _ _ (fresh_pair id (rnd 0%nat)) Hkey B3 B4) as (r0 & Hr0 & Hri & _).
  assert (first = ({| db := [row]; others := [] |}, Ok [fresh_pair id (rnd 0%nat)])) as ->.
  { unfold first. rewrite (load_unfold _ _ _ _ _ Hl). cbn -[bindM lift stmt keyPairToRow].
    unfold bindM at 1, lift at 1. rewrite Hr0. unfold bindM at 1. rewrite stmt_run. cbn -[insert_row].
    change (insert_row [] row) with [row]. unfold insert_row. rewrite Hri. cbn -[bool_decide elem_of]. by rewrite bool_decide_true by (rewrite Hid; by left). }
  split; [done|]. cbn [fst db]. rewrite (load_unfold _ _ _ _ _ Hl). cbn [db others hd tl]. change (seen {| db := [row]; others := [] |}) with [row].
  assert (select_rows [id] [row] = [row]) as ->.
  { unfold select_rows. rewrite filter_cons_True by (rewrite Hid; by left). done. }
  cbn. by rewrite Hid, decide_True, Hrow.
Qed.


End Keys.

(** ** Examples *)

(** No encryption, tagged with the key. *)
Definition toyGcm : Aes256Gcm := {|
  seal := fun k iv m => Ok (m, bytes_take 16 k);
  unseal := fun k iv t c => if String.eqb t (bytes_take 16 k) then Ok c else Err "Unsupported state or unable to authenticate data" |}.

#[global] Instance toyGcm_laws : Aes256GcmLaws toyGcm.
Proof.
  split. intros k iv m Hk _. exists m, (bytes_take 16 k). split; [done|]. unfold gcm_key in Hk. split; [apply bytes_take_length; lia|].
  cbn. by rewrite String.eqb_refl.
Qed.

Definition toy_secret : string := String.concat "" (repeat "ab" 32).
Definition other_secret : string := String.concat "" (repeat "cd" 32).
Definition toy_draw (i : nat) : Draw :=
  let c := match i with O => "a" | S O => "b" | _ => "c" end in
  {| d_box := pad32 c; d_sign := pad32 "s" +:+ pad32 c; d_iv1 := "abcdefghijkl"; d_iv2 := "mnopqrstuvwx" |}.

Lemma toy_draw_ok j : draw_ok (toy_draw j).
Proof. destruct j as [|[|j]]; by split_and!. Qed.

Definition empty_db : World := {| db := []; others := [] |}.
Definition node_ids : list string := ["node-1"; "node-2"; "node-3"].

Definition lexicographic : string -> string -> bool := str_ltb.

Lemma committee_survives_restart_witness :
  exists w' kps, loadOrGenerateKeys (N := toyNacl) (G := toyGcm) lexicographic (Some toy_secret) node_ids toy_draw empty_db = (w', Ok kps) /\
    map kp_nodeId kps = node_ids /\ Forall (kp_ok (N := toyNacl)) kps /\ [] ⊆ db w' /\
    forall ids' rnd' w2, (forall j, draw_ok (rnd' j)) -> keyed (db w2) -> db w' ⊆ db w2 -> NoDup ids' -> ids' ⊆ node_ids ->
      exists w3 kps', loadOrGenerateKeys (N := toyNacl) (G := toyGcm) lexicographic (Some toy_secret) ids' rnd' w2 = (w3, Ok kps') /\
        map kp_nodeId kps' = ids' /\ kps' ⊆ kps.
Proof.
  apply (committee_survives_restart (N := toyNacl) (G := toyGcm) lexicographic (Some toy_secret) (hex_decode toy_secret) node_ids toy_draw empty_db).
  - reflexivity.
  - reflexivity.
  - apply toy_draw_ok.
  - constructor.
  - repeat constructor; set_solver.
  - by intros r Hr%not_elem_of_nil.
  - constructor.
Defined.

(** The rows written under one secret, read under another. *)
Definition toy_rows : list KeyRow := db (loadOrGenerateKeys (N := toyNacl) (G := toyGcm) lexicographic (Some toy_secret) node_ids toy_draw empty_db).1.

Lemma wrong_key_replaces_nothing_witness :
  exists e', loadOrGenerateKeys (N := toyNacl) (G := toyGcm) lexicographic (Some other_secret) node_ids toy_draw {| db := toy_rows; others := [] |}
    = ({| db := toy_rows; others := [] |}, Err e').
Proof.
  apply (wrong_key_replaces_nothing (G := toyGcm) lexicographic (Some other_secret) (hex_decode other_secret) node_ids toy_draw {| db := toy_rows; others := [] |}
    (default {| node_id := ""; encryption_pubkey := ""; encryption_secret := ""; signing_pubkey := ""; signing_secret := "" |} (head toy_rows))
    "Unsupported state or unable to authenticate data").
  - reflexivity.
  - vm_compute. repeat constructor; set_solver.
  - vm_compute. left.
  - vm_compute. left.
  - vm_compute. reflexivity.
Defined.

End Keys.
