(* ===== verification/Stellar.v ===== *)
(** Calling Soroban contracts (packages/stellar-utils/src/index.ts) and sending
    transactions the user signed (packages/stellar-actions/src/index.ts).

    The [stellar] command line, the RPC server and Horizon answer through
    functions of the calls made so far.  The PATH given to the command line is
    not modelled. *)

From S2P Require Import Prelude Effects Text Json.
Local Open Scope string_scope.
Local Open Scope Z_scope.

(** ** Text *)

(** [t.startsWith(p)] and [t.includes(p)] *)
Fixpoint starts_with (p t : string) : bool :=
  match p, t with
  | EmptyString, _ => true
  | String a p, String b t => Ascii.eqb a b && starts_with p t
  | _, _ => false
  end.
Fixpoint includes (p t : string) : bool :=
  starts_with p t || match t with EmptyString => false | String _ t => includes p t end.

(** [t.replaceAll(s, rep)] for a non-empty [s]; [skip] characters of the last
    occurrence are still to be dropped. *)
Fixpoint replace_from (s rep : string) (skip : nat) (t : string) : string :=
  match t with
  | EmptyString => ""
  | String c t' =>
      match skip with
      | S k => replace_from s rep k t'
      | O => if starts_with s t then rep +:+ replace_from s rep (pred (String.length s)) t' else String c (replace_from s rep 0 t')
      end
  end.

(** ** Occurrences *)

Definition avoids (c : ascii) (s : string) : bool := str_forall (fun d => negb (Ascii.eqb d c)) s.

Lemma starts_with_app p t : starts_with p (p +:+ t) = true.
Proof. induction p as [|a p IH]; [by destruct t|]. rewrite sapp_cons. cbn [starts_with]. by rewrite Ascii.eqb_refl. Qed.

Lemma starts_with_prefix p t : starts_with p t = true <-> exists r, t = p +:+ r.
Proof.
  split; [|intros [r ->]; apply starts_with_app]. revert t. induction p as [|a p IH]; intros t H; [by exists t|].
  destruct t as [|b t]; [done|]. cbn in H. apply andb_prop in H as [->%Ascii.eqb_eq H]. destruct (IH t H) as [r ->]. by exists r.
Qed.

Lemma includes_spec p t : includes p t = true <-> exists a b, t = a +:+ p +:+ b.
Proof.
  split.
  - induction t as [|c t IH]; cbn; rewrite orb_true_iff.
    + intros [[r Hr]%starts_with_prefix|?]; [by exists "", r|done].
    + intros [[r Hr]%starts_with_prefix|H]; [by exists "", r|]. destruct (IH H) as (a & b & ->). by exists (String c a), b.
  - intros (a & b & ->). induction a as [|c a IH]; [|rewrite sapp_cons; cbn [includes]; by rewrite IH, orb_true_r].
    change ("" +:+ p +:+ b) with (p +:+ b). pose proof (starts_with_app p b) as H. by destruct (p +:+ b); cbn [includes]; rewrite H.
Qed.

(** A text that avoids the separator does not cross it. *)
Lemma starts_with_sep p a c b : avoids c p = true -> starts_with p (a +:+ String c b) = starts_with p a.
Proof.
  revert a. induction p as [|e p IH]; intros a Hc; [by destruct a|]. apply andb_prop in Hc as [He%negb_true_iff Hc].
  destruct a as [|d a]; [|rewrite sapp_cons; cbn [starts_with]; by rewrite IH].
  change ("" +:+ String c b) with (String c b). cbn [starts_with]. by rewrite He.
Qed.

Lemma includes_split p a c b : avoids c p = true -> p <> "" -> includes p (a +:+ String c b) = includes p a || includes p b.
Proof.
  intros Hc Hp. induction a as [|d a IH].
  - change ("" +:+ String c b) with (String c b). cbn [includes]. change (String c b) with ("" +:+ String c b) at 1. rewrite starts_with_sep by done.
    by destruct p.
  - rewrite sapp_cons. cbn [includes]. rewrite <- sapp_cons, starts_with_sep, IH by done. by rewrite orb_assoc.
Qed.

Lemma includes_length p t : includes p t = true -> (String.length p <= String.length t)%nat.
Proof. intros (a & b & ->)%includes_spec. rewrite !slen_app. lia. Qed.

Lemma replace_head p s rep t : avoids "[" p = true -> starts_with p (replace_from s (String "[" rep) 0 t) = true -> starts_with p t = true.
Proof.
  revert t. induction p as [|e p IH]; intros t Hp; [by destruct t|]. apply andb_prop in Hp as [He%negb_true_iff Hp].
  destruct t as [|c t]; [done|]. cbn [replace_from]. destruct (starts_with s (String c t)).
  - rewrite sapp_cons. cbn [starts_with]. by rewrite He.
  - cbn [starts_with]. intros [-> H]%andb_prop. by apply IH.
Qed.

(** Replacing a long text by a bracketed one leaves no occurrence of it. *)
Lemma replaced_away p rep t k : avoids "[" p = true -> avoids "]" p = true -> (String.length rep < String.length p)%nat ->
  (1 < String.length p)%nat -> includes p (replace_from p (String "[" (rep +:+ "]")) k t) = false.
Proof.
  intros Ho Hc Hl H1. assert (p <> "") as Hne by (intros ->; cbn in H1; lia). revert k. induction t as [|c t IH]; intros k.
  - by destruct p.
  - cbn [replace_from]. destruct k as [|k]; [|apply IH]. destruct (starts_with p (String c t)) eqn:E.
    + rewrite sapp_cons, sapp_assoc. change ("]" +:+ ?x) with (String "]" x). 
      change (String "[" (rep +:+ String "]" (replace_from p (String "[" (rep +:+ "]")) (Init.Nat.pred (String.length p)) t)))
        with ("" +:+ String "[" (rep +:+ String "]" (replace_from p (String "[" (rep +:+ "]")) (Init.Nat.pred (String.length p)) t))).
      rewrite !includes_split, IH by done. destruct (includes p rep) eqn:Er; [apply includes_length in Er; lia|]. by destruct p.
    + cbn [includes]. rewrite IH, orb_false_r. apply not_true_is_false. intros H.
      rewrite (replace_head p p (rep +:+ "]") (String c t)) in E; [done|done|]. cbn [replace_from]. by rewrite E.
Qed.

Module Stellar.

Definition TESTNET : list (string * string) :=
  [("rpcUrl", "https://soroban-testnet.stellar.org"); ("horizonUrl", "https://horizon-testnet.stellar.org");
   ("passphrase", "Test SDF Network ; September 2015"); ("friendbotUrl", "https://friendbot.stellar.org")].
Definition testnet_at (k : string) : string := default "" (jget k TESTNET).

Record SorobanInvokeResult := { txHash : string; returnValue : string; raw : string }.

Record InvokeOpts := {
  contractId : string; secret : string; method : string; args : list string; rpcUrl : option string; passphrase : option string;
  retries : option nat; readOnly : bool }.

(** What [spawnSync] returns; the streams are null when the program did not run. *)
Record Spawned := { status : option Z; stdout : option string; stderr : option string }.

Inductive Call :=
| Spawn (program : string) (argv : list string)
| Wait (ms : Z)
| LoadAccount (server publicKey : string)
| Fetch (url : string)
| SendTransaction (server tx : string)
| GetTransaction (server hash : string).

Definition M : Type -> Type := SE (list Call).

Definition redact (text secret : string) : string :=
  if bool_decide (secret = "") then text else replace_from secret "[REDACTED_STELLAR_SECRET]" 0 text.

(** ** The transaction hash in the output *)

(** [([a-fA-F0-9]{64})] at the head of [s] *)
Fixpoint hex_run (n : nat) (s : string) : option string :=
  match n, s with
  | O, _ => Some ""
  | S n, String c s => match hex_val c with Some _ => h ← hex_run n s; Some (String c h) | None => None end
  | S _, EmptyString => None
  end.

(** [\s*([a-fA-F0-9]{64})] *)
Definition ws_hash (s : string) : option string := hex_run 64 (trim_left s).

(** [:?\s*([a-fA-F0-9]{64})] *)
Definition colon_hash (s : string) : option string :=
  match s with
  | String c s' => if Ascii.eqb c ":" then match ws_hash s' with Some h => Some h | None => ws_hash s end else ws_hash s
  | EmptyString => None
  end.

(** [/[Tt]ransaction hash(?:\s+is)?:?\s*([a-fA-F0-9]{64})/] at the head of [s] *)
Definition hash_line (s : string) : option string :=
  match s with
  | String c s' =>
      if Ascii.eqb c "T" || Ascii.eqb c "t" then
        match strip_prefix "ransaction hash" s' with
        | Some r =>
            match (if match r with String w _ => is_ws w | _ => false end then strip_prefix "is" (trim_left r) ≫= colon_hash else None) with
            | Some h => Some h
            | None => colon_hash r
            end
        | None => None
        end
      else None
  | EmptyString => None
  end.
(** [/tx\/([a-fA-F0-9]{64})/] and [/transaction:\s*([a-fA-F0-9]{64})/] *)
Definition link_line (s : string) : option string := strip_prefix "tx/" s ≫= hex_run 64.
Definition transaction_line (s : string) : option string := strip_prefix "transaction:" s ≫= ws_hash.

(** [output.match(p)]: the leftmost position that matches. *)
Fixpoint first_match (f : string -> option string) (s : string) : option string :=
  match f s with
  | Some h => Some h
  | None => match s with EmptyString => None | String _ s => first_match f s end
  end.

Definition parseSorobanTx (output : string) : option string :=
  match first_match hash_line output with
  | Some h => Some h
  | None => match first_match link_line output with Some h => Some h | None => first_match transaction_line output end
  end.

(** ** Invoking a contract *)

Section Invoke.
Variable spawn : list Call -> list string -> Spawned.

Definition argv (o : InvokeOpts) : list string :=
  ["contract"; "invoke"; "--id"; contractId o; "--source-account"; secret o; "--rpc-url"; default (testnet_at "rpcUrl") (rpcUrl o);
   "--network-passphrase"; default (testnet_at "passphrase") (passphrase o); "--"; method o] ++ args o.

Definition newline : string := String "010" "".

Definition run_stellar (o : InvokeOpts) : M Spawned := fun h => ((h ++ [Spawn "stellar" (argv o)])%list, Ok (spawn h (argv o))).
Definition wait (ms : Z) : M unit := fun h => ((h ++ [Wait ms])%list, Ok tt).

Definition retryable (last : string) : bool :=
  includes "TxBadSeq" last || includes "timeout" last || includes "429" last || includes "temporarily" last.

Fixpoint attempts (n : nat) (o : InvokeOpts) (last : string) : M SorobanInvokeResult :=
  match n with
  | O => throw ("stellar contract invoke " +:+ method o +:+ " failed: " +:+ last)
  | S n =>
      run! result := run_stellar o in
      let out := default "" (stderr result) +:+ newline +:+ default "" (stdout result) in
      if bool_decide (status result = Some 0) then
        let tx := parseSorobanTx out in
        if bool_decide (tx = None) && negb (readOnly o) then
          throw ("Soroban " +:+ method o +:+ " succeeded but no tx hash found in output:" +:+ newline +:+ redact out (secret o))
        else ret {| txHash := default "" tx; returnValue := trim (default "" (stdout result)); raw := redact out (secret o) |}
      else
        let last := redact out (secret o) in
        if retryable last then run! _ := wait 5000 in attempts n o last
        else throw ("stellar contract invoke " +:+ method o +:+ " failed: " +:+ last)
  end.

Definition sorobanInvoke (o : InvokeOpts) : M SorobanInvokeResult := attempts (default 4%nat (retries o)) o "".

End Invoke.

(** ** Accounts *)

Section Accounts.
(** [true] for a response without the account, [false] for another failure *)
Variable loadAccount : list Call -> string -> result (option unit).
Variable fetch : list Call -> string -> result (Z * string).
Variable encodeURIComponent : string -> string.

Definition fundWithFriendbot (publicKey : string) : M unit :=
  let url := testnet_at "friendbotUrl" +:+ "?addr=" +:+ encodeURIComponent publicKey in
  run! response := (fun h => ((h ++ [Fetch url])%list, fetch h url)) in
  if (200 <=? response.1) && (response.1 <? 300) then ret tt
  else throw ("Friendbot failed for " +:+ publicKey +:+ ": " +:+ toString response.1 +:+ " " +:+ response.2).

(** [None] is an error that carries a [response]. *)
Definition accountExists (publicKey horizonUrl : string) : M bool :=
  run! account := (fun h => ((h ++ [LoadAccount horizonUrl publicKey])%list, loadAccount h publicKey)) in
  ret match account with Some _ => true | None => false end.
End Accounts.

(** ** Sending a signed transaction *)

Record Network := { n_rpcUrl : string; n_passphrase : string }.

Definition testnet (env : list (string * string)) : Network :=
  {| n_rpcUrl := default "https://soroban-testnet.stellar.org" (jget "STELLAR_RPC_URL" env);
     n_passphrase := default "Test SDF Network ; September 2015" (jget "STELLAR_NETWORK_PASSPHRASE" env) |}.

Record Sent := { sent_status : string; sent_hash : string; errorResult : string }.

Section Broadcast.
Variable fromXDR : string -> string -> result string.                 (** XDR, passphrase *)
Variable sendTransaction : list Call -> string -> result Sent.
Variable getTransaction : list Call -> string -> result string.       (** its status *)

Definition send (n : Network) (tx : string) : M Sent := fun h => ((h ++ [SendTransaction (n_rpcUrl n) tx])%list, sendTransaction h tx).
Definition look_up (n : Network) (hash : string) : M string := fun h => ((h ++ [GetTransaction (n_rpcUrl n) hash])%list, getTransaction h hash).

(** [for (let i = 0; i < 30 && status === "NOT_FOUND"; i++)] *)
Fixpoint poll (i : nat) (n : Network) (hash status : string) : M string :=
  match i with
  | O => ret status
  | S i => if bool_decide (status = "NOT_FOUND") then run! _ := wait 2000 in run! status := look_up n hash in poll i n hash status else ret status
  end.

Definition broadcastSignedXdr (n : Network) (signedXdr : string) : M (string * string) :=
  run! tx := lift (fromXDR signedXdr (n_passphrase n)) in
  run! sent := send n tx in
  if bool_decide (sent_status sent = "ERROR") then throw ("Soroban sendTransaction error: " +:+ errorResult sent)
  else
    run! first := look_up n (sent_hash sent) in
    run! status := poll 30 n (sent_hash sent) first in
    if negb (bool_decide (status = "SUCCESS")) then throw ("tx " +:+ sent_hash sent +:+ " status " +:+ status)
    else ret (sent_hash sent, status).
End Broadcast.

(** The arguments of the pool's entry points, by their Soroban types. *)
Inductive ScVal := ScAddress (s : string) | ScBytes (b : string) | ScI128 (z : Z) | ScU32 (z : Z).

Definition sc_bytes (hex : string) : ScVal := ScBytes (hex_decode (stripHex hex)).
Definition sc_i128 (v : string) : result ScVal :=
  match BigInt v with Some z => Ok (ScI128 z) | None => Err ("SyntaxError: Cannot convert " +:+ v +:+ " to a BigInt") end.

Definition withdrawParams (to proofHex publicHex : string) : list ScVal := [ScAddress to; sc_bytes proofHex; sc_bytes publicHex].
Definition withdrawCctpParams (to proofHex publicHex : string) (destinationDomain : Z) (destinationRecipientHex maxFee : string) (minFinality : Z)
    : result (list ScVal) :=
  let! fee := sc_i128 maxFee in
  Ok [ScAddress to; sc_bytes proofHex; sc_bytes publicHex; ScU32 destinationDomain; sc_bytes destinationRecipientHex; fee; ScU32 minFinality].

(** ** One attempt *)

Definition output (r : Spawned) : string := default "" (stderr r) +:+ newline +:+ default "" (stdout r).

(** What a run with exit status 0 gives. *)
Definition finish (o : InvokeOpts) (out : Spawned) : result SorobanInvokeResult :=
  let tx := parseSorobanTx (output out) in
  if bool_decide (tx = None) && negb (readOnly o) then
    Err ("Soroban " +:+ method o +:+ " succeeded but no tx hash found in output:" +:+ newline +:+ redact (output out) (secret o))
  else Ok {| txHash := default "" tx; returnValue := trim (default "" (stdout out)); raw := redact (output out) (secret o) |}.

Lemma attempts_S spawn n o last h : attempts spawn (S n) o last h =
  let out := spawn h (argv o) in
  let h1 := (h ++ [Spawn "stellar" (argv o)])%list in
  if bool_decide (status out = Some 0) then (h1, finish o out)
  else if retryable (redact (output out) (secret o)) then
    attempts spawn n o (redact (output out) (secret o)) (h ++ [Spawn "stellar" (argv o); Wait 5000])%list
  else (h1, Err ("stellar contract invoke " +:+ method o +:+ " failed: " +:+ redact (output out) (secret o))).
Proof.
  cbn [attempts]. unfold bindM at 1, run_stellar. cbn beta iota zeta. fold (output (spawn h (argv o))).
  case_bool_decide; [unfold finish; by destruct (_ && _)|]. destruct (retryable _); [|done]. unfold bindM, wait. by rewrite <- app_assoc.
Qed.

(** ** The secret stays out of what is returned *)

(** The alphabet and the length of an encoded secret seed. *)
Definition strkey_char (c : ascii) : bool := let n := byte_val c in ((65 <=? n) && (n <=? 90)) || ((50 <=? n) && (n <=? 55)).
Definition is_seed (s : string) : Prop := String.length s = 56%nat /\ str_forall strkey_char s = true.

Lemma seed_avoids s c : is_seed s -> strkey_char c = false -> avoids c s = true.
Proof.
  intros [_ Hs] Hc. induction s as [|d s IH]; [done|]. cbn in Hs. apply andb_prop in Hs as [Hd Hs]. unfold avoids. cbn [str_forall].
  apply andb_true_intro. split; [|by apply IH]. apply negb_true_iff, Ascii.eqb_neq. intros ->. by rewrite Hd in Hc.
Qed.

Lemma redacted_clean s t : is_seed s -> includes s (redact t s) = false.
Proof.
  intros Hs. unfold redact. pose proof (proj1 Hs) as Hl. rewrite bool_decide_false by (intros ->; cbn in Hl; lia).
  apply (replaced_away s "REDACTED_STELLAR_SECRET" t 0); [by apply seed_avoids|by apply seed_avoids|cbn; lia|lia].
Qed.

Lemma seed_short s t : is_seed s -> (String.length t < 56)%nat -> includes s t = false.
Proof. intros [Hl _] Ht. apply not_true_is_false. intros H%includes_length. lia. Qed.

Lemma failure_clean s m t : is_seed s -> includes s m = false -> includes s t = false ->
  includes s ("stellar contract invoke " +:+ m +:+ " failed: " +:+ t) = false.
Proof.
  intros Hs Hm Ht. assert (s <> "") as Hne by (intros ->; by destruct Hs).
  change ("stellar contract invoke " +:+ m +:+ " failed: " +:+ t) with ("stellar contract invoke" +:+ String " " (m +:+ String " " ("failed:" +:+ String " " t))).
  rewrite !includes_split by (done || by apply seed_avoids). rewrite Hm, Ht, !seed_short by (done || cbn; lia). done.
Qed.

Lemma no_hash_clean s m t : is_seed s -> includes s m = false -> includes s t = false ->
  includes s ("Soroban " +:+ m +:+ " succeeded but no tx hash found in output:" +:+ newline +:+ t) = false.
Proof.
  intros Hs Hm Ht. assert (s <> "") as Hne by (intros ->; by destruct Hs).
  change ("Soroban " +:+ m +:+ " succeeded but no tx hash found in output:" +:+ newline +:+ t)
    with ("Soroban" +:+ String " " (m +:+ String " " ("succeeded but no tx hash found in output:" +:+ String "010" t))).
  rewrite !includes_split by (done || by apply seed_avoids). rewrite Hm, Ht, !seed_short by (done || cbn; lia). done.
Qed.

(** C27: whatever the command line prints and however often it fails, the signing
    secret occurs neither in the raw output that [sorobanInvoke] returns nor in
    the error it throws. *)
Theorem soroban_secret_redacted spawn o h : is_seed (secret o) -> includes (secret o) (method o) = false ->
  match (sorobanInvoke spawn o h).2 with Ok r => includes (secret o) (raw r) = false | Err e => includes (secret o) e = false end.
Proof.
  intros Hs Hm. unfold sorobanInvoke. assert (includes (secret o) "" = false) as Hlast by (by apply seed_short; [|cbn; lia]).
  revert Hlast h. generalize "" as last. induction (default 4%nat (retries o)) as [|n IH]; intros last Hlast h; [by apply failure_clean|].
  rewrite attempts_S. cbn zeta. set (out := spawn h (argv o)). pose proof (redacted_clean _ (output out) Hs) as Hred. case_bool_decide.
  - cbn [snd]. unfold finish. destruct (_ && _); [by apply no_hash_clean|done].
  - destruct (retryable _); [|by apply failure_clean]. apply (IH _ Hred).
Qed.

(** ** Attempts *)

Definition spawns (l : list Call) : nat := length (List.filter (fun c => match c with Spawn _ _ => true | _ => false end) l).

Lemma hex_run_spec n s x : hex_run n s = Some x -> String.length x = n /\ exists r, s = x +:+ r.
Proof.
  revert s x. induction n as [|n IH]; intros s x H; [destruct s; injection H as <-; by split; [|eexists]|].
  destruct s as [|c s]; [done|]. cbn in H. destruct (hex_val c); [|done]. destruct (hex_run n s) as [y|] eqn:E; [|done].
  injection H as <-. destruct (IH _ _ E) as [<- [r ->]]. split; [done|by exists r].
Qed.

Lemma trim_left_suffix s : exists a, s = a +:+ trim_left s.
Proof. induction s as [|c s [a IH]]; [by exists ""|]. cbn. destruct (is_ws c); [|by exists ""]. exists (String c a). rewrite sapp_cons. by f_equal. Qed.

(** A hash that a pattern finds is 64 characters of the text. *)
Definition finds (f : string -> option string) : Prop := forall s x, f s = Some x -> String.length x = 64%nat /\ includes x s = true.

Lemma includes_suffix x a s : includes x s = true -> includes x (a +:+ s) = true.
Proof. intros (u & v & ->)%includes_spec. apply includes_spec. exists (a +:+ u), v. by rewrite sapp_assoc. Qed.

Lemma hex_run_finds : finds (hex_run 64).
Proof. intros s x [Hl [r ->]]%hex_run_spec. split; [done|]. apply includes_spec. by exists "", r. Qed.

Lemma ws_hash_finds : finds ws_hash.
Proof. intros s x [Hl Hi]%hex_run_finds. split; [done|]. destruct (trim_left_suffix s) as [a ->]. by apply includes_suffix. Qed.

Lemma prefix_finds p f : finds f -> finds (fun s => strip_prefix p s ≫= f).
Proof.
  intros Hf s x H. destruct (strip_prefix p s) as [r|] eqn:E; [|done]. apply strip_prefix_Some in E as ->.
  destruct (Hf _ _ H). split; [done|]. by apply includes_suffix.
Qed.

Lemma colon_hash_finds : finds colon_hash.
Proof.
  intros [|c s] x; [exact (ws_hash_finds "" x)|]. cbn [colon_hash]. destruct (Ascii.eqb c ":"); [|apply ws_hash_finds].
  destruct (ws_hash s) eqn:E; [|apply ws_hash_finds]. intros [= <-]. destruct (ws_hash_finds _ _ E). split; [done|]. by apply (includes_suffix _ (String c "")).
Qed.

Lemma hash_line_finds : finds hash_line.
Proof.
  intros [|c s] x H; [done|]. cbn [hash_line] in H. destruct (_ || _); [|done]. destruct (strip_prefix _ s) as [r|] eqn:E; [|done]. apply strip_prefix_Some in E as ->.
  enough (String.length x = 64%nat /\ includes x r = true) as [? ?].
  { split; [done|]. by apply (includes_suffix _ (String c "ransaction hash")). }
  set (grouped := if match r with String w _ => is_ws w | _ => false end then _ else _) in H.
  destruct grouped as [y|] eqn:E; [|by apply colon_hash_finds]. injection H as <-. unfold grouped in E.
  destruct (match r with String w _ => is_ws w | _ => false end); [|done]. destruct (prefix_finds "is" _ colon_hash_finds _ _ E). split; [done|]. destruct (trim_left_suffix r) as [a ->]. by apply includes_suffix.
Qed.

Lemma first_match_finds f : finds f -> finds (first_match f).
Proof.
  intros Hf s. induction s as [|c s IH]; intros x; cbn [first_match]; destruct (f _) eqn:E; try done; [by intros [= <-]; apply Hf|by intros [= <-]; apply Hf|].
  intros H. destruct (IH _ H). split; [done|]. by apply (includes_suffix _ (String c "")).
Qed.

Lemma parseSorobanTx_finds : finds parseSorobanTx.
Proof.
  intros s x. unfold parseSorobanTx. destruct (first_match hash_line s) eqn:E1; [intros [= <-]; by apply (first_match_finds _ hash_line_finds s)|].
  destruct (first_match link_line s) eqn:E2; [intros [= <-]; by apply (first_match_finds _ (prefix_finds "tx/" _ hex_run_finds) s)|].
  apply (first_match_finds _ (prefix_finds "transaction:" _ ws_hash_finds) s).
Qed.

(** A successful answer: the exit status is 0 and the hash, unless the call only
    reads, is 64 characters of what was printed. *)
Definition succeeded (o : InvokeOpts) (out : Spawned) (r : SorobanInvokeResult) : Prop :=
  status out = Some 0 /\ returnValue r = trim (default "" (stdout out)) /\
  (readOnly o = false -> String.length (txHash r) = 64%nat /\ includes (txHash r) (output out) = true).

Lemma finish_succeeded o out r : status out = Some 0 -> finish o out = Ok r -> succeeded o out r.
Proof.
  intros Hst. unfold finish, succeeded. case_bool_decide as Ep; cbn [andb].
  - destruct (readOnly o); cbn [negb]; [|done]. by intros [= <-].
  - intros [= <-]. split_and!; [done..|]. intros _. cbn [txHash]. destruct (parseSorobanTx (output out)) as [x|] eqn:Ex; [|done]. by apply parseSorobanTx_finds.
Qed.

Lemma attempts_submit_once spawn n o last h :
  exists calls, (attempts spawn n o last h).1 = (h ++ calls)%list /\ (spawns calls <= n)%nat /\
    (forall before program av after, calls = (before ++ Spawn program av :: after)%list ->
       program = "stellar" /\ av = argv o /\ (status (spawn (h ++ before)%list (argv o)) = Some 0 -> after = [])) /\
    forall r, (attempts spawn n o last h).2 = Ok r ->
      exists before, calls = (before ++ [Spawn "stellar" (argv o)])%list /\ succeeded o (spawn (h ++ before)%list (argv o)) r.
Proof.
  revert h last. induction n as [|n IH]; intros h last.
  { exists []. rewrite app_nil_r. split_and!; [done|done|by intros []|done]. }
  rewrite attempts_S. cbn zeta. set (out := spawn h (argv o)). case_bool_decide as Hst; [|destruct (retryable _)].
  - exists [Spawn "stellar" (argv o)]. split_and!; [done|cbn; lia| |].
    + intros [|b before] program av after E; [by injection E as <- <- <-|]. by destruct before.
    + intros r Hr. exists []. rewrite app_nil_r. split; [done|]. by apply finish_succeeded.
  - destruct (IH (h ++ [Spawn "stellar" (argv o); Wait 5000])%list (redact (output out) (secret o))) as (calls & E & Hn & Hall & Hr).
    rewrite E. exists (Spawn "stellar" (argv o) :: Wait 5000 :: calls). rewrite <- !app_assoc in *. cbn [app] in *. split_and!; [done|unfold spawns in *; cbn; lia| |].
    + intros [|b [|b' before]] program av after Eq; [injection Eq as <- <- <-; rewrite app_nil_r; by split_and!|done|]. injection Eq as <- <- Eq.
      destruct (Hall _ _ _ _ Eq) as (-> & -> & Hx). rewrite <- app_assoc in Hx. cbn [app] in Hx. by split_and!.
    + intros r Hres. destruct (Hr r Hres) as (before & -> & Hs). exists (Spawn "stellar" (argv o) :: Wait 5000 :: before). rewrite <- app_assoc in Hs. by split.
  - exists [Spawn "stellar" (argv o)]. split_and!; [done|cbn; lia| |done].
    intros [|b before] program av after E; [by injection E as <- <- <-|]. by destruct before.
Qed.

(** [sorobanInvoke] runs the command line at most [retries] times, always
    with the same arguments; an attempt that exits with status 0 is the last one,
    so a transaction that went through is never submitted again; and a result is
    returned only for such an attempt, with a transaction hash taken from its
    output. *)
Theorem soroban_invoke_submits_once spawn o h :
  exists calls, (sorobanInvoke spawn o h).1 = (h ++ calls)%list /\ (spawns calls <= default 4 (retries o))%nat /\
    (forall before program av after, calls = (before ++ Spawn program av :: after)%list ->
       program = "stellar" /\ av = argv o /\ (status (spawn (h ++ before)%list (argv o)) = Some 0 -> after = [])) /\
    forall r, (sorobanInvoke spawn o h).2 = Ok r ->
      exists before, calls = (before ++ [Spawn "stellar" (argv o)])%list /\ succeeded o (spawn (h ++ before)%list (argv o)) r.
Proof. apply attempts_submit_once. Qed.

(** ** Sending a signed transaction *)

(** Never more than thirty rounds of waiting, each followed by one query, and
    success only when the last answer is. *)
Definition lookups (l : list Call) : nat := length (List.filter (fun c => match c with GetTransaction _ _ => true | _ => false end) l).

Lemma poll_spec gt i n hash st h :
  exists calls, (poll gt i n hash st h).1 = (h ++ calls)%list /\ (lookups calls <= i)%nat /\
    Forall (fun c => c = Wait 2000 \/ c = GetTransaction (n_rpcUrl n) hash) calls /\
    forall st', (poll gt i n hash st h).2 = Ok st' -> st' = st \/ exists h', gt h' hash = Ok st'.
Proof.
  revert st h. induction i as [|i IH]; intros st h; cbn [poll].
  { exists []. rewrite app_nil_r. split_and!; [done|cbn; lia|constructor|]. intros st' [= <-]. by left. }
  case_bool_decide; [|exists []; rewrite app_nil_r; split_and!; [done|cbn; lia|constructor|intros st' [= <-]; by left]].
  unfold bindM, wait, look_up. set (h1 := (h ++ [Wait 2000])%list). destruct (gt h1 hash) as [st1|e] eqn:E.
  - unfold h1. rewrite <- app_assoc. cbn [app]. destruct (IH st1 (h ++ [Wait 2000; GetTransaction (n_rpcUrl n) hash])%list) as (calls & E1 & Hn & HF & Hr).
    exists (Wait 2000 :: GetTransaction (n_rpcUrl n) hash :: calls). rewrite E1, <- app_assoc. split_and!; [done|unfold lookups in *; cbn; lia| |].
    + constructor; [by left|]. constructor; [by right|done].
    + intros st' Hs. destruct (Hr st' Hs) as [->|Hg]; right; [by eexists|done].
  - exists [Wait 2000; GetTransaction (n_rpcUrl n) hash]. unfold h1. rewrite <- app_assoc. split_and!; [done|cbn; lia| |done].
    constructor; [by left|]. constructor; [by right|constructor].
Qed.

(** A transaction the user signed is sent once, its fate is asked for at most
    31 times, so the call ends; and a hash is returned only after the network
    reported success for it. *)
Theorem broadcast_confirms_success fromXDR sendTx gt n xdr h :
  exists calls, (broadcastSignedXdr fromXDR sendTx gt n xdr h).1 = (h ++ calls)%list /\ (lookups calls <= 31)%nat /\
    (length (List.filter (fun c => match c with SendTransaction _ _ => true | _ => false end) calls) <= 1)%nat /\
    forall hash st, (broadcastSignedXdr fromXDR sendTx gt n xdr h).2 = Ok (hash, st) ->
      st = "SUCCESS" /\ (exists tx sent, fromXDR xdr (n_passphrase n) = Ok tx /\ sendTx h tx = Ok sent /\ sent_hash sent = hash /\ sent_status sent <> "ERROR") /\
      exists h', gt h' hash = Ok "SUCCESS".
Proof.
  unfold broadcastSignedXdr. unfold bindM at 1 5, lift. destruct (fromXDR xdr (n_passphrase n)) as [tx|e].
  2:{ exists []. rewrite app_nil_r. split_and!; [done|cbn; lia|cbn; lia|done]. }
  unfold bindM at 1 4, send. destruct (sendTx h tx) as [sent|e] eqn:Es.
  2:{ exists [SendTransaction (n_rpcUrl n) tx]. split_and!; [done|cbn; lia|cbn; lia|done]. }
  case_bool_decide as Hse; [exists [SendTransaction (n_rpcUrl n) tx]; split_and!; [done|cbn; lia|cbn; lia|done]|].
  unfold bindM at 1 3, look_up. set (h1 := (h ++ _)%list). destruct (gt h1 (sent_hash sent)) as [st1|e] eqn:E1.
  2:{ exists [SendTransaction (n_rpcUrl n) tx; GetTransaction (n_rpcUrl n) (sent_hash sent)]. unfold h1. rewrite <- app_assoc. split_and!; [done|cbn; lia|cbn; lia|done]. }
  unfold h1. rewrite <- app_assoc. cbn [app]. set (h2 := (h ++ _)%list). destruct (poll_spec gt 30 n (sent_hash sent) st1 h2) as (calls & E & Hn & HF & Hr).
  exists (SendTransaction (n_rpcUrl n) tx :: GetTransaction (n_rpcUrl n) (sent_hash sent) :: calls).
  assert (length (List.filter (fun c => match c with SendTransaction _ _ => true | _ => false end) calls) = 0%nat) as H0.
  { clear -HF. by induction HF as [|c l [-> | ->] _ IH]. }
  unfold bindM. destruct (poll gt 30 n (sent_hash sent) st1 h2) as [h3 [st2|e]]; cbn [fst snd] in *; subst h3; unfold h2; rewrite <- app_assoc; cbn [app].
  - case_bool_decide as Hst; cbn [negb]; (split_and!; [done|unfold lookups in *; cbn; lia|cbn; lia|]); [|done]. intros hash st [= <- <-].
    split; [done|]. split; [by exists tx, sent|]. destruct (Hr st2 eq_refl) as [->|[h' Hh]]; [exists h1|exists h']; congruence.
  - split_and!; [done|unfold lookups in *; cbn; lia|cbn; lia|done].
Qed.

End Stellar.

(** ** Examples *)

Definition toy_seed : string := "SBGWSG6BTNCKCOB3DIFBGCVMUPQFYPA2G4O34RMTB343OYPXU5DJDVMN".
Definition toy_opts : Stellar.InvokeOpts :=
  {| Stellar.contractId := "CPOOL"; Stellar.secret := toy_seed; Stellar.method := "mpc_settle"; Stellar.args := ["--batch"; "7"]; Stellar.rpcUrl := None;
     Stellar.passphrase := None; Stellar.retries := None; Stellar.readOnly := false |}.

(** A command line that repeats its arguments in the error. *)
Definition echoing (h : list Stellar.Call) (argv : list string) : Stellar.Spawned :=
  {| Stellar.status := Some 1; Stellar.stdout := None; Stellar.stderr := Some ("error: timeout in " +:+ join " " argv) |}.

Lemma soroban_secret_redacted_witness :
  match (Stellar.sorobanInvoke echoing toy_opts []).2 with
  | Ok r => includes toy_seed (Stellar.raw r) = false
  | Err e => includes toy_seed e = false
  end.
Proof. apply (Stellar.soroban_secret_redacted echoing toy_opts []); [split; reflexivity|reflexivity]. Defined.

(** The secret is one of the arguments of the process. *)
Lemma secret_in_argv o : Stellar.secret o ∈ Stellar.argv o.
Proof. unfold Stellar.argv. do 5 right. left. Qed.

Example hash_found : Stellar.parseSorobanTx ("ok" +:+ Stellar.newline +:+ "Transaction hash is " +:+ String.concat "" (repeat "0aF9" 16)) =
  Some (String.concat "" (repeat "0aF9" 16)).
Proof. reflexivity. Qed.
