(* ===== verification/Browser.v ===== *)
(** The browser's chain clients (frontend/lib/arc.ts, cctp.ts, streampay.ts,
    freighter-withdraw.ts).

    Wallet extensions, contracts, RPC servers and Circle answer through
    [answer], a function of the calls made so far; an extension that does not
    answer in time is one that throws.  The transaction builder of stellar-sdk
    and the log parser of ethers are parameters.  Progress callbacks and the
    cached read-only providers are not modelled. *)

From S2P Require Import Prelude Effects Text Json Stellar.
Local Open Scope string_scope.
Local Open Scope Z_scope.

Module Browser.

Inductive Call :=
| Request (method : string) (params : list json)              (** EIP-1193 *)
| Contract (address method : string) (args : list json) (value : Z)
| Mined (hash : json)
| Read (address method : string) (args : list json)
| Fetch (url : string)
| Clock
| Sleep (ms : Z)
| Access
| Address
| NetworkDetails
| GetAccount (id : string)
| Prepare (tx : string)
| Sign (xdr address : string)
| SendTransaction (tx : string)
| GetTransaction (hash : json).

Definition M : Type -> Type := SE (list Call).

Definition fld (k : string) (v : json) : json := default JNull (prop k v).
(** [v === s] *)
Definition is_text (v : json) (s : string) : bool := match v with JStr t => String.eqb t s | _ => false end.

(** ** Chains *)

Record Chain := { chainId : Z; chainIdHex : string; chainName : string; rpcUrl : string; explorer : string; currency : json }.

Definition native (name symbol : string) : json := JObj [("name", JStr name); ("symbol", JStr symbol); ("decimals", JNum 18)].

Definition ARC_CHAIN (rpc : option string) : Chain :=
  {| chainId := 5042002; chainIdHex := "0x4CEF52"; chainName := "Arc Testnet"; rpcUrl := default "https://rpc.testnet.arc.network" rpc;
     explorer := "https://testnet.arcscan.app"; currency := native "USDC" "USDC" |}.
Definition BASE_SEPOLIA : Chain :=
  {| chainId := 84532; chainIdHex := "0x14a34"; chainName := "Base Sepolia"; rpcUrl := "https://sepolia.base.org";
     explorer := "https://sepolia.basescan.org"; currency := native "Ether" "ETH" |}.

Definition base_usdc : string := "0x036CbD53842c5426634e7929541eC2318f3dCF7e".
Definition tokenMessenger : string := "0x8FE6B999Dc680CcFDD5Bf7EB0974218be2542DAA".
Definition messageTransmitter : string := "0xE737e5cEBEEBa77EFE34D4aa090756590b1CE275".
Definition ARC_CCTP_DOMAIN : Z := 26.
Definition CCTP_ATTESTATION_API : string := "https://iris-api-sandbox.circle.com".

Section Browser.
Variable answer : list Call -> Call -> result json.
(** The code of the error a wallet request throws. *)
Variable error_code : list Call -> Call -> option Z.

Definition call (c : Call) : M json := fun h => ((h ++ [c])%list, answer h c).

(** [/Unrecognized|unknown chain/i] *)
Definition says_unknown (message : string) : bool := includes "unrecognized" (toLowerCase message) || includes "unknown chain" (toLowerCase message).

Definition add_params (c : Chain) : list json :=
  [JObj [("chainId", JStr (chainIdHex c)); ("chainName", JStr (chainName c)); ("rpcUrls", JArr [JStr (rpcUrl c)]); ("nativeCurrency", currency c);
         ("blockExplorerUrls", JArr [JStr (explorer c)])]].

(** [ensureArcChain] and [ensureBaseChain] *)
Definition ensureChain (c : Chain) : M unit :=
  run! current := call (Request "eth_chainId" []) in
  match current with
  | JStr cur =>
      if bool_decide (toLowerCase cur = toLowerCase (chainIdHex c)) then ret tt
      else
        let switch := Request "wallet_switchEthereumChain" [JObj [("chainId", JStr (chainIdHex c))]] in
        fun h => match call switch h with
                 | (h1, Ok _) => (h1, Ok tt)
                 | (h1, Err e) =>
                     if bool_decide (error_code h switch = Some 4902) || says_unknown e
                     then (run! _ := call (Request "wallet_addEthereumChain" (add_params c)) in ret tt) h1
                     else (h1, Err e)
                 end
  | _ => throw "TypeError: currentHex.toLowerCase is not a function"
  end.

(** ** Burns, attestations and mints *)

(** A contract call and the wait for its block; the transaction and the receipt. *)
Definition transact (address method : string) (args : list json) (value : Z) : M (json * json) :=
  run! tx := call (Contract address method args value) in
  run! receipt := call (Mined (fld "hash" tx)) in
  ret (fld "hash" tx, receipt).

Definition approveTokenMessenger (amount : Z) : M json :=
  run! r := transact base_usdc "approve" [JStr tokenMessenger; JNum amount] 0 in ret r.1.

(** [zeroPadValue(x, 32)] of a hexadecimal text *)
Definition zeroPad32 (x : string) : result string :=
  let t := stripHex x in
  throw_if negb (has_0x x) || negb (Nat.even (String.length t)) || negb (str_forall (fun c => bool_decide (is_Some (hex_val c))) t)
    with "invalid BytesLike value" in
  throw_if Nat.ltb 64 (String.length t) with "padding exceeds data length" in
  Ok ("0x" +:+ zeros16 (64 - String.length t) +:+ toLowerCase t).

Definition depositForBurn (amount : Z) (arcRecipient : string) : M json :=
  run! mintRecipient := lift (zeroPad32 arcRecipient) in
  run! r := transact tokenMessenger "depositForBurn"
    [JNum amount; JNum ARC_CCTP_DOMAIN; JStr mintRecipient; JStr base_usdc; JStr ("0x" +:+ zeros16 64); JNum (Z.quot amount 1000); JNum 1000] 0 in
  ret r.1.

Definition receiveMessage (message attestation : string) : M json :=
  run! r := transact messageTransmitter "receiveMessage" [JStr message; JStr attestation] 0 in ret r.1.

Record Attestation := { a_message : json; a_attestation : json }.

(** A message of Circle's answer that is complete. *)
Definition complete_message (body : json) : option Attestation :=
  match prop "messages" body with
  | Some (JArr (m :: _)) =>
      let att := fld "attestation" m in
      if is_text (fld "status" m) "complete" && truthy att && negb (is_text att "PENDING")
      then Some {| a_message := match fld "message" m with JNull => JStr "" | v => v end; a_attestation := att |} else None
  | _ => None
  end.

Definition clock : M Z := run! v := call Clock in match v with JNum z => ret z | _ => throw "no clock" end.

(** One look at Circle; every failure inside is swallowed. *)
Definition look (url : string) : M (option Attestation) := fun h =>
  match call (Fetch url) h with
  | (h, Ok res) => (h, Ok (if truthy (fld "ok" res) then complete_message (fld "body" res) else None))
  | (h, Err _) => (h, Ok None)
  end.

(** [None] when the fuel runs out before the loop ends. *)
Fixpoint attestation_loop (fuel : nat) (url : string) (maxWaitSecs start : Z) : M (option Attestation) :=
  match fuel with
  | O => ret None
  | S fuel =>
      run! now := clock in
      if now - start <? maxWaitSecs * 1000 then
        run! found := look url in
        match found with
        | Some a => ret (Some a)
        | None => run! _ := call (Sleep 5000) in attestation_loop fuel url maxWaitSecs start
        end
      else throw "attestation not ready after timeout"
  end.

Definition fetchAttestation (fuel : nat) (sourceDomain : Z) (burnTxHash : string) (maxWaitSecs : option Z) : M (option Attestation) :=
  let url := CCTP_ATTESTATION_API +:+ "/v2/messages/" +:+ toString sourceDomain +:+ "?transactionHash=" +:+ burnTxHash in
  run! start := clock in attestation_loop fuel url (default 600 maxWaitSecs) start.

(** ** Streams *)

Inductive StreamState := streaming | paused | closed.

Record Meter := { earned : json; withdrawable : json; state : StreamState; deposit : json; withdrawn : json }.

(** [v[i]] of a decoded struct *)
Definition nth_field (i : nat) (v : json) : json := match v with JArr l => nth i l JNull | _ => JNull end.

Definition readMeter (addr id : string) : M Meter :=
  run! e := call (Read addr "earned" [JStr id]) in
  run! w := call (Read addr "withdrawable" [JStr id]) in
  run! s := call (Read addr "streams" [JStr id]) in
  ret {| earned := e; withdrawable := w;
         state := if truthy (nth_field 8 s) then closed else if truthy (nth_field 7 s) then streaming else paused;
         deposit := nth_field 3 s; withdrawn := nth_field 5 s |}.

Definition openStream (addr id payee : string) (ratePerSecond cap : Z) : M json :=
  run! r := transact addr "open" [JStr id; JStr payee; JNum ratePerSecond] cap in ret r.1.
Definition pauseStream (addr id : string) : M json := run! r := transact addr "pause" [JStr id] 0 in ret r.1.
Definition resumeStream (addr id : string) : M json := run! r := transact addr "resume" [JStr id] 0 in ret r.1.

(** [iface.parseLog]: a name and arguments; [None] when it throws or gives null. *)
Variable parseLog : json -> option (string * json).

(** The arguments of the first log of this name. *)
Fixpoint decode (name : string) (logs : list json) : option json :=
  match logs with
  | [] => None
  | l :: logs => match parseLog l with Some (n, args) => if bool_decide (n = name) then Some args else decode name logs | None => decode name logs end
  end.

Definition logs_of (receipt : json) : list json := match fld "logs" receipt with JArr l => l | _ => [] end.
(** [e?.k ?? 0n] *)
Definition amount_of (k : string) (e : option json) : json := match e with Some a => match fld k a with JNull => JNum 0 | v => v end | None => JNum 0 end.

Definition withdrawStream (addr id : string) : M (json * json) :=
  run! r := transact addr "withdraw" [JStr id] 0 in ret (r.1, amount_of "amount" (decode "Withdrawn" (logs_of r.2))).

Definition stopStream (addr id : string) : M (json * json * json) :=
  run! r := transact addr "stop" [JStr id] 0 in
  let s := decode "Stopped" (logs_of r.2) in
  ret (r.1, amount_of "paidToPayee" s, amount_of "refundToPayer" s).

(** ** Withdrawals signed in Freighter *)

Definition PASSPHRASE : string := "Test SDF Network ; September 2015".

Definition upper_char (c : ascii) : ascii := let n := byte_val c in if (97 <=? n) && (n <=? 122) then byte_of (n - 32) else c.
Fixpoint toUpperCase (s : string) : string := match s with EmptyString => "" | String c s => String (upper_char c) (toUpperCase s) end.

(** [x.k] of a text field, empty when there is none. *)
Definition text_of (k : string) (v : json) : string := match fld k v with JStr s => s | _ => "" end.

Definition connectFreighter : M string :=
  run! access := call Access in
  if truthy (fld "error" access) then throw (to_primitive (fld "error" access))
  else
    run! addr := (if bool_decide (text_of "address" access = "") then run! a := call Address in ret (text_of "address" a) else ret (text_of "address" access)) in
    if bool_decide (addr = "") then throw "Freighter is locked — open it, unlock, and retry"
    else
      run! net := call NetworkDetails in
      if negb (bool_decide (text_of "networkPassphrase" net = PASSPHRASE)) then throw "Switch Freighter to the Testnet network" else ret addr.

(** stellar-sdk: the unsigned transaction of a pool call, and parsing a signed one. *)
Variable build_tx : json -> string -> string -> list Stellar.ScVal -> result string.
Variable fromXDR : string -> string -> result string.

Record WithdrawOpts := { w_pool : string; recipient : string; proofHex : string; publicHex : string }.

(** Up to [n] rounds of two seconds. *)
Fixpoint confirm (n : nat) (hash : json) : M json :=
  match n with
  | O => throw ("withdraw tx not confirmed in time: " +:+ to_primitive hash)
  | S n =>
      run! _ := call (Sleep 2000) in
      run! res := call (GetTransaction hash) in
      if is_text (fld "status" res) "SUCCESS" then ret hash
      else if is_text (fld "status" res) "FAILED" then throw ("withdraw tx failed on-chain: " +:+ to_primitive hash)
      else confirm n hash
  end.

Definition freighterWithdraw (o : WithdrawOpts) : M json :=
  run! a := call Address in
  let active := text_of "address" a in
  if bool_decide (active = "") then throw "connect Freighter first"
  else if negb (bool_decide (toUpperCase active = toUpperCase (recipient o)))
  then throw ("Freighter is on " +:+ bytes_take 6 active +:+ "…; switch to the withdraw account " +:+ bytes_take 6 (recipient o) +:+ "… (GD23…)")
  else
    run! account := call (GetAccount (recipient o)) in
    run! tx := lift (build_tx account (w_pool o) "withdraw" (Stellar.withdrawParams (recipient o) (proofHex o) (publicHex o))) in
    run! prepared := call (Prepare tx) in
    run! signed := call (Sign (to_primitive prepared) (recipient o)) in
    if truthy (fld "error" signed) then throw (to_primitive (fld "error" signed))
    else
      run! signedTx := lift (fromXDR (text_of "signedTxXdr" signed) PASSPHRASE) in
      run! sent := call (SendTransaction signedTx) in
      if is_text (fld "status" sent) "ERROR"
      then throw ("submit failed: " +:+ stringify (match prop "errorResult" sent with None | Some JNull => sent | Some e => e end))
      else confirm 30 (fld "hash" sent).

End Browser.

(** ** Theorems *)

Section Clocked.
Variable answer : list Call -> Call -> result json.

(** The time asked for by the sleeps of a history. *)
Fixpoint slept (h : list Call) : Z := match h with [] => 0 | Sleep ms :: h => ms + slept h | _ :: h => slept h end.

Lemma slept_concat h1 h2 : slept (h1 ++ h2)%list = slept h1 + slept h2.
Proof. induction h1 as [|c h1 IH]; [done|]. cbn. rewrite IH. destruct c; lia. Qed.

Lemma look_log url h : (look answer url h).1 = (h ++ [Fetch url])%list.
Proof. unfold look, call. by destruct (answer h (Fetch url)). Qed.

(** What is returned was complete in an answer of Circle. *)
Lemma attestation_loop_sound fuel url wait start h h' a : attestation_loop answer fuel url wait start h = (h', Ok (Some a)) ->
  exists h0 res, answer h0 (Fetch url) = Ok res /\ truthy (fld "ok" res) = true /\ complete_message (fld "body" res) = Some a.
Proof.
  revert h. induction fuel as [|fuel IH]; intros h; [done|]. cbn [attestation_loop]. intros (now & h1 & _ & H)%bindM_Ok.
  destruct (now - start <? wait * 1000); [|done]. apply bindM_Ok in H as (found & h2 & Hl & H).
  destruct found as [b|]; [|apply bindM_Ok in H as (? & h3 & _ & H); by apply (IH h3)].
  injection H as <- <-. unfold look, call in Hl. destruct (answer h1 (Fetch url)) as [res|e] eqn:Ha; [|done].
  injection Hl as <- Hb. exists h1, res. destruct (truthy (fld "ok" res)); done.
Qed.

Variable clk : list Call -> Z.
Hypothesis clock_answers : forall h, answer h Clock = Ok (JNum (clk h)).
Hypothesis clock_advances : forall h ext, clk h + slept ext <= clk (h ++ ext)%list.

Lemma attestation_loop_ends fuel url wait h0 ext k : slept ext = 5000 * k -> 0 <= k <= wait / 5 + 1 -> wait / 5 + 2 <= k + Z.of_nat fuel ->
  (attestation_loop answer fuel url wait (clk h0) (h0 ++ ext)%list).2 <> Ok None.
Proof.
  revert ext k. induction fuel as [|fuel IH]; intros ext k Hs Hk Hf.
  - lia.
  - cbn [attestation_loop]. unfold clock, call. cbv [bindM ret]. rewrite clock_answers. cbv beta iota delta [ret].
    destruct (Z.ltb_spec (clk (h0 ++ ext)%list - clk h0) (wait * 1000)) as [Hlt|Hge]; [|done].
    pose proof (clock_advances h0 ext) as Ha. pose proof (look_log url ((h0 ++ ext) ++ [Clock])%list) as Hl.
    destruct (look answer url ((h0 ++ ext) ++ [Clock])%list) as [h2 [[a|]|e]] eqn:El; [done| |done]. cbn [fst] in Hl. subst h2.
    destruct (answer _ (Sleep 5000)) as [v|e]; [|done].
    replace ((((h0 ++ ext) ++ [Clock]) ++ [Fetch url]) ++ [Sleep 5000])%list with (h0 ++ (((ext ++ [Clock]) ++ [Fetch url]) ++ [Sleep 5000]))%list by (by rewrite !(assoc_L (++))).
    apply (IH _ (k + 1)); [rewrite !slept_concat; cbn; lia| |lia]. assert (5 * k < wait) by lia. pose proof (Z.div_mod wait 5). pose proof (Z.mod_pos_bound wait 5). lia.
Qed.

End Clocked.

Section Withdraw.
Variable answer : list Call -> Call -> result json.

Definition polling (hash : json) (c : Call) : Prop := c = Sleep 2000 \/ c = GetTransaction hash.

Lemma call_Ok c h h' v : call answer c h = (h', Ok v) -> h' = (h ++ [c])%list /\ answer h c = Ok v.
Proof. unfold call. intros [= <- <-]. done. Qed.

Lemma confirm_Ok n hash h h' r : confirm answer n hash h = (h', Ok r) ->
  r = hash /\ (exists h0 res, answer h0 (GetTransaction hash) = Ok res /\ is_text (fld "status" res) "SUCCESS" = true) /\
  exists calls, h' = (h ++ calls)%list /\ Forall (polling hash) calls /\ (length calls <= 2 * n)%nat.
Proof.
  revert h. induction n as [|n IH]; intros h; [done|]. cbn [confirm].
  intros (u & h1 & [-> _]%call_Ok & H)%bindM_Ok. apply bindM_Ok in H as (res & h2 & [-> Ha]%call_Ok & H).
  assert (Forall (polling hash) [Sleep 2000; GetTransaction hash]) as Hp by (constructor; [by left|constructor; [by right|constructor]]).
  destruct (is_text (fld "status" res) "SUCCESS") eqn:Es.
  - injection H as <- <-. split; [done|]. split; [by eexists _, _|]. exists [Sleep 2000; GetTransaction hash]. rewrite <- app_assoc. split_and!; [done..|cbn; lia].
  - destruct (is_text (fld "status" res) "FAILED"); [done|]. destruct (IH _ H) as (-> & Hs & calls & -> & Hf & Hl).
    split; [done|]. split; [done|]. exists ([Sleep 2000; GetTransaction hash] ++ calls)%list. rewrite <- !app_assoc. split_and!; [done|by apply Forall_app|cbn; lia].
Qed.

End Withdraw.

(** A withdrawal signed in the browser.  When it returns a hash, the active
    account was the recipient, the wallet was asked for one signature, of the
    simulated transaction that calls the pool with the recipient and the proof;
    what it signed was submitted once, and the network reported success for the
    hash returned, within sixty further calls. *)
Theorem freighter_withdraw_confirmed answer build_tx fromXDR o h h' hash :
  freighterWithdraw answer build_tx fromXDR o h = (h', Ok hash) ->
  exists a account tx prepared signed signedTx calls,
    text_of "address" a <> "" /\ toUpperCase (text_of "address" a) = toUpperCase (recipient o) /\
    build_tx account (w_pool o) "withdraw" (Stellar.withdrawParams (recipient o) (proofHex o) (publicHex o)) = Ok tx /\
    fromXDR (text_of "signedTxXdr" signed) PASSPHRASE = Ok signedTx /\
    h' = (h ++ [Address; GetAccount (recipient o); Prepare tx; Sign (to_primitive prepared) (recipient o); SendTransaction signedTx] ++ calls)%list /\
    answer (h ++ [Address; GetAccount (recipient o)])%list (Prepare tx) = Ok prepared /\
    Forall (polling hash) calls /\ (length calls <= 60)%nat /\
    exists h0 res, answer h0 (GetTransaction hash) = Ok res /\ is_text (fld "status" res) "SUCCESS" = true.
Proof.
  unfold freighterWithdraw. intros (a & h1 & [-> _]%call_Ok & H)%bindM_Ok. case_bool_decide as Ha; [done|]. case_bool_decide as Hu; [|done]. cbn [negb] in H.
  apply bindM_Ok in H as (account & h2 & [-> _]%call_Ok & H). apply bindM_Ok in H as (tx & h3 & [= <- Hb] & H).
  apply bindM_Ok in H as (prepared & h4 & [-> Hp]%call_Ok & H). apply bindM_Ok in H as (signed & h5 & [-> _]%call_Ok & H).
  destruct (truthy (fld "error" signed)); [done|]. apply bindM_Ok in H as (signedTx & h6 & [= <- Hx] & H).
  apply bindM_Ok in H as (sent & h7 & [-> _]%call_Ok & H). destruct (is_text (fld "status" sent) "ERROR"); [done|].
  destruct (confirm_Ok _ _ _ _ _ _ H) as (-> & Hs & calls & -> & Hf & Hl). rewrite <- !app_assoc in *. cbn [app] in *.
  exists a, account, tx, prepared, signed, signedTx, calls. by split_and!.
Qed.

(** The browser's wait for Circle's attestation.  It returns only what an
    answer of Circle called complete, with an attestation that is not pending;
    and when sleeping takes at least the time asked for, one look in five
    seconds outlasts the timeout, so it returns or throws. *)
Theorem browser_attestation_sound answer clk dom tx wait h fuel :
  (forall h, answer h Clock = Ok (JNum (clk h))) -> (forall h ext, clk h + slept ext <= clk (h ++ ext)%list) ->
  0 <= default 600 wait -> default 600 wait / 5 + 2 <= Z.of_nat fuel ->
  match (fetchAttestation answer fuel dom tx wait h).2 with
  | Ok (Some a) => exists h0 url res, answer h0 (Fetch url) = Ok res /\ complete_message (fld "body" res) = Some a
  | Ok None => False
  | Err _ => True
  end.
Proof.
  intros Hc Hs Hw Hf. unfold fetchAttestation. set (wt := default 600 wait) in *. set (url := CCTP_ATTESTATION_API +:+ _). unfold clock, call. cbv [bindM ret]. rewrite Hc. cbv beta iota delta [ret].
  pose proof (attestation_loop_ends answer clk Hc Hs fuel url wt h [Clock] 0 eq_refl) as He.
  assert (0 <= 0 <= wt / 5 + 1) as H0 by (pose proof (Z.div_pos wt 5); lia). specialize (He H0 ltac:(lia)).
  destruct (attestation_loop answer fuel url wt (clk h) (h ++ [Clock])%list) as [h' [[a|]|e]] eqn:E; cbn [snd] in *; [|by apply He|done].
  apply attestation_loop_sound in E as (h0 & res & H1 & _ & H2). by exists h0, url, res.
Qed.

(** ** Examples *)

Definition toy_opts : WithdrawOpts := {| w_pool := "CPOOL"; recipient := "GD23"; proofHex := "0x01"; publicHex := "0x02" |}.
Definition toy_answer (h : list Call) (c : Call) : result json :=
  match c with
  | Clock => Ok (JNum (slept h))
  | Fetch _ => Ok (JObj [("ok", JBool true); ("body", JObj [("messages", JArr [JObj [("status", JStr (if slept h <? 10000 then "pending" else "complete"));
      ("message", JStr "0xm"); ("attestation", JStr "0xa")]])])])
  | Address => Ok (JObj [("address", JStr "gd23")])
  | Prepare tx => Ok (JStr (tx +:+ "+footprint"))
  | Sign x _ => Ok (JObj [("signedTxXdr", JStr (x +:+ "+signature"))])
  | SendTransaction _ => Ok (JObj [("status", JStr "PENDING"); ("hash", JStr "h1")])
  | GetTransaction _ => Ok (JObj [("status", JStr (if slept h <? 4000 then "NOT_FOUND" else "SUCCESS"))])
  | _ => Ok JNull
  end.
Definition toy_withdraw : list Call * result json := freighterWithdraw toy_answer (fun _ p m _ => Ok (p +:+ m)) (fun x _ => Ok x) toy_opts [].

Lemma freighter_withdraw_confirmed_witness :
  exists a account tx prepared signed signedTx calls,
    text_of "address" a <> "" /\ toUpperCase (text_of "address" a) = toUpperCase (recipient toy_opts) /\
    (fun (_ : json) p m (_ : list Stellar.ScVal) => @Ok string (p +:+ m)) account (w_pool toy_opts) "withdraw"
      (Stellar.withdrawParams (recipient toy_opts) (proofHex toy_opts) (publicHex toy_opts)) = Ok tx /\
    (fun x (_ : string) => @Ok string x) (text_of "signedTxXdr" signed) PASSPHRASE = Ok signedTx /\
    toy_withdraw.1 = ([] ++ [Address; GetAccount (recipient toy_opts); Prepare tx; Sign (to_primitive prepared) (recipient toy_opts); SendTransaction signedTx] ++ calls)%list /\
    toy_answer ([] ++ [Address; GetAccount (recipient toy_opts)])%list (Prepare tx) = Ok prepared /\
    Forall (polling (JStr "h1")) calls /\ (length calls <= 60)%nat /\
    exists h0 res, toy_answer h0 (GetTransaction (JStr "h1")) = Ok res /\ is_text (fld "status" res) "SUCCESS" = true.
Proof. apply (freighter_withdraw_confirmed toy_answer _ _ toy_opts [] _ (JStr "h1")). vm_compute. reflexivity. Defined.

Lemma browser_attestation_sound_witness :
  match (fetchAttestation toy_answer 122 6 "0xburn" None []).2 with
  | Ok (Some a) => exists h0 url res, toy_answer h0 (Fetch url) = Ok res /\ complete_message (fld "body" res) = Some a
  | Ok None => False
  | Err _ => True
  end.
Proof. apply (browser_attestation_sound toy_answer slept); [done|intros h ext; by rewrite slept_concat|vm_compute; discriminate..]. Defined.

End Browser.
