(* ===== verification/ProofPath.v ===== *)
(** The Stellar proof path (packages/proving/src/paths.ts, prove.ts,
    mpc-settlement.ts, mpc-priced.ts, compliance.ts).

    The builders write and read files and run three programs: [coinutils],
    [snarkjs] and [circom2soroban].  What a program writes and prints is the
    parameter [tool], a function of its arguments and of the files it finds;
    random bytes are the sequence [rand].  Writing a file of the scratch
    directory succeeds.  A field that is [undefined] is [None], and is left out of
    an object as [JSON.stringify] leaves it out. *)

From S2P Require Import Prelude Effects Text Json Rfq Assets Stellar.
Import Assets.
Local Open Scope string_scope.
Local Open Scope Z_scope.

Module ProofPath.

(** ** Files, programs and parsed values *)

Inductive Action := Exec (bin : string) (args : list string) | MakeDir (path : string).

Record World := { files : gmap string string; log : list Action; drawn : nat; scratchEnsured : bool }.

Definition M : Type -> Type := SE World.

Definition set_files (f : gmap string string) (w : World) : World :=
  {| files := f; log := log w; drawn := drawn w; scratchEnsured := scratchEnsured w |}.

Definition writeFile (path text : string) : M unit := fun w => (set_files (<[path := text]> (files w)) w, Ok tt).
Definition removeFile (path : string) : M unit := fun w => (set_files (delete path (files w)) w, Ok tt).
Definition existsSync (w : World) (path : string) : bool := bool_decide (is_Some (files w !! path)).

Definition parse_json (t : string) : result json := match JSON_parse t with Some v => Ok v | None => Err "SyntaxError: invalid JSON" end.

(** [JSON.parse(readFileSync(path, "utf8"))] *)
Definition readJson (path : string) : M json :=
  fun w => (w, match files w !! path with Some t => parse_json t | None => Err ("ENOENT: no such file or directory, open '" +:+ path +:+ "'") end).

(** [v.k], which throws on [undefined] and [null]. *)
Definition get (k : string) (v : option json) : result (option json) :=
  match v with
  | None | Some JNull => Err ("TypeError: Cannot read properties of undefined (reading '" +:+ k +:+ "')")
  | Some v => Ok (prop k v)
  end.
(** [v[i]] *)
Definition at_ (i : nat) (v : json) : result (option json) :=
  match v with
  | JNull => Err "TypeError: Cannot read properties of null"
  | JArr l => Ok (l !! i)
  | JStr s => Ok (option_map (fun c => JStr (String c "")) (String.get i s))
  | JObj l => Ok (jget (toString (Z.of_nat i)) l)
  | _ => Ok None
  end.

(** [BigInt(v)] *)
Definition bigint_of (v : option json) : result Z :=
  match v with
  | None => Err "TypeError: Cannot convert undefined to a BigInt"
  | Some v => match BigInt_json v with Some z => Ok z | None => Err (syntax_error (to_primitive v)) end
  end.

(** An argument of [execFileSync] must be a text. *)
Definition argument (v : option json) : result string :=
  match v with Some (JStr s) => Ok s | _ => Err "TypeError [ERR_INVALID_ARG_TYPE]" end.

(** [===] of parsed values: two arrays or objects of two files are never the same. *)
Definition strict_eq (a b : option json) : bool :=
  match a, b with
  | None, None => true
  | Some JNull, Some JNull => true
  | Some (JBool x), Some (JBool y) => Bool.eqb x y
  | Some (JNum x), Some (JNum y) => x =? y
  | Some (JStr x), Some (JStr y) => String.eqb x y
  | _, _ => false
  end.
Definition truthy_opt (v : option json) : bool := match v with Some v => truthy v | None => false end.

(** An object literal without its undefined fields. *)
Definition fields (l : list (string * option json)) : list (string * json) :=
  omap (fun kv => match kv.2 with Some v => Some (kv.1, v) | None => None end) l.

Definition txt (s : string) : option json := Some (JStr s).

(** ** Hash fields *)

Definition strip_0x (h : string) : string := match strip_prefix "0x" h with Some t => t | None => h end.

Definition recipient32ToField (hex32 : string) : result string := let! z := to_bigint ("0x" +:+ strip_0x hex32) in Ok (toString z).

(** The first 31 bytes: 62 hexadecimal digits. *)
Definition hashToField (hex32 : string) : result string := let! z := to_bigint ("0x" +:+ bytes_take 62 (strip_0x hex32)) in Ok (toString z).

Definition recipientHashField {C : NodeCrypto} (strkey : string) : result string :=
  let! z := to_bigint ("0x" +:+ hex_encode (bytes_take 31 (sha256_digest strkey))) in Ok (toString z).

Definition hexRoot (v : option json) : result string := let! z := bigint_of v in Ok (bytes32_text z).

(** ** Paths *)

Section ProofPath.
Context {C : NodeCrypto}.
Variable env : string -> option string.
Variables cwd execPath : string.
Variable tool : string -> list string -> gmap string string -> gmap string string * result string.
Variable rand : nat -> string.

(** [process.env.K || d] *)
Definition env_or (k d : string) : string := match env k with Some s => if bool_decide (s = "") then d else s | None => d end.

(** [path.resolve] on POSIX paths, from an absolute working directory *)
Definition push_segment (acc : list string) (s : string) : list string :=
  if bool_decide (s = "") || bool_decide (s = ".") then acc else if bool_decide (s = "..") then tail acc else s :: acc.
Definition normalize (p : string) : string := "/" +:+ join "/" (rev (fold_left push_segment (split_on "/" p) [])).
Definition resolve (segments : list string) : string :=
  normalize (fold_left (fun acc s => if bool_decide (s = "") then acc else if starts_with "/" s then s else acc +:+ "/" +:+ s) segments cwd).

Definition SHADE_ROOT : string := env_or "SHADE_ROOT" cwd.
Definition SHADE_SCRATCH_DIR : string := env_or "SHADE_SCRATCH_DIR" (resolve [SHADE_ROOT; ".scratch"]).
Definition ZK_REF : string := env_or "SHADE_ZK_REF" (resolve [SHADE_ROOT; ".zk-ref/soroban-examples/privacy-pools"]).
Definition COINUTILS_BIN : string := env_or "COINUTILS_BIN" (resolve [ZK_REF; "target/release/stellar-coinutils"]).
Definition CIRCOM2SOROBAN_BIN : string :=
  env_or "CIRCOM2SOROBAN_BIN" (resolve [SHADE_ROOT; "tools/circom2soroban/target/release/circom2soroban"]).
Definition CIRCUIT_BUILD_DIR : string := env_or "CIRCUIT_BUILD_DIR" (resolve [SHADE_ROOT; "circuits"]).
Definition circuit_dir (key name : string) : string := env_or key (resolve [CIRCUIT_BUILD_DIR; name]).
Definition withdrawCircuitDir : string := circuit_dir "WITHDRAW_CIRCUIT_DIR" "withdraw_public".
Definition transferCircuitDir : string := circuit_dir "TRANSFER_CIRCUIT_DIR" "private_transfer".
Definition depositCircuitDir : string := circuit_dir "DEPOSIT_CIRCUIT_DIR" "deposit_note_mint".
Definition mpcSettlementCircuitDir : string := circuit_dir "MPC_SETTLEMENT_CIRCUIT_DIR" "mpc_settlement".
Definition mpcPricedSettlementCircuitDir : string := circuit_dir "MPC_PRICED_SETTLEMENT_CIRCUIT_DIR" "mpc_priced_settlement".
(** [??]: an empty variable is kept. *)
Definition complianceDir : string := default (resolve [CIRCUIT_BUILD_DIR; "compliance_membership"]) (env "COMPLIANCE_CIRCUIT_DIR").

Definition scratchDir : M string := fun w =>
  (if scratchEnsured w then w
   else {| files := files w; log := log w ++ [MakeDir SHADE_SCRATCH_DIR]; drawn := drawn w; scratchEnsured := true |}, Ok SHADE_SCRATCH_DIR).

(** ** Programs *)

Definition execFile (bin : string) (args : list string) : M string := fun w =>
  let '(out, r) := tool bin args (files w) in
  ({| files := out ∪ files w; log := log w ++ [Exec bin args]; drawn := drawn w; scratchEnsured := scratchEnsured w |}, r).

Definition SNARKJS_CLI : string := resolve [SHADE_ROOT; "node_modules/snarkjs/cli.js"].
Definition snarkjs (args : list string) : M string := execFile execPath (SNARKJS_CLI :: args).
Definition coinutils (args : list string) : M string := execFile COINUTILS_BIN args.

(** The three artifacts of a circuit. *)
Definition wasm (dir : string) : string := dir +:+ "/build/main_js/main.wasm".
Definition zkey (dir : string) : string := dir +:+ "/output/main_final.zkey".
Definition vkey (dir : string) : string := dir +:+ "/output/main_verification_key.json".

(** [wtns calculate], [groth16 prove], [groth16 verify]; what the verification prints. *)
Definition groth16 (wasmPath zkeyPath vkeyPath input wtns proofJson publicJson : string) : M string :=
  run! _ := snarkjs ["wtns"; "calculate"; wasmPath; input; wtns] in
  run! _ := snarkjs ["groth16"; "prove"; zkeyPath; wtns; proofJson; publicJson] in
  snarkjs ["groth16"; "verify"; vkeyPath; publicJson; proofJson].

(** The proof and its public signals as the contract reads them. *)
Definition to_soroban (bin proofJson publicJson : string) : M (string * string) :=
  run! p := execFile bin ["proof"; proofJson] in
  run! q := execFile bin ["public"; publicJson] in
  ret (trim p, trim q).

(** [/OK!/.test(out)] *)
Definition says_ok (out : string) : bool := includes "OK!" out.

Definition randField (P : Z) : M string := fun w =>
  ({| files := files w; log := log w; drawn := S (drawn w); scratchEnsured := scratchEnsured w |},
   let! z := to_bigint ("0x" +:+ hex_encode (rand (drawn w))) in Ok (toString (z mod P))).

(** ** Coins, association sets and roots (prove.ts) *)

Record GeneratedCoin := {
  path : string; commitmentHex : option json; commitmentDecimal : option json; value7dp : option json; assetIdField : option json }.

(** Without an asset id, the one of USDC. *)
Definition generateCoin (scope outPath : string) (assetId : option string) : M GeneratedCoin :=
  run! assetId := (match assetId with Some a => ret a | None => lift (rbind (ASSETS env) (fun l => match jget "USDC" l with Some a => Ok (cfg_assetIdField a) | None => Err "TypeError" end)) end) in
  run! _ := coinutils ["generate"; scope; "-o"; outPath; "--asset-id"; assetId] in
  run! coin := readJson outPath in
  run! hex := lift (get "commitment_hex" (Some coin)) in
  run! inner := lift (get "coin" (Some coin)) in
  run! dec := lift (get "commitment" inner) in
  run! value := lift (get "value" inner) in
  run! asset := lift (get "asset_id" inner) in
  ret {| path := outPath; commitmentHex := hex; commitmentDecimal := dec; value7dp := value; assetIdField := asset |}.

Definition coin_field (p k : string) : M (option json) :=
  run! raw := readJson p in run! inner := lift (get "coin" (Some raw)) in lift (get k inner).

(** The path of the association set and its root. *)
Definition buildAssociationSet (coin : GeneratedCoin) (scratch tag : string) : M (string * string) :=
  run! label := coin_field (path coin) "label" in
  let assocPath := scratch +:+ "/" +:+ tag +:+ "_assoc.json" in
  run! _ := removeFile assocPath in
  run! label := lift (argument label) in
  run! _ := coinutils ["update-association"; assocPath; label] in
  run! set := readJson assocPath in
  run! root := lift (get "root" (Some set)) in
  run! hex := lift (hexRoot root) in
  ret (assocPath, hex).

Definition state_text (commitments : list string) (scope : string) : string :=
  stringify (JObj [("commitments", JArr (map JStr commitments)); ("scope", JStr scope)]).

Definition computeStateRoot (coin : GeneratedCoin) (commitments : list string) (scope scratch tag : string) (assocPath : option string) : M string :=
  let statePath := scratch +:+ "/" +:+ tag +:+ "_rootstate.json" in
  run! _ := writeFile statePath (state_text commitments scope) in
  let inputPath := scratch +:+ "/" +:+ tag +:+ "_rootinput.json" in
  run! _ := coinutils (match assocPath with
                       | Some a => if bool_decide (a = "") then ["withdraw"; path coin; statePath; "-o"; inputPath]
                                   else ["withdraw"; path coin; statePath; a; "-o"; inputPath]
                       | None => ["withdraw"; path coin; statePath; "-o"; inputPath] end) in
  run! input := readJson inputPath in
  run! root := lift (get "stateRoot" (Some input)) in
  lift (hexRoot root).

(** ** Private transfers *)

Record TransferProof := {
  x_proofHex : string; x_publicHex : string; x_stateRootHex : string; x_associationRootHex : string; x_outputCommitmentHex : string;
  x_feePublic : option json; x_outValue : option json; x_locallyVerified : bool }.

Definition buildTransferProof (coin : GeneratedCoin) (commitments : list string) (scope fee7dp scratch tag : string)
    (assocPath : option string) : M TransferProof :=
  let file s := scratch +:+ "/" +:+ tag +:+ s in
  run! _ := writeFile (file "_xstate.json") (state_text commitments scope) in
  let args := ["transfer"; path coin; file "_xstate.json"; fee7dp; "--out-scope"; scope +:+ "_out"; "-o"; file "_xfer.json";
               "--out-coin"; file "_xout.json"] in
  run! _ := coinutils (args ++ match assocPath with
                               | Some a => if bool_decide (a = "") then [] else ["--association-file"; a]
                               | None => [] end)%list in
  run! witness := readJson (file "_xfer.json") in
  let d := transferCircuitDir in
  run! verify := groth16 (wasm d) (zkey d) (vkey d) (file "_xfer.json") (file "_x.wtns") (file "_x_proof.json") (file "_x_public.json") in
  run! (proofHex, publicHex) := to_soroban CIRCOM2SOROBAN_BIN (file "_x_proof.json") (file "_x_public.json") in
  run! r := lift (rbind (get "stateRoot" (Some witness)) hexRoot) in
  run! a := lift (rbind (get "associationRoot" (Some witness)) hexRoot) in
  run! o := lift (rbind (get "outputCommitment" (Some witness)) hexRoot) in
  ret {| x_proofHex := proofHex; x_publicHex := publicHex; x_stateRootHex := r; x_associationRootHex := a; x_outputCommitmentHex := o;
         x_feePublic := prop "feePublic" witness; x_outValue := prop "outValue" witness; x_locallyVerified := says_ok verify |}.

(** ** Withdrawals *)

Record NoteProof := { n_proofHex : string; n_publicHex : string; n_stateRootHex : string; n_locallyVerified : bool }.

Record WithdrawBinding := {
  operationType : string; recipientHash : string; relayerFee : string; deadlineLedger : string; quoteHash : option string;
  intentHash : option string; fillReceiptHash : option string; destinationDomain : option string; destinationRecipient : option string;
  maxFee : option string; minFinalityThreshold : option string }.

Definition plain_binding : WithdrawBinding :=
  {| operationType := "1"; recipientHash := "0"; relayerFee := "0"; deadlineLedger := "0"; quoteHash := None; intentHash := None;
     fillReceiptHash := None; destinationDomain := None; destinationRecipient := None; maxFee := None; minFinalityThreshold := None |}.

Definition or0 (s : option string) : string := default "0" s.

Definition binding_args (b : WithdrawBinding) : list string :=
  ["--operation-type"; operationType b; "--recipient-hash"; recipientHash b; "--relayer-fee"; relayerFee b;
   "--deadline-ledger"; deadlineLedger b; "--quote-hash"; or0 (quoteHash b); "--intent-hash"; or0 (intentHash b);
   "--fill-receipt-hash"; or0 (fillReceiptHash b); "--destination-domain"; or0 (destinationDomain b);
   "--destination-recipient"; or0 (destinationRecipient b); "--max-fee"; or0 (maxFee b);
   "--min-finality-threshold"; or0 (minFinalityThreshold b)].

Definition buildNoteProof (coin : GeneratedCoin) (commitments : list string) (scope scratch tag assocPath : string)
    (binding : option WithdrawBinding) : M NoteProof :=
  let b := default plain_binding binding in
  let file s := scratch +:+ "/" +:+ tag +:+ s in
  run! _ := writeFile (file "_state.json") (state_text commitments scope) in
  run! _ := coinutils (["withdraw"; path coin; file "_state.json"; assocPath; "-o"; file "_input.json"] ++ binding_args b)%list in
  run! input := readJson (file "_input.json") in
  run! root := lift (rbind (get "stateRoot" (Some input)) hexRoot) in
  let d := withdrawCircuitDir in
  run! verify := groth16 (wasm d) (zkey d) (vkey d) (file "_input.json") (file "_witness.wtns") (file "_proof.json") (file "_public.json") in
  run! (proofHex, publicHex) := to_soroban CIRCOM2SOROBAN_BIN (file "_proof.json") (file "_public.json") in
  ret {| n_proofHex := proofHex; n_publicHex := publicHex; n_stateRootHex := root; n_locallyVerified := says_ok verify |}.

(** ** Deposits *)

Record DepositProof := { d_proofHex : string; d_publicHex : string; d_commitmentHex : option json; d_locallyVerified : bool }.

Record DepositBinding := {
  sourceDomain : string; b_destinationDomain : string; cctpNonceHex : string; burnTxHashHex : string; amount6dp : string; amount7dp : string;
  assetStrkey : string; poolStrkey : string; encryptedNotePayloadHashHex : string; policyIdHex : string; poolId : string; chainId : string }.

Definition deposit_input (coin : option json) (b : DepositBinding) : result (list (string * json)) :=
  let! nonce := hashToField (cctpNonceHex b) in
  let! burn := hashToField (hex_encode (sha256_digest (burnTxHashHex b))) in
  let! asset := recipientHashField (assetStrkey b) in
  let! pool := recipientHashField (poolStrkey b) in
  let! note := hashToField (encryptedNotePayloadHashHex b) in
  let! policy := hashToField (policyIdHex b) in
  let! value := get "value" coin in
  let! label := get "label" coin in
  let! nullifier := get "nullifier" coin in
  let! secret := get "secret" coin in
  Ok (fields
    [("operationType", txt "4"); ("sourceDomain", txt (sourceDomain b)); ("destinationDomain", txt (b_destinationDomain b));
     ("cctpNonceHash", txt nonce); ("burnTxHashHash", txt burn); ("amount6dp", txt (amount6dp b)); ("amount7dp", txt (amount7dp b));
     ("assetIdHash", txt asset); ("recipientPool", txt pool); ("encryptedNotePayloadHash", txt note); ("policyIdHash", txt policy);
     ("poolId", txt (poolId b)); ("chainId", txt (chainId b)); ("value", value); ("label", label); ("nullifier", nullifier);
     ("secret", secret)]).

Definition buildDepositProof (coin : GeneratedCoin) (b : DepositBinding) (scratch tag : string) : M DepositProof :=
  let file s := scratch +:+ "/" +:+ tag +:+ s in
  run! raw := readJson (path coin) in
  run! opening := lift (get "coin" (Some raw)) in
  run! input := lift (deposit_input opening b) in
  run! _ := writeFile (file "_dep_input.json") (stringify (JObj input)) in
  let d := depositCircuitDir in
  run! verify := groth16 (wasm d) (zkey d) (vkey d) (file "_dep_input.json") (file "_dep.wtns") (file "_dep_proof.json") (file "_dep_public.json") in
  run! (proofHex, publicHex) := to_soroban CIRCOM2SOROBAN_BIN (file "_dep_proof.json") (file "_dep_public.json") in
  ret {| d_proofHex := proofHex; d_publicHex := publicHex; d_commitmentHex := commitmentHex coin; d_locallyVerified := says_ok verify |}.

(** ** Matched settlements (mpc-settlement.ts, mpc-priced.ts) *)

Definition artifact (dir name : string) : string := resolve [dir; name].
Definition wasm_of (dir : string) : string := artifact dir "build/main_js/main.wasm".
Definition zkey_of (dir : string) : string := artifact dir "output/main_final.zkey".
Definition vkey_of (dir : string) : string := artifact dir "output/main_verification_key.json".

Definition has_artifacts (dir : string) (w : World) : bool :=
  existsSync w (wasm_of dir) && existsSync w (zkey_of dir) && existsSync w (vkey_of dir).
Definition hasMpcSettlementArtifacts : World -> bool := has_artifacts mpcSettlementCircuitDir.
Definition hasMpcPricedArtifacts : World -> bool := has_artifacts mpcPricedSettlementCircuitDir.
Definition hasComplianceArtifacts (w : World) : bool := existsSync w (wasm_of complianceDir) && existsSync w (zkey_of complianceDir).

(** [if (!ok) throw e] on the files present now *)
Definition require (ok : World -> bool) (e : string) : M unit := fun w => (w, if ok w then Ok tt else Err e).

Definition BN254_P : Z := 21888242871839275222246405745257275088548364400416034343698204186575808495617.

Record NotePreimage := { np_value : option json; np_label : option json; np_nullifier : option json; np_secret : option json }.

Definition readCoinPreimage (coin : GeneratedCoin) : M NotePreimage :=
  run! raw := readJson (path coin) in
  run! c := lift (get "coin" (Some raw)) in
  run! v := lift (get "value" c) in run! l := lift (get "label" c) in run! n := lift (get "nullifier" c) in run! s := lift (get "secret" c) in
  ret {| np_value := v; np_label := l; np_nullifier := n; np_secret := s |}.

(** The withdraw arguments that do not matter here. *)
Definition dummy_binding (op : string) : WithdrawBinding :=
  {| operationType := op; recipientHash := "0"; relayerFee := "0"; deadlineLedger := "0"; quoteHash := None; intentHash := None;
     fillReceiptHash := None; destinationDomain := None; destinationRecipient := None; maxFee := None; minFinalityThreshold := None |}.

(** [coinutils withdraw] of both notes against one pool state, and what it wrote. *)
Definition both_paths (commitments : list string) (scope op statePath assocPath pathA inA pathB inB : string) : M (json * json) :=
  run! _ := writeFile statePath (state_text commitments scope) in
  run! _ := coinutils (["withdraw"; pathA; statePath; assocPath; "-o"; inA] ++ binding_args (dummy_binding op))%list in
  run! _ := coinutils (["withdraw"; pathB; statePath; assocPath; "-o"; inB] ++ binding_args (dummy_binding op))%list in
  run! wA := readJson inA in
  run! wB := readJson inB in
  ret (wA, wB).

Record MpcSettlementParams := {
  coinA : GeneratedCoin; coinB : GeneratedCoin; commitmentsDecimal : list string; assocPath : string; scope : string; batchHashHex : string;
  s_poolId : string; s_chainId : string; matchedAmount7dp : string; s_deadlineLedger : string; scratch : string; tag : string }.

Definition freshPreimage (value : string) : M NotePreimage :=
  run! l := randField BN254_P in run! n := randField BN254_P in run! s := randField BN254_P in
  ret {| np_value := txt value; np_label := txt l; np_nullifier := txt n; np_secret := txt s |}.

(** The path fields of one note, with the suffix of its side. *)
Definition side_paths (x : string) (w : json) : list (string * option json) :=
  [("stateIndex" +:+ x, prop "stateIndex" w); ("stateSiblings" +:+ x, prop "stateSiblings" w);
   ("labelIndex" +:+ x, prop "labelIndex" w); ("labelSiblings" +:+ x, prop "labelSiblings" w)].

Definition side_input (x : string) (pre : NotePreimage) (w : json) (out : NotePreimage) : list (string * option json) :=
  ([("label" +:+ x, np_label pre); ("value" +:+ x, np_value pre); ("nullifier" +:+ x, np_nullifier pre); ("secret" +:+ x, np_secret pre)]
   ++ side_paths x w ++
   [("outValue" +:+ x, np_value out); ("outLabel" +:+ x, np_label out); ("outNullifier" +:+ x, np_nullifier out); ("outSecret" +:+ x, np_secret out)])%list.

Definition buildMpcSettlementWitness (p : MpcSettlementParams) : M (list (string * json) * NotePreimage * NotePreimage) :=
  let file s := scratch p +:+ "/" +:+ tag p +:+ s in
  run! (wA, wB) := both_paths (commitmentsDecimal p) (scope p) "1" (file "_mpc_state.json") (assocPath p)
                     (path (coinA p)) (file "_mpc_coinA_withdraw.json") (path (coinB p)) (file "_mpc_coinB_withdraw.json") in
  let assetId := assetIdField (coinA p) in
  if negb (truthy_opt assetId) || negb (strict_eq assetId (assetIdField (coinB p)))
  then throw "mpc_settlement is same-asset only: coinA and coinB must share one assetId"
  else
    run! preA := readCoinPreimage (coinA p) in
    run! preB := readCoinPreimage (coinB p) in
    run! outA := freshPreimage (matchedAmount7dp p) in
    run! outB := freshPreimage (matchedAmount7dp p) in
    run! stateRoot := lift (get "stateRoot" (Some wA)) in
    run! associationRoot := lift (get "associationRoot" (Some wA)) in
    run! batch := lift (hashToField (batchHashHex p)) in
    run! _ := lift (get "stateIndex" (Some wB)) in
    ret (fields
      ([("stateRoot", stateRoot); ("associationRoot", associationRoot); ("batchHash", txt batch); ("poolId", txt (s_poolId p));
        ("chainId", txt (s_chainId p)); ("matchedAmount7dp", txt (matchedAmount7dp p)); ("deadlineLedger", txt (s_deadlineLedger p));
        ("assetId", assetId)]
       ++ side_input "A" preA wA outA ++ side_input "B" preB wB outB)%list, outA, outB).

Record MpcSettlementProof := {
  m_proofHex : string; m_publicHex : string; m_nullifierHashAHex : string; m_nullifierHashBHex : string; m_outputCommitmentAHex : string;
  m_outputCommitmentBHex : string; outPreimageA : NotePreimage; outPreimageB : NotePreimage; m_locallyVerified : bool }.

(** [hexOut(pub[i])] *)
Definition hexOut (i : nat) (pub : json) : result string := rbind (at_ i pub) hexRoot.

Definition not_built : string := "mpc_settlement circuit not compiled yet. Run: bash circuits/mpc_settlement/build.sh".

Definition buildMpcSettlementProof (p : MpcSettlementParams) : M MpcSettlementProof :=
  run! _ := require hasMpcSettlementArtifacts not_built in
  let d := mpcSettlementCircuitDir in
  let file s := scratch p +:+ "/" +:+ tag p +:+ s in
  run! (witnessJson, preA, preB) := buildMpcSettlementWitness p in
  run! _ := writeFile (file "_mpc_witness.json") (stringify (JObj witnessJson)) in
  run! verify := groth16 (wasm_of d) (zkey_of d) (vkey_of d) (file "_mpc_witness.json") (file "_mpc.wtns") (file "_mpc_proof.json") (file "_mpc_public.json") in
  run! pub := readJson (file "_mpc_public.json") in
  run! (proofHex, publicHex) := to_soroban CIRCOM2SOROBAN_BIN (file "_mpc_proof.json") (file "_mpc_public.json") in
  run! nA := lift (hexOut 0 pub) in run! nB := lift (hexOut 1 pub) in run! oA := lift (hexOut 2 pub) in run! oB := lift (hexOut 3 pub) in
  ret {| m_proofHex := proofHex; m_publicHex := publicHex; m_nullifierHashAHex := nA; m_nullifierHashBHex := nB;
         m_outputCommitmentAHex := oA; m_outputCommitmentBHex := oB; outPreimageA := preA; outPreimageB := preB;
         m_locallyVerified := says_ok verify |}.

(** *** Priced, across two assets *)

Record Opening := { op_pre : NotePreimage; op_asset_id : option json }.

Definition readOpening (coin : GeneratedCoin) : M Opening :=
  run! raw := readJson (path coin) in
  run! c := lift (get "coin" (Some raw)) in
  run! v := lift (get "value" c) in run! l := lift (get "label" c) in run! n := lift (get "nullifier" c) in run! s := lift (get "secret" c) in
  run! a := lift (get "asset_id" c) in
  ret {| op_pre := {| np_value := v; np_label := l; np_nullifier := n; np_secret := s |}; op_asset_id := a |}.

Record PricedParams := {
  coinX : GeneratedCoin; coinY : GeneratedCoin; pr_commitments : list string; pr_assocPath : string; pr_scope : string; pr_batchHashHex : string;
  pr_poolId : string; pr_chainId : string; priceScaled : string; minOutputA : string; minOutputB : string; pr_deadlineLedger : string;
  pr_scratch : string; pr_tag : string }.

(** [String(v)] in a template. *)
Definition shown (v : option json) : string := match v with Some v => to_primitive v | None => "undefined" end.

(** The amounts: what X gives, and that times the price, rounded down, which must be what Y gives. *)
Definition priced_amounts (x y : Opening) (price : string) : result (Z * Z) :=
  throw_if strict_eq (op_asset_id x) (op_asset_id y) with "priced settlement requires a genuine cross-asset (assetX != assetY)" in
  let! a := bigint_of (np_value (op_pre x)) in
  let! p := to_bigint price in
  let b := Z.quot (a * p) 1000000000 in
  throw_if negb (strict_eq (txt (toString b)) (np_value (op_pre y)))
    with "priced witness: coinY value " +:+ shown (np_value (op_pre y)) +:+ " != floor(matchedA*price/1e9)=" +:+ toString b
         +:+ " (choose notes/price so they match)" in
  Ok (a, b).

Definition priced_side (x : string) (pre : NotePreimage) (w : json) : list (string * option json) :=
  ([("label" +:+ x, np_label pre); ("nullifier" +:+ x, np_nullifier pre); ("secret" +:+ x, np_secret pre)] ++ side_paths x w)%list.

Definition priced_out (x : string) (out : NotePreimage) : list (string * option json) :=
  [("outLabel" +:+ x, np_label out); ("outNullifier" +:+ x, np_nullifier out); ("outSecret" +:+ x, np_secret out)].

Definition buildMpcPricedWitness (p : PricedParams) : M (list (string * json)) :=
  let file s := pr_scratch p +:+ "/" +:+ pr_tag p +:+ s in
  run! (wX, wY) := both_paths (pr_commitments p) (pr_scope p) "0" (file "_priced_state.json") (pr_assocPath p)
                     (path (coinX p)) (file "_priced_wX.json") (path (coinY p)) (file "_priced_wY.json") in
  run! x := readOpening (coinX p) in
  run! y := readOpening (coinY p) in
  run! (a, b) := lift (priced_amounts x y (priceScaled p)) in
  run! stateRoot := lift (get "stateRoot" (Some wX)) in
  run! associationRoot := lift (get "associationRoot" (Some wX)) in
  run! batch := lift (hashToField (pr_batchHashHex p)) in
  run! _ := lift (get "stateIndex" (Some wY)) in
  run! outA := freshPreimage "" in
  run! outB := freshPreimage "" in
  ret (fields
    ([("stateRoot", stateRoot); ("associationRoot", associationRoot); ("batchHash", txt batch); ("poolId", txt (pr_poolId p));
      ("chainId", txt (pr_chainId p)); ("deadlineLedger", txt (pr_deadlineLedger p)); ("inputAssetA", op_asset_id x);
      ("outputAssetA", op_asset_id y); ("inputAssetB", op_asset_id y); ("outputAssetB", op_asset_id x);
      ("matchedAmountA", txt (toString a)); ("matchedAmountB", txt (toString b)); ("priceScaled", txt (priceScaled p));
      ("priceScale", txt "1000000000"); ("minOutputA", txt (minOutputA p)); ("minOutputB", txt (minOutputB p))]
     ++ priced_side "A" (op_pre x) wX ++ priced_side "B" (op_pre y) wY ++ priced_out "A" outA ++ priced_out "B" outB)%list).

Record PricedProof := {
  pp_proofHex : string; pp_publicHex : string; pp_locallyVerified : bool; pp_witnessJson : list (string * json); pp_nullifierHashAHex : string;
  pp_nullifierHashBHex : string; pp_outputCommitmentAHex : string; pp_outputCommitmentBHex : string }.

Definition priced_c2s : string :=
  default (resolve [SHADE_ROOT; "tools/circom2soroban/target/release/circom2soroban"]) (env "CIRCOM2SOROBAN_BIN").

Definition buildMpcPricedProof (p : PricedParams) : M PricedProof :=
  run! _ := require hasMpcPricedArtifacts "mpc_priced_settlement circuit not built; run npm run circuits:build" in
  let d := mpcPricedSettlementCircuitDir in
  let file s := pr_scratch p +:+ "/" +:+ pr_tag p +:+ s in
  run! witnessJson := buildMpcPricedWitness p in
  run! _ := writeFile (file "_priced_input.json") (stringify (JObj witnessJson)) in
  run! verify := groth16 (wasm_of d) (zkey_of d) (vkey_of d) (file "_priced_input.json") (file "_priced.wtns") (file "_priced_proof.json") (file "_priced_public.json") in
  run! pub := readJson (file "_priced_public.json") in
  run! (proofHex, publicHex) := to_soroban priced_c2s (file "_priced_proof.json") (file "_priced_public.json") in
  run! nA := lift (hexOut 0 pub) in run! nB := lift (hexOut 1 pub) in run! oA := lift (hexOut 2 pub) in run! oB := lift (hexOut 3 pub) in
  ret {| pp_proofHex := proofHex; pp_publicHex := publicHex; pp_locallyVerified := says_ok verify; pp_witnessJson := witnessJson;
         pp_nullifierHashAHex := nA; pp_nullifierHashBHex := nB; pp_outputCommitmentAHex := oA; pp_outputCommitmentBHex := oB |}.

(** Only the witness calculation of a witness that may have been changed. *)
Definition calc_witness (dir input wtns : string) (witnessJson : list (string * json)) : M unit :=
  run! _ := writeFile input (stringify (JObj witnessJson)) in
  run! _ := snarkjs ["wtns"; "calculate"; wasm_of dir; input; wtns] in ret tt.

Definition calcPricedWitness (witnessJson : list (string * json)) (scratch tag : string) : M unit :=
  calc_witness mpcPricedSettlementCircuitDir (scratch +:+ "/" +:+ tag +:+ "_priced_adv_input.json") (scratch +:+ "/" +:+ tag +:+ "_priced_adv.wtns") witnessJson.

(** ** Compliance membership (compliance.ts) *)

(** The answer is used as an object with the root and the siblings. *)
Definition merkleProof (scratch tag : string) (leaves : list string) (index depth : nat) : M json :=
  let statePath := scratch +:+ "/" +:+ tag +:+ "_state.json" in
  run! _ := writeFile statePath (state_text leaves "compliance") in
  run! out := coinutils ["merkle-proof"; statePath; toString (Z.of_nat index); "--depth"; toString (Z.of_nat depth)] in
  lift (parse_json (trim out)).

Record ComplianceParams := {
  label : string; allowLabels : list string; denyLabels : list string; policyId : string; c_scratch : string; c_tag : string }.

(** [l.indexOf(x)], [None] for -1 *)
Fixpoint indexOf (x : string) (l : list string) : option nat :=
  match l with [] => None | y :: l => if bool_decide (y = x) then Some O else option_map S (indexOf x l) end.

(** The first loop: every label is above the one before it. *)
Fixpoint check_sorted (l : list string) : result unit :=
  match l with
  | a :: (b :: _) as l' =>
      let! zb := to_bigint b in
      let! za := to_bigint a in
      throw_if zb <=? za with "deny labels must be strictly sorted ascending" in check_sorted l'
  | _ => Ok tt
  end.

(** The second loop: the first place where the label falls between two neighbours. *)
Fixpoint find_adjacent (x : string) (i : nat) (l : list string) : result (option nat) :=
  match l with
  | a :: (b :: _) as l' =>
      let! za := to_bigint a in
      let! zx := to_bigint x in
      if za <? zx then
        let! zb := to_bigint b in
        if zx <? zb then Ok (Some i) else find_adjacent x (S i) l'
      else find_adjacent x (S i) l'
  | _ => Ok None
  end.

Definition DEPTH : nat := 2.

Definition buildComplianceWitness (p : ComplianceParams) : M (list (string * json)) :=
  match indexOf (label p) (allowLabels p) with
  | None => throw "label not in allow set"
  | Some allowIdx =>
      let sorted := denyLabels p in
      run! _ := lift (check_sorted sorted) in
      run! lo := lift (find_adjacent (label p) 0 sorted) in
      match lo with
      | None => throw "no adjacent deny leaves bound the label (is it denied, or out of sentinel range?)"
      | Some loIdx =>
          run! allowP := merkleProof (c_scratch p) (c_tag p +:+ "_allow") (allowLabels p) allowIdx DEPTH in
          run! loP := merkleProof (c_scratch p) (c_tag p +:+ "_lo") sorted loIdx DEPTH in
          run! hiP := merkleProof (c_scratch p) (c_tag p +:+ "_hi") sorted (S loIdx) DEPTH in
          run! allowRoot := lift (get "root" (Some allowP)) in
          run! denyRoot := lift (get "root" (Some loP)) in
          run! hiSiblings := lift (get "siblings" (Some hiP)) in
          ret (fields
            [("allowRoot", allowRoot); ("denyRoot", denyRoot); ("policyId", txt (policyId p)); ("label", txt (label p));
             ("allowIndex", txt (toString (Z.of_nat allowIdx))); ("allowSiblings", prop "siblings" allowP);
             ("denyLo", option_map JStr (sorted !! loIdx)); ("denyLoIndex", txt (toString (Z.of_nat loIdx))); ("denyLoSiblings", prop "siblings" loP);
             ("denyHi", option_map JStr (sorted !! S loIdx)); ("denyHiIndex", txt (toString (Z.of_nat (S loIdx)))); ("denyHiSiblings", hiSiblings)])
      end
  end.

Definition buildComplianceProof (p : ComplianceParams) : M (bool * list (string * json)) :=
  run! _ := require hasComplianceArtifacts "compliance_membership circuit not built; run npm run circuits:build" in
  let d := complianceDir in
  let file s := c_scratch p +:+ "/" +:+ c_tag p +:+ s in
  run! witnessJson := buildComplianceWitness p in
  run! _ := writeFile (file "_comp_input.json") (stringify (JObj witnessJson)) in
  run! verify := groth16 (wasm_of d) (zkey_of d) (vkey_of d) (file "_comp_input.json") (file "_comp.wtns") (file "_comp_proof.json") (file "_comp_public.json") in
  ret (says_ok verify, witnessJson).

Definition calcComplianceWitness (witnessJson : list (string * json)) (scratch tag : string) : M unit :=
  calc_witness complianceDir (scratch +:+ "/" +:+ tag +:+ "_comp_adv_input.json") (scratch +:+ "/" +:+ tag +:+ "_comp_adv.wtns") witnessJson.

End ProofPath.
End ProofPath.

(** ** The hash fields *)

Section HashFields.
Import ProofPath.

Lemma hex_encode_take n s : bytes_take (2 * n) (hex_encode s) = hex_encode (bytes_take n s).
Proof.
  revert s. induction n as [|n IH]; intros s; [by destruct s|]. replace (2 * S n)%nat with (S (S (2 * n))) by lia.
  destruct s as [|c s]; [done|]. cbn [hex_encode bytes_take]. by rewrite IH.
Qed.

Lemma hashToField_hex h : String.length h = 32%nat -> hashToField ("0x" +:+ hex_encode h) = Ok (toString (be (bytes_take 31 h))).
Proof.
  intros H. unfold hashToField. change (strip_0x ("0x" +:+ hex_encode h)) with (hex_encode h). change 62%nat with (2 * 31)%nat.
  rewrite hex_encode_take. by destruct (take31_field h H) as [-> _].
Qed.

Lemma recipient32_hex h : String.length h = 32%nat -> recipient32ToField ("0x" +:+ hex_encode h) = Ok (toString (be h)).
Proof.
  intros H. unfold recipient32ToField, to_bigint. change (strip_0x ("0x" +:+ hex_encode h)) with (hex_encode h).
  rewrite BigInt_hex; [done|]. by intros ->.
Qed.

(** The reductions of the clients are the contract's.  The hash field of a
    32-byte hash, the recipient field of an address and the id of an asset are
    decimal texts of numbers below 2^248, hence elements of both scalar fields,
    and written as 32 bytes each of them is the contract's [hash_to_field] of the
    hash or of the digest. *)
Theorem hash_fields_match_contract {C : NodeCrypto} {CL : Sha256Laws C} (h strkey : string) : String.length h = 32%nat ->
  exists f g, hashToField ("0x" +:+ hex_encode h) = Ok (toString f) /\
    recipientHashField strkey = Ok (toString g) /\ Assets.assetIdField strkey = Ok (toString g) /\
    0 <= f < 2 ^ 248 /\ 0 <= g < 2 ^ 248 /\ 2 ^ 248 < BN254_P /\ 2 ^ 248 < BLS12_381_R /\
    bytes32_text f = "0x" +:+ hex_encode (contract_hash_to_field h) /\
    Assets.assetIdHex strkey = Ok ("0x" +:+ hex_encode (contract_hash_to_field (sha256_digest strkey))).
Proof.
  intros H. exists (be (bytes_take 31 h)), (be (bytes_take 31 (sha256_digest strkey))).
  destruct (take31_field h H) as (_ & Hb & Ht). destruct (take31_field _ (sha256_length strkey)) as (Hg & Hgb & _).
  split_and!; [by apply hashToField_hex| |apply assetIdField_eq|lia..|done|done|done|apply assetIdHex_eq].
  unfold recipientHashField. by rewrite Hg.
Qed.

Fixpoint pad32 (n : nat) (s : string) : string :=
  match n, s with O, _ => "" | S n, String c s => String c (pad32 n s) | S n, EmptyString => String "." (pad32 n "") end.

#[local] Instance paddedCrypto : NodeCrypto := {|
  sha256_digest := pad32 32; kp_public := fun s => Ok s; kp_sign := fun s m => Ok m; ed25519_verify := fun _ _ _ => true |}.
#[local] Instance paddedCrypto_laws : Sha256Laws paddedCrypto.
Proof.
  split. cbn [sha256_digest paddedCrypto]. generalize 32%nat as n. induction n as [|n IH]; intros s; [by destruct s|].
  destruct s; cbn [pad32 String.length]; by rewrite IH.
Qed.

Lemma hash_fields_match_contract_witness :
  exists f g, hashToField ("0x" +:+ hex_encode (pad32 32 "hash")) = Ok (toString f) /\
    recipientHashField "GABC" = Ok (toString g) /\ Assets.assetIdField "GABC" = Ok (toString g) /\
    0 <= f < 2 ^ 248 /\ 0 <= g < 2 ^ 248 /\ 2 ^ 248 < BN254_P /\ 2 ^ 248 < BLS12_381_R /\
    bytes32_text f = "0x" +:+ hex_encode (contract_hash_to_field (pad32 32 "hash")) /\
    Assets.assetIdHex "GABC" = Ok ("0x" +:+ hex_encode (contract_hash_to_field (sha256_digest "GABC"))).
Proof. apply (hash_fields_match_contract (pad32 32 "hash") "GABC"). reflexivity. Defined.

End HashFields.

(** ** The runtime environment (packages/proving/src/env.ts) *)

Module RuntimeEnv.

Definition EnvMap := list (string * string).

(** A carriage return at the end of a line. *)
Fixpoint drop_cr (s : string) : string :=
  match s with
  | EmptyString => ""
  | String c EmptyString => if Z.eqb (byte_val c) 13 then "" else s
  | String c s => String c (drop_cr s)
  end.

(** The text before and after the first equals sign. *)
Fixpoint split_eq (s : string) : option (string * string) :=
  match s with
  | EmptyString => None
  | String c s => if Ascii.eqb c "=" then Some ("", s) else match split_eq s with Some (k, v) => Some (String c k, v) | None => None end
  end.

Definition generated_line (env : EnvMap) (line : string) : EnvMap :=
  let t := drop_cr line in
  match split_eq t with
  | None => env
  | Some (k, v) => if starts_with "#" (trim_left t) then env else jset k v env
  end.

Section Load.
(** The files present, and dotenv's parser. *)
Variable file : string -> option string.
Variable parse : string -> EnvMap.

(** [config({ path, override: false })] *)
Definition config (env : EnvMap) (path : string) : EnvMap :=
  match file path with
  | Some text => fold_left (fun env kv => if jhas kv.1 env then env else jset kv.1 kv.2 env) (parse text) env
  | None => env
  end.

Definition env_files (env : EnvMap) : list string := [default ".env" (jget "SHADE_ENV_FILE" env); ".env"; ".env.generated"; "../.env"].

(** The environment returned; [newline] separates the lines of the generated file. *)
Definition loadRuntimeEnv (env : EnvMap) : EnvMap :=
  let env := fold_left config (env_files env) env in
  match file ".env.generated" with
  | Some text => fold_left generated_line (split_on (byte_of 10) text) env
  | None => env
  end.

Definition requireKeys (env : EnvMap) (keys : list string) : list string :=
  List.filter (fun k => match jget k env with Some v => bool_decide (v = "") | None => true end) keys.

(** A variable that is set keeps its value through the files of dotenv. *)
Lemma config_keeps env p k v : jget k env = Some v -> jget k (config env p) = Some v.
Proof.
  intros H. unfold config. destruct (file p) as [t|]; [|done]. generalize (parse t) as l. intros l. revert env H.
  induction l as [|[k' v'] l IH]; intros env H; [done|]. cbn [fold_left fst snd]. apply IH. destruct (jhas k' env) eqn:E; [done|].
  rewrite jget_jset_ne; [done|]. intros ->. unfold jhas in E. rewrite H in E. by apply bool_decide_eq_false in E as [].
Qed.

(** Without a generated file, the environment of the process wins over the files. *)
Lemma process_env_wins env k v : file ".env.generated" = None -> jget k env = Some v -> jget k (loadRuntimeEnv env) = Some v.
Proof.
  intros Hf H. unfold loadRuntimeEnv. rewrite Hf. generalize (env_files env) as l. intros l. revert env H.
  induction l as [|p l IH]; intros env H; [done|]. cbn [fold_left]. apply IH. by apply config_keeps.
Qed.

(** The last assignment of the generated file wins over everything. *)
Lemma generated_wins text l t k v env : file ".env.generated" = Some text -> split_on (byte_of 10) text = (l ++ [t])%list ->
  split_eq (drop_cr t) = Some (k, v) -> starts_with "#" (trim_left (drop_cr t)) = false -> jget k (loadRuntimeEnv env) = Some v.
Proof.
  intros Hf Hs He Hc. unfold loadRuntimeEnv. rewrite Hf, Hs, fold_left_app. cbn [fold_left]. unfold generated_line. rewrite He, Hc. apply jget_jset_eq.
Qed.

End Load.
End RuntimeEnv.
