(* ===== verification/StellarCircuits.v ===== *)
(** Two circuits of the Stellar pool (circuits/compliance_membership/main.circom,
    circuits/mpc_priced_settlement/main.circom with circuits/lib) and the witness
    builders of [ProofPath] against them.

    The circuits are over the scalar field of BLS12-381; [Poseidon] stands for
    their Poseidon255 and [Circomlib] for circomlib's comparators. *)

From S2P Require Import Prelude Effects Text Json Merkle Circuits Rfq Assets ProofPath.
Import ProofPath.
Local Open Scope string_scope.
Local Open Scope Z_scope.

(** ** Signals over BLS12-381 *)

Definition rmod (x : Z) : Z := x mod BLS12_381_R.
Definition in_bls (x : Z) : Prop := 0 <= x < BLS12_381_R.

Definition bls_field_of (v : json) : option Z := match v with JStr s => option_map rmod (BigInt s) | _ => None end.
Definition bsig (inp : input) (k : string) : Z := default 0 (jget k inp ≫= bls_field_of).
Definition bsigs (inp : input) (k : string) : list Z :=
  match jget k inp with Some (JArr l) => map (fun v => default 0 (bls_field_of v)) l | _ => [] end.

Class CircomlibBls (C : Circomlib) : Prop := {
  bits_bls : forall n x, 0 < n < 255 -> in_bls x -> Num2Bits n x = true <-> x < 2 ^ n;
  lt_bls : forall n a b, 0 < n <= 252 -> 0 <= a < 2 ^ n -> 0 <= b < 2 ^ n -> LessThan n a b = (a <? b);
  le_bls : forall n a b, 0 < n <= 252 -> 0 <= a < 2 ^ n -> 0 <= b < 2 ^ n -> LessEqThan n a b = (a <=? b);
  ge_bls : forall n a b, 0 < n <= 252 -> 0 <= a < 2 ^ n -> 0 <= b < 2 ^ n -> GreaterEqThan n a b = (b <=? a)
}.

Module StellarCircuits.

Section Circuits.
Context {HP : Poseidon} {CL : Circomlib}.

Definition bmember (i : input) (depth : nat) (leaf : Z) (index siblings root : string) : bool :=
  member_of depth leaf (bsig i index) (bsigs i siblings) (bsig i root).

Definition compliance_signals : list string :=
  ["allowRoot"; "denyRoot"; "policyId"; "label"; "allowIndex"; "allowSiblings"; "denyLo"; "denyLoIndex"; "denyLoSiblings"; "denyHi";
   "denyHiIndex"; "denyHiSiblings"].

Definition ComplianceMembership (i : input) : bool :=
  has_signals i compliance_signals &&
  bmember i 2 (bsig i "label") "allowIndex" "allowSiblings" "allowRoot" &&
  bmember i 2 (bsig i "denyLo") "denyLoIndex" "denyLoSiblings" "denyRoot" &&
  bmember i 2 (bsig i "denyHi") "denyHiIndex" "denyHiSiblings" "denyRoot" &&
  Num2Bits 252 (bsig i "denyLo") && Num2Bits 252 (bsig i "label") && Num2Bits 252 (bsig i "denyHi") &&
  LessThan 252 (bsig i "denyLo") (bsig i "label") && LessThan 252 (bsig i "label") (bsig i "denyHi") &&
  (bsig i "denyHiIndex" =? rmod (bsig i "denyLoIndex" + 1)).

Definition priced_signals : list string :=
  ["stateRoot"; "associationRoot"; "batchHash"; "poolId"; "chainId"; "deadlineLedger"; "inputAssetA"; "outputAssetA"; "inputAssetB";
   "outputAssetB"; "matchedAmountA"; "matchedAmountB"; "priceScaled"; "priceScale"; "minOutputA"; "minOutputB"; "labelA"; "nullifierA";
   "secretA"; "stateIndexA"; "stateSiblingsA"; "labelIndexA"; "labelSiblingsA"; "labelB"; "nullifierB"; "secretB"; "stateIndexB";
   "stateSiblingsB"; "labelIndexB"; "labelSiblingsB"; "outLabelA"; "outNullifierA"; "outSecretA"; "outLabelB"; "outNullifierB"; "outSecretB"].

(** The note of one side is in the state tree, its label in the association tree. *)
Definition side_member (i : input) (x asset amount : string) : bool :=
  bmember i 12 (commitment_of (bsig i asset) (bsig i amount) (bsig i ("label" +:+ x)) (bsig i ("nullifier" +:+ x)) (bsig i ("secret" +:+ x)))
    ("stateIndex" +:+ x) ("stateSiblings" +:+ x) "stateRoot" &&
  bmember i 2 (bsig i ("label" +:+ x)) ("labelIndex" +:+ x) ("labelSiblings" +:+ x) "associationRoot".

(** The price: [0 <= A * price - B * scale < scale]. *)
Definition price_holds (i : input) : bool :=
  let prod := rmod (bsig i "matchedAmountA" * bsig i "priceScaled") in
  let scaled := rmod (bsig i "matchedAmountB" * bsig i "priceScale") in
  LessEqThan 128 scaled prod && LessThan 64 (rmod (prod - scaled)) (bsig i "priceScale").

Definition MpcPricedSettlement (i : input) : bool :=
  has_signals i priced_signals &&
  (bsig i "outputAssetA" =? bsig i "inputAssetB") && (bsig i "outputAssetB" =? bsig i "inputAssetA") &&
  negb (bsig i "inputAssetA" =? bsig i "inputAssetB") && (bsig i "priceScale" =? 1000000000) &&
  side_member i "A" "inputAssetA" "matchedAmountA" && side_member i "B" "inputAssetB" "matchedAmountB" && price_holds i &&
  GreaterEqThan 64 (bsig i "matchedAmountB") (bsig i "minOutputA") && GreaterEqThan 64 (bsig i "matchedAmountA") (bsig i "minOutputB").

Definition settlement_signals : list string :=
  ["stateRoot"; "associationRoot"; "batchHash"; "poolId"; "chainId"; "matchedAmount7dp"; "deadlineLedger"; "assetId"; "labelA"; "valueA";
   "nullifierA"; "secretA"; "stateIndexA"; "stateSiblingsA"; "labelIndexA"; "labelSiblingsA"; "outValueA"; "outLabelA"; "outNullifierA";
   "outSecretA"; "labelB"; "valueB"; "nullifierB"; "secretB"; "stateIndexB"; "stateSiblingsB"; "labelIndexB"; "labelSiblingsB"; "outValueB";
   "outLabelB"; "outNullifierB"; "outSecretB"].

Definition MpcSettlement (i : input) : bool :=
  has_signals i settlement_signals && side_member i "A" "assetId" "valueA" && side_member i "B" "assetId" "valueB" &&
  Num2Bits 128 (rmod (bsig i "valueA" - bsig i "matchedAmount7dp")) && Num2Bits 128 (rmod (bsig i "valueB" - bsig i "matchedAmount7dp")) &&
  (rmod (bsig i "outValueA" + bsig i "outValueB") =? rmod (bsig i "matchedAmount7dp" * 2)).

(** The public output commitments of the settlement circuit. *)
Definition output_commitment (i : input) (x : string) : Z :=
  commitment_of (bsig i "assetId") (bsig i ("outValue" +:+ x)) (bsig i ("outLabel" +:+ x)) (bsig i ("outNullifier" +:+ x)) (bsig i ("outSecret" +:+ x)).

End Circuits.

(** ** Inclusion in a tree *)

Section Soundness.
Context {HP : Poseidon} {CL : Circomlib} {CB : CircomlibBls CL}.

(** Two pairs with one hash. *)
Definition hash_collision : Prop := exists a b c d, (a, b) <> (c, d) /\ hash2 a b = hash2 c d.

Lemma hash2_inj a b c d : hash2 a b = hash2 c d -> (a = c /\ b = d) \/ hash_collision.
Proof.
  intros H. destruct (decide ((a, b) = (c, d))) as [[= -> ->]|Hne]; [by left|]. right. by exists a, b, c, d.
Qed.

(** A path that ends in the root of a tree starts at the leaf of its index. *)
Lemma path_leaf f sibs k i x :
  circuit_path x (Z.of_nat i) sibs = node f (k + length sibs) (i / 2 ^ length sibs) -> x = node f k i \/ hash_collision.
Proof.
  revert k i x. induction sibs as [|s sibs IH]; intros k i x; cbn [circuit_path length].
  { rewrite Nat.add_0_r, Nat.div_1_r. by left. }
  change 2 with (Z.of_nat 2). rewrite <- Nat2Z.inj_div, Nat.pow_succ_r', <- Nat.Div0.div_div, <- Nat.add_succ_comm.
  intros [E|?]%IH; [|by right]. cbn [node] in E. destruct (parity i) as [q [[-> _]|[-> _]]].
  - replace (Z.of_nat (2 * q)) with (2 * Z.of_nat q) in E by lia. rewrite Z.odd_mul in E. cbn [Z.odd andb] in E.
    replace (2 * q / 2)%nat with q in E by (rewrite (Nat.mul_comm 2 q), Nat.div_mul; lia).
    destruct (hash2_inj _ _ _ _ E) as [[-> _]|?]; [by left|by right].
  - replace (Z.of_nat (2 * q + 1)) with (1 + 2 * Z.of_nat q) in E by lia. rewrite Z.odd_add_mul_2 in E. cbn [Z.odd] in E.
    replace ((2 * q + 1) / 2)%nat with q in E by (rewrite (Nat.mul_comm 2 q), Nat.div_add_l by lia; cbn; lia).
    destruct (hash2_inj _ _ _ _ E) as [[_ ->]|?]; [by left|by right].
Qed.

Lemma rmod_range x : in_bls (rmod x).
Proof. by apply Z.mod_pos_bound. Qed.
Lemma rmod_id x : in_bls x -> rmod x = x.
Proof. apply Z.mod_small. Qed.

Lemma bsig_range i k : in_bls (bsig i k).
Proof.
  unfold bsig. destruct (jget k i) as [v|]; [|done]. cbn. destruct v; try done. cbn. destruct (BigInt s); [apply rmod_range|done].
Qed.

Lemma below_252 i k : Num2Bits 252 (bsig i k) = true -> 0 <= bsig i k < 2 ^ 252.
Proof. intros H. pose proof (bsig_range i k) as Hi. apply bits_bls in H; [|lia|done]. unfold in_bls in Hi. lia. Qed.

(** A membership check against the root of a tree gives a leaf. *)
Lemma bmember_leaf i d leaf index sibs root leaves : (0 < d < 30)%nat -> bmember i d leaf index sibs root = true ->
  bsig i root = node (leaf_fn leaves) d 0 ->
  0 <= bsig i index < 2 ^ Z.of_nat d /\ (leaf = leaf_fn leaves (Z.to_nat (bsig i index)) \/ hash_collision).
Proof.
  intros Hd H Hroot. unfold bmember, member_of in H. apply andb_prop in H as [[Hl%Nat.eqb_eq Hn]%andb_prop Hp%Z.eqb_eq].
  pose proof (bsig_range i index) as Hi. apply bits_bls in Hn; [|lia|done]. split; [unfold in_bls in Hi; lia|].
  destruct Hi as [Hi _]. apply (path_leaf (leaf_fn leaves) (bsigs i sibs) 0). rewrite Z2Nat.id, Hp, Hroot, Hl by lia.
  f_equal. symmetry. apply Nat.div_small. rewrite <- pow_nat_Z. lia.
Qed.

(** ** Sorted lists *)

Lemma sorted_lookup (l : list Z) i j x y : StronglySorted Z.lt l -> l !! i = Some x -> l !! j = Some y -> (i < j)%nat -> x < y.
Proof.
  intros Hs. revert i j. induction Hs as [|a l Hs IH Hf]; intros i j Hi Hj Hij; [done|]. destruct j as [|j]; [lia|]. cbn in Hj.
  destruct i as [|i]; cbn in Hi; [|apply (IH i j); [done..|lia]]. injection Hi as <-. rewrite list.Forall_forall in Hf. apply Hf.
  by eapply list_elem_of_lookup_2.
Qed.

(** Between two neighbours of a sorted list there is no member. *)
Lemma between_absent l i lo hi x : StronglySorted Z.lt l -> l !! i = Some lo -> l !! S i = Some hi -> lo < x < hi -> x ∉ l.
Proof.
  intros Hs Hlo Hhi Hx [j Hj]%list_elem_of_lookup. destruct (Nat.lt_trichotomy i j) as [H|[<-|H]].
  - destruct (decide (j = S i)) as [->|]; [rewrite Hhi in Hj; injection Hj; lia|].
    pose proof (sorted_lookup l (S i) j hi x Hs Hhi Hj). lia.
  - rewrite Hlo in Hj. injection Hj; lia.
  - pose proof (sorted_lookup l j i x lo Hs Hj Hlo). lia.
Qed.

Lemma leaf_fn_pos l i x : leaf_fn l i = x -> 0 < x -> l !! i = Some x.
Proof. unfold leaf_fn. destruct (l !! i); cbn; intros; [by subst|lia]. Qed.

End Soundness.

(** ** Theorems *)


(** ** The builder of the compliance witness *)

Lemma to_bigint_toString z : to_bigint (toString z) = Ok z.
Proof. unfold to_bigint. by rewrite BigInt_toString. Qed.

Lemma indexOf_spec x l :
  match indexOf (toString x) (map toString l) with Some i => l !! i = Some x | None => x ∉ l end.
Proof.
  induction l as [|y l IH]; cbn [map indexOf]; [apply not_elem_of_nil|]. case_bool_decide as E.
  - apply toString_inj in E. by subst.
  - destruct (indexOf (toString x) (map toString l)) as [i|]; cbn [option_map]; [done|]. rewrite elem_of_cons. intros [->|?]; done.
Qed.

Lemma check_sorted_cons a b l : check_sorted (toString a :: toString b :: l) =
  throw_if b <=? a with "deny labels must be strictly sorted ascending" in check_sorted (toString b :: l).
Proof. cbn [check_sorted]. by rewrite !to_bigint_toString. Qed.

Lemma find_adjacent_cons x k a b l : find_adjacent (toString x) k (toString a :: toString b :: l) =
  if (a <? x) && (x <? b) then Ok (Some k) else find_adjacent (toString x) (S k) (toString b :: l).
Proof. cbn [find_adjacent]. rewrite !to_bigint_toString. cbn [rbind]. by destruct (a <? x), (x <? b). Qed.

(** The first loop accepts exactly the strictly sorted lists. *)
Lemma check_sorted_spec l : is_ok (check_sorted (map toString l)) = true <-> Sorted Z.lt l.
Proof.
  induction l as [|a [|b l] IH]; [split; [constructor|done]|split; [repeat constructor|done]|].
  cbn [map] in *. rewrite check_sorted_cons. destruct (Z.leb_spec b a) as [Hle|Hlt].
  - split; [done|]. intros [_ Hh]%Sorted_inv. inversion Hh. lia.
  - rewrite IH. split; [intros; constructor; [done|by constructor]|by intros [? _]%Sorted_inv].
Qed.

(** The label falls between the neighbours at [j]. *)
Definition falls_at (x : Z) (l : list Z) (j : nat) : Prop := exists lo hi, l !! j = Some lo /\ l !! S j = Some hi /\ lo < x < hi.

(** The second loop finds the first such place. *)
Lemma find_adjacent_spec x l k : exists r, find_adjacent (toString x) k (map toString l) = Ok r /\
  match r with Some j => (k <= j)%nat /\ falls_at x l (j - k) | None => forall j, ~ falls_at x l j end.
Proof.
  revert k. induction l as [|a [|b l] IH]; intros k; [exists None; split; [done|by intros j (lo & hi & ? & _)]| |].
  { exists None. split; [done|]. intros j (lo & hi & _ & H & _). done. }
  assert (forall r, find_adjacent (toString x) (S k) (map toString (b :: l)) = Ok r -> ~ (a < x < b) ->
    match r with Some j => (S k <= j)%nat /\ falls_at x (b :: l) (j - S k) | None => forall j, ~ falls_at x (b :: l) j end ->
    match r with Some j => (k <= j)%nat /\ falls_at x (a :: b :: l) (j - k) | None => forall j, ~ falls_at x (a :: b :: l) j end) as Hrest.
  { intros [j|] _ Hn.
    - intros [Hj Hf]. split; [lia|]. by replace (j - k)%nat with (S (j - S k)) by lia.
    - intros Hno [|j] Hf; [|by apply (Hno j)]. destruct Hf as (lo & hi & [= <-] & [= <-] & ?). lia. }
  destruct (IH (S k)) as (r & Hr & Hs). cbn [map] in *. rewrite find_adjacent_cons.
  destruct (Z.ltb_spec a x) as [Ha|Ha]; [destruct (Z.ltb_spec x b) as [Hb|Hb]|]; cbn [andb].
  - exists (Some k). split; [done|]. split; [lia|]. rewrite Nat.sub_diag. by exists a, b.
  - exists r. split; [done|]. apply Hrest; [done|lia|done].
  - exists r. split; [done|]. apply Hrest; [done|lia|done].
Qed.

(** Between a first element below and a member above, a value that is no member falls somewhere. *)
Lemma falls_somewhere x a l z : a < x -> z ∈ a :: l -> x < z -> x ∉ a :: l -> exists j, falls_at x (a :: l) j.
Proof.
  revert a. induction l as [|b l IH]; intros a Ha Hz Hx Hn; [apply list_elem_of_singleton in Hz; lia|].
  destruct (Z.lt_trichotomy x b) as [H|[->|H]]; [by exists 0%nat, a, b|set_solver|].
  destruct (IH b H) as (j & Hj); [|done|set_solver|by exists (S j)].
  apply elem_of_cons in Hz as [->|?]; [lia|done].
Qed.

Section Completeness.
Context {HP : Poseidon} {CL : Circomlib} {CB : CircomlibBls CL}.
Variable env : string -> option string.
Variable cwd : string.
Variable tool : string -> list string -> gmap string string -> gmap string string * result string.

Definition nums (l : list Z) : json := JArr (map (fun z => JStr (toString z)) l).

(** What [coinutils merkle-proof] prints: the root of the tree over the listed
    leaves and the siblings of one of them. *)
Record prints_proof (root : Z) (leaf : Z) (i d : nat) (out : string) : Prop := {
  printed : exists sibs idx, JSON_parse (trim out) = Some (JObj [("root", JStr (toString root)); ("leafIndex", idx); ("siblings", nums sibs)]) /\
    length sibs = d /\ Forall in_bls sibs /\ circuit_path leaf (Z.of_nat i) sibs = root }.

Class MerkleTool := {
  tree_root : nat -> list Z -> Z;
  tree_root_range : forall d l, in_bls (tree_root d l);
  merkle_proof_ok : forall fs p zs scope i leaf d,
    fs !! p = Some (state_text (map toString zs) scope) -> Forall in_bls zs -> zs !! i = Some leaf -> (length zs <= 2 ^ d)%nat ->
    exists out, tool (COINUTILS_BIN env cwd) ["merkle-proof"; p; toString (Z.of_nat i); "--depth"; toString (Z.of_nat d)] fs = (∅, Ok out) /\
      prints_proof (tree_root d zs) leaf i d out
}.
Context {MT : MerkleTool}.

Lemma merkleProof_runs sc tg zs i leaf d w : Forall in_bls zs -> zs !! i = Some leaf -> (length zs <= 2 ^ d)%nat ->
  exists w' sibs idx, merkleProof env cwd tool sc tg (map toString zs) i d w =
    (w', Ok (JObj [("root", JStr (toString (tree_root d zs))); ("leafIndex", idx); ("siblings", nums sibs)])) /\
    length sibs = d /\ Forall in_bls sibs /\ circuit_path leaf (Z.of_nat i) sibs = tree_root d zs.
Proof.
  intros Hz Hi Hl. unfold merkleProof, coinutils, execFile. cbv [bindM writeFile lift].
  set (w1 := set_files _ w). edestruct (merkle_proof_ok (files w1)) as (out & Ht & [(sibs & idx & Hp & Hs)]);
    [apply lookup_insert_eq|exact Hz|exact Hi|exact Hl|].
  rewrite Ht. unfold parse_json. rewrite Hp. by eexists _, sibs, idx.
Qed.

Lemma bsig_num (i : input) k z : jget k i = Some (JStr (toString z)) -> in_bls z -> bsig i k = z.
Proof. unfold bsig. intros -> H. cbn. rewrite BigInt_toString. cbn. by apply rmod_id. Qed.

Lemma bsigs_nums (i : input) k l : jget k i = Some (nums l) -> Forall in_bls l -> bsigs i k = l.
Proof.
  unfold bsigs. intros -> H. cbn. rewrite map_map. induction H as [|x l Hx _ IH]; [done|]. cbn [map].
  cbn. rewrite BigInt_toString. cbn. rewrite rmod_id by done. f_equal. exact IH.
Qed.

Lemma bmember_num (i : input) d leaf idx ki ks kr sibs root : (0 < d <= 30)%nat -> (idx < 2 ^ d)%nat ->
  jget ki i = Some (JStr (toString (Z.of_nat idx))) -> jget ks i = Some (nums sibs) -> jget kr i = Some (JStr (toString root)) ->
  length sibs = d -> Forall in_bls sibs -> in_bls root -> circuit_path leaf (Z.of_nat idx) sibs = root ->
  bmember i d leaf ki ks kr = true.
Proof.
  intros Hd Hidx Hi Hs Hr Hl Hf Hb Hp. assert (Z.of_nat idx < 2 ^ Z.of_nat d) as Hlt.
  { rewrite <- (Nat2Z.id (2 ^ d)), <- pow_nat_Z in Hidx. rewrite Nat2Z.id in Hidx. rewrite <- (Z2Nat.id (2 ^ Z.of_nat d)) by lia. lia. }
  assert (2 ^ Z.of_nat d <= 2 ^ 30) by (apply Z.pow_le_mono_r; lia).
  assert (in_bls (Z.of_nat idx)) as Hin by (unfold in_bls, BLS12_381_R; lia).
  unfold bmember, member_of. rewrite (bsig_num i ki (Z.of_nat idx)), (bsigs_nums i ks sibs), (bsig_num i kr root), Hp, Hl, Z.eqb_refl, Nat.eqb_refl by done.
  rewrite andb_true_r. apply bits_bls; [lia|done|lia].
Qed.

Definition labels_ok (l : list Z) : Prop := Forall (fun z => 0 <= z < 2 ^ 252) l /\ (length l <= 4)%nat.

Lemma labels_bls l : labels_ok l -> Forall in_bls l.
Proof. intros [H _]. eapply list.Forall_impl; [exact H|]. intros z Hz. unfold in_bls, BLS12_381_R. cbn in Hz. lia. Qed.

Lemma in_labels l z : labels_ok l -> z ∈ l -> 0 <= z < 2 ^ 252.
Proof. intros [H _]. rewrite list.Forall_forall in H. apply H. Qed.

(** The witness of a label at [ai] of the allow list, between [j] and [j + 1] of the deny list. *)
Definition compliance_witness (policy : string) (x ai j lo hi ra rd : Z) (sa sl sh : list Z) : input :=
  [("allowRoot", JStr (toString ra)); ("denyRoot", JStr (toString rd)); ("policyId", JStr policy); ("label", JStr (toString x));
   ("allowIndex", JStr (toString ai)); ("allowSiblings", nums sa); ("denyLo", JStr (toString lo)); ("denyLoIndex", JStr (toString j));
   ("denyLoSiblings", nums sl); ("denyHi", JStr (toString hi)); ("denyHiIndex", JStr (toString (j + 1))); ("denyHiSiblings", nums sh)].

(** One signal of a literal witness. *)
Ltac signal := match goal with |- context [bsig ?i ?k] => erewrite (bsig_num i k) by (reflexivity || assumption) end.

Lemma witness_satisfies policy x (ai j : nat) lo hi ra rd sa sl sh :
  let i := compliance_witness policy x (Z.of_nat ai) (Z.of_nat j) lo hi ra rd sa sl sh in
  (ai < 4)%nat -> (S j < 4)%nat -> 0 <= lo -> lo < x < hi -> hi < 2 ^ 252 -> in_bls ra -> in_bls rd ->
  length sa = 2%nat -> length sl = 2%nat -> length sh = 2%nat -> Forall in_bls sa -> Forall in_bls sl -> Forall in_bls sh ->
  circuit_path x (Z.of_nat ai) sa = ra -> circuit_path lo (Z.of_nat j) sl = rd -> circuit_path hi (Z.of_nat (S j)) sh = rd ->
  ComplianceMembership i = true.
Proof.
  intros i Ha Hj Hlo0 Hx Hhi Hra Hrd La Ll Lh Fa Fl Fh Pa Pl Ph. assert (Z.of_nat (S j) = Z.of_nat j + 1) as HS by lia.
  assert (in_bls lo /\ in_bls x /\ in_bls hi /\ in_bls (Z.of_nat j) /\ in_bls (Z.of_nat j + 1)) as (? & ? & ? & ? & ?) by (unfold in_bls, BLS12_381_R; lia).
  unfold ComplianceMembership. change (has_signals i compliance_signals) with true.
  repeat signal. rewrite (bmember_num i 2 x ai "allowIndex" "allowSiblings" "allowRoot" sa ra) by (reflexivity || assumption || (cbn; lia)).
  rewrite (bmember_num i 2 lo j "denyLoIndex" "denyLoSiblings" "denyRoot" sl rd) by (reflexivity || assumption || (cbn; lia)).
  rewrite (bmember_num i 2 hi (S j) "denyHiIndex" "denyHiSiblings" "denyRoot" sh rd) by (reflexivity || assumption || (rewrite HS; reflexivity) || (cbn; lia)).
  rewrite !lt_bls by lia. rewrite rmod_id by done.
  assert (forall z, 0 <= z < 2 ^ 252 -> Num2Bits 252 z = true) as HB.
  { intros z Hz. apply bits_bls; [lia|unfold in_bls, BLS12_381_R; lia|lia]. }
  rewrite !HB, Z.eqb_refl, !(proj2 (Z.ltb_lt _ _)) by lia. done.
Qed.

Lemma built_witness p x (allow deny : list Z) ai j lo hi w :
  label p = toString x -> allowLabels p = map toString allow -> denyLabels p = map toString deny ->
  indexOf (toString x) (map toString allow) = Some ai -> check_sorted (map toString deny) = Ok tt ->
  find_adjacent (toString x) 0 (map toString deny) = Ok (Some j) ->
  labels_ok allow -> labels_ok deny -> allow !! ai = Some x -> deny !! j = Some lo -> deny !! S j = Some hi -> lo < x < hi ->
  exists w' obj, buildComplianceWitness env cwd tool p w = (w', Ok obj) /\ ComplianceMembership obj = true.
Proof.
  intros Ex Ea Ed Hi Hc Hf Ha Hd La Llo Lhi Hx. pose proof (labels_bls _ Ha) as Fa. pose proof (labels_bls _ Hd) as Fd.
  unfold buildComplianceWitness. rewrite Ex, Ea, Ed, Hi. cbv [bindM lift ret DEPTH]. rewrite Hc, Hf.
  edestruct (merkleProof_runs (c_scratch p) (c_tag p +:+ "_allow") allow ai x 2 w) as (w1 & sa & xa & -> & Na & Ba & Pa); [done|done|apply Ha|].
  edestruct (merkleProof_runs (c_scratch p) (c_tag p +:+ "_lo") deny j lo 2 w1) as (w2 & sl & xl & -> & Nl & Bl & Pl); [done|done|apply Hd|].
  edestruct (merkleProof_runs (c_scratch p) (c_tag p +:+ "_hi") deny (S j) hi 2 w2) as (w3 & sh & xh & -> & Nh & Bh & Ph); [done|done|apply Hd|].
  cbn [get prop]. rewrite !list_lookup_fmap, Llo, Lhi. eexists _, _. split; [reflexivity|].
  assert (toString (Z.of_nat (S j)) = toString (Z.of_nat j + 1)) as -> by (f_equal; lia).
  apply lookup_lt_Some in La as Hai. apply lookup_lt_Some in Lhi as Hj. destruct Ha as [_ Hna], Hd as [Hrd Hnd].
  rewrite list.Forall_forall in Hrd. pose proof (Hrd lo ltac:(by eapply list_elem_of_lookup_2)). pose proof (Hrd hi ltac:(by eapply list_elem_of_lookup_2)).
  apply (witness_satisfies (policyId p) x ai j lo hi (tree_root 2 allow) (tree_root 2 deny) sa sl sh); (done || lia || apply tree_root_range || idtac).
Qed.

End Completeness.

(** C17: the compliance builder issues exactly the witnesses it should.  For
    labels below 2^252 in trees of at most four leaves, with a deny list that is
    strictly sorted and has members below and above the label, it returns a
    witness exactly when the label is allowed and not denied, and that witness
    satisfies the circuit; otherwise it throws. *)
Theorem compliance_gate {HP : Poseidon} {CL : Circomlib} {CB : CircomlibBls CL} env cwd tool {MT : MerkleTool env cwd tool}
    (x : Z) (allow deny : list Z) (policy scratch tag : string) (w : World) :
  labels_ok allow -> labels_ok deny -> Sorted Z.lt deny -> (exists lo hi, lo ∈ deny /\ hi ∈ deny /\ lo < x < hi) ->
  let p := {| label := toString x; allowLabels := map toString allow; denyLabels := map toString deny; policyId := policy;
              c_scratch := scratch; c_tag := tag |} in
  match (buildComplianceWitness env cwd tool p w).2 with
  | Ok obj => x ∈ allow /\ x ∉ deny /\ ComplianceMembership obj = true
  | Err _ => x ∉ allow \/ x ∈ deny
  end.
Proof.
  intros Ha Hd Hs (lo & hi & Hlo & Hhi & Hx) p. pose proof (indexOf_spec x allow) as Hi.
  destruct (indexOf (toString x) (map toString allow)) as [ai|] eqn:Ei; [|unfold buildComplianceWitness; cbn [label allowLabels p]; rewrite Ei; by left].
  apply list_elem_of_lookup_2 in Hi as Hin. pose proof (proj2 (check_sorted_spec deny) Hs) as Hc.
  destruct (check_sorted (map toString deny)) as [[]|] eqn:Ec; [|done].
  assert (StronglySorted Z.lt deny) as Hss by (apply Sorted_StronglySorted; [intros a b c; apply Z.lt_trans|done]).
  destruct (find_adjacent_spec x deny 0) as (r & Hr & Hcase). destruct r as [j|].
  - destruct Hcase as [_ (l & h & Hl & Hh & Hb)]. rewrite Nat.sub_0_r in Hl, Hh.
    edestruct (built_witness env cwd tool p x allow deny ai j l h w) as (w' & obj & -> & Hok); [done..|].
    split_and!; [done| |done]. by apply (between_absent deny j l h).
  - unfold buildComplianceWitness. cbn [label allowLabels denyLabels p]. rewrite Ei. cbv [bindM lift]. rewrite Ec, Hr. cbn. right.
    destruct (decide (x ∈ deny)) as [|Hn]; [done|]. exfalso. destruct deny as [|a deny]; [by apply not_elem_of_nil in Hlo|].
    assert (a < x) as Hax.
    { apply elem_of_cons in Hlo as [->|Hlo]; [lia|]. inversion Hss as [|? ? _ Hf]; subst. rewrite list.Forall_forall in Hf. specialize (Hf lo Hlo). lia. }
    destruct (falls_somewhere x a deny hi Hax Hhi ltac:(lia) Hn) as (j & Hj). by apply (Hcase j).
Qed.

(** ** A concrete [coinutils] *)

Lemma trim_right_keeps s d : is_ws d = false -> trim_right (s +:+ String d "") = s +:+ String d "".
Proof.
  intros Hd. induction s as [|c s IH]; [change ("" +:+ String d "") with (String d ""); cbn [trim_right str_forall]; by rewrite Hd|]. rewrite sapp_cons. cbn [trim_right]. rewrite IH.
  destruct (str_forall is_ws (String c (s +:+ String d ""))) eqn:E; [|done]. exfalso.
  rewrite <- sapp_cons, str_forall_app in E. apply andb_prop in E as [_ E]. cbn [str_forall] in E. by rewrite Hd in E.
Qed.

Lemma trim_object l : trim (stringify (JObj l)) = stringify (JObj l).
Proof.
  set (t := join "," (map (fun kv => quote kv.1 +:+ ":" +:+ stringify kv.2) l)).
  change (trim_right (String "{" t +:+ "}") = String "{" t +:+ "}"). by apply trim_right_keeps.
Qed.

Lemma nums_wf l : json_wf (nums l).
Proof. unfold nums. induction l as [|z l IH]; [done|]. by split. Qed.

Definition blsPoseidon : Poseidon := fun l => rmod (foldr (fun x acc => x + 31 * acc + 7) (Z.of_nat (length l)) l).
#[local] Existing Instance blsPoseidon.
Definition exactCircomlib : Circomlib := {|
  Num2Bits := fun n x => x <? 2 ^ n; LessThan := fun _ a b => a <? b; LessEqThan := fun _ a b => a <=? b; GreaterEqThan := fun _ a b => b <=? a |}.
#[local] Existing Instance exactCircomlib.
Lemma exactCircomlib_bls : CircomlibBls exactCircomlib.
Proof. split; intros; cbn; [apply Z.ltb_lt|done..]. Qed.
#[local] Existing Instance exactCircomlib_bls.

Definition no_env : string -> option string := fun _ => None.

Definition parse_leaves (t : string) : list Z :=
  match JSON_parse t ≫= prop "commitments" with
  | Some (JArr l) => map (fun v => default 0 (BigInt_json v)) l
  | _ => []
  end.
Definition leaves_of (fs : gmap string string) (p : string) : list Z := match fs !! p with Some t => parse_leaves t | None => [] end.

Definition proof_object (zs : list Z) (i d : nat) : json :=
  JObj [("root", JStr (toString (node (leaf_fn zs) d 0))); ("leafIndex", JNum (Z.of_nat i)); ("siblings", nums (Merkle.path (leaf_fn zs) 0 i d))].

(** [coinutils merkle-proof] over the padded tree. *)
Definition toy_coinutils (bin : string) (args : list string) (fs : gmap string string) : gmap string string * result string :=
  match args with
  | [_; p; i; _; d] =>
      match BigInt i, BigInt d with
      | Some i, Some d => (∅, Ok (stringify (proof_object (leaves_of fs p) (Z.to_nat i) (Z.to_nat d))))
      | _, _ => (∅, Err "usage")
      end
  | _ => (∅, Err "usage")
  end.

Lemma parse_state zs sc : parse_leaves (state_text (map toString zs) sc) = zs.
Proof.
  unfold parse_leaves, state_text. rewrite JSON_parse_stringify.
  - change (map (fun v => default 0 (BigInt_json v)) (map JStr (map toString zs)) = zs). rewrite !map_map, (map_ext _ id), map_id; [done|].
    intros z. cbn. by rewrite BigInt_toString.
  - cbn. split; [repeat (constructor; [set_solver|]); constructor|]. split; [|done]. rewrite map_map. change (json_wf (nums zs)). apply nums_wf.
Qed.

Lemma state_leaves fs p zs sc : fs !! p = Some (state_text (map toString zs) sc) -> leaves_of fs p = zs.
Proof. intros Hp. unfold leaves_of. rewrite Hp. apply parse_state. Qed.

Lemma leaf_bls zs j : Forall in_bls zs -> in_bls (leaf_fn zs j).
Proof.
  intros Hz. unfold leaf_fn. destruct (zs !! j) as [z|] eqn:E; [|done]. rewrite list.Forall_forall in Hz. apply Hz. by eapply list_elem_of_lookup_2.
Qed.

Lemma node_bls f d i : (forall j, in_bls (f j)) -> in_bls (node f d i).
Proof. intros Hf. destruct d; cbn; [apply Hf|apply rmod_range]. Qed.

Lemma path_bls f k i n : (forall j, in_bls (f j)) -> Forall in_bls (Merkle.path f k i n).
Proof. intros Hf. revert k i. induction n as [|n IH]; intros k i; cbn; constructor; [by apply node_bls|apply IH]. Qed.

Lemma path_length f k i n : length (Merkle.path f k i n) = n.
Proof. revert k i. induction n as [|n IH]; intros k i; cbn; [done|]. by rewrite IH. Qed.

#[local, refine] Instance toy_merkle_tool : MerkleTool no_env "/shade" toy_coinutils := {| tree_root d l := rmod (node (leaf_fn l) d 0) |}.
Proof.
  - intros. apply rmod_range.
  - intros fs p zs sc i leaf d Hp Hz Hi Hl. assert (forall j, in_bls (leaf_fn zs j)) as Hf.
    { intros j. by apply leaf_bls. }
    unfold toy_coinutils. rewrite !BigInt_toString, !Nat2Z.id, (state_leaves _ _ _ _ Hp). eexists. split; [reflexivity|]. constructor.
    exists (Merkle.path (leaf_fn zs) 0 i d), (JNum (Z.of_nat i)). unfold proof_object. rewrite trim_object, JSON_parse_stringify.
    + rewrite (rmod_id (node _ _ _)) by by apply node_bls. split_and!; [done|apply path_length|by apply path_bls|].
      assert (leaf = leaf_fn zs i) as -> by (unfold leaf_fn; by rewrite Hi). change (leaf_fn zs i) with (node (leaf_fn zs) 0 i).
      rewrite circuit_path_spec. f_equal. apply Nat.div_small. apply lookup_lt_Some in Hi. lia.
    + cbn [json_wf]. split; [repeat (constructor; [set_solver|]); constructor|]. split; [done|]. split; [done|]. split; [apply nums_wf|done].
Defined.

Definition toy_world : World := {| files := ∅; log := []; drawn := 0; scratchEnsured := false |}.
Definition toy_allow : list Z := [7; 42; 300].
Definition toy_deny : list Z := [0; 100; 500; 1000000000000].
Definition toy_params (x : Z) : ComplianceParams :=
  {| label := toString x; allowLabels := map toString toy_allow; denyLabels := map toString toy_deny; policyId := "12345";
     c_scratch := "/tmp"; c_tag := "comp" |}.

Lemma compliance_gate_witness :
  match (buildComplianceWitness no_env "/shade" toy_coinutils (toy_params 300) toy_world).2 with
  | Ok obj => 300 ∈ toy_allow /\ 300 ∉ toy_deny /\ ComplianceMembership obj = true
  | Err _ => 300 ∉ toy_allow \/ 300 ∈ toy_deny
  end.
Proof.
  apply (compliance_gate no_env "/shade" toy_coinutils 300 toy_allow toy_deny "12345" "/tmp" "comp" toy_world).
  - split; [repeat constructor; lia|cbn; lia].
  - split; [repeat constructor; lia|cbn; lia].
  - repeat constructor; lia.
  - exists 0, 500. split; [left|split; [right; right; left|lia]].
Defined.

Definition toy_input : input :=
  compliance_witness "12345" 300 2 1 100 500 (node (leaf_fn toy_allow) 2 0) (node (leaf_fn toy_deny) 2 0)
    (Merkle.path (leaf_fn toy_allow) 0 2 2) (Merkle.path (leaf_fn toy_deny) 0 1 2) (Merkle.path (leaf_fn toy_deny) 0 2 2).


End StellarCircuits.
