(* ===== verification/StellarMatch.v ===== *)
(** The witness builders of matched settlements on Stellar
    (packages/proving/src/mpc-priced.ts, mpc-settlement.ts) against the priced
    circuit of [StellarCircuits].

    What the builders rely on of [coinutils withdraw] is the class
    [WithdrawTool]: for a note whose commitment is in the state file and whose
    label is in the association file, it writes inclusion paths that verify. *)

From S2P Require Import Prelude Effects Text Json Merkle Circuits Rfq Assets ProofPath StellarCircuits.
Import ProofPath StellarCircuits.
Local Open Scope string_scope.
Local Open Scope Z_scope.

Module StellarMatch.

Definition num (z : Z) : json := JStr (toString z).

(** ** Notes in files *)

Record note := { nv : Z; nl : Z; nn : Z; ns : Z; na : Z }.
Definition note_ok (o : note) : Prop := in_bls (nv o) /\ in_bls (nl o) /\ in_bls (nn o) /\ in_bls (ns o) /\ in_bls (na o).

Definition opening_fields (o : note) (l : list (string * json)) : Prop :=
  jget "value" l = Some (num (nv o)) /\ jget "label" l = Some (num (nl o)) /\ jget "nullifier" l = Some (num (nn o)) /\
  jget "secret" l = Some (num (ns o)) /\ jget "asset_id" l = Some (num (na o)).

Definition coin_text (o : note) (t : string) : Prop :=
  exists raw l, JSON_parse t = Some raw /\ prop "coin" raw = Some (JObj l) /\ opening_fields o l.

Section Withdraw.
Context {HP : Poseidon}.

Definition commit (o : note) : Z := commitment_of (na o) (nv o) (nl o) (nn o) (ns o).

(** An inclusion path as signals. *)
Definition has_path (d : nat) (leaf root : Z) (ki ks : string) (l : list (string * json)) : Prop :=
  exists (idx : nat) sibs, jget ki l = Some (num (Z.of_nat idx)) /\ jget ks l = Some (nums sibs) /\ (idx < 2 ^ d)%nat /\
    length sibs = d /\ Forall in_bls sibs /\ circuit_path leaf (Z.of_nat idx) sibs = root.

Definition paths_for (o : note) (state assoc : Z) (w : json) : Prop :=
  exists l, w = JObj l /\ jget "stateRoot" l = Some (num state) /\ jget "associationRoot" l = Some (num assoc) /\
    has_path 12 (commit o) state "stateIndex" "stateSiblings" l /\ has_path 2 (nl o) assoc "labelIndex" "labelSiblings" l.

(** Reading the coin and the two roots of the pool state and of the association set. *)
Class WithdrawTool (bin : string) (tool : string -> list string -> gmap string string -> gmap string string * result string) := {
  state_root : string -> Z;
  assoc_root : string -> Z;
  approved : string -> Z -> Prop;    (** the labels of an association file *)
  state_root_range : forall t, in_bls (state_root t);
  assoc_root_range : forall t, in_bls (assoc_root t);
  withdraw_ok : forall fs c st assoc out args o t cs scope ta, fs !! c = Some t -> coin_text o t -> note_ok o ->
    fs !! st = Some (state_text (map toString cs) scope) -> Forall in_bls cs -> (length cs <= 2 ^ 12)%nat -> commit o ∈ cs ->
    fs !! assoc = Some ta -> approved ta (nl o) ->
    exists text w stdout, tool bin (["withdraw"; c; st; assoc; "-o"; out] ++ args)%list fs = ({[out := text]}, Ok stdout) /\
      JSON_parse text = Some w /\ paths_for o (state_root (state_text (map toString cs) scope)) (assoc_root ta) w
}.

Variable env : string -> option string.
Variable cwd : string.
Variable tool : string -> list string -> gmap string string -> gmap string string * result string.
Context {WT : WithdrawTool (COINUTILS_BIN env cwd) tool}.

Definition agrees_but (l : list string) (f g : gmap string string) : Prop := forall p, p ∉ l -> g !! p = f !! p.

Lemma both_paths_runs cs scope op st assoc a inA b inB w oA oB tA tB ta :
  NoDup [st; inA; inB] -> a ∉ [st; inA; inB] -> b ∉ [st; inA; inB] -> assoc ∉ [st; inA; inB] ->
  files w !! a = Some tA -> coin_text oA tA -> note_ok oA -> files w !! b = Some tB -> coin_text oB tB -> note_ok oB ->
  Forall in_bls cs -> (length cs <= 2 ^ 12)%nat -> commit oA ∈ cs -> commit oB ∈ cs ->
  files w !! assoc = Some ta -> approved ta (nl oA) -> approved ta (nl oB) ->
  let st_text := state_text (map toString cs) scope in
  exists w' wA wB, both_paths env cwd tool (map toString cs) scope op st assoc a inA b inB w = (w', Ok (wA, wB)) /\
    paths_for oA (state_root st_text) (assoc_root ta) wA /\ paths_for oB (state_root st_text) (assoc_root ta) wB /\
    agrees_but [st; inA; inB] (files w) (files w') /\ drawn w' = drawn w.
Proof.
  intros Hnd Ha Hb Hs HA CA NA HB CB NB Hcs Hlen MA MB Ht PA PB st_text.
  rewrite !list.NoDup_cons in Hnd. rewrite !not_elem_of_cons in Hnd, Ha, Hb, Hs.
  destruct Hnd as ((N1 & N2 & _) & (N3 & _) & _), Ha as (A1 & A2 & A3 & _), Hb as (B1 & B2 & B3 & _), Hs as (S1 & S2 & S3 & _).
  unfold both_paths, coinutils, execFile. cbv [bindM writeFile]. set (f1 := <[st:=_]> (files w)). cbn [files set_files].
  destruct (withdraw_ok f1 a st assoc inA (binding_args (dummy_binding op)) oA tA cs scope ta) as (textA & wA & outA & TA & JA & VA);
    [unfold f1; rewrite ?lookup_insert_ne by congruence; (done || apply lookup_insert_eq)..|].
  rewrite TA. cbn [files]. set (f2 := {[inA := textA]} ∪ f1).
  destruct (withdraw_ok f2 b st assoc inB (binding_args (dummy_binding op)) oB tB cs scope ta) as (textB & wB & outB & TB & JB & VB);
    [unfold f2, f1; rewrite ?lookup_union_r by (apply lookup_singleton_ne; congruence); rewrite ?lookup_insert_ne by congruence;
     (done || apply lookup_insert_eq)..|].
  rewrite TB. cbn [files]. set (f3 := {[inB := textB]} ∪ f2).
  assert (f3 !! inA = Some textA) as EA.
  { unfold f3, f2. rewrite lookup_union_r by (apply lookup_singleton_ne; congruence). apply lookup_union_Some_l, lookup_singleton_eq. }
  assert (f3 !! inB = Some textB) as EB by apply lookup_union_Some_l, lookup_singleton_eq.
  unfold readJson. cbn [files]. rewrite EA, EB. unfold parse_json. rewrite JA, JB. eexists _, wA, wB. split; [reflexivity|].
  split_and!; [done|done| |done]. intros p Hp. rewrite !not_elem_of_cons in Hp. destruct Hp as (P1 & P2 & P3 & _). cbn [files]. unfold f3, f2, f1.
  rewrite !lookup_union_r by (apply lookup_singleton_ne; congruence). apply lookup_insert_ne. congruence.
Qed.

Lemma readOpening_runs coin w o t : files w !! path coin = Some t -> coin_text o t ->
  readOpening coin w = (w, Ok {| op_pre := {| np_value := Some (num (nv o)); np_label := Some (num (nl o)); np_nullifier := Some (num (nn o));
    np_secret := Some (num (ns o)) |}; op_asset_id := Some (num (na o)) |}).
Proof.
  intros Hf (raw & l & Hp & Hc & H1 & H2 & H3 & H4 & H5). unfold readOpening, readJson. cbv [bindM lift ret]. rewrite Hf. unfold parse_json. rewrite Hp.
  destruct raw; try done. cbn [get prop] in *. rewrite Hc. cbn [get prop]. by rewrite H1, H2, H3, H4, H5.
Qed.

Lemma freshPreimage_runs rand value w : (forall n, rand n <> "") -> exists w' l n s,
  freshPreimage rand value w = (w', Ok {| np_value := txt value; np_label := Some (num l); np_nullifier := Some (num n); np_secret := Some (num s) |})
  /\ files w' = files w.
Proof.
  intros Hr. unfold freshPreimage, randField. cbv [bindM ret]. cbn [drawn files log scratchEnsured].
  unfold to_bigint. rewrite !BigInt_hex by apply Hr. cbn [rbind]. by eexists _, _, _, _.
Qed.

End Withdraw.
(** ** The priced witness *)

Section Priced.
Context {HP : Poseidon} {CL : Circomlib} {CB : CircomlibBls CL}.

Record side := { s_idx : nat; s_sibs : list Z; s_lidx : nat; s_lsibs : list Z; s_ol : Z; s_on : Z; s_os : Z }.

(** The witness of two notes crossing at a price. *)
Definition priced_witness (x y : note) (sx sy : side) (sr ar batch price minA minB : Z) (pool chain deadline : string) : input :=
  [("stateRoot", num sr); ("associationRoot", num ar); ("batchHash", num batch); ("poolId", JStr pool); ("chainId", JStr chain);
   ("deadlineLedger", JStr deadline); ("inputAssetA", num (na x)); ("outputAssetA", num (na y)); ("inputAssetB", num (na y));
   ("outputAssetB", num (na x)); ("matchedAmountA", num (nv x)); ("matchedAmountB", num (nv y)); ("priceScaled", num price);
   ("priceScale", num 1000000000); ("minOutputA", num minA); ("minOutputB", num minB);
   ("labelA", num (nl x)); ("nullifierA", num (nn x)); ("secretA", num (ns x)); ("stateIndexA", num (Z.of_nat (s_idx sx)));
   ("stateSiblingsA", nums (s_sibs sx)); ("labelIndexA", num (Z.of_nat (s_lidx sx))); ("labelSiblingsA", nums (s_lsibs sx));
   ("labelB", num (nl y)); ("nullifierB", num (nn y)); ("secretB", num (ns y)); ("stateIndexB", num (Z.of_nat (s_idx sy)));
   ("stateSiblingsB", nums (s_sibs sy)); ("labelIndexB", num (Z.of_nat (s_lidx sy))); ("labelSiblingsB", nums (s_lsibs sy));
   ("outLabelA", num (s_ol sx)); ("outNullifierA", num (s_on sx)); ("outSecretA", num (s_os sx));
   ("outLabelB", num (s_ol sy)); ("outNullifierB", num (s_on sy)); ("outSecretB", num (s_os sy))].

(** The paths of a side verify. *)
Definition side_ok (o : note) (sd : side) (sr ar : Z) : Prop :=
  (s_idx sd < 2 ^ 12)%nat /\ length (s_sibs sd) = 12%nat /\ Forall in_bls (s_sibs sd) /\ circuit_path (commit o) (Z.of_nat (s_idx sd)) (s_sibs sd) = sr /\
  (s_lidx sd < 2 ^ 2)%nat /\ length (s_lsibs sd) = 2%nat /\ Forall in_bls (s_lsibs sd) /\ circuit_path (nl o) (Z.of_nat (s_lidx sd)) (s_lsibs sd) = ar.

(** Below 2^64: the products of the price check stay below 2^128 and the field. *)
Definition u64 (z : Z) : Prop := 0 <= z < 2 ^ 64.
Lemma u64_bls z : u64 z -> in_bls z.
Proof. unfold u64, in_bls, BLS12_381_R. lia. Qed.

Lemma price_exact a b p : u64 a -> u64 b -> u64 p -> b = a * p / 1000000000 ->
  LessEqThan 128 (rmod (b * 1000000000)) (rmod (a * p)) && LessThan 64 (rmod (rmod (a * p) - rmod (b * 1000000000))) 1000000000 = true.
Proof.
  unfold u64. intros Ha Hb Hp E. assert (0 <= a * p < 2 ^ 128) as Hm by nia.
  pose proof (Z.div_mod (a * p) 1000000000 ltac:(lia)) as D. pose proof (Z.mod_pos_bound (a * p) 1000000000 ltac:(lia)) as R.
  assert (0 <= b * 1000000000 <= a * p) as Hs by lia.
  rewrite (rmod_id (a * p)), (rmod_id (b * 1000000000)) by (unfold in_bls, BLS12_381_R; lia).
  rewrite rmod_id by (unfold in_bls, BLS12_381_R; lia). rewrite le_bls, lt_bls by lia.
  rewrite (proj2 (Z.leb_le _ _)), (proj2 (Z.ltb_lt _ _)) by lia. done.
Qed.

Lemma priced_satisfies x y sx sy sr ar batch price minA minB pool chain deadline :
  let i := priced_witness x y sx sy sr ar batch price minA minB pool chain deadline in
  note_ok x -> note_ok y -> u64 (nv x) -> u64 (nv y) -> u64 price -> u64 minA -> u64 minB -> in_bls sr -> in_bls ar ->
  side_ok x sx sr ar -> side_ok y sy sr ar -> na x <> na y -> nv y = nv x * price / 1000000000 ->
  MpcPricedSettlement i = (minA <=? nv y) && (minB <=? nv x).
Proof.
  intros i (X1 & X2 & X3 & X4 & X5) (Y1 & Y2 & Y3 & Y4 & Y5) Vx Vy Pp Ma Mb Rs Ra (P1 & P2 & P3 & P4 & P5 & P6 & P7 & P8)
    (Q1 & Q2 & Q3 & Q4 & Q5 & Q6 & Q7 & Q8) Ha Hp.
  unfold MpcPricedSettlement. change (has_signals i priced_signals) with true. cbn [andb].
  assert (forall k z, jget k i = Some (num z) -> in_bls z -> bsig i k = z) as S by (intros; by apply bsig_num).
  assert (side_member i "A" "inputAssetA" "matchedAmountA" = true) as ->.
  { unfold side_member. rewrite (S "inputAssetA" (na x)), (S "matchedAmountA" (nv x)), (S ("label" +:+ "A") (nl x)), (S ("nullifier" +:+ "A") (nn x)),
      (S ("secret" +:+ "A") (ns x)) by (reflexivity || assumption). change (commitment_of _ _ _ _ _) with (commit x).
    rewrite (bmember_num i 12 (commit x) (s_idx sx) _ _ _ (s_sibs sx) sr), (bmember_num i 2 (nl x) (s_lidx sx) _ _ _ (s_lsibs sx) ar)
      by (reflexivity || assumption || lia). done. }
  assert (side_member i "B" "inputAssetB" "matchedAmountB" = true) as ->.
  { unfold side_member. rewrite (S "inputAssetB" (na y)), (S "matchedAmountB" (nv y)), (S ("label" +:+ "B") (nl y)), (S ("nullifier" +:+ "B") (nn y)),
      (S ("secret" +:+ "B") (ns y)) by (reflexivity || assumption). change (commitment_of _ _ _ _ _) with (commit y).
    rewrite (bmember_num i 12 (commit y) (s_idx sy) _ _ _ (s_sibs sy) sr), (bmember_num i 2 (nl y) (s_lidx sy) _ _ _ (s_lsibs sy) ar)
      by (reflexivity || assumption || lia). done. }
  unfold price_holds. rewrite (S "matchedAmountA" (nv x)), (S "matchedAmountB" (nv y)), (S "priceScaled" price), (S "priceScale" 1000000000),
    (S "minOutputA" minA), (S "minOutputB" minB), (S "inputAssetA" (na x)), (S "inputAssetB" (na y)), (S "outputAssetA" (na y)), (S "outputAssetB" (na x))
    by (reflexivity || assumption || by apply u64_bls).
  rewrite price_exact by done. rewrite !Z.eqb_refl, (proj2 (Z.eqb_neq _ _) Ha). cbn [andb negb]. unfold u64 in *. by rewrite !ge_bls by lia.
Qed.

End Priced.

(** ** The priced builder *)

Section PricedBuilder.
Context {HP : Poseidon} {CL : Circomlib} {CB : CircomlibBls CL}.
Variable env : string -> option string.
Variable cwd : string.
Variable tool : string -> list string -> gmap string string -> gmap string string * result string.
Variable rand : nat -> string.
Context {WT : WithdrawTool (COINUTILS_BIN env cwd) tool}.

(** The files the builder writes before it reads the coins. *)
Definition priced_file (p : PricedParams) (s : string) : string := pr_scratch p +:+ "/" +:+ pr_tag p +:+ s.
Definition priced_scratch (p : PricedParams) : list string :=
  [priced_file p "_priced_state.json"; priced_file p "_priced_wX.json"; priced_file p "_priced_wY.json"].

(** Two notes of the pool with approved labels, asked to cross at a price. *)
Record crossing (w : World) (p : PricedParams) (x y : note) (price minA minB : Z) : Prop := {
  x_coin : exists t, files w !! path (coinX p) = Some t /\ coin_text x t;
  y_coin : exists t, files w !! path (coinY p) = Some t /\ coin_text y t;
  x_note : note_ok x; y_note : note_ok y;
  in_pool : exists cs, pr_commitments p = map toString cs /\ Forall in_bls cs /\ (length cs <= 2 ^ 12)%nat /\ commit x ∈ cs /\ commit y ∈ cs;
  labelled : exists t, files w !! pr_assocPath p = Some t /\ approved t (nl x) /\ approved t (nl y);
  batch32 : exists h, pr_batchHashHex p = "0x" +:+ hex_encode h /\ String.length h = 32%nat;
  price_text : priceScaled p = toString price; minA_text : minOutputA p = toString minA; minB_text : minOutputB p = toString minB;
  x_small : u64 (nv x); y_small : u64 (nv y); price_small : u64 price; minA_small : u64 minA; minB_small : u64 minB;
  x_apart : path (coinX p) ∉ priced_scratch p; y_apart : path (coinY p) ∉ priced_scratch p; assoc_apart : pr_assocPath p ∉ priced_scratch p
}.

Lemma sapp_inj_l a s t : a +:+ s = a +:+ t -> s = t.
Proof. induction a as [|c a IH]; [done|]. rewrite !sapp_cons. intros [= H]. by apply IH. Qed.

Lemma priced_scratch_nodup p : NoDup (priced_scratch p).
Proof.
  assert (forall s t, priced_file p s = priced_file p t -> s = t) as Hi by (intros s t H; by repeat apply sapp_inj_l in H).
  unfold priced_scratch. rewrite !list.NoDup_cons, !not_elem_of_cons.
  split_and!; try apply not_elem_of_nil; try constructor; by intros ?%Hi.
Qed.

Definition opened (o : note) : Opening :=
  {| op_pre := {| np_value := Some (num (nv o)); np_label := Some (num (nl o)); np_nullifier := Some (num (nn o)); np_secret := Some (num (ns o)) |};
     op_asset_id := Some (num (na o)) |}.

(** The guards: distinct assets, and the other note worth the product rounded down. *)
Definition matches_price (x y : note) (price : Z) : Prop := na x <> na y /\ nv y = nv x * price / 1000000000.

Lemma priced_amounts_spec x y price : u64 (nv x) -> u64 price ->
  match priced_amounts (opened x) (opened y) (toString price) with
  | Ok (a, b) => a = nv x /\ b = nv y /\ matches_price x y price
  | Err _ => ~ matches_price x y price
  end.
Proof.
  unfold u64, matches_price. intros Hx Hp. unfold priced_amounts. cbn [opened op_asset_id op_pre np_value strict_eq num].
  destruct (String.eqb_spec (toString (na x)) (toString (na y))) as [E|E]; [apply toString_inj in E; naive_solver|].
  unfold bigint_of, num. cbn [BigInt_json]. rewrite BigInt_toString. cbn [rbind]. rewrite to_bigint_toString. cbn [rbind].
  rewrite Z.quot_div_nonneg by lia. cbn [strict_eq txt]. 
  destruct (String.eqb_spec (toString (nv x * price / 1000000000)) (toString (nv y))) as [V|V]; cbn [negb].
  - apply toString_inj in V. split_and!; [done|by symmetry in V|intros H; by rewrite H in E|done].
  - intros [_ H]. by rewrite H in V.
Qed.

Lemma paths_side o sr ar w l n s : paths_for o sr ar w -> exists sd, side_ok o sd sr ar /\ s_ol sd = l /\ s_on sd = n /\ s_os sd = s /\
  get "stateRoot" (Some w) = Ok (Some (num sr)) /\ get "associationRoot" (Some w) = Ok (Some (num ar)) /\
  get "stateIndex" (Some w) = Ok (Some (num (Z.of_nat (s_idx sd)))) /\ prop "stateIndex" w = Some (num (Z.of_nat (s_idx sd))) /\
  prop "stateSiblings" w = Some (nums (s_sibs sd)) /\ prop "labelIndex" w = Some (num (Z.of_nat (s_lidx sd))) /\
  prop "labelSiblings" w = Some (nums (s_lsibs sd)).
Proof.
  intros (f & -> & Hr & Ha & (i & si & I1 & I2 & I3 & I4 & I5 & I6) & (j & sj & J1 & J2 & J3 & J4 & J5 & J6)).
  exists {| s_idx := i; s_sibs := si; s_lidx := j; s_lsibs := sj; s_ol := l; s_on := n; s_os := s |}. cbn [get prop s_idx s_sibs s_lidx s_lsibs s_ol s_on s_os].
  rewrite Hr, Ha, I1, I2, J1, J2. by split_and!.
Qed.

End PricedBuilder.

(** C18: the priced builder against its circuit.  For two notes of the pool with
    approved labels and 64-bit amounts it returns a witness exactly when the
    assets differ and the second note is worth the first one times the price,
    rounded down; the circuit accepts that witness exactly when both minimum
    outputs are met, which the builder itself does not look at. *)
Theorem priced_witness_exact {HP : Poseidon} {CL : Circomlib} {CB : CircomlibBls CL} env cwd tool rand
    {WT : WithdrawTool (COINUTILS_BIN env cwd) tool} (w : World) (p : PricedParams) (x y : note) (price minA minB : Z) :
  crossing env cwd tool w p x y price minA minB -> (forall n, rand n <> "") ->
  match (buildMpcPricedWitness env cwd tool rand p w).2 with
  | Ok obj => matches_price x y price /\ MpcPricedSettlement obj = (minA <=? nv y) && (minB <=? nv x)
  | Err _ => ~ matches_price x y price
  end.
Proof.
  intros [(tx & Fx & Cx) (ty & Fy & Cy) Nx Ny (cs & Ecs & Bcs & Lcs & Mx & My) (ta & Fa & Px & Py) (h & Eh & Lh) Ep EA EB Ux Uy Up UA UB Ax Ay Aa] Hr.
  unfold buildMpcPricedWitness. cbv [bindM lift ret]. rewrite Ecs.
  destruct (both_paths_runs env cwd tool cs (pr_scope p) "0" (priced_file p "_priced_state.json") (pr_assocPath p) (path (coinX p))
    (priced_file p "_priced_wX.json") (path (coinY p)) (priced_file p "_priced_wY.json") w x y tx ty ta) as (w1 & wX & wY & E1 & QX & QY & Ag & _);
    [apply priced_scratch_nodup|done..|]. unfold priced_file in E1. rewrite E1. clear E1.
  rewrite (readOpening_runs (coinX p) w1 x tx) by (rewrite ?(Ag _ Ax); done). rewrite (readOpening_runs (coinY p) w1 y ty) by (rewrite ?(Ag _ Ay); done).
  fold (opened x). fold (opened y). pose proof (priced_amounts_spec x y price Ux Up) as Hm. rewrite Ep.
  destruct (priced_amounts (opened x) (opened y) (toString price)) as [[a b]|e]; [|done]. destruct Hm as (-> & -> & Hm).
  destruct (freshPreimage_runs rand "" w1 Hr) as (w2 & la & na' & sa & F1 & _). destruct (freshPreimage_runs rand "" w2 Hr) as (w3 & lb & nb' & sb & F2 & _).
  destruct (paths_side x _ _ _ la na' sa QX) as (sx & Sx & <- & <- & <- & R1 & R2 & _ & X1 & X2 & X3 & X4).
  destruct (paths_side y _ _ _ lb nb' sb QY) as (sy & Sy & <- & <- & <- & _ & _ & R3 & Y1 & Y2 & Y3 & Y4).
  rewrite R1, R2, Eh, hashToField_hex, R3, F1, F2 by done. cbn [snd]. split; [done|]. destruct Hm as [Hne Hv].
  unfold priced_side, side_paths. rewrite X1, X2, X3, X4, Y1, Y2, Y3, Y4, EA, EB.
  exact (priced_satisfies x y sx sy _ _ (be (bytes_take 31 h)) price minA minB (pr_poolId p) (pr_chainId p) (pr_deadlineLedger p)
    Nx Ny Ux Uy Up UA UB (state_root_range _) (assoc_root_range _) Sx Sy Hne Hv).
Qed.

(** ** The same-asset settlement *)

Section Settlement.
Context {HP : Poseidon} {CL : Circomlib} {CB : CircomlibBls CL}.

Definition settle_side (x : string) (o : note) (sd : side) (m : Z) : input :=
  [("label" +:+ x, num (nl o)); ("value" +:+ x, num (nv o)); ("nullifier" +:+ x, num (nn o)); ("secret" +:+ x, num (ns o));
   ("stateIndex" +:+ x, num (Z.of_nat (s_idx sd))); ("stateSiblings" +:+ x, nums (s_sibs sd)); ("labelIndex" +:+ x, num (Z.of_nat (s_lidx sd)));
   ("labelSiblings" +:+ x, nums (s_lsibs sd)); ("outValue" +:+ x, num m); ("outLabel" +:+ x, num (s_ol sd)); ("outNullifier" +:+ x, num (s_on sd));
   ("outSecret" +:+ x, num (s_os sd))].

Definition settlement_witness (a b : note) (sa sb : side) (sr ar batch m : Z) (pool chain deadline : string) : input :=
  ([("stateRoot", num sr); ("associationRoot", num ar); ("batchHash", num batch); ("poolId", JStr pool); ("chainId", JStr chain);
    ("matchedAmount7dp", num m); ("deadlineLedger", JStr deadline); ("assetId", num (na a))] ++ settle_side "A" a sa m ++ settle_side "B" b sb m)%list.

Lemma bsig_text (i : input) k z : jget k i = Some (num z) -> bsig i k = rmod z.
Proof. unfold bsig. intros ->. cbn. by rewrite BigInt_toString. Qed.

Lemma remainder_bits v m : u64 v -> u64 m -> Num2Bits 128 (rmod (v - m)) = (m <=? v).
Proof.
  unfold u64. intros Hv Hm. apply eq_true_iff_eq. rewrite bits_bls by (lia || apply rmod_range). rewrite Z.leb_le. unfold rmod, BLS12_381_R. split.
  - intros H. destruct (Z.le_gt_cases m v) as [|Hgt]; [done|]. exfalso.
    rewrite <- (Z.mod_add _ 1), Z.mod_small in H by lia. lia.
  - intros H. rewrite Z.mod_small; lia.
Qed.

Lemma settlement_satisfies a b sa sb sr ar batch m pool chain deadline :
  let i := settlement_witness a b sa sb sr ar batch m pool chain deadline in
  note_ok a -> note_ok b -> u64 (nv a) -> u64 (nv b) -> u64 m -> in_bls sr -> in_bls ar -> side_ok a sa sr ar -> side_ok b sb sr ar -> na a = na b ->
  MpcSettlement i = (m <=? nv a) && (m <=? nv b).
Proof.
  intros i (X1 & X2 & X3 & X4 & X5) (Y1 & Y2 & Y3 & Y4 & Y5) Va Vb Vm Rs Ra (P1 & P2 & P3 & P4 & P5 & P6 & P7 & P8)
    (Q1 & Q2 & Q3 & Q4 & Q5 & Q6 & Q7 & Q8) Hab.
  unfold MpcSettlement. change (has_signals i settlement_signals) with true. cbn [andb].
  assert (forall k z, jget k i = Some (num z) -> in_bls z -> bsig i k = z) as S by (intros; by apply bsig_num).
  assert (side_member i "A" "assetId" "valueA" = true) as ->.
  { unfold side_member. rewrite (S "assetId" (na a)), (S "valueA" (nv a)), (S ("label" +:+ "A") (nl a)), (S ("nullifier" +:+ "A") (nn a)),
      (S ("secret" +:+ "A") (ns a)) by (reflexivity || assumption). change (commitment_of _ _ _ _ _) with (commit a).
    rewrite (bmember_num i 12 (commit a) (s_idx sa) _ _ _ (s_sibs sa) sr), (bmember_num i 2 (nl a) (s_lidx sa) _ _ _ (s_lsibs sa) ar)
      by (reflexivity || assumption || lia). done. }
  assert (side_member i "B" "assetId" "valueB" = true) as ->.
  { unfold side_member. rewrite (S "assetId" (na a)), Hab, (S "valueB" (nv b)), (S ("label" +:+ "B") (nl b)), (S ("nullifier" +:+ "B") (nn b)),
      (S ("secret" +:+ "B") (ns b)) by (reflexivity || assumption). change (commitment_of _ _ _ _ _) with (commit b).
    rewrite (bmember_num i 12 (commit b) (s_idx sb) _ _ _ (s_sibs sb) sr), (bmember_num i 2 (nl b) (s_lidx sb) _ _ _ (s_lsibs sb) ar)
      by (reflexivity || assumption || lia). done. }
  rewrite (S "valueA" (nv a)), (S "valueB" (nv b)), (S "matchedAmount7dp" m), (S "outValueA" m), (S "outValueB" m)
    by (reflexivity || assumption || by apply u64_bls).
  rewrite !remainder_bits by done. replace (m * 2) with (m + m) by lia. rewrite Z.eqb_refl. cbn [andb]. by rewrite andb_true_r.
Qed.

Variable env : string -> option string.
Variable cwd : string.
Variable tool : string -> list string -> gmap string string -> gmap string string * result string.
Context {WT : WithdrawTool (COINUTILS_BIN env cwd) tool}.

Definition settle_file (p : MpcSettlementParams) (s : string) : string := scratch p +:+ "/" +:+ tag p +:+ s.
Definition settle_scratch (p : MpcSettlementParams) : list string :=
  [settle_file p "_mpc_state.json"; settle_file p "_mpc_coinA_withdraw.json"; settle_file p "_mpc_coinB_withdraw.json"].

(** Two notes of the pool with approved labels, matched for an amount. *)
Record matching (w : World) (p : MpcSettlementParams) (a b : note) (m : Z) : Prop := {
  a_coin : exists t, files w !! path (coinA p) = Some t /\ coin_text a t;
  b_coin : exists t, files w !! path (coinB p) = Some t /\ coin_text b t;
  a_asset : assetIdField (coinA p) = Some (num (na a)); b_asset : assetIdField (coinB p) = Some (num (na b));
  a_note : note_ok a; b_note : note_ok b;
  m_pool : exists cs, commitmentsDecimal p = map toString cs /\ Forall in_bls cs /\ (length cs <= 2 ^ 12)%nat /\ commit a ∈ cs /\ commit b ∈ cs;
  m_labels : exists t, files w !! assocPath p = Some t /\ approved t (nl a) /\ approved t (nl b);
  m_batch : exists h, batchHashHex p = "0x" +:+ hex_encode h /\ String.length h = 32%nat;
  m_text : matchedAmount7dp p = toString m; a_small : u64 (nv a); b_small : u64 (nv b); m_small : u64 m;
  a_apart : path (coinA p) ∉ settle_scratch p; b_apart : path (coinB p) ∉ settle_scratch p; m_apart : assocPath p ∉ settle_scratch p
}.

Lemma settle_scratch_nodup p : NoDup (settle_scratch p).
Proof.
  assert (forall s t, settle_file p s = settle_file p t -> s = t) as Hi by (intros s t H; by repeat apply sapp_inj_l in H).
  unfold settle_scratch. rewrite !list.NoDup_cons, !not_elem_of_cons.
  split_and!; try apply not_elem_of_nil; try constructor; by intros ?%Hi.
Qed.

Lemma readCoinPreimage_runs coin w o t : files w !! path coin = Some t -> coin_text o t ->
  readCoinPreimage coin w = (w, Ok (op_pre (opened o))).
Proof.
  intros Hf (raw & l & Hp & Hc & H1 & H2 & H3 & H4 & H5). unfold readCoinPreimage, readJson. cbv [bindM lift ret]. rewrite Hf. unfold parse_json. rewrite Hp.
  destruct raw; try done. cbn [get prop] in *. rewrite Hc. cbn [get prop]. by rewrite H1, H2, H3, H4.
Qed.

(** A note preimage with these parts. *)
Definition preimage (m : string) (sd : side) : NotePreimage :=
  {| np_value := txt m; np_label := Some (num (s_ol sd)); np_nullifier := Some (num (s_on sd)); np_secret := Some (num (s_os sd)) |}.

End Settlement.

(** C19: the settlement builder against its circuit.  For two notes of the pool
    with approved labels it returns a witness exactly when both coins name the
    same asset; the circuit accepts it exactly when the matched amount is at most
    each note's value, both output notes carry the matched amount, and the
    returned preimages are the openings of the circuit's two output commitments. *)
Theorem settlement_witness_exact {HP : Poseidon} {CL : Circomlib} {CB : CircomlibBls CL} env cwd tool rand
    {WT : WithdrawTool (COINUTILS_BIN env cwd) tool} (w : World) (p : MpcSettlementParams) (a b : note) (m : Z) :
  matching env cwd tool w p a b m -> (forall n, rand n <> "") ->
  match (buildMpcSettlementWitness env cwd tool rand p w).2 with
  | Ok (obj, outA, outB) => na a = na b /\ MpcSettlement obj = (m <=? nv a) && (m <=? nv b) /\
      exists sa sb, outA = preimage (toString m) sa /\ outB = preimage (toString m) sb /\
        output_commitment obj "A" = commitment_of (na a) m (rmod (s_ol sa)) (rmod (s_on sa)) (rmod (s_os sa)) /\
        output_commitment obj "B" = commitment_of (na a) m (rmod (s_ol sb)) (rmod (s_on sb)) (rmod (s_os sb))
  | Err _ => na a <> na b
  end.
Proof.
  intros [(tx & Fx & Cx) (ty & Fy & Cy) Sa Sb Nx Ny (cs & Ecs & Bcs & Lcs & Mx & My) (ta & Fa & Px & Py) (h & Eh & Lh) Em Ux Uy Um Ax Ay Aa] Hr.
  unfold buildMpcSettlementWitness. cbv [bindM lift ret]. rewrite Ecs, Sa, Sb.
  destruct (both_paths_runs env cwd tool cs (scope p) "1" (settle_file p "_mpc_state.json") (assocPath p) (path (coinA p))
    (settle_file p "_mpc_coinA_withdraw.json") (path (coinB p)) (settle_file p "_mpc_coinB_withdraw.json") w a b tx ty ta) as (w1 & wA & wB & E1 & QX & QY & Ag & _);
    [apply settle_scratch_nodup|done..|]. unfold settle_file in E1. rewrite E1. clear E1.
  assert (truthy_opt (Some (num (na a))) = true) as ->.
  { cbn. destruct (toString_starts (na a)) as (c & t & E & _). by rewrite E. }
  cbn [negb orb strict_eq num]. destruct (String.eqb_spec (toString (na a)) (toString (na b))) as [E|E]; cbn [negb]; [|cbn; congruence].
  apply toString_inj in E.
  rewrite (readCoinPreimage_runs (coinA p) w1 a tx) by (rewrite ?(Ag _ Ax); done). rewrite (readCoinPreimage_runs (coinB p) w1 b ty) by (rewrite ?(Ag _ Ay); done).
  destruct (freshPreimage_runs rand (matchedAmount7dp p) w1 Hr) as (w2 & la & na' & sa' & F1 & _).
  destruct (freshPreimage_runs rand (matchedAmount7dp p) w2 Hr) as (w3 & lb & nb' & sb' & F2 & _).
  destruct (paths_side a _ _ _ la na' sa' QX) as (sa & Qa & <- & <- & <- & R1 & R2 & _ & X1 & X2 & X3 & X4).
  destruct (paths_side b _ _ _ lb nb' sb' QY) as (sb & Qb & <- & <- & <- & _ & _ & R3 & Y1 & Y2 & Y3 & Y4).
  rewrite F1, F2, R1, R2, Eh, hashToField_hex, R3 by done. cbn [snd]. split; [done|].
  unfold side_input, side_paths. rewrite X1, X2, X3, X4, Y1, Y2, Y3, Y4, Em.
  set (i := fields _). change i with (settlement_witness a b sa sb (state_root (state_text (map toString cs) (scope p))) (assoc_root ta) (be (bytes_take 31 h)) m (s_poolId p) (s_chainId p) (s_deadlineLedger p)).
  split; [by apply settlement_satisfies; (done || apply state_root_range || apply assoc_root_range)|].
  exists sa, sb. split_and!; [done|done|..].
  all: unfold output_commitment; erewrite !(bsig_text (settlement_witness _ _ _ _ _ _ _ _ _ _ _)) by reflexivity;
    rewrite (rmod_id (na a)) by apply Nx; by rewrite (rmod_id m) by by apply u64_bls.
Qed.

(** ** A concrete [coinutils withdraw] *)

#[local] Existing Instance blsPoseidon.
#[local] Existing Instance exactCircomlib.
#[local] Existing Instance exactCircomlib_bls.

Definition toy_field (k : string) (l : list (string * json)) : Z := default 0 (jget k l ≫= BigInt_json).
Definition toy_note (t : string) : note :=
  match JSON_parse t ≫= prop "coin" with
  | Some (JObj l) => {| nv := toy_field "value" l; nl := toy_field "label" l; nn := toy_field "nullifier" l; ns := toy_field "secret" l; na := toy_field "asset_id" l |}
  | _ => {| nv := 0; nl := 0; nn := 0; ns := 0; na := 0 |}
  end.

Fixpoint position (z : Z) (l : list Z) : nat := match l with [] => O | y :: l => if z =? y then O else S (position z l) end.

Definition padded_root (d : nat) (t : string) : Z := rmod (node (leaf_fn (parse_leaves t)) d 0).
Definition siblings_of (d : nat) (t : string) (z : Z) : list Z := Merkle.path (leaf_fn (parse_leaves t)) 0 (position z (parse_leaves t)) d.

Definition toy_paths (o : note) (st assoc : string) : json :=
  JObj [("stateRoot", num (padded_root 12 st)); ("associationRoot", num (padded_root 2 assoc));
        ("stateIndex", num (Z.of_nat (position (commit o) (parse_leaves st)))); ("stateSiblings", nums (siblings_of 12 st (commit o)));
        ("labelIndex", num (Z.of_nat (position (nl o) (parse_leaves assoc)))); ("labelSiblings", nums (siblings_of 2 assoc (nl o)))].

Definition toy_withdraw (bin : string) (args : list string) (fs : gmap string string) : gmap string string * result string :=
  match args with
  | _ :: c :: st :: assoc :: _ :: out :: _ =>
      match fs !! c, fs !! st, fs !! assoc with
      | Some tc, Some ts, Some ta => ({[out := stringify (toy_paths (toy_note tc) ts ta)]}, Ok "")
      | _, _, _ => (∅, Err "no such file")
      end
  | _ => (∅, Err "usage")
  end.

Lemma toy_note_eq o t : coin_text o t -> toy_note t = o.
Proof.
  intros (raw & l & Hp & Hc & H1 & H2 & H3 & H4 & H5). unfold toy_note. rewrite Hp. cbn [mbind option_bind]. rewrite Hc.
  unfold toy_field. rewrite H1, H2, H3, H4, H5. unfold num. cbn [mbind option_bind BigInt_json]. rewrite !BigInt_toString. by destruct o.
Qed.

Lemma position_spec z l : z ∈ l -> l !! position z l = Some z.
Proof.
  induction l as [|y l IH]; [by intros ?%not_elem_of_nil|]. cbn [position]. destruct (Z.eqb_spec z y) as [->|]; [done|].
  intros [->|H]%elem_of_cons; [done|by apply IH].
Qed.

Lemma toy_has_path d z zs ki ks sc l : Forall in_bls zs -> (length zs <= 2 ^ d)%nat -> z ∈ zs ->
  let t := state_text (map toString zs) sc in
  jget ki l = Some (num (Z.of_nat (position z (parse_leaves t)))) -> jget ks l = Some (nums (siblings_of d t z)) ->
  has_path d z (padded_root d t) ki ks l.
Proof.
  intros Hz Hl Hin%position_spec t. unfold t, siblings_of, padded_root, has_path. rewrite parse_state. intros Hi Hs.
  apply lookup_lt_Some in Hin as Hlt. eexists _, _. split_and!; [exact Hi|exact Hs|lia|apply path_length|apply path_bls; intros; by apply leaf_bls|].
  assert (z = node (leaf_fn zs) 0 (position z zs)) as Ez by (cbn; unfold leaf_fn; by rewrite Hin).
  rewrite Ez at 1. rewrite circuit_path_spec. rewrite rmod_id by (apply node_bls; intros; by apply leaf_bls). f_equal. apply Nat.div_small. lia.
Qed.

Definition toy_approved (t : string) (z : Z) : Prop :=
  exists zs sc, t = state_text (map toString zs) sc /\ Forall in_bls zs /\ (length zs <= 2 ^ 2)%nat /\ z ∈ zs.

#[local, refine] Instance toy_withdraw_tool : WithdrawTool (COINUTILS_BIN no_env "/shade") toy_withdraw :=
  {| state_root := padded_root 12; assoc_root := padded_root 2; approved := toy_approved |}.
Proof.
  - intros. apply rmod_range.
  - intros. apply rmod_range.
  - intros fs c st assoc out args o t cs scope ta Fc Hc Ho Fs Bs Ls Ms Fa (zs & sc & -> & Bz & Lz & Mz).
    unfold toy_withdraw. cbn [app]. rewrite Fc, Fs, Fa, (toy_note_eq _ _ Hc). eexists _, _, _. split; [reflexivity|]. split.
    + apply JSON_parse_stringify. cbn [json_wf toy_paths]. split; [repeat (constructor; [set_solver|]); constructor|].
      split_and!; (done || apply nums_wf).
    + eexists. split; [reflexivity|]. split; [done|]. split; [done|]. split; by eapply toy_has_path.
Defined.

Definition coin_file (o : note) : string :=
  stringify (JObj [("coin", JObj [("value", num (nv o)); ("label", num (nl o)); ("nullifier", num (nn o)); ("secret", num (ns o)); ("asset_id", num (na o))])]).

Definition note_x : note := {| nv := 50000000; nl := 7; nn := 11; ns := 12; na := 1 |}.
Definition note_y : note := {| nv := 100000000; nl := 42; nn := 21; ns := 22; na := 2 |}.
Definition toy_coin (p : string) : GeneratedCoin := {| path := p; commitmentHex := None; commitmentDecimal := None; value7dp := None; assetIdField := None |}.

Definition toy_files : gmap string string :=
  {["/x.json" := coin_file note_x; "/y.json" := coin_file note_y; "/assoc.json" := state_text (map toString [7; 42]) "asp"]}.
Definition toy_pool_world : World := {| files := toy_files; log := []; drawn := 0; scratchEnsured := false |}.
Definition toy_priced : PricedParams :=
  {| coinX := toy_coin "/x.json"; coinY := toy_coin "/y.json"; pr_commitments := map toString [commit note_x; commit note_y];
     pr_assocPath := "/assoc.json"; pr_scope := "pool"; pr_batchHashHex := "0x" +:+ hex_encode (pad32 32 "batch"); pr_poolId := "1"; pr_chainId := "27";
     priceScaled := toString 2000000000; minOutputA := toString 0; minOutputB := toString 1; pr_deadlineLedger := "0"; pr_scratch := "/tmp"; pr_tag := "t" |}.

Lemma coin_file_text o : coin_text o (coin_file o).
Proof.
  eexists _, _. split; [apply JSON_parse_stringify|split; [reflexivity|by split_and!]].
  cbn. split; [repeat (constructor; [set_solver|]); constructor|]. split; [|done]. split; [repeat (constructor; [set_solver|]); constructor|by split_and!].
Qed.

Lemma toy_crossing : crossing no_env "/shade" toy_withdraw toy_pool_world toy_priced note_x note_y 2000000000 0 1.
Proof.
  split; try done.
  - eexists. split; [reflexivity|apply coin_file_text].
  - eexists. split; [reflexivity|apply coin_file_text].
  - exists [commit note_x; commit note_y]. split_and!; [done|repeat constructor; apply rmod_range|cbn; lia|left|right; left].
  - eexists. split; [reflexivity|]. split; exists [7; 42], "asp"; split_and!; (done || (repeat constructor; done) || (cbn; lia) || set_solver).
  - by eexists.
  - by apply (bool_decide_unpack _).
  - by apply (bool_decide_unpack _).
  - by apply (bool_decide_unpack _).
Qed.

Lemma priced_witness_exact_witness :
  match (buildMpcPricedWitness no_env "/shade" toy_withdraw (fun _ => "r") toy_priced toy_pool_world).2 with
  | Ok obj => matches_price note_x note_y 2000000000 /\ MpcPricedSettlement obj = (0 <=? nv note_y) && (1 <=? nv note_x)
  | Err _ => ~ matches_price note_x note_y 2000000000
  end.
Proof. apply (priced_witness_exact no_env "/shade" toy_withdraw (fun _ => "r") toy_pool_world toy_priced note_x note_y 2000000000 0 1); [apply toy_crossing|done]. Defined.

Definition note_b : note := {| nv := 80000000; nl := 42; nn := 21; ns := 22; na := 1 |}.
Definition asset_coin (p : string) (o : note) : GeneratedCoin :=
  {| path := p; commitmentHex := None; commitmentDecimal := None; value7dp := None; assetIdField := Some (num (na o)) |}.
Definition toy_match_world : World :=
  {| files := {["/a.json" := coin_file note_x; "/b.json" := coin_file note_b; "/assoc.json" := state_text (map toString [7; 42]) "asp"]};
     log := []; drawn := 0; scratchEnsured := false |}.
Definition toy_match : MpcSettlementParams :=
  {| coinA := asset_coin "/a.json" note_x; coinB := asset_coin "/b.json" note_b; commitmentsDecimal := map toString [commit note_x; commit note_b];
     assocPath := "/assoc.json"; scope := "pool"; batchHashHex := "0x" +:+ hex_encode (pad32 32 "batch"); s_poolId := "1"; s_chainId := "27";
     matchedAmount7dp := toString 50000000; s_deadlineLedger := "0"; scratch := "/tmp"; tag := "t" |}.

Lemma toy_matching : matching no_env "/shade" toy_withdraw toy_match_world toy_match note_x note_b 50000000.
Proof.
  split; try done.
  - eexists. split; [reflexivity|apply coin_file_text].
  - eexists. split; [reflexivity|apply coin_file_text].
  - exists [commit note_x; commit note_b]. split_and!; [done|repeat constructor; apply rmod_range|cbn; lia|left|right; left].
  - eexists. split; [reflexivity|]. split; exists [7; 42], "asp"; split_and!; (done || (repeat constructor; done) || (cbn; lia) || set_solver).
  - by eexists.
  - by apply (bool_decide_unpack _).
  - by apply (bool_decide_unpack _).
  - by apply (bool_decide_unpack _).
Qed.

Lemma settlement_witness_exact_witness :
  match (buildMpcSettlementWitness no_env "/shade" toy_withdraw (fun _ => "r") toy_match toy_match_world).2 with
  | Ok (obj, outA, outB) => na note_x = na note_b /\ MpcSettlement obj = (50000000 <=? nv note_x) && (50000000 <=? nv note_b) /\
      exists sa sb, outA = preimage (toString 50000000) sa /\ outB = preimage (toString 50000000) sb /\
        output_commitment obj "A" = commitment_of (na note_x) 50000000 (rmod (s_ol sa)) (rmod (s_on sa)) (rmod (s_os sa)) /\
        output_commitment obj "B" = commitment_of (na note_x) 50000000 (rmod (s_ol sb)) (rmod (s_on sb)) (rmod (s_os sb))
  | Err _ => na note_x <> na note_b
  end.
Proof. apply (settlement_witness_exact no_env "/shade" toy_withdraw (fun _ => "r") toy_match_world toy_match note_x note_b 50000000); [apply toy_matching|done]. Defined.

End StellarMatch.
