(* ===== verification/Arc.v ===== *)
(** Contract calls on Arc (packages/arc-actions/src/index.ts, cctp-arc.ts):
    unsigned transactions for the user's wallet, transactions a service wallet
    signs with their retries, and channel receipts read from the chain.

    ethers answers through functions of the calls made so far; [Err m] of an
    answer is an error with message [m], and [String_of m] the text [String(e)]
    of that error.  The four requests that [buildUnsignedTx] makes at once are
    made in their order. *)

From S2P Require Import Prelude Effects Text Json Stellar Receipts.
Local Open Scope string_scope.
Local Open Scope Z_scope.

Module Arc.

Record Network := { rpcUrl : string; chainId : option Z }.

Inductive Call :=
| View (contract method : string) (args : list json)
| Submit (wallet contract method : string) (args : list json)
| WaitReceipt (hash : string) (confirmations : Z)
| Delay (ms : Z)
| GetTransactionCount (from : string)
| GetFeeData
| EstimateGas (from to data : string) (value : option Z)
| GetNetwork
| BroadcastTransaction (raw : string)
| QueryFilter (contract event : string) (id fromBlock : Z).

Definition M : Type -> Type := SE (list Call).

Record ArcInvokeResult := { hash : string; returnValue : option json }.

Record InvokeOpts := {
  contractAddress : string; method : string; args : list json; wallet : option string; readOnly : bool; retries : option nat }.

(** A receipt's status, when it has one. *)
Record Receipt := { status : option Z }.
Record FeeData := { maxFeePerGas : option Z; maxPriorityFeePerGas : option Z }.
Record Log := { log_args : list Z; transactionHash : string }.

(** The values of a transaction request. *)
Inductive TxValue := VStr (s : string) | VBig (z : Z) | VNum (z : Z) | VUndefined.
Definition TransactionRequest := list (string * TxValue).

(** [/nonce|NONCE|rate limit|429|timeout|TIMEOUT|replacement/i.test(message)] *)
Definition retryable (message : string) : bool :=
  existsb (fun w => includes w (toLowerCase message)) ["nonce"; "rate limit"; "429"; "timeout"; "replacement"].

Section Arc.
Variable String_of : string -> string.
Variable view : list Call -> Call -> result json.
Variable submit : list Call -> Call -> result string.                      (** the hash of the sent transaction *)
Variable receipt : list Call -> Call -> result (option Receipt).

Definition ask {A} (f : list Call -> Call -> result A) (c : Call) : M A := fun h => ((h ++ [c])%list, f h c).
Definition delay (ms : Z) : M unit := fun h => ((h ++ [Delay ms])%list, Ok tt).

(** ** A service wallet's transactions *)

Definition status_text (r : option Receipt) : string :=
  match r with Some r => match status r with Some z => toString z | None => "null" end | None => "undefined" end.

Definition send_once (w : string) (o : InvokeOpts) : M string :=
  run! tx := ask submit (Submit w (contractAddress o) (method o) (args o)) in
  run! r := ask receipt (WaitReceipt tx 1) in
  if bool_decide (match r with Some r => status r | None => None end = Some 1) then ret tx
  else throw ("tx " +:+ tx +:+ " reverted (status " +:+ status_text r +:+ ")").

Definition gave_up (o : InvokeOpts) (total : nat) (last : string) : string :=
  "arcInvoke " +:+ method o +:+ " failed after " +:+ toString (Z.of_nat total) +:+ " attempts: " +:+ last.

(** The attempts [attempt], ..., [total]; [remaining] of them are left. *)
Fixpoint attempts (remaining attempt total : nat) (w : string) (o : InvokeOpts) : M ArcInvokeResult :=
  match remaining with
  | O => throw (gave_up o total "undefined")
  | S remaining => fun h =>
      match send_once w o h with
      | (h, Ok tx) => (h, Ok {| hash := tx; returnValue := None |})
      | (h, Err message) =>
          if negb (retryable message) || Nat.eqb attempt total then (h, Err (gave_up o total (String_of message)))
          else (run! _ := delay (2000 * Z.of_nat attempt) in attempts remaining (S attempt) total w o) h
      end
  end.

Definition arcInvoke (o : InvokeOpts) : M ArcInvokeResult :=
  if readOnly o then
    run! v := ask view (View (contractAddress o) (method o) (args o)) in ret {| hash := ""; returnValue := Some v |}
  else
    match wallet o with
    | None => throw "arcInvoke: wallet is required unless readOnly"
    | Some w => let n := default 4%nat (retries o) in attempts n 1 n w o
    end.

(** ** Transactions for the user's wallet *)

Variable encodeFunctionData : string -> list json -> result string.
Variable getTransactionCount : list Call -> Call -> result Z.
Variable getFeeData : list Call -> Call -> result FeeData.
Variable estimateGas : list Call -> Call -> result Z.
Variable getNetwork : list Call -> Call -> result Z.

Definition or_undefined (o : option Z) : TxValue := match o with Some z => VBig z | None => VUndefined end.

Definition buildUnsignedTx (from contractAddress method : string) (params : list json) (value : option Z) : M TransactionRequest :=
  run! data := lift (encodeFunctionData method params) in
  run! nonce := ask getTransactionCount (GetTransactionCount from) in
  run! feeData := ask getFeeData GetFeeData in
  run! gasLimit := ask estimateGas (EstimateGas from contractAddress data value) in
  run! chain := ask getNetwork GetNetwork in
  ret [("from", VStr from); ("to", VStr contractAddress); ("data", VStr data); ("value", VBig (default 0 value)); ("nonce", VNum nonce);
       ("gasLimit", VBig (Z.quot (gasLimit * 120) 100)); ("maxFeePerGas", or_undefined (maxFeePerGas feeData));
       ("maxPriorityFeePerGas", or_undefined (maxPriorityFeePerGas feeData)); ("chainId", VBig chain); ("type", VNum 2)].

Definition serializeUnsignedTx (tx : TransactionRequest) : TransactionRequest :=
  map (fun kv => (kv.1, match kv.2 with VBig z => VStr (toString z) | v => v end)) tx.

Definition broadcastSignedTx (signedRawTx : string) (confirmations : Z) : M (string * string) :=
  run! tx := ask submit (BroadcastTransaction signedRawTx) in
  run! r := ask receipt (WaitReceipt tx confirmations) in
  match r with
  | None => throw ("tx " +:+ tx +:+ " did not confirm")
  | Some r => ret (tx, if bool_decide (status r = Some 1) then "SUCCESS" else "FAILED")
  end.

(** ** Channel receipts *)

Variable queryFilter : list Call -> Call -> result (list Log).

(** [BigInt(a[i])] *)
Definition arg (a : list Z) (i : nat) : result Z :=
  match a !! i with Some z => Ok z | None => Err "Cannot convert undefined to a BigInt" end.

Definition opened_event (e : Log) : result Receipts.ChannelEvent :=
  let a := log_args e in
  let! i := arg a 0 in let! c := arg a 1 in let! x := arg a 2 in let! cc := arg a 3 in
  Ok (Receipts.Opened {| Receipts.o_channelId := i; Receipts.o_cap := c; Receipts.o_expiry := x; Receipts.o_changeCommitment := cc;
                         Receipts.o_txHash := transactionHash e |}).
Definition settled_event (e : Log) : result Receipts.ChannelEvent :=
  let a := log_args e in
  let! i := arg a 0 in let! c := arg a 1 in let! p := arg a 2 in let! r := arg a 3 in
  Ok (Receipts.Settled {| Receipts.s_channelId := i; Receipts.s_cumulative := c; Receipts.s_payeeCommitment := p; Receipts.s_refundCommitment := r;
                          Receipts.s_txHash := transactionHash e |}).
Definition reclaimed_event (e : Log) : result Receipts.ChannelEvent :=
  let a := log_args e in
  let! i := arg a 0 in let! c := arg a 1 in let! r := arg a 2 in
  Ok (Receipts.Reclaimed {| Receipts.r_channelId := i; Receipts.r_cap := c; Receipts.r_reclaimCommitment := r; Receipts.r_txHash := transactionHash e |}).

Definition fetchChannelReceipt (escrowAddress : string) (channelId fromBlock : Z) : M Receipts.StreamReceipt :=
  run! opened := ask queryFilter (QueryFilter escrowAddress "ChannelOpened" channelId fromBlock) in
  run! settled := ask queryFilter (QueryFilter escrowAddress "ChannelSettled" channelId fromBlock) in
  run! reclaimed := ask queryFilter (QueryFilter escrowAddress "ChannelReclaimed" channelId fromBlock) in
  lift (let! os := rmap opened_event opened in
        let! ss := rmap settled_event settled in
        let! rs := rmap reclaimed_event reclaimed in
        Receipts.reconstructChannelReceipt channelId (os ++ ss ++ rs)%list).

End Arc.

(** ** The CCTP route into Arc *)

Record CctpSourceChain := { name : string; domain : Z; source_rpcUrl : string }.

Definition CCTP_DOMAINS : list (string * Z) := [("ethereumSepolia", 0); ("arbitrumSepolia", 3); ("baseSepolia", 6); ("arcTestnet", 26)].
Definition tokenMessenger : string := "0x8FE6B999Dc680CcFDD5Bf7EB0974218be2542DAA".
Definition messageTransmitter : string := "0xE737e5cEBEEBa77EFE34D4aa090756590b1CE275".
Definition CCTP_ATTESTATION_API : string := "https://iris-api-sandbox.circle.com".
Definition CCTP_SOURCES : list (string * CctpSourceChain) :=
  [("baseSepolia", {| name := "Base Sepolia"; domain := 6; source_rpcUrl := "https://sepolia.base.org" |});
   ("arbitrumSepolia", {| name := "Arbitrum Sepolia"; domain := 3; source_rpcUrl := "https://sepolia-rollup.arbitrum.io/rpc" |});
   ("ethereumSepolia", {| name := "Ethereum Sepolia"; domain := 0; source_rpcUrl := "https://ethereum-sepolia-rpc.publicnode.com" |})].

Record InboundRoute := { from : string; to : string; sourceDomain : Z; destinationDomain : Z; token_messenger : string; message_transmitter : string; attestationApi : string }.

Definition describeInboundRoute (sourceKey : string) : result InboundRoute :=
  match jget sourceKey CCTP_SOURCES with
  | Some src => Ok {| from := name src; to := "Arc Testnet"; sourceDomain := domain src; destinationDomain := 26;
                      token_messenger := tokenMessenger; message_transmitter := messageTransmitter; attestationApi := CCTP_ATTESTATION_API |}
  | None => Err "TypeError: Cannot read properties of undefined (reading 'name')"
  end.

(** ** Submissions *)

Definition submits (l : list Call) : nat := length (List.filter (fun c => match c with Submit _ _ _ _ => true | _ => false end) l).
Definition confirmed (r : result (option Receipt)) : Prop := r = Ok (Some {| status := Some 1 |}).

Lemma submits_app a b : submits (a ++ b) = (submits a + submits b)%nat.
Proof. unfold submits. by rewrite List.filter_app, length_app. Qed.

(** After a confirmed receipt the calls end. *)
Definition ends_confirmed (rc : list Call -> Call -> result (option Receipt)) (h calls : list Call) : Prop :=
  forall before tx n after, calls = (before ++ WaitReceipt tx n :: after)%list -> confirmed (rc (h ++ before)%list (WaitReceipt tx n)) -> after = [].

Lemma send_once_spec sb rc w o h :
  exists calls, (send_once sb rc w o h).1 = (h ++ calls)%list /\ submits calls = 1%nat /\ ends_confirmed rc h calls /\
    (forall e, (send_once sb rc w o h).2 = Err e ->
       forall before tx n after, calls = (before ++ WaitReceipt tx n :: after)%list -> ~ confirmed (rc (h ++ before)%list (WaitReceipt tx n))) /\
    (forall tx, (send_once sb rc w o h).2 = Ok tx -> exists s, calls = [s; WaitReceipt tx 1] /\ confirmed (rc (h ++ [s])%list (WaitReceipt tx 1))).
Proof.
  unfold send_once, bindM at 1 3 5, ask at 1 3 5. set (s := Submit w _ _ _). destruct (sb h s) as [tx|e].
  2:{ exists [s]. split_and!; [done|done| | |done]; [intros [|b []] ??? E; try done|intros e' _ [|b []] ??? E; done]. }
  unfold bindM, ask. exists [s; WaitReceipt tx 1]. rewrite <- app_assoc. cbn [app].
  assert (forall before tx' n after, [s; WaitReceipt tx 1] = (before ++ WaitReceipt tx' n :: after)%list -> before = [s] /\ tx' = tx /\ n = 1 /\ after = []) as Hinv.
  { intros [|b [|b' before]] tx' n after E; try done; [by injection E as <- <- <- <-|]. injection E as _ _ E. by destruct before. }
  destruct (rc (h ++ [s])%list (WaitReceipt tx 1)) as [r|e] eqn:Er.
  - case_bool_decide as Hst; cbn [fst snd ret throw].
    + split_and!; [done|done|by intros ???? (_ & _ & _ & ?)%Hinv|done|]. intros tx' [= <-]. exists s. split; [done|]. unfold confirmed. rewrite Er.
      destruct r as [[st]|]; cbn in Hst; [by subst st|done].
    + split_and!; [done|done|by intros ???? (_ & _ & _ & ?)%Hinv| |done]. intros e' _ before tx' n after (-> & -> & -> & _)%Hinv. unfold confirmed. rewrite Er.
      intros [= ->]. by apply Hst.
  - cbn [fst snd]. split_and!; [done|done|by intros ???? (_ & _ & _ & ?)%Hinv| |done]. intros e' _ before tx' n after (-> & -> & -> & _)%Hinv. unfold confirmed. by rewrite Er.
Qed.

Lemma attempts_spec Str sb rc remaining attempt total w o h :
  exists calls, (attempts Str sb rc remaining attempt total w o h).1 = (h ++ calls)%list /\ (submits calls <= remaining)%nat /\ ends_confirmed rc h calls /\
    forall r, (attempts Str sb rc remaining attempt total w o h).2 = Ok r ->
      exists before, calls = (before ++ [WaitReceipt (hash r) 1])%list /\ confirmed (rc (h ++ before)%list (WaitReceipt (hash r) 1)).
Proof.
  revert attempt h. induction remaining as [|n IH]; intros attempt h; cbn [attempts].
  { exists []. rewrite app_nil_r. split_and!; [done|done|by intros []|done]. }
  destruct (send_once_spec sb rc w o h) as (calls & E & Hn & Hend & Herr & Hok). destruct (send_once sb rc w o h) as [h1 [tx|e]]; cbn [fst snd] in *; subst h1.
  - exists calls. destruct (Hok tx eq_refl) as (s & -> & Hc). split_and!; [done|lia|done|]. intros r [= <-]. by exists [s].
  - destruct (_ || _); [exists calls; by split_and!; [|lia| |]|]. unfold bindM, delay. set (d := Delay _).
    destruct (IH (S attempt) ((h ++ calls) ++ [d])%list) as (rest & E2 & Hn2 & Hend2 & Hok2). rewrite E2. exists (calls ++ d :: rest)%list. rewrite <- !app_assoc. split_and!.
    + done.
    + rewrite submits_app. change (submits (d :: rest)) with (submits rest). lia.
    + intros before tx k after Eq Hc. destruct (app_eq_app _ _ _ _ Eq) as [l [[E1 E3]|[E1 E3]]].
      * destruct l as [|x l]; [done|]. injection E3 as <- _. exfalso. by eapply (Herr e eq_refl); [exact E1|].
      * subst before. destruct l as [|x l]; [done|]. injection E3 as <- E3. rewrite <- !app_assoc in Hend2. apply (Hend2 l tx k after E3). revert Hc. by rewrite <- !app_assoc.
    + intros r Hr. destruct (Hok2 r) as (before & -> & Hc); [by rewrite <- !app_assoc|]. exists (calls ++ d :: before)%list. rewrite <- !app_assoc in Hc. split; [by rewrite <- app_assoc|done].
Qed.

(** [arcInvoke] submits a service wallet's transaction at most [retries]
    times and never again once a receipt confirmed one; it returns a hash only if
    the last thing it saw is the confirmed receipt of that hash. *)
Theorem arc_invoke_stops_when_confirmed Str vw sb rc o h : readOnly o = false ->
  exists calls, (arcInvoke Str vw sb rc o h).1 = (h ++ calls)%list /\ (submits calls <= default 4 (retries o))%nat /\ ends_confirmed rc h calls /\
    forall r, (arcInvoke Str vw sb rc o h).2 = Ok r ->
      exists before, calls = (before ++ [WaitReceipt (hash r) 1])%list /\ confirmed (rc (h ++ before)%list (WaitReceipt (hash r) 1)).
Proof.
  intros Hro. unfold arcInvoke. rewrite Hro. destruct (wallet o) as [w|]; [apply attempts_spec|].
  exists []. rewrite app_nil_r. split_and!; [done|cbn; lia|by intros []|done].
Qed.

(** ** Unsigned transactions *)

(** The transaction prepared for a user's wallet can be sent as JSON: no
    bigint is left, each one comes back from its text, and the gas limit has up to
    twenty percent above the estimate. *)
Theorem unsigned_tx_serializes enc gc gf ge gn from ca m ps v h h' tx :
  buildUnsignedTx enc gc gf ge gn from ca m ps v h = (h', Ok tx) ->
  Forall (fun kv => match kv.2 with VBig _ => False | _ => True end) (serializeUnsignedTx tx) /\
  (forall k z, (k, VBig z) ∈ tx -> exists t, (k, VStr t) ∈ serializeUnsignedTx tx /\ BigInt t = Some z) /\
  exists h1 data g lim, ge h1 (EstimateGas from ca data v) = Ok g /\ ("gasLimit", VBig lim) ∈ tx /\ (0 <= g -> g <= lim /\ 100 * lim <= 120 * g).
Proof.
  unfold buildUnsignedTx. intros (data & h1 & _ & H)%bindM_Ok. apply bindM_Ok in H as (nonce & h2 & _ & H). apply bindM_Ok in H as (fee & h3 & _ & H).
  apply bindM_Ok in H as (g & h4 & Hg & H). apply bindM_Ok in H as (chain & h5 & _ & H). injection H as _ <-. split_and!.
  - unfold serializeUnsignedTx. apply Forall_map, list.Forall_forall. by intros [k []].
  - intros k z Hin. exists (toString z). split; [|apply BigInt_toString]. unfold serializeUnsignedTx. apply list_elem_of_fmap. by exists (k, VBig z).
  - injection Hg as _ Hg. exists h3, data, g, (Z.quot (g * 120) 100). split; [done|]. split; [set_solver|]. intros H0. rewrite Z.quot_div_nonneg by lia.
    pose proof (Z.div_mod (g * 120) 100). pose proof (Z.mod_pos_bound (g * 120) 100). lia.
Qed.

(** ** Receipts read from the chain *)

Definition log_of (e : Receipts.ChannelEvent) : Log :=
  match e with
  | Receipts.Opened o => {| log_args := [Receipts.o_channelId o; Receipts.o_cap o; Receipts.o_expiry o; Receipts.o_changeCommitment o]; transactionHash := Receipts.o_txHash o |}
  | Receipts.Settled s => {| log_args := [Receipts.s_channelId s; Receipts.s_cumulative s; Receipts.s_payeeCommitment s; Receipts.s_refundCommitment s]; transactionHash := Receipts.s_txHash s |}
  | Receipts.Reclaimed r => {| log_args := [Receipts.r_channelId r; Receipts.r_cap r; Receipts.r_reclaimCommitment r]; transactionHash := Receipts.r_txHash r |}
  end.
Definition kind_of (e : Receipts.ChannelEvent) : string :=
  match e with Receipts.Opened _ => "ChannelOpened" | Receipts.Settled _ => "ChannelSettled" | Receipts.Reclaimed _ => "ChannelReclaimed" end.

(** A node that answers a query with the matching events of its log. *)
Definition serves_log (events : list Receipts.ChannelEvent) (qf : list Call -> Call -> result (list Log)) : Prop :=
  forall h escrow kind id from, qf h (QueryFilter escrow kind id from) =
    Ok (map log_of (filter (fun e => kind_of e = kind /\ Receipts.ev_channelId e = id) events)).

Lemma rmap_map {A B C} (f : B -> result C) (g : A -> B) (k : A -> C) l :
  (forall a, a ∈ l -> f (g a) = Ok (k a)) -> rmap f (map g l) = Ok (map k l).
Proof.
  intros Hf. induction l as [|a l IH]; [done|]. cbn [map rmap]. rewrite Hf by left. rewrite IH; [done|]. intros b Hb. apply Hf. by right.
Qed.

Definition of_kind (kind : string) (id : Z) (events : list Receipts.ChannelEvent) : list Receipts.ChannelEvent :=
  filter (fun e => kind_of e = kind /\ Receipts.ev_channelId e = id) events.

Lemma decoded events kind id f : (forall e, kind_of e = kind -> f (log_of e) = Ok e) ->
  rmap f (map log_of (of_kind kind id events)) = Ok (of_kind kind id events).
Proof.
  intros Hf. rewrite (rmap_map f log_of (fun e => e)); [by rewrite map_id|]. intros e [[He _] _]%list_elem_of_filter. by apply Hf.
Qed.

Lemma by_kind id events :
  (of_kind "ChannelOpened" id events ++ of_kind "ChannelSettled" id events ++ of_kind "ChannelReclaimed" id events)%list
  ≡ₚ filter (fun e => Receipts.ev_channelId e = id) events.
Proof.
  unfold of_kind. induction events as [|e events IH]; [done|]. rewrite !filter_cons. destruct (decide (Receipts.ev_channelId e = id)) as [Hid|Hid].
  - rewrite <- IH. destruct e; cbn [kind_of]; repeat case_decide; try (by destruct_and?); try (exfalso; naive_solver); cbn [app]; try done;
      rewrite ?app_assoc; rewrite <- Permutation_middle; by rewrite ?app_assoc.
  - by rewrite !decide_False by (by intros [_ ?]).
Qed.

Lemma reconstruct_filter id events : Receipts.reconstructChannelReceipt id (filter (fun e => Receipts.ev_channelId e = id) events) =
  Receipts.reconstructChannelReceipt id events.
Proof. unfold Receipts.reconstructChannelReceipt. by rewrite list_filter_filter_l by done. Qed.

(** The receipt of a channel read from a node that serves the escrow's log is
    the receipt of the whole log, errors included: asking per kind of event and
    channel neither loses nor reorders anything that matters. *)
Theorem fetched_receipt_is_the_logs events qf escrow id from h : Receipts.consistent_log id events -> serves_log events qf ->
  (fetchChannelReceipt qf escrow id from h).2 = Receipts.reconstructChannelReceipt id events.
Proof.
  intros Hc Hs. unfold fetchChannelReceipt, bindM, ask. rewrite !Hs. fold (of_kind "ChannelOpened" id events). fold (of_kind "ChannelSettled" id events).
  fold (of_kind "ChannelReclaimed" id events). unfold lift. cbn [snd].
  rewrite (decoded _ _ _ opened_event) by (by intros [[]| |]). rewrite (decoded _ _ _ settled_event) by (by intros [|[]|]).
  rewrite (decoded _ _ _ reclaimed_event) by (by intros [| |[]]). cbn [rbind]. rewrite <- (reconstruct_filter id events). symmetry.
  apply Receipts.reconstruct_perm; [by rewrite by_kind|]. destruct Hc as (H1 & H2 & H3 & H4).
  split_and!; intros x y [_ Hx]%list_elem_of_filter [_ Hy]%list_elem_of_filter; eauto.
Qed.

End Arc.

(** ** Examples *)

Definition toy_error (m : string) : string := "Error: " +:+ m.
Definition toy_invoke : Arc.InvokeOpts :=
  {| Arc.contractAddress := "0xpool"; Arc.method := "mpcSettle"; Arc.args := [JNum 7]; Arc.wallet := Some "0xkey"; Arc.readOnly := false; Arc.retries := None |}.
Definition toy_view (h : list Arc.Call) (c : Arc.Call) : result json := Ok JNull.
Definition toy_submit (h : list Arc.Call) (c : Arc.Call) : result string := Ok "0x1429ab".
Definition toy_receipt (r : result (option Arc.Receipt)) (h : list Arc.Call) (c : Arc.Call) : result (option Arc.Receipt) := r.
Definition toy_arc (r : result (option Arc.Receipt)) : list Arc.Call * result Arc.ArcInvokeResult :=
  Arc.arcInvoke toy_error toy_view toy_submit (toy_receipt r) toy_invoke [].

Lemma arc_invoke_stops_when_confirmed_witness :
  exists calls, (toy_arc (Ok (Some {| Arc.status := Some 1 |}))).1 = calls /\ (Arc.submits calls <= 4)%nat.
Proof.
  destruct (Arc.arc_invoke_stops_when_confirmed toy_error toy_view toy_submit (toy_receipt (Ok (Some {| Arc.status := Some 1 |}))) toy_invoke [] eq_refl)
    as (calls & E & Hn & _). exists calls. split; [exact E|exact Hn].
Defined.

(** A reverted transaction is submitted again when its hash happens to contain
    429: the message that reports it is searched for that number. *)
Lemma reverted_hash_resubmitted :
  Arc.submits (toy_arc (Ok (Some {| Arc.status := Some 0 |}))).1 = 4%nat.
Proof. reflexivity. Qed.

(** When waiting for the receipt times out the transaction is submitted again,
    although the first one may still be mined. *)
Lemma timeout_resubmits : Arc.submits (toy_arc (Err "wait for transaction timeout")).1 = 4%nat.
Proof. reflexivity. Qed.

(** The error speaks of all attempts after a single one. *)
Lemma one_attempt_reported_as_four :
  let failed := toy_arc (Err "execution reverted") in
  failed.2 = Err "arcInvoke mpcSettle failed after 4 attempts: Error: execution reverted" /\ Arc.submits failed.1 = 1%nat.
Proof. split; reflexivity. Qed.

Definition toy_unsigned : list Arc.Call * result Arc.TransactionRequest :=
  Arc.buildUnsignedTx (fun m ps => Ok "0xdata") (fun _ _ => Ok 3) (fun _ _ => Ok {| Arc.maxFeePerGas := Some 9; Arc.maxPriorityFeePerGas := None |})
    (fun _ _ => Ok 101) (fun _ _ => Ok 5042002) "0xuser" "0xpool" "withdraw" [] None [].

Lemma unsigned_tx_serializes_witness :
  exists h tx, toy_unsigned = (h, Ok tx) /\ ("gasLimit", Arc.VStr "121") ∈ Arc.serializeUnsignedTx tx.
Proof.
  do 2 eexists. split; [reflexivity|].
  destruct (Arc.unsigned_tx_serializes (fun m ps => Ok "0xdata") (fun _ _ => Ok 3) (fun _ _ => Ok {| Arc.maxFeePerGas := Some 9; Arc.maxPriorityFeePerGas := None |})
    (fun _ _ => Ok 101) (fun _ _ => Ok 5042002) "0xuser" "0xpool" "withdraw" [] None [] _ _ eq_refl) as (_ & Hback & _).
  destruct (Hback "gasLimit" 121) as (t & Ht & _); [set_solver|]. cbn in *. set_solver.
Defined.

Definition serving (events : list Receipts.ChannelEvent) (h : list Arc.Call) (c : Arc.Call) : result (list Arc.Log) :=
  match c with Arc.QueryFilter _ kind id _ => Ok (map Arc.log_of (filter (fun e => Arc.kind_of e = kind /\ Receipts.ev_channelId e = id) events)) | _ => Err "" end.

Lemma fetched_receipt_is_the_logs_witness :
  exists r, (Arc.fetchChannelReceipt (serving [Receipts.ev_settle; Receipts.ev_other; Receipts.ev_open]) "0xescrow" 1 0 []).2 = Ok r /\ Receipts.gross r = 20.
Proof.
  rewrite (Arc.fetched_receipt_is_the_logs [Receipts.ev_settle; Receipts.ev_other; Receipts.ev_open] _ "0xescrow" 1 0 []
    Receipts.example_log_consistent); [|by intros ?????]. eexists. split; reflexivity.
Defined.
