(* ===== verification/Prover.v ===== *)
(** The prover worker (apps/prover/src/worker.ts) and the liveness of a queue
    worker.

    The coin file and the three proof builders of @shade/proving (snarkjs and
    coinutils run as processes) answer through [answer]; the calls made are
    recorded.  [SCRATCH] is the scratch directory. *)

From S2P Require Import Prelude Effects Text Json Queue.
Local Open Scope string_scope.
Local Open Scope Z_scope.

Module Prover.

Definition PROOF_JOB_TYPES : list string := ["withdraw_public"; "withdraw_cctp"; "rfq_settlement"; "private_transfer"; "deposit_note_mint"].

Record GeneratedCoin := { path : string; commitmentHex : json; commitmentDecimal : json; value7dp : json; assetIdField : json }.

Inductive ProverCall :=
| ReadFile (path : string)
| BuildTransferProof (coin : GeneratedCoin) (commitments : json) (scope fee7dp scratch tag assocPath : string)
| BuildDepositProof (coin : GeneratedCoin) (binding : json) (scratch tag : string)
| BuildNoteProof (coin : GeneratedCoin) (commitments : json) (scope scratch tag assocPath : string) (binding : option json)
| RemoveFile (path : string).

Record World := { p_jobs : JobDb; p_calls : list ProverCall }.

Definition M : Type -> Type := SE World.

Definition set_status (job : ServiceJob) (st detail : string) : M unit :=
  fun w => ({| p_jobs := setStatus (job_id job) st (Some detail) (p_jobs w); p_calls := p_calls w |}, Ok tt).

Section Prover.
Variable answer : ProverCall -> result json.
Variable SCRATCH : string.

Definition call (c : ProverCall) : M json := fun w => ({| p_jobs := p_jobs w; p_calls := (p_calls w ++ [c])%list |}, answer c).

Definition pfield (k : string) (v : json) : json := default JNull (prop k v).
(** [p.k ?? d] of a text field. *)
Definition ptext (k d : string) (v : json) : string := match prop k v with None | Some JNull => d | Some x => to_primitive x end.

Definition coinFromPath (p : string) : M GeneratedCoin :=
  run! c := call (ReadFile p) in
  match prop "coin" c with
  | None | Some JNull => throw "TypeError: Cannot read properties of undefined"
  | Some coin =>
      ret {| path := p; commitmentHex := pfield "commitment_hex" c; commitmentDecimal := pfield "commitment" coin; value7dp := pfield "value" coin;
             assetIdField := match prop "asset_id" coin with None | Some JNull => JStr "" | Some a => a end |}
  end.

Definition assertVerified (job : ServiceJob) (ok : bool) : M unit :=
  run! _ := set_status job "verifying_locally" (if ok then "snarkjs verify OK" else "snarkjs verify FAILED") in
  if ok then ret tt else throw "local proof verification failed".

(** The fields of a builder's answer that are kept: only public outputs. *)
Definition public_part (ks : list string) (pr : json) : json := JObj (map (fun k => (k, pfield k pr)) ks).

Definition verified (pr : json) : bool := truthy (pfield "locallyVerified" pr).

(** [await assertVerified(...)], then the result. *)
Definition checked (job : ServiceJob) (ks : list string) (pr : json) : M json :=
  run! _ := assertVerified job (verified pr) in ret (public_part ks pr).

Definition prove (job : ServiceJob) (p : json) (coin : GeneratedCoin) (tag : string) : M json :=
  let commitments := match prop "commitmentsDecimal" p with None | Some JNull => JArr [commitmentDecimal coin] | Some l => l end in
  let scope := ptext "scope" "shade" p in
  let need_assoc (k : string -> M json) : M json :=
    if negb (truthy (pfield "assocPath" p)) then throw (job_type job +:+ " requires assocPath") else k (ptext "assocPath" "" p) in
  if bool_decide (job_type job = "private_transfer") then
    need_assoc (fun assoc =>
      run! pr := call (BuildTransferProof coin commitments scope (ptext "fee7dp" "0" p) SCRATCH tag assoc) in
      checked job ["proofHex"; "publicHex"; "stateRootHex"; "associationRootHex"; "outputCommitmentHex"] pr)
  else if bool_decide (job_type job = "deposit_note_mint") then
    if negb (truthy (pfield "depositBinding" p)) then throw "deposit_note_mint requires depositBinding"
    else
      run! pr := call (BuildDepositProof coin (pfield "depositBinding" p) SCRATCH tag) in
      checked job ["proofHex"; "publicHex"; "commitmentHex"] pr
  else
    need_assoc (fun assoc =>
      run! pr := call (BuildNoteProof coin commitments scope SCRATCH tag assoc (prop "binding" p)) in
      checked job ["proofHex"; "publicHex"; "stateRootHex"] pr).

Definition witness_files (tag : string) : list string := [tag +:+ "_witness.wtns"; tag +:+ "_x.wtns"; tag +:+ "_dep.wtns"].

(** [rmSync] with its errors ignored. *)
Fixpoint remove_all (fs : list string) : M unit :=
  match fs with
  | [] => ret tt
  | f :: fs => fun w => remove_all fs (call (RemoveFile (SCRATCH +:+ "/" +:+ f)) w).1
  end.

(** All of [processProofJob] but its last statement. *)
Definition run_proof (job : ServiceJob) : M json :=
  let p := payload job in
  let tag := ptext "tag" ("job_" +:+ slice0 8 (job_id job)) p in
  match prop "coinPath" p with
  | Some (JStr cp) =>
      run! coin := coinFromPath cp in
      run! _ := set_status job "building_witness" (job_type job +:+ " witness") in
      run! _ := set_status job "proving" "groth16 prove" in
      run! result := prove job p coin tag in
      run! _ := set_status job "converting_for_soroban" "circom2soroban bytes ready" in
      run! _ := remove_all (witness_files tag) in
      ret result
  | _ => throw "TypeError: The path argument must be of type string"
  end.

Definition processProofJob (job : ServiceJob) : M json :=
  run! result := run_proof job in
  fun w => ({| p_jobs := complete (job_id job) result "ready" (p_jobs w); p_calls := p_calls w |}, Ok result).

Definition runProverOnce (now : Z) (w : World) : World * bool :=
  match claimNext prover PROOF_JOB_TYPES now (p_jobs w) with
  | (_, None) => (w, false)
  | (db, Some job) =>
      match processProofJob job {| p_jobs := db; p_calls := p_calls w |} with
      | (w, Ok _) => (w, true)
      | (w, Err e) => ({| p_jobs := fail_job (job_id job) e 10 now (p_jobs w); p_calls := p_calls w |}, true)
      end
  end.

End Prover.

(** ** A worker empties its queue *)

(** Waiting for a worker of this queue and these types. *)
Definition waiting (q : QueueName) (types : list string) (j : ServiceJob) : Prop :=
  queue j = q /\ type_ok types j = true /\ claimable_status (job_status j) = true.
Definition settled (j : ServiceJob) : Prop := job_status j = "ready" \/ job_status j = "failed".

(** One iteration per time in [times]. *)
Fixpoint work {S} (once : Z -> S -> S) (times : list Z) (s : S) : S :=
  match times with [] => s | t :: ts => work once ts (once t s) end.

(** Ten seconds, the retry delay, between two iterations. *)
Fixpoint spaced (from : Z) (times : list Z) : Prop :=
  match times with [] => True | t :: ts => from <= t /\ spaced (t + 10) ts end.

(** What an iteration does to the job it claimed. *)
Record outcome (t : Z) (k k' : ServiceJob) : Prop := {
  o_same : job_id k' = job_id k /\ queue k' = queue k /\ job_type k' = job_type k;
  o_status : settled k' \/ (job_status k' = "failed_retry" /\ available_at k' = t + 10) }.

(** An iteration changes one waiting job, or finds none. *)
Record iteration (q : QueueName) (types : list string) (t : Z) (db db' : JobDb) : Prop := {
  it_inv : db_inv db';
  it_jobs : (db' = db /\ Forall (fun j => eligible q types t j = false) (jobs db)) \/
    (total_attempts db' = total_attempts db + 1 /\
     exists j F, j ∈ jobs db /\ eligible q types t j = true /\
       jobs db' = map (fun k => if bool_decide (job_id k = job_id j) then F k else k) (jobs db) /\ forall k, outcome t k (F k)) }.

Section Worker.
Context {S : Type} (db_of : S -> JobDb) (q : QueueName) (types : list string) (once : Z -> S -> S).
Hypothesis once_ok : forall t s, db_inv (db_of s) -> iteration q types t (db_of s) (db_of (once t s)).

Definition due (t : Z) (db : JobDb) : Prop := Forall (fun j => waiting q types j -> available_at j <= t) (jobs db).

(** The jobs with the ids of [ids] are waiting or settled. *)
Definition tracked (ids : list string) (db : JobDb) : Prop :=
  Forall (fun j => job_id j ∈ ids -> waiting q types j \/ settled j) (jobs db).

Lemma due_weaken t t' db : t <= t' -> due t db -> due t' db.
Proof. intros Ht. unfold due. rewrite !list.Forall_forall. intros H j Hj Hw. specialize (H j Hj Hw). lia. Qed.

Lemma eligible_waiting t j : eligible q types t j = true -> queue j = q /\ type_ok types j = true.
Proof. unfold eligible. intros H. breflect. done. Qed.

Lemma idle_none t db : due t db -> Forall (fun j => eligible q types t j = false) (jobs db) -> Forall (fun j => ~ waiting q types j) (jobs db).
Proof.
  unfold due. rewrite !list.Forall_forall. intros Hd He j Hj Hw. specialize (Hd j Hj Hw). specialize (He j Hj).
  destruct Hw as (Hq & Ht & Hc). unfold eligible in He. rewrite bool_decide_true, Hc, Ht in He by done. cbn in He.
  by rewrite (proj2 (Z.leb_le _ _) Hd) in He.
Qed.

Lemma settled_not_waiting j : settled j -> ~ waiting q types j.
Proof. intros [H|H] (_ & _ & Hc); rewrite H in Hc; by vm_compute in Hc. Qed.

(** What one iteration keeps. *)
Lemma step_facts ids t db db' : db_inv db -> due t db -> tracked ids db -> iteration q types t db db' ->
  due (t + 10) db' /\ tracked ids db' /\ map job_id (jobs db') = map job_id (jobs db).
Proof.
  intros Hinv Hd Hs [_ [[-> _]|(_ & j & F & Hj & He & HJ & HF)]].
  { split_and!; [|done..]. eapply due_weaken; [|done]. lia. }
  apply eligible_waiting in He as [HQ HT]. unfold due, tracked in *. rewrite HJ. split_and!; [..|by apply map_keep; intros k; destruct (HF k) as [(-> & _) _]];
    rewrite list.Forall_forall in Hd, Hs |- *; intros k' Hk'; apply list_elem_of_In, in_map_iff in Hk' as (k & <- & Hk%list_elem_of_In);
    (case_bool_decide as Hid; [assert (k = j) as -> by (by eapply same_job); destruct (HF j) as [(Hi & Hq & Hty) Hst]|]).
  - intros Hw. destruct Hst as [Hdone|[_ ->]]; [by destruct (settled_not_waiting _ Hdone)|lia].
  - intros Hw. specialize (Hd k Hk Hw). lia.
  - intros _. destruct Hst as [Hdone|[Hst _]]; [by right|left]. split_and!; [congruence| |by rewrite Hst].
    unfold type_ok in *. by rewrite Hty.
  - by apply Hs.
Qed.

Lemma work_idle ts t s : Forall (fun j => ~ waiting q types j) (jobs (db_of s)) -> db_inv (db_of s) -> spaced t ts -> db_of (work once ts s) = db_of s.
Proof.
  revert t s. induction ts as [|u ts IH]; intros t s Hnone Hinv Hsp; [done|]. destruct Hsp as [_ Hsp]. cbn.
  destruct (once_ok u s Hinv) as [_ [[E _]|(_ & j & F & Hj & He & _)]].
  - rewrite <- E. apply (IH (u + 10)); rewrite ?E; done.
  - rewrite list.Forall_forall in Hnone. destruct (Hnone j Hj). unfold eligible in He. breflect. done.
Qed.

(** Each iteration settles the queue or uses up one of the attempts left. *)
Lemma work_drains ids times from s :
  db_inv (db_of s) -> due from (db_of s) -> tracked ids (db_of s) -> spaced from times ->
  3 * Z.of_nat (length (jobs (db_of s))) - total_attempts (db_of s) < Z.of_nat (length times) ->
  Forall (fun j => ~ waiting q types j) (jobs (db_of (work once times s))) /\ tracked ids (db_of (work once times s)) /\
  map job_id (jobs (db_of (work once times s))) = map job_id (jobs (db_of s)).
Proof.
  revert from s. induction times as [|t ts IH]; intros from s Hinv Hd Hs Hsp Hn; cbn [work length] in *.
  { pose proof (total_bound _ (jobs_ok _ Hinv)) as HB. unfold total_attempts in Hn. lia. }
  destruct Hsp as [Hft Hsp]. pose proof (due_weaken _ _ _ Hft Hd) as Hdt. pose proof (once_ok t s Hinv) as Hit.
  destruct (step_facts ids t _ _ Hinv Hdt Hs Hit) as (Hd' & Hs' & Hlen). destruct Hit as [Hinv' Hcase].
  destruct Hcase as [[E Hidle]|[Ht _]].
  - pose proof (idle_none t _ Hdt Hidle) as Hnone. rewrite (work_idle ts (t + 10)) by (rewrite ?E; done). by rewrite E in *.
  - apply (f_equal length) in Hlen as Hl. rewrite !length_map in Hl.
    destruct (IH (t + 10) (once t s)) as (H1 & H2 & H3); [done..|rewrite Hl, Ht; lia|]. by rewrite H3.
Qed.

End Worker.

(** ** One iteration of a worker *)

(** Only progress statuses of the job [id] were written. *)
Inductive progress (id : string) (db : JobDb) : JobDb -> Prop :=
| progress_none : progress id db db
| progress_status db' st d : progress id db db' -> Queue.progress_status st -> progress id db (setStatus id st d db').

Lemma progress_trans id a b c : progress id a b -> progress id b c -> progress id a c.
Proof. intros H. induction 1; [done|]. by apply progress_status. Qed.

Definition keeps_identity (f : ServiceJob -> ServiceJob) : Prop :=
  forall j, job_id (f j) = job_id j /\ queue (f j) = queue j /\ job_type (f j) = job_type j.

Lemma update_twice id f g l : keeps_identity f ->
  map (fun k => if bool_decide (job_id k = id) then g k else k) (map (fun k => if bool_decide (job_id k = id) then f k else k) l) =
  map (fun k => if bool_decide (job_id k = id) then g (f k) else k) l.
Proof.
  intros Hf. rewrite map_map. apply map_ext. intros k. destruct (bool_decide (job_id k = id)) eqn:E; [|by rewrite E]. apply bool_decide_eq_true in E.
  destruct (Hf k) as [-> _]. by rewrite bool_decide_true.
Qed.

(** The claim and the progress that follows, as one change of one job. *)
Lemma progress_jobs id db db' : progress id db db' -> exists f, keeps_identity f /\
  jobs db' = map (fun k => if bool_decide (job_id k = id) then f k else k) (jobs db).
Proof.
  induction 1 as [|db' st d _ (f & Hf & IH) _].
  - exists (fun k => k). split; [by intros k|]. rewrite <- (map_id (jobs db)) at 1. apply map_ext. intros k. by case_bool_decide.
  - exists (fun k => with_status st (f k)). split; [by intros k; cbn|]. cbn. rewrite IH. by apply update_twice.
Qed.

Lemma progress_inv id db db' : progress id db db' -> db_inv db -> db_inv db' /\ total_attempts db' = total_attempts db.
Proof.
  induction 1 as [|db' st d _ IH Hst]; intros Hinv; [done|]. destruct (IH Hinv) as [Hi <-].
  destruct (queue_step_inv db' 0 _ Hi (qs_status db' id st d Hst)) as [? ->]. split; [done|lia].
Qed.

Lemma fail_job_jobs id err b t db : exists f, keeps_identity f /\
  jobs (fail_job id err b t db) = map (fun k => if bool_decide (job_id k = id) then f k else k) (jobs db) /\
  forall k, settled (f k) \/ (job_status (f k) = "failed_retry" /\ available_at (f k) = t + b).
Proof.
  unfold fail_job. destruct (match getJob id db with Some j => _ | None => _ end).
  - eexists. split; [|split; [reflexivity|]]; [by intros k|]. intros k. left. by right.
  - eexists. split; [|split; [reflexivity|]]; [by intros k|]. intros k. by right.
Qed.

(** Claim, make progress, then complete or fail: an iteration. *)
Lemma iteration_claim q types t db j db1 db2 r err :
  db_inv db -> claimNext q types t db = (db1, Some j) -> progress (job_id j) db1 db2 ->
  iteration q types t db (complete (job_id j) r "ready" db2) /\ iteration q types t db (fail_job (job_id j) err 10 t db2).
Proof.
  intros Hinv Hc Hp. destruct (claim_cases q types t db) as [[E _]|(j0 & E & Hin & He & _)]; rewrite E in Hc; [done|]. injection Hc as <- <-.
  destruct (queue_step_inv db _ _ Hinv (qs_claim db q types t)) as [Hi1 Ht1]. rewrite E in Hi1, Ht1. cbn [fst snd] in Hi1, Ht1.
  destruct (progress_inv _ _ _ Hp Hi1) as [Hi2 Ht2]. destruct (progress_jobs _ _ _ Hp) as (f & Hf & Hj). cbn [job_id claimed] in *.
  cbn [jobs update_job] in Hj. rewrite update_twice in Hj by done.
  assert (keeps_identity (fun k => f (claimed k))) as Hfc by (intros k; apply (Hf (claimed k))). split.
  - destruct (queue_step_inv db2 0 _ Hi2 (qs_complete db2 (job_id j0) r "ready" eq_refl)) as [Hi3 Ht3]. split; [done|]. right.
    split; [rewrite Ht3; lia|]. exists j0, (fun k => with_outcome "ready" (Some r) None (available_at (f (claimed k))) (f (claimed k))).
    split_and!; [done|done|cbn; rewrite Hj; apply (update_twice _ _ (fun k => with_outcome _ _ _ (available_at k) k) _ Hfc)|].
    intros k. destruct (Hf (claimed k)) as (H1 & H2 & H3). split; [done|]. left. by left.
  - destruct (queue_step_inv db2 0 _ Hi2 (qs_fail db2 (job_id j0) err 10 t)) as [Hi3 Ht3]. split; [done|]. right.
    split; [rewrite Ht3; lia|]. destruct (fail_job_jobs (job_id j0) err 10 t db2) as (g & Hg & Hjg & Hst).
    exists j0, (fun k => g (f (claimed k))). split_and!; [done|done|rewrite Hjg, Hj; apply (update_twice _ _ _ _ Hfc)|].
    intros k. destruct (Hf (claimed k)) as (H1 & H2 & H3), (Hg (f (claimed k))) as (G1 & G2 & G3). split; [|apply Hst].
      cbn in *. split_and!; congruence.
Qed.

Lemma iteration_idle q types t db db1 : db_inv db -> claimNext q types t db = (db1, None) -> iteration q types t db db.
Proof.
  intros Hinv Hc. split; [done|]. left. split; [done|]. destruct (claim_cases q types t db) as [[_ H]|(j & E & _)]; [done|].
  by rewrite E in Hc.
Qed.

(** The prover only makes progress on its job. *)
Definition advances {A} (id : string) (m : M A) : Prop := forall w, progress id (p_jobs w) (p_jobs (m w).1).

Section Advances.
Variable (answer : ProverCall -> result json) (SCRATCH : string).

Lemma advances_bind {A B} id (c : M A) (k : A -> M B) : advances id c -> (forall a, advances id (k a)) -> advances id (bindM c k).
Proof.
  intros Hc Hk w. unfold bindM. specialize (Hc w). destruct (c w) as [w' [a|e]]; [|done]. eapply progress_trans; [done|]. apply Hk.
Qed.
Lemma advances_ret {A} id (a : A) : advances id (ret a).
Proof. intros w. apply progress_none. Qed.
Lemma advances_throw {A} id e : advances id (@throw _ A e).
Proof. intros w. apply progress_none. Qed.
Lemma advances_call id c : advances id (call answer c).
Proof. intros w. apply progress_none. Qed.
Lemma advances_status job st d : Queue.progress_status st -> advances (job_id job) (set_status job st d).
Proof. intros Hst w. apply progress_status; [apply progress_none|done]. Qed.

Lemma remove_jobs fs w : p_jobs (remove_all answer SCRATCH fs w).1 = p_jobs w.
Proof. revert w. induction fs as [|f fs IH]; intros w; [done|]. cbn. by rewrite IH. Qed.
Lemma advances_remove id fs : advances id (remove_all answer SCRATCH fs).
Proof. intros w. rewrite remove_jobs. apply progress_none. Qed.

Lemma advances_checked job ks pr : advances (job_id job) (checked job ks pr).
Proof.
  apply advances_bind; [|intros; apply advances_ret]. apply advances_bind; [by apply advances_status|].
  intros. case_match; [apply advances_ret|apply advances_throw].
Qed.

Lemma advances_prove job p coin tag : advances (job_id job) (prove answer SCRATCH job p coin tag).
Proof. unfold prove. repeat case_match; try apply advances_throw; apply advances_bind; intros; apply advances_call || apply advances_checked. Qed.

Lemma advances_run job : advances (job_id job) (run_proof answer SCRATCH job).
Proof.
  unfold run_proof. destruct (prop "coinPath" (payload job)) as [[]|]; try apply advances_throw.
  apply advances_bind; [|intros; repeat (apply advances_bind; intros);
    try by (apply advances_status || apply advances_prove || apply advances_remove || apply advances_ret)].
  unfold coinFromPath. apply advances_bind; [apply advances_call|]. intros. repeat case_match; apply advances_throw || apply advances_ret.
Qed.

Lemma prover_iteration t w : db_inv (p_jobs w) ->
  iteration prover PROOF_JOB_TYPES t (p_jobs w) (p_jobs (runProverOnce answer SCRATCH t w).1).
Proof.
  intros Hinv. unfold runProverOnce. destruct (claimNext _ _ _ _) as [db1 [j|]] eqn:Hc; [|by eapply iteration_idle].
  unfold processProofJob, bindM. pose proof (advances_run j {| p_jobs := db1; p_calls := p_calls w |}) as Hp.
  destruct (run_proof answer SCRATCH j _) as [w2 [r|e]]; cbn in *.
  - by apply (iteration_claim _ _ _ _ _ _ _ r "" Hinv Hc Hp).
  - by apply (iteration_claim _ _ _ _ _ _ _ JNull e Hinv Hc Hp).
Qed.

End Advances.

(** ** Properties *)

Definition toy_answer (c : ProverCall) : result json :=
  match c with
  | ReadFile _ => Ok (JObj [("commitment_hex", JStr "0x01"); ("coin", JObj [("commitment", JStr "1"); ("value", JStr "5")])])
  | RemoveFile _ => Ok JNull
  | _ => Ok (JObj [("locallyVerified", JBool true); ("proofHex", JStr "aa"); ("publicHex", JStr "bb"); ("witness", JStr "secret")])
  end.
Definition toy_payload : json := JObj [("coinPath", JStr "/coins/1.json"); ("assocPath", JStr "/assoc.json")].
Definition toy_world : World :=
  {| p_jobs := (enqueue prover "withdraw_public" toy_payload (Some "k1") "j1" 5 emptyDb).1; p_calls := [] |}.
Definition toy_job : ServiceJob :=
  {| job_id := "j1"; job_type := "withdraw_public"; queue := prover; idempotency_key := Some "k1"; payload := toy_payload; job_status := "queued";
     attempts := 0; max_attempts := 3; job_result := None; job_error := None; available_at := 5; created_at := 5 |}.

Lemma total_nonneg l : Forall job_ok l -> 0 <= fold_right (fun j n => attempts j + n) 0 l.
Proof. induction 1 as [|j l (_ & ? & _) _ IH]; cbn [fold_right]; lia. Qed.

Lemma toy_inv : db_inv (p_jobs toy_world).
Proof. split; [apply NoDup_singleton|apply NoDup_singleton|apply Forall_singleton; by split_and!]. Qed.

(** C25: proof jobs are settled: a prover that runs with at least the retry delay
    between iterations leaves every proof job that was waiting for it, and whose
    delay is over, ready or failed after more iterations than the jobs of the
    table have attempts in total, whatever the proof builders answer. *)
Theorem prover_settles_jobs (answer : ProverCall -> result json) (SCRATCH : string) (w : World) (from : Z) (times : list Z) :
  db_inv (p_jobs w) -> Forall (fun j => waiting prover PROOF_JOB_TYPES j -> available_at j <= from) (jobs (p_jobs w)) ->
  spaced from times -> 3 * Z.of_nat (length (jobs (p_jobs w))) < Z.of_nat (length times) ->
  forall j, j ∈ jobs (p_jobs w) -> waiting prover PROOF_JOB_TYPES j ->
  exists j', j' ∈ jobs (p_jobs (work (fun t w => (runProverOnce answer SCRATCH t w).1) times w)) /\ job_id j' = job_id j /\ settled j'.
Proof.
  intros Hinv Hd Hsp Hn j Hj Hw.
  pose proof (total_nonneg _ (jobs_ok _ Hinv)) as Hpos. fold (total_attempts (p_jobs w)) in Hpos.
  destruct (work_drains p_jobs prover PROOF_JOB_TYPES _ (fun t s => prover_iteration answer SCRATCH t s) [job_id j] times from w)
    as (Hnone & Htr & Hids); [done..| |done|lia|].
  { apply list.Forall_forall. intros k Hk Hid. left. apply list_elem_of_singleton in Hid. by rewrite (same_job _ k j Hinv Hk Hj Hid). }
  assert (job_id j ∈ map job_id (jobs (p_jobs (work (fun t w => (runProverOnce answer SCRATCH t w).1) times w)))) as Hin.
  { rewrite Hids. by apply list_elem_of_In, in_map, list_elem_of_In. }
  apply list_elem_of_In, in_map_iff in Hin as (j' & Hid & Hj'%list_elem_of_In). exists j'. split_and!; [done|done|].
  unfold tracked in Htr. rewrite list.Forall_forall in Hnone, Htr. destruct (Htr j' Hj'); [rewrite Hid; by left|by destruct (Hnone j' Hj')|done].
Qed.

Lemma prover_settles_jobs_witness :
  exists j', j' ∈ jobs (p_jobs (work (fun t w => (runProverOnce toy_answer "/tmp" t w).1) [5; 15; 25; 35] toy_world)) /\
    job_id j' = "j1" /\ settled j'.
Proof.
  apply (prover_settles_jobs toy_answer "/tmp" toy_world 5 [5; 15; 25; 35]) with (j := toy_job).
  - apply toy_inv. - apply Forall_singleton. intros _. reflexivity. - cbn. lia. - by vm_compute. - by left. - done.
Defined.

Definition builder_call (c : ProverCall) : Prop := match c with ReadFile _ | RemoveFile _ => False | _ => True end.

Lemma calls_grow_remove answer SCRATCH fs w :
  p_calls (remove_all answer SCRATCH fs w).1 = (p_calls w ++ map (fun f => RemoveFile (SCRATCH +:+ "/" +:+ f)) fs)%list.
Proof. revert w. induction fs as [|f fs IH]; intros w; [by rewrite app_nil_r|]. cbn [remove_all map]. rewrite IH. cbn [call fst p_calls]. by rewrite <- (assoc_L (++)). Qed.

(** A result of a builder that was checked. *)
Definition proved_by (answer : ProverCall -> result json) (w : World) (r : json) : Prop :=
  exists c pr ks, c ∈ p_calls w /\ builder_call c /\ answer c = Ok pr /\ verified pr = true /\ r = public_part ks pr /\
    Forall (fun k => k ∈ ["proofHex"; "publicHex"; "stateRootHex"; "associationRootHex"; "outputCommitmentHex"; "commitmentHex"]) ks.

Lemma checked_proved answer job ks c w w' r :
  builder_call c -> Forall (fun k => k ∈ ["proofHex"; "publicHex"; "stateRootHex"; "associationRootHex"; "outputCommitmentHex"; "commitmentHex"]) ks ->
  bindM (call answer c) (fun pr => checked job ks pr) w = (w', Ok r) -> proved_by answer w' r.
Proof.
  intros Hc Hks H. apply bindM_Ok in H as (pr & w1 & Hcall & H). injection Hcall as <- Ha.
  unfold checked, assertVerified, bindM, set_status in H. cbn in H. destruct (verified pr) eqn:Hv; [|done]. injection H as <- <-.
  exists c, pr, ks. split_and!; try done. cbn. apply elem_of_app. right. by left.
Qed.

Lemma prove_proved answer SCRATCH job p coin tag w w' r : prove answer SCRATCH job p coin tag w = (w', Ok r) -> proved_by answer w' r.
Proof.
  unfold prove. repeat case_match; try done; apply checked_proved; try done; by apply (bool_decide_unpack _); vm_compute.
Qed.

(** A proof job is completed only with a proof that verified locally: the
    result consists of public outputs of a builder whose answer carries the
    verification mark, and the raw witness files of the job were removed. *)
Theorem prover_stores_verified_public (answer : ProverCall -> result json) (SCRATCH : string) (job : ServiceJob) (w w' : World) (r : json) :
  processProofJob answer SCRATCH job w = (w', Ok r) ->
  proved_by answer w' r /\
  (forall f, f ∈ witness_files (ptext "tag" ("job_" +:+ slice0 8 (job_id job)) (payload job)) -> RemoveFile (SCRATCH +:+ "/" +:+ f) ∈ p_calls w') /\
  exists db, p_jobs w' = complete (job_id job) r "ready" db.
Proof.
  unfold processProofJob. intros H. apply bindM_Ok in H as (r0 & w0 & Hrun & [= <- <-]). unfold run_proof in Hrun.
  destruct (prop "coinPath" (payload job)) as [[| | |cp| |]|]; try done.
  apply bindM_Ok in Hrun as (coin & w1 & _ & Hrun). apply bindM_Ok in Hrun as ([] & w2 & _ & Hrun). apply bindM_Ok in Hrun as ([] & w3 & _ & Hrun).
  apply bindM_Ok in Hrun as (res & w4 & Hp & Hrun). apply bindM_Ok in Hrun as ([] & w5 & Hs & Hrun).
  apply bindM_Ok in Hrun as ([] & w6 & Hrm & [= <- <-]). apply prove_proved in Hp as (c & pr & ks & Hin & Hc). injection Hs as <-.
  pose proof (calls_grow_remove answer SCRATCH (witness_files (ptext "tag" ("job_" +:+ slice0 8 (job_id job)) (payload job)))
    {| p_jobs := setStatus (job_id job) "converting_for_soroban" (Some "circom2soroban bytes ready") (p_jobs w4); p_calls := p_calls w4 |}) as Hg.
  rewrite Hrm in Hg. cbn [fst p_calls] in *. rewrite Hg. split_and!; [|intros f Hf|by eexists].
  - exists c, pr, ks. split; [apply elem_of_app; by left|done].
  - apply elem_of_app. right. apply list_elem_of_In, (in_map (fun f => RemoveFile (SCRATCH +:+ "/" +:+ f))). by apply list_elem_of_In.
Qed.

Lemma prover_stores_verified_public_witness :
  let w' := (processProofJob toy_answer "/tmp" toy_job toy_world).1 in
  let r := JObj [("proofHex", JStr "aa"); ("publicHex", JStr "bb"); ("stateRootHex", JNull)] in
  proved_by toy_answer w' r /\
  (forall f, f ∈ witness_files "job_j1" -> RemoveFile ("/tmp" +:+ "/" +:+ f) ∈ p_calls w') /\ exists db, p_jobs w' = complete "j1" r "ready" db.
Proof.
  apply (prover_stores_verified_public toy_answer "/tmp" toy_job toy_world). reflexivity.
Defined.

End Prover.
