(* ===== verification/Sql.v ===== *)
(** The statements of the API's database layer.

    A table is the list of its rows in insertion order, a row gives every
    column of the table a value, and [JNull] is SQL's NULL.  A statement either
    takes effect as a whole or raises an error and changes nothing.  The
    constraints of db/migrations (known columns, NOT NULL, UNIQUE, foreign keys,
    defaults) are checked; column types are not, so a value comes back as it was
    stored.  Row ids and the clock are arguments. *)

From S2P Require Import Prelude Text Json.
Local Open Scope string_scope.
Local Open Scope Z_scope.

Definition row := list (string * json).
Definition Tables := list (string * list row).

Definition rows_of (t : string) (db : Tables) : list row := default [] (jget t db).

Arguments rows_of : simpl never.

(** A column of a row; a column the row does not have is NULL. *)
Definition col (k : string) (r : row) : json := default JNull (jget k r).

Arguments col : simpl never.

(** [a = b] in a condition: never true of NULL. *)
Definition sql_eq (a b : json) : bool :=
  match a, b with
  | JStr s, JStr t => bool_decide (s = t)
  | JNum x, JNum y => x =? y
  | JBool x, JBool y => Bool.eqb x y
  | _, _ => false
  end.

Definition is_null (v : json) : bool := match v with JNull => true | _ => false end.

(** [k1 = v1 and k2 = v2 and ...] *)
Definition where_eq (cs : list (string * json)) (r : row) : bool := forallb (fun c => sql_eq (col c.1 r) c.2) cs.

(** ** The catalogue *)

Record Table := {
  columns : list string;
  required : list string;                          (** NOT NULL *)
  uniques : list (list string);                    (** PRIMARY KEY and UNIQUE *)
  foreign : list (string * (string * string));     (** column, referenced table and column *)
  generated : list string;                         (** DEFAULT uuid_generate_v4() *)
  stamped : list string;                           (** DEFAULT now() *)
  defaults : list (string * json) }.

Definition table_of (cs req : list string) (us : list (list string)) (fks : list (string * (string * string)))
    (gen st : list string) (ds : list (string * json)) : Table :=
  {| columns := cs; required := req; uniques := us; foreign := fks; generated := gen; stamped := st; defaults := ds |}.

Definition users_fk : string * (string * string) := ("user_id", ("users", "id")).

Definition catalogue : list (string * Table) :=
  [("cctp_deposits", table_of
      ["deposit_id"; "idempotency_key"; "source_domain"; "destination_domain"; "source_tx_hash"; "cctp_nonce"; "message_hash";
       "attestation_status"; "stellar_mint_tx_hash"; "vault_deposit_tx_hash"; "asset_id"; "amount_usdc_6dp"; "amount_usdc_7dp";
       "commitment"; "encrypted_note_payload_hash"; "policy_id"; "state"; "created_at"; "updated_at"; "user_id";
       "source_wallet_address"; "vault_id"; "source_chain"; "coin_path"]
      ["deposit_id"; "idempotency_key"; "source_domain"; "destination_domain"; "asset_id"; "amount_usdc_6dp"; "amount_usdc_7dp";
       "commitment"; "encrypted_note_payload_hash"; "policy_id"; "state"]
      [["deposit_id"]; ["idempotency_key"]] [users_fk] [] ["created_at"; "updated_at"] []);
   ("note_commitments", table_of
      ["commitment"; "deposit_id"; "leaf_index"; "root"; "asset_id"; "amount_usdc_7dp"; "policy_id"; "status"; "created_at"; "user_id"]
      ["commitment"; "asset_id"; "amount_usdc_7dp"; "policy_id"; "status"]
      [["commitment"]] [("deposit_id", ("cctp_deposits", "deposit_id")); users_fk] [] ["created_at"] []);
   ("nullifier_spends", table_of ["nullifier"; "settlement_id"; "spent_tx_hash"; "created_at"] ["nullifier"] [["nullifier"]] [] [] ["created_at"] []);
   ("proof_jobs", table_of
      ["proof_job_id"; "idempotency_key"; "proof_type"; "public_inputs_hash"; "artifact_path"; "status"; "error"; "created_at"; "updated_at"; "user_id"]
      ["proof_job_id"; "idempotency_key"; "proof_type"; "public_inputs_hash"; "status"]
      [["proof_job_id"]; ["idempotency_key"]] [users_fk] [] ["created_at"; "updated_at"] []);
   ("withdrawals", table_of
      ["withdrawal_id"; "idempotency_key"; "nullifier"; "amount_usdc_7dp"; "recipient"; "relayer_fee"; "deadline_ledger"; "proof_job_id";
       "tx_hash"; "state"; "created_at"; "user_id"]
      ["withdrawal_id"; "idempotency_key"; "nullifier"; "amount_usdc_7dp"; "recipient"; "relayer_fee"; "deadline_ledger"; "state"]
      [["withdrawal_id"]; ["idempotency_key"]] [("proof_job_id", ("proof_jobs", "proof_job_id")); users_fk] [] ["created_at"] []);
   ("intents", table_of
      ["intent_hash"; "idempotency_key"; "encrypted_payload"; "public_commitment"; "expiry_ledger"; "policy_id"; "user_signature"; "state";
       "created_at"; "user_id"; "mpc_session_id"]
      ["intent_hash"; "idempotency_key"; "encrypted_payload"; "public_commitment"; "expiry_ledger"; "policy_id"; "user_signature"; "state"]
      [["intent_hash"]; ["idempotency_key"]] [users_fk; ("mpc_session_id", ("mpc_sessions", "session_id"))] [] ["created_at"] []);
   ("quotes", table_of
      ["quote_id"; "intent_hash"; "quote_hash"; "solver_id"; "payload"; "quote_signature"; "valid_until_ledger"; "state"; "created_at"]
      ["quote_id"; "intent_hash"; "quote_hash"; "solver_id"; "payload"; "quote_signature"; "valid_until_ledger"; "state"]
      [["quote_id"]; ["quote_hash"]] [("intent_hash", ("intents", "intent_hash"))] [] ["created_at"] []);
   ("quote_acceptances", table_of
      ["acceptance_id"; "quote_id"; "intent_hash"; "user_signature_hash"; "accepted_at"; "user_id"]
      ["acceptance_id"; "quote_id"; "intent_hash"; "user_signature_hash"]
      [["acceptance_id"]; ["quote_id"]] [("quote_id", ("quotes", "quote_id")); ("intent_hash", ("intents", "intent_hash")); users_fk] []
      ["accepted_at"] []);
   ("solver_inventory_locks", table_of
      ["lock_id"; "quote_id"; "solver_id"; "lock_hash"; "amount"; "asset"; "expires_at_ledger"; "state"; "created_at"]
      ["lock_id"; "quote_id"; "solver_id"; "lock_hash"; "amount"; "asset"; "expires_at_ledger"; "state"]
      [["lock_id"]] [("quote_id", ("quotes", "quote_id"))] [] ["created_at"] []);
   ("fills", table_of
      ["fill_id"; "quote_id"; "fill_receipt_hash"; "destination_tx_hash"; "amount"; "recipient"; "state"; "created_at"]
      ["fill_id"; "quote_id"; "fill_receipt_hash"; "amount"; "recipient"; "state"]
      [["fill_id"]] [("quote_id", ("quotes", "quote_id"))] [] ["created_at"] []);
   ("settlements", table_of
      ["settlement_id"; "intent_hash"; "quote_id"; "fill_id"; "proof_job_id"; "nullifier"; "stellar_tx_hash"; "state"; "created_at"; "user_id"]
      ["settlement_id"; "intent_hash"; "quote_id"; "nullifier"; "state"]
      [["settlement_id"]]
      [("intent_hash", ("intents", "intent_hash")); ("quote_id", ("quotes", "quote_id")); ("fill_id", ("fills", "fill_id"));
       ("proof_job_id", ("proof_jobs", "proof_job_id")); users_fk] [] ["created_at"] []);
   ("cctp_exits", table_of
      ["exit_id"; "idempotency_key"; "nullifier"; "destination_domain"; "destination_recipient"; "amount_usdc_7dp"; "relayer_fee";
       "proof_job_id"; "burn_tx_hash"; "mint_tx_hash"; "state"; "created_at"; "user_id"]
      ["exit_id"; "idempotency_key"; "nullifier"; "destination_domain"; "destination_recipient"; "amount_usdc_7dp"; "relayer_fee"; "state"]
      [["exit_id"]; ["idempotency_key"]] [("proof_job_id", ("proof_jobs", "proof_job_id")); users_fk] [] ["created_at"] []);
   ("state_transitions", table_of
      ["transition_id"; "entity_type"; "entity_id"; "from_state"; "to_state"; "reason"; "tx_hash"; "metadata"; "created_at"]
      ["entity_type"; "entity_id"; "to_state"; "metadata"] [["transition_id"]] [] ["transition_id"] ["created_at"] [("metadata", JObj [])]);
   ("root_audit_runs", table_of
      ["run_id"; "pool_contract"; "leaf_count"; "recomputed_root"; "onchain_root"; "source"; "status"; "git_commit"; "created_at"]
      ["pool_contract"; "leaf_count"; "recomputed_root"; "onchain_root"; "source"; "status"] [["run_id"]] [] ["run_id"] ["created_at"] []);
   ("root_audit_findings", table_of
      ["id"; "run_id"; "severity"; "code"; "detail"; "recomputed_root"; "onchain_root"; "created_at"]
      ["run_id"; "severity"; "code"; "detail"] [["id"]] [("run_id", ("root_audit_runs", "run_id"))] ["id"] ["created_at"] []);
   ("users", table_of
      ["id"; "display_name"; "email"; "avatar_url"; "testnet_only"; "created_at"; "updated_at"; "last_login_at"; "privy_user_id"; "primary_auth_method"]
      ["testnet_only"] [["id"]; ["privy_user_id"]] [] ["id"] ["created_at"; "updated_at"] [("testnet_only", JBool true)]);
   ("user_profiles", table_of ["user_id"; "preferences"; "risk_flags"; "created_at"; "updated_at"] ["user_id"; "preferences"; "risk_flags"]
      [["user_id"]] [users_fk] [] ["created_at"; "updated_at"] [("preferences", JObj []); ("risk_flags", JObj [])]);
   ("auth_nonces", table_of ["id"; "wallet_type"; "address"; "nonce"; "message"; "consumed_at"; "expires_at"; "created_at"]
      ["wallet_type"; "address"; "nonce"; "message"; "expires_at"] [["id"]] [] ["id"] ["created_at"] []);
   ("user_wallets", table_of
      ["id"; "user_id"; "wallet_type"; "chain"; "address"; "is_primary"; "verified_at"; "created_at"; "privy_user_id"; "wallet_source"; "privy_wallet_id"]
      ["user_id"; "wallet_type"; "chain"; "address"; "is_primary"] [["id"]; ["wallet_type"; "address"]] [users_fk] ["id"] ["created_at"]
      [("is_primary", JBool false)]);
   ("user_sessions", table_of ["id"; "user_id"; "session_hash"; "expires_at"; "created_at"; "revoked_at"]
      ["user_id"; "session_hash"; "expires_at"] [["id"]; ["session_hash"]] [users_fk] ["id"] ["created_at"] []);
   ("encrypted_note_backups", table_of ["id"; "user_id"; "commitment"; "encrypted_payload"; "encryption_version"; "created_at"]
      ["user_id"; "commitment"; "encrypted_payload"; "encryption_version"] [["id"]; ["user_id"; "commitment"]] [users_fk] ["id"] ["created_at"]
      [("encryption_version", JStr "v1")]);
   ("user_activity", table_of ["id"; "user_id"; "event_type"; "entity_type"; "entity_id"; "tx_hash"; "metadata"; "created_at"]
      ["event_type"; "metadata"] [["id"]] [users_fk] ["id"] ["created_at"] [("metadata", JObj [])]);
   ("note_vaults", table_of
      ["id"; "user_id"; "privy_user_id"; "vault_id"; "envelope"; "ciphertext"; "aad"; "backup_status"; "recovery_policy_status";
       "last_backup_verified_at"; "last_restored_at"; "created_at"; "updated_at"; "last_backup_verification"]
      ["user_id"; "privy_user_id"; "vault_id"; "envelope"; "ciphertext"; "aad"; "backup_status"; "recovery_policy_status"]
      [["id"]; ["vault_id"]] [users_fk] ["id"] ["created_at"; "updated_at"]
      [("backup_status", JStr "created"); ("recovery_policy_status", JStr "insufficient")]);
   ("note_vault_wrappers", table_of
      ["id"; "vault_id"; "user_id"; "wrapper_type"; "wrapper_status"; "metadata"; "created_at"; "last_used_at"]
      ["vault_id"; "user_id"; "wrapper_type"; "wrapper_status"; "metadata"] [["id"]]
      [("vault_id", ("note_vaults", "vault_id")); users_fk] ["id"] ["created_at"] [("wrapper_status", JStr "active"); ("metadata", JObj [])]);
   ("mpc_sessions", table_of
      ["session_id"; "status"; "started_at"; "closed_at"; "intent_count"; "match_count"; "created_at"; "updated_at"]
      ["session_id"; "status"; "intent_count"; "match_count"] [["session_id"]] [] [] ["started_at"; "created_at"; "updated_at"]
      [("status", JStr "open"); ("intent_count", JNum 0); ("match_count", JNum 0)]);
   ("mpc_intents", table_of
      ["intent_id"; "session_id"; "user_id"; "input_asset"; "output_asset"; "expiry_ledger"; "policy_id"; "note_nullifier"; "note_commitment";
       "recipient_commitment"; "status"; "matched_with"; "matched_amount_7dp"; "submitted_at"; "updated_at"]
      ["intent_id"; "session_id"; "input_asset"; "output_asset"; "expiry_ledger"; "policy_id"; "note_nullifier"; "note_commitment";
       "recipient_commitment"; "status"]
      [["intent_id"]] [("session_id", ("mpc_sessions", "session_id")); ("matched_with", ("mpc_intents", "intent_id"))] []
      ["submitted_at"; "updated_at"] [("status", JStr "pending")]);
   ("mpc_intent_shares", table_of
      ["id"; "intent_id"; "node_id"; "ciphertext"; "nonce"; "sender_pubkey"; "delivered"; "created_at"]
      ["intent_id"; "node_id"; "ciphertext"; "nonce"; "sender_pubkey"; "delivered"] [["id"]; ["intent_id"; "node_id"]]
      [("intent_id", ("mpc_intents", "intent_id"))] ["id"] ["created_at"] [("delivered", JBool false)]);
   ("mpc_committee_keys", table_of
      ["node_id"; "encryption_pubkey"; "encryption_secret"; "signing_pubkey"; "signing_secret"; "created_at"]
      ["node_id"; "encryption_pubkey"; "encryption_secret"; "signing_pubkey"; "signing_secret"] [["node_id"]] [] [] ["created_at"] []);
   ("anchor_payouts", table_of
      ["payout_id"; "user_id"; "quote_id"; "settlement_id"; "anchor_transaction_id"; "status"; "raw"; "created_at"; "updated_at"]
      ["user_id"; "quote_id"; "settlement_id"; "status"] [["payout_id"]] [] ["payout_id"] ["created_at"; "updated_at"] [("status", JStr "pending")]);
   ("view_key_reports", table_of
      ["report_id"; "user_id"; "time_range_from"; "time_range_to"; "note_commitments"; "disclosed_nullifiers"; "quote_id"; "policy_id";
       "anchor_id"; "amount_disclosed"; "proof_links"; "service_pubkey"; "service_signature"; "encrypted_attachment"; "created_at"]
      ["user_id"; "note_commitments"; "disclosed_nullifiers"; "amount_disclosed"; "proof_links"; "service_pubkey"; "service_signature"]
      [["report_id"]] [users_fk] ["report_id"] ["created_at"] [])].

(** ** Statements *)

Definition same_on (u : list string) (r r' : row) : bool := forallb (fun c => sql_eq (col c r) (col c r')) u.
Definition conflicts (us : list (list string)) (r : row) (rows : list row) : bool :=
  existsb (fun u => existsb (same_on u r) rows) us.

Definition nulls_ok (T : Table) (r : row) : bool := forallb (fun c => negb (is_null (col c r))) (required T).
Definition fk_ok (db : Tables) (fk : string * (string * string)) (v : json) : bool :=
  is_null v || existsb (fun r => sql_eq v (col fk.2.2 r)) (rows_of fk.2.1 db).
Definition fks_ok (db : Tables) (T : Table) (r : row) : bool := forallb (fun fk => fk_ok db fk (col fk.1 r)) (foreign T).

Definition default_value (T : Table) (id : string) (now : Z) (c : string) : json :=
  if bool_decide (c ∈ generated T) then JStr id
  else if bool_decide (c ∈ stamped T) then JNum now
  else default JNull (jget c (defaults T)).

(** The row an INSERT stores: a column that is not listed takes its default. *)
Definition complete_row (T : Table) (id : string) (now : Z) (r : row) : row :=
  map (fun c => (c, match jget c r with Some v => v | None => default_value T id now c end)) (columns T).

Definition unknown_column (T : Table) (r : row) : bool := existsb (fun kv => negb (bool_decide (kv.1 ∈ columns T))) r.

(** [SET c1 = v1, ...] *)
Definition set_row (sets r : row) : row := fold_left (fun r kv => jset kv.1 kv.2 r) sets r.

Fixpoint all_distinct (u : list string) (rows : list row) : bool :=
  match rows with [] => true | r :: rows => negb (existsb (same_on u r) rows) && all_distinct u rows end.

Definition touches_unique (T : Table) (sets : row) : bool :=
  existsb (fun kv => existsb (fun u => bool_decide (kv.1 ∈ u)) (uniques T)) sets.

Definition set_error (db : Tables) (T : Table) (sets : row) : option string :=
  if unknown_column T sets then Some "column does not exist"
  else if existsb (fun kv => is_null kv.2 && bool_decide (kv.1 ∈ required T)) sets then Some "null value violates not-null constraint"
  else if existsb (fun kv => existsb (fun fk => bool_decide (fk.1 = kv.1) && negb (fk_ok db fk kv.2)) (foreign T)) sets
  then Some "violates foreign key constraint"
  else None.

(** [UPDATE t SET sets WHERE cond], returning the number of rows. *)
Definition update (t : string) (cond : row -> bool) (sets : row) (db : Tables) : Tables * result nat :=
  match jget t catalogue with
  | None => (db, Err ("relation " +:+ t +:+ " does not exist"))
  | Some T =>
      let rows := rows_of t db in
      let rows' := map (fun r => if cond r then set_row sets r else r) rows in
      let n := length (List.filter cond rows) in
      if (n =? 0)%nat then
        (db, if unknown_column T sets then Err "column does not exist" else Ok 0%nat)
      else match set_error db T sets with
           | Some e => (db, Err e)
           | None =>
               if touches_unique T sets && negb (forallb (fun u => all_distinct u rows') (uniques T))
               then (db, Err "duplicate key value violates unique constraint")
               else (jset t rows' db, Ok n)
           end
  end.

Inductive on_conflict :=
| Raise                                        (** no ON CONFLICT clause *)
| DoNothing                                    (** on any unique key *)
| DoNothingOn (u : list string)
| DoUpdateOn (u : list string) (set_columns : list string) (touch : list string).
    (** SET c = excluded.c for the first list, c = now() for the second *)

Definition append (t : string) (T : Table) (r : row) (db : Tables) : Tables * result (option row) :=
  if negb (fks_ok db T r) then (db, Err "violates foreign key constraint")
  else (jset t (rows_of t db ++ [r])%list db, Ok (Some r)).

(** [INSERT INTO t VALUES r ON CONFLICT ... RETURNING *]; no row is returned
    when the statement did nothing. *)
Definition insert (t : string) (r : row) (oc : on_conflict) (id : string) (now : Z) (db : Tables) : Tables * result (option row) :=
  match jget t catalogue with
  | None => (db, Err ("relation " +:+ t +:+ " does not exist"))
  | Some T =>
      if unknown_column T r then (db, Err "column does not exist")
      else
        let new := complete_row T id now r in
        let rows := rows_of t db in
        if negb (nulls_ok T new) then (db, Err "null value violates not-null constraint")
        else
          let or_raise (quiet : bool) :=
            if quiet then (db, Ok None)
            else if conflicts (uniques T) new rows then (db, Err "duplicate key value violates unique constraint")
            else append t T new db in
          match oc with
          | Raise => or_raise false
          | DoNothing => or_raise (conflicts (uniques T) new rows)
          | DoNothingOn u => or_raise (conflicts [u] new rows)
          | DoUpdateOn u cs touch =>
              match List.find (same_on u new) rows with
              | None => or_raise false
              | Some old =>
                  let sets := (map (fun c => (c, col c new)) cs ++ map (fun c => (c, JNum now)) touch)%list in
                  match update t (same_on u new) sets db with
                  | (db, Err e) => (db, Err e)
                  | (db, Ok _) => (db, Ok (Some (set_row sets old)))
                  end
              end
          end
  end.

Definition delete (t : string) (cond : row -> bool) (db : Tables) : Tables * nat :=
  (jset t (List.filter (fun r => negb (cond r)) (rows_of t db)) db, length (List.filter cond (rows_of t db))).

Definition select (t : string) (cond : row -> bool) (db : Tables) : list row := List.filter cond (rows_of t db).

(** [ORDER BY k DESC] and ASC on a time stamp. *)
Definition time_of (k : string) (r : row) : Z := match col k r with JNum z => z | _ => 0 end.
Definition order_desc (k : string) (rows : list row) : list row := js_sort (fun a b => time_of k b <? time_of k a) rows.
Definition order_asc (k : string) (rows : list row) : list row := js_sort (fun a b => time_of k a <? time_of k b) rows.

(** ** What a statement leaves alone *)

Lemma rows_of_jset_eq t rows db : rows_of t (jset t rows db) = rows.
Proof. unfold rows_of. by rewrite jget_jset_eq. Qed.
Lemma rows_of_jset_ne t t' rows db : t <> t' -> rows_of t' (jset t rows db) = rows_of t' db.
Proof. intros. unfold rows_of. by rewrite jget_jset_ne. Qed.
#[export] Hint Rewrite rows_of_jset_eq : shade.
#[export] Hint Rewrite rows_of_jset_ne using done : shade.

Lemma update_frame t cond sets db t' : t <> t' -> rows_of t' (update t cond sets db).1 = rows_of t' db.
Proof. intros. unfold update. destruct (jget t catalogue); [|done]. repeat case_match; cbn; by rewrite ?rows_of_jset_ne. Qed.

Lemma append_frame t T r db t' : t <> t' -> rows_of t' (append t T r db).1 = rows_of t' db.
Proof. intros. unfold append. case_match; cbn; by rewrite ?rows_of_jset_ne. Qed.

Lemma insert_frame t r oc id now db t' : t <> t' -> rows_of t' (insert t r oc id now db).1 = rows_of t' db.
Proof.
  intros Ht. unfold insert. destruct (jget t catalogue) as [T|]; [|done]. destruct (unknown_column T r); [done|].
  destruct (negb _); [done|]. set (new := complete_row T id now r).
  destruct oc as [| |u|u cs touch]; [..|destruct (List.find _ _) as [old|]].
  4: { pose proof (update_frame t (same_on u new) (map (fun c => (c, col c new)) cs ++ map (fun c => (c, JNum now)) touch)%list db t' Ht) as HU.
       by destruct (update _ _ _ _) as [db' [n|e]]. }
  all: repeat case_match; try done; by apply append_frame.
Qed.

Lemma delete_frame t cond db t' : t <> t' -> rows_of t' (delete t cond db).1 = rows_of t' db.
Proof. intros. cbn. by rewrite rows_of_jset_ne. Qed.

(** ** What a statement writes *)

Lemma update_rows t cond sets db :
  rows_of t (update t cond sets db).1 = rows_of t db \/
  rows_of t (update t cond sets db).1 = map (fun r => if cond r then set_row sets r else r) (rows_of t db).
Proof.
  unfold update. destruct (jget t catalogue); [|by left]. repeat case_match; cbn; try (by left). right. by rewrite rows_of_jset_eq.
Qed.

Lemma update_Ok t cond sets db db' n :
  update t cond sets db = (db', Ok n) ->
  rows_of t db' = map (fun r => if cond r then set_row sets r else r) (rows_of t db) /\
  n = length (List.filter cond (rows_of t db)).
Proof.
  unfold update. intros H. destruct (jget t catalogue) as [T|]; [|done].
  destruct (length _ =? 0)%nat eqn:En.
  - destruct (unknown_column T sets); simplify_eq. apply Nat.eqb_eq in En. rewrite En. split; [|done].
    apply nil_length_inv in En. revert En. generalize (rows_of t db'). intros l. induction l as [|r l IH]; cbn; [done|].
    destruct (cond r); [done|]. intros E. f_equal. by apply IH.
  - repeat case_match; simplify_eq. by rewrite rows_of_jset_eq.
Qed.

(** An insertion adds its row, does nothing, or updates the rows that conflict
    with it on the given key. *)
Inductive insert_effect (t : string) (T : Table) (new : row) (oc : on_conflict) (rows rows' : list row) : Prop :=
| ie_none : rows' = rows -> insert_effect t T new oc rows rows'
| ie_added : rows' = (rows ++ [new])%list -> conflicts (uniques T) new rows = false -> insert_effect t T new oc rows rows'
| ie_updated u cs touch now : oc = DoUpdateOn u cs touch ->
    rows' = map (fun r => if same_on u new r
                          then set_row (map (fun c => (c, col c new)) cs ++ map (fun c => (c, JNum now)) touch)%list r else r) rows ->
    insert_effect t T new oc rows rows'.

Lemma insert_rows t T r oc id now db :
  jget t catalogue = Some T ->
  insert_effect t T (complete_row T id now r) oc (rows_of t db) (rows_of t (insert t r oc id now db).1).
Proof.
  intros HT. unfold insert. rewrite HT. destruct (unknown_column T r); [by apply ie_none|].
  destruct (negb _); [by apply ie_none|]. set (new := complete_row T id now r).
  destruct oc as [| |u|u cs touch]; [..|destruct (List.find _ _) as [old|]].
  4: { pose proof (update_rows t (same_on u new) (map (fun c => (c, col c new)) cs ++ map (fun c => (c, JNum now)) touch)%list db) as HU.
       destruct (update _ _ _ _) as [db' [n|e]]; cbn in HU |- *; (destruct HU as [->| ->]; [by apply ie_none|by eapply ie_updated]). }
  all: repeat case_match; cbn; try (by apply ie_none).
  all: unfold append; destruct (negb _); cbn; [by apply ie_none|]; rewrite rows_of_jset_eq; by apply ie_added.
Qed.

Lemma insert_Ok_row t r oc id now db db' new :
  insert t r oc id now db = (db', Ok (Some new)) -> oc = Raise \/ oc = DoNothing ->
  exists T, jget t catalogue = Some T /\ new = complete_row T id now r /\ rows_of t db' = (rows_of t db ++ [new])%list.
Proof.
  unfold insert. intros H Hoc. destruct (jget t catalogue) as [T|]; [|done]. exists T. split; [done|].
  destruct (unknown_column T r); [done|]. destruct (negb _); [done|].
  destruct Hoc as [-> | ->]; repeat case_match; simplify_eq; unfold append in *; repeat case_match; simplify_eq;
    by rewrite rows_of_jset_eq.
Qed.

Lemma col_set_row_ne k sets r : k ∉ sets.*1 -> col k (set_row sets r) = col k r.
Proof.
  unfold set_row. revert r. induction sets as [|[k' v] sets IH]; intros r Hk; [done|]. cbn in *.
  apply not_elem_of_cons in Hk as [Hne Hk]. rewrite IH by done. unfold col. by rewrite jget_jset_ne.
Qed.

Lemma col_complete T id now r c :
  c ∈ columns T -> col c (complete_row T id now r) = match jget c r with Some v => v | None => default_value T id now c end.
Proof.
  unfold col, complete_row. generalize (columns T). intros cs. induction cs as [|c' cs IH]; [set_solver|].
  intros Hc. cbn. case_decide as E; [by subst|]. apply IH. set_solver.
Qed.

Lemma sql_eq_spec a b : sql_eq a b = true -> a = b /\ is_null a = false.
Proof. destruct a as [|[]| | | |], b as [|[]| | | |]; cbn; intros H; try done; breflect; subst; done. Qed.

Lemma sql_eq_refl a : is_null a = false -> (forall l, a <> JArr l) -> (forall l, a <> JObj l) -> sql_eq a a = true.
Proof.
  destruct a as [|[]|z|s|l|l]; cbn; try done; intros _ H1 H2.
  - apply Z.eqb_refl. - by apply bool_decide_eq_true. - by destruct (H1 l). - by destruct (H2 l).
Qed.

Lemma where_eq_cons k v cs r : where_eq ((k, v) :: cs) r = true -> col k r = v /\ where_eq cs r = true.
Proof. cbn. intros H. apply andb_prop in H as [H1 H2]. by apply sql_eq_spec in H1 as [-> _]. Qed.
