(* ===== verification/Web.v ===== *)
(** The request runtime of the API server (apps/api/src/server.ts) and the
    logic its handlers are reasoned with.

    A handler is a computation over the database, the job queue and the log of
    calls to other services.  It may throw an error with a status code; what it
    wrote before stays written.  Environment variables, the clock, generated
    ids and random bytes, and the answers of other services are the operations
    of the class [Runtime]. *)

From S2P Require Import Prelude Text Json Queue Sql.
Local Open Scope string_scope.
Local Open Scope Z_scope.

Inductive ApiCall :=
| Fetch (method url : string) (body : option json)
| BuildInvokeXdr (source contract method : string) (params : list json)     (** @shade/stellar-actions *)
| BuildUnsignedTx (from contract method : string) (params : list json).     (** @shade/arc-actions *)

Class Runtime := {
  process_env : list (string * string);
  uuid : nat -> string;                    (** the ids and random tokens, in the order they are drawn *)
  now : Z;                                 (** milliseconds *)
  iso_now : string;                        (** [new Date().toISOString()] *)
  answer : ApiCall -> result (Z * json)    (** status code and parsed body *)
}.

Record Request := {
  authorization : option string;
  cookie : option string;
  idempotency_header : option string;
  req_body : json }.

Record World := { w_db : Tables; w_jobs : JobDb; w_calls : list ApiCall; w_next : nat }.

Inductive outcome (A : Type) := Done (a : A) | Fail (code : Z) (msg : string).
Arguments Done {A} a.
Arguments Fail {A} code msg.

Definition M (A : Type) : Type := World -> World * outcome A.
Definition ret {A} (a : A) : M A := fun w => (w, Done a).
Definition fail {A} (code : Z) (msg : string) : M A := fun w => (w, Fail code msg).
Definition bindM {A B} (c : M A) (k : A -> M B) : M B :=
  fun w => match c w with (w, Done a) => k a w | (w, Fail n e) => (w, Fail n e) end.
(** [try { c } catch (e) { d }] *)
Definition catch {A} (c : M A) (d : string -> M A) : M A :=
  fun w => match c w with (w, Done a) => (w, Done a) | (w, Fail _ e) => d e w end.

Notation "'do!' x ':=' c 'in' k" := (bindM c (fun x => k))
  (at level 10, x pattern, c at level 100, k at level 200) : shade_scope.
Notation "'fail_if' b 'with' n , m 'in' k" := (if b then fail n m else k)
  (at level 10, b at level 100, n at level 99, m at level 100, k at level 200) : shade_scope.

(** An error without a status code is answered with 500. *)
Definition lift {A} (r : result A) : M A := match r with Ok a => ret a | Err e => fail 500 e end.
Definition with_code {A} (code : Z) (r : result A) : M A := match r with Ok a => ret a | Err e => fail code e end.

(** A reply: status code and body. *)
Definition reply : Type := Z * json.
Definition ok (body : list (string * json)) : M reply := ret (200, JObj body).
Definition answer_error (code : Z) (msg : string) : M reply := ret (code, JObj [("error", JStr msg)]).

(** [app.setErrorHandler] *)
Definition serve (h : M reply) (w : World) : World * reply :=
  match h w with
  | (w, Done r) => (w, r)
  | (w, Fail code msg) => (w, (code, JObj [("error", JStr msg)]))
  end.

Section Effects.
Context {RT : Runtime}.

Definition draw : M string :=
  fun w => ({| w_db := w_db w; w_jobs := w_jobs w; w_calls := w_calls w; w_next := S (w_next w) |}, Done (uuid (w_next w))).

(** A statement that returns rows or a count; its generated ids are drawn first. *)
Definition statement {A} (f : string -> Z -> Tables -> Tables * result A) : M A :=
  do! id := draw in
  fun w => match f id now (w_db w) with
           | (db, Ok a) => ({| w_db := db; w_jobs := w_jobs w; w_calls := w_calls w; w_next := w_next w |}, Done a)
           | (db, Err e) => ({| w_db := db; w_jobs := w_jobs w; w_calls := w_calls w; w_next := w_next w |}, Fail 500 e)
           end.

Definition sql_insert (t : string) (r : row) (oc : on_conflict) : M (option row) := statement (insert t r oc).
Definition sql_update (t : string) (cond : row -> bool) (sets : Z -> row) : M nat :=
  statement (fun _ n => update t cond (sets n)).
Definition sql_delete (t : string) (cond : row -> bool) : M nat :=
  statement (fun _ _ db => let '(db', n) := delete t cond db in (db', Ok n)).
Definition sql_select (t : string) (cond : row -> bool) : M (list row) := fun w => (w, Done (select t cond (w_db w))).

Definition enqueue_job (q : QueueName) (jobType : string) (payload : json) (key : option string) : M ServiceJob :=
  do! id := draw in
  fun w => match enqueue q jobType payload key id now (w_jobs w) with
           | (js, Ok j) => ({| w_db := w_db w; w_jobs := js; w_calls := w_calls w; w_next := w_next w |}, Done j)
           | (js, Err e) => ({| w_db := w_db w; w_jobs := js; w_calls := w_calls w; w_next := w_next w |}, Fail 500 e)
           end.

Definition call (c : ApiCall) : M (Z * json) :=
  fun w => ({| w_db := w_db w; w_jobs := w_jobs w; w_calls := (w_calls w ++ [c])%list; w_next := w_next w |},
            match answer c with Ok r => Done r | Err e => Fail 500 e end).

(** [process.env.K]; [None] is undefined. *)
Definition env_var (k : string) : option string := jget k process_env.
(** [process.env.K ?? d] and [process.env.K || d] *)
Definition env_default (k d : string) : string := default d (env_var k).
Definition env_or (k d : string) : string :=
  match env_var k with Some v => if bool_decide (v = "") then d else v | None => d end.
Definition env_set (k : string) : bool := negb (bool_decide (env_or k "" = "")).
Definition env_is (k v : string) : bool := bool_decide (env_var k = Some v).

Fixpoint for_each {A} (f : A -> M unit) (l : list A) : M unit :=
  match l with [] => ret tt | a :: l => do! _ := f a in for_each f l end.

End Effects.

(** [resp.ok] *)
Definition resp_ok (r : Z * json) : bool := (200 <=? r.1) && (r.1 <? 300).

(** [first row ?? null] *)
Definition first_row {A} (l : list A) : option A := head l.
Definition row_json (o : option row) : json := match o with Some r => JObj r | None => JNull end.
Definition rows_json (l : list row) : json := JArr (map JObj l).
(** A value that is missing when it is [undefined]. *)
Definition opt (o : option json) : json := default JNull o.
Definition opt_str (o : option string) : json := match o with Some s => JStr s | None => JNull end.
(** [body.k] of a parsed body, [undefined] as [JNull]. *)
Definition field (k : string) (v : json) : json := default JNull (prop k v).
(** [String(body.k)] where the parsed field is text. *)
Definition text (k : string) (v : json) : string := match prop k v with Some x => to_primitive x | None => "undefined" end.
Definition text_opt (k : string) (v : json) : option string := match prop k v with Some (JStr s) => Some s | _ => None end.
(** [{ ...v }] *)
Definition spread (v : json) : list (string * json) := match v with JObj l => l | _ => [] end.
(** [{ ...a, ...b }]: later entries overwrite. *)
Definition merge (a b : list (string * json)) : list (string * json) := fold_left (fun m kv => jset kv.1 kv.2 m) b a.

(** ** A program logic for handlers *)

(** From a state with [P], [m] ends normally in [Q] or throws in [E]. *)
Definition hoare {A} (P : World -> Prop) (m : M A) (Q : A -> World -> Prop) (E : World -> Prop) : Prop :=
  forall w, P w -> match m w with (w', Done a) => Q a w' | (w', Fail _ _) => E w' end.

Definition keeps {A} (I : World -> Prop) (m : M A) : Prop := hoare I m (fun _ => I) I.

Section Rules.
Context {RT : Runtime}.

Lemma bindM_Done {A B} (c : M A) (k : A -> M B) w w' b :
  bindM c k w = (w', Done b) <-> exists w1 a, c w = (w1, Done a) /\ k a w1 = (w', Done b).
Proof.
  unfold bindM. destruct (c w) as [w1 [a|n e]]; split.
  - intros H. by exists w1, a. - by intros (? & ? & [= <- <-] & ?). - done. - by intros (? & ? & ? & _).
Qed.

Lemma hoare_ret {A} P (a : A) Q E : (forall w, P w -> Q a w) -> hoare P (ret a) Q E.
Proof. intros H w Hw. by apply H. Qed.
Lemma hoare_fail {A} P n e Q (E : World -> Prop) : (forall w, P w -> E w) -> hoare P (@fail A n e) Q E.
Proof. intros H w Hw. by apply H. Qed.
Lemma hoare_bind {A B} P (c : M A) (k : A -> M B) R Q E :
  hoare P c R E -> (forall a, hoare (R a) (k a) Q E) -> hoare P (bindM c k) Q E.
Proof. intros Hc Hk w Hw. specialize (Hc w Hw). unfold bindM. destruct (c w) as [w1 [a|n e]]; [|done]. by apply Hk. Qed.
Lemma hoare_weaken {A} P P' (m : M A) (Q Q' : A -> World -> Prop) (E E' : World -> Prop) :
  hoare P' m Q' E' -> (forall w, P w -> P' w) -> (forall a w, Q' a w -> Q a w) -> (forall w, E' w -> E w) -> hoare P m Q E.
Proof. intros H HP HQ HE w Hw. specialize (H w (HP w Hw)). destruct (m w) as [w' [a|n e]]; auto. Qed.

Lemma keeps_bind {A B} I (c : M A) (k : A -> M B) : keeps I c -> (forall a, keeps I (k a)) -> keeps I (bindM c k).
Proof. intros. by eapply hoare_bind. Qed.
Lemma keeps_ret {A} I (a : A) : keeps I (ret a).
Proof. by apply hoare_ret. Qed.
Lemma keeps_fail {A} I n e : keeps I (@fail A n e).
Proof. by apply hoare_fail. Qed.
Lemma keeps_lift {A} I (r : result A) : keeps I (lift r).
Proof. destruct r; [apply keeps_ret|apply keeps_fail]. Qed.
Lemma keeps_with_code {A} I n (r : result A) : keeps I (with_code n r).
Proof. destruct r; [apply keeps_ret|apply keeps_fail]. Qed.
Lemma keeps_catch {A} I (c : M A) d : keeps I c -> (forall e, keeps I (d e)) -> keeps I (catch c d).
Proof. intros Hc Hd w Hw. specialize (Hc w Hw). unfold catch. destruct (c w) as [w1 [a|n e]]; [done|]. by apply Hd. Qed.
Lemma keeps_for_each {A} I (f : A -> M unit) l : (forall a, keeps I (f a)) -> keeps I (for_each f l).
Proof. intros Hf. induction l as [|a l IH]; [apply keeps_ret|]. by apply keeps_bind. Qed.
Lemma keeps_select I t cond : keeps I (sql_select t cond).
Proof. by intros w Hw. Qed.

(** Invariants of the database alone are kept by everything but statements. *)
Definition on_db (I : Tables -> Prop) : World -> Prop := fun w => I (w_db w).

Lemma keeps_draw I : keeps (on_db I) draw.
Proof. by intros w Hw. Qed.
Lemma keeps_call I c : keeps (on_db I) (call c).
Proof. intros w Hw. unfold call. by destruct (answer c). Qed.
Lemma keeps_enqueue I q t p k : keeps (on_db I) (enqueue_job q t p k).
Proof.
  apply keeps_bind; [apply keeps_draw|]. intros id w Hw. cbn. by destruct (enqueue _ _ _ _ _ _ _) as [js [j|e]].
Qed.
Lemma keeps_statement {A} (I : Tables -> Prop) (f : string -> Z -> Tables -> Tables * result A) :
  (forall id db, I db -> I (f id now db).1) -> keeps (on_db I) (statement f).
Proof.
  intros Hf. apply keeps_bind; [apply keeps_draw|]. intros id w Hw. specialize (Hf id _ Hw).
  by destruct (f id now (w_db w)) as [db [a|e]].
Qed.

(** Invariants of the queue alone are kept by everything but [enqueue_job]. *)
Definition on_jobs (I : JobDb -> Prop) : World -> Prop := fun w => I (w_jobs w).
Lemma keeps_statement_jobs {A} I (f : string -> Z -> Tables -> Tables * result A) : keeps (on_jobs I) (statement f).
Proof.
  intros w Hw. unfold statement, bindM. cbn. by destruct (f _ _ _) as [db [a|e]].
Qed.
Lemma keeps_call_jobs I c : keeps (on_jobs I) (call c).
Proof. intros w Hw. unfold call. by destruct (answer c). Qed.

(** The rows of a table a computation does not write. *)
Lemma insert_keeps (t : string) r oc (t' : string) (Q : list row -> Prop) :
  t <> t' -> keeps (on_db (fun db => Q (rows_of t' db))) (sql_insert t r oc).
Proof. intros Ht. apply keeps_statement. intros id db H. by rewrite insert_frame. Qed.
Lemma update_keeps (t : string) cond sets (t' : string) (Q : list row -> Prop) :
  t <> t' -> keeps (on_db (fun db => Q (rows_of t' db))) (sql_update t cond sets).
Proof. intros Ht. apply keeps_statement. intros id db H. by rewrite update_frame. Qed.
Lemma delete_keeps (t : string) cond (t' : string) (Q : list row -> Prop) :
  t <> t' -> keeps (on_db (fun db => Q (rows_of t' db))) (sql_delete t cond).
Proof. intros Ht. apply keeps_statement. intros id db H. cbn. by rewrite rows_of_jset_ne. Qed.

End Rules.

Create HintDb handlers.
#[export] Hint Resolve keeps_bind keeps_ret keeps_fail keeps_lift keeps_with_code keeps_catch keeps_for_each keeps_select keeps_draw
  keeps_call keeps_enqueue : handlers.
#[export] Hint Resolve insert_keeps update_keeps delete_keeps : handlers.

(** Split a handler at its binds and branches, close the pieces with the rules. *)
Ltac keeps_tac :=
  repeat first
    [ progress intros
    | apply keeps_bind | apply keeps_ret | apply keeps_fail | apply keeps_lift | apply keeps_with_code | apply keeps_catch
    | apply keeps_for_each | apply keeps_select | apply keeps_draw | apply keeps_call | apply keeps_enqueue
    | (apply insert_keeps; discriminate) | (apply update_keeps; discriminate) | (apply delete_keeps; discriminate)
    | case_match ].
