(* ===== verification/Footprint.v ===== *)
(** What a handler writes.

    [writes P m] says that every statement and every job the computation [m]
    issues satisfies [P].  An invariant of the database and the queue that all
    such effects preserve is preserved by [m] ([writes_keeps]).  [db_wf] is the
    typing of the database: each row has the columns of its table, required
    columns are set and no key occurs twice; every statement preserves it,
    whatever it writes. *)

From S2P Require Import Prelude Text Json Queue Sql Web.
Local Open Scope string_scope.
Local Open Scope Z_scope.

Inductive write :=
| WInsert (t : string) (r : row) (oc : on_conflict)
| WUpdate (t : string) (cond : row -> bool) (sets : row)
| WDelete (t : string) (cond : row -> bool)
| WJob (q : QueueName) (jobType : string) (payload : json) (key : option string).

(** Database and queue after an effect, its result ignored. *)
Definition exec (o : write) (id : string) (n : Z) (s : Tables * JobDb) : Tables * JobDb :=
  match o with
  | WInsert t r oc => ((insert t r oc id n s.1).1, s.2)
  | WUpdate t cond sets => ((update t cond sets s.1).1, s.2)
  | WDelete t cond => ((delete t cond s.1).1, s.2)
  | WJob q t p k => (s.1, (enqueue q t p k id n s.2).1)
  end.

Definition table (o : write) : string := match o with WInsert t _ _ | WUpdate t _ _ | WDelete t _ => t | WJob _ _ _ _ => "service_jobs" end.
Definition is_job (o : write) : bool := match o with WJob _ _ _ _ => true | _ => false end.

Lemma exec_frame o id n s t : table o <> t -> rows_of t (exec o id n s).1 = rows_of t s.1.
Proof. destruct o; cbn; intros; [by apply insert_frame|by apply update_frame|by apply delete_frame|done]. Qed.
Lemma exec_jobs o id n s : is_job o = false -> (exec o id n s).2 = s.2.
Proof. by destruct o. Qed.

Definition state (w : World) : Tables * JobDb := (w_db w, w_jobs w).
Definition on_state (I : Tables * JobDb -> Prop) : World -> Prop := fun w => I (state w).

Section Footprint.
Context {RT : Runtime}.

Inductive writes (P : write -> Prop) : forall {A}, M A -> Prop :=
| writes_ret A (a : A) : writes P (ret a)
| writes_fail A n e : writes P (@fail A n e)
| writes_bind A B (c : M A) (k : A -> M B) : writes P c -> (forall a, writes P (k a)) -> writes P (bindM c k)
| writes_catch A (c : M A) d : writes P c -> (forall e, writes P (d e)) -> writes P (catch c d)
| writes_read A (f : World -> A) : writes P (fun w => (w, Done (f w)))
| writes_draw : writes P draw
| writes_call c : writes P (call c)
| writes_enqueue q t p k : P (WJob q t p k) -> writes P (enqueue_job q t p k)
| writes_insert t r oc : P (WInsert t r oc) -> writes P (sql_insert t r oc)
| writes_update t cond sets : P (WUpdate t cond (sets now)) -> writes P (sql_update t cond sets)
| writes_delete t cond : P (WDelete t cond) -> writes P (sql_delete t cond).

Lemma writes_lift P {A} (r : result A) : writes P (lift r).
Proof. destruct r; constructor. Qed.
Lemma writes_select P t cond : writes P (sql_select t cond).
Proof. apply (writes_read P _ (fun w => select t cond (w_db w))). Qed.
Lemma writes_for_each P {A} (f : A -> M unit) l : (forall a, writes P (f a)) -> writes P (for_each f l).
Proof. intros Hf. induction l as [|a l IH]; constructor; auto. Qed.

Lemma writes_impl (P Q : write -> Prop) {A} (m : M A) : (forall o, P o -> Q o) -> writes P m -> writes Q m.
Proof.
  intros HPQ H. induction H; [apply writes_ret|apply writes_fail|by apply writes_bind|by apply writes_catch|apply writes_read|apply writes_draw|
    apply writes_call|apply writes_enqueue; auto|apply writes_insert; auto|apply writes_update; auto|apply writes_delete; auto].
Qed.

(** A statement acts on the state as [exec] does. *)
Lemma keeps_exec {A} (I : Tables * JobDb -> Prop) (o : write) (f : string -> Z -> Tables -> Tables * result A) :
  (forall id db js, exec o id now (db, js) = ((f id now db).1, js)) -> (forall id s, I s -> I (exec o id now s)) -> keeps (on_state I) (statement f).
Proof.
  intros Hf HI w Hw. unfold statement, bindM. cbn. specialize (HI (uuid (w_next w)) _ Hw). unfold state in HI. rewrite Hf in HI.
  by destruct (f (uuid (w_next w)) now (w_db w)) as [db [a|e]].
Qed.

(** The invariant rule. *)
Theorem writes_keeps (P : write -> Prop) (I : Tables * JobDb -> Prop) {A} (m : M A) :
  (forall o id n s, P o -> I s -> I (exec o id n s)) -> writes P m -> keeps (on_state I) m.
Proof.
  intros HI H. induction H as [A a|A n e|A B c k _ IHc _ IHk|A c d _ IHc _ IHd|A f| |c|q t p k HP|t r oc HP|t cond sets HP|t cond HP].
  - apply keeps_ret. - apply keeps_fail. - by apply keeps_bind. - by apply keeps_catch. - by intros w Hw. - by intros w Hw.
  - intros w Hw. unfold call. by destruct (answer c).
  - intros w Hw. unfold enqueue_job, bindM. cbn. specialize (HI _ (uuid (w_next w)) now _ HP Hw). cbn in HI.
    by destruct (enqueue _ _ _ _ _ _ _) as [js [j|e]].
  - by apply (keeps_exec I (WInsert t r oc)); auto.
  - by apply (keeps_exec I (WUpdate t cond (sets now))); auto.
  - by apply (keeps_exec I (WDelete t cond)); auto.
Qed.

(** The log of calls only grows. *)
Lemma writes_calls (P : write -> Prop) {A} (m : M A) : writes P m -> forall w, exists cs, w_calls (m w).1 = (w_calls w ++ cs)%list.
Proof.
  intros H. induction H as [A a|A n e|A B c k _ IHc _ IHk|A c d _ IHc _ IHd|A f| |c|q t p k _|t r oc _|t cond sets _|t cond _]; intros w;
    try (exists []; rewrite app_nil_r; done).
  - unfold bindM. destruct (IHc w) as [cs E]. destruct (c w) as [w1 [a|n e]]; [|by exists cs]. cbn in E.
    destruct (IHk a w1) as [cs' E']. exists (cs ++ cs')%list. by rewrite E', E, (assoc_L (++)%list).
  - unfold catch. destruct (IHc w) as [cs E]. destruct (c w) as [w1 [a|n e]]; [by exists cs|]. cbn in E.
    destruct (IHd e w1) as [cs' E']. exists (cs ++ cs')%list. by rewrite E', E, (assoc_L (++)%list).
  - by exists [c].
  - exists []. rewrite app_nil_r. unfold enqueue_job, bindM. cbn. by destruct (enqueue _ _ _ _ _ _ _) as [js [j|e]].
  - exists []. rewrite app_nil_r. unfold sql_insert, statement, bindM. cbn. by destruct (insert _ _ _ _ _ _) as [db [j|e]].
  - exists []. rewrite app_nil_r. unfold sql_update, statement, bindM. cbn. by destruct (update _ _ _ _) as [db [j|e]].
Qed.

Lemma keeps_serve I (h : M reply) w : keeps (on_state I) h -> I (state w) -> I (state (serve h w).1).
Proof. intros H Hw. specialize (H w Hw). unfold serve. by destruct (h w) as [w' [a|n e]]. Qed.

End Footprint.

(** Split a computation into its statements: structural rules first, then the
    branches, then the definition of the method called. *)
(** Decide a closed membership by evaluation. *)
Ltac member_tac := apply (bool_decide_unpack _); vm_compute; exact I.

Ltac head_of t := lazymatch t with ?f _ => head_of f | _ => t end.

Ltac writes_tac :=
  intros;
  lazymatch goal with
  | |- writes _ (ret _) => apply writes_ret
  | |- writes _ (fail _ _) => apply writes_fail
  | |- writes _ (bindM _ _) => apply writes_bind; writes_tac
  | |- writes _ (catch _ _) => apply writes_catch; writes_tac
  | |- writes _ (lift _) => apply writes_lift
  | |- writes _ draw => apply writes_draw
  | |- writes _ (call _) => apply writes_call
  | |- writes _ (enqueue_job _ _ _ _) => apply writes_enqueue
  | |- writes _ (sql_select _ _) => apply writes_select
  | |- writes _ (sql_insert _ _ _) => apply writes_insert
  | |- writes _ (sql_update _ _ _) => apply writes_update
  | |- writes _ (sql_delete _ _) => apply writes_delete
  | |- writes _ (for_each _ _) => apply writes_for_each; writes_tac
  | |- writes _ (match ?x with _ => _ end) => first [destruct x eqn:? | destruct x]; writes_tac
  | |- writes _ (fun _ => _) => apply writes_read
  | |- writes _ ?m => let h := head_of m in unfold h; cbv beta; writes_tac
  end.

(** ** Typing of the database *)

Definition row_ok (T : Table) (r : row) : Prop := r.*1 = columns T /\ nulls_ok T r = true.
Definition keys_ok (T : Table) (rows : list row) : Prop := Forall (fun u => all_distinct u rows = true) (uniques T).
Record table_ok (T : Table) (rows : list row) : Prop := { to_rows : Forall (row_ok T) rows; to_keys : keys_ok T rows }.
Definition db_wf (db : Tables) : Prop := forall t T, jget t catalogue = Some T -> table_ok T (rows_of t db).

Lemma sql_eq_sym a b : sql_eq a b = sql_eq b a.
Proof.
  destruct a as [|[]|z|s| |], b as [|[]|z'|s'| |]; try done; cbn; [apply Z.eqb_sym|]. by apply bool_decide_ext.
Qed.
Lemma same_on_sym u r s : same_on u r s = same_on u s r.
Proof. unfold same_on. induction u as [|c u IH]; [done|]. cbn. by rewrite IH, sql_eq_sym. Qed.

Lemma all_distinct_app u rows new :
  all_distinct u (rows ++ [new]) = all_distinct u rows && negb (existsb (same_on u new) rows).
Proof.
  induction rows as [|r rows IH]; [done|]. cbn. rewrite IH, existsb_app. cbn. rewrite orb_false_r, (same_on_sym u r new).
  destruct (existsb (same_on u r) rows), (same_on u new r), (all_distinct u rows), (existsb (same_on u new) rows); done.
Qed.

Lemma existsb_false {A} (f : A -> bool) l : existsb f l = false <-> forall x, In x l -> f x = false.
Proof.
  induction l as [|a l IH]; cbn; [by split|]. rewrite orb_false_iff, IH. split.
  - intros [Ha Hl] x [<-|Hx]; auto. - auto.
Qed.

Lemma all_distinct_filter u p rows : all_distinct u rows = true -> all_distinct u (List.filter p rows) = true.
Proof.
  induction rows as [|r rows IH]; [done|]. cbn. intros [H1 H2]%andb_prop. destruct (p r); cbn; [|by apply IH].
  rewrite IH, andb_true_r by done. apply negb_true_iff. apply negb_true_iff in H1.
  rewrite existsb_false in H1 |- *. intros x [Hx _]%filter_In. by apply H1.
Qed.

(** A change of other columns keeps a key. *)
Lemma all_distinct_map u (f : row -> row) rows :
  (forall r c, c ∈ u -> col c (f r) = col c r) -> all_distinct u (map f rows) = all_distinct u rows.
Proof.
  intros Hf. assert (forall r s, same_on u (f r) (f s) = same_on u r s) as HS.
  { intros r s. unfold same_on. induction u as [|c u IH]; [done|]. cbn. rewrite !Hf, IH by set_solver. done. }
  induction rows as [|r rows IH]; [done|]. cbn. rewrite IH. do 2 f_equal.
  clear IH. induction rows as [|s rows IH]; [done|]. cbn. by rewrite HS, IH.
Qed.

Lemma jset_same_keys {V} (k : string) (v : V) l : k ∈ l.*1 -> (jset k v l).*1 = l.*1.
Proof.
  induction l as [|[k' v'] l IH]; cbn; [set_solver|]. intros Hk. case_decide as E; cbn; [by subst|].
  f_equal. apply IH. set_solver.
Qed.

Lemma set_row_keys T sets r : unknown_column T sets = false -> r.*1 = columns T -> (set_row sets r).*1 = columns T.
Proof.
  unfold set_row, unknown_column. revert r. induction sets as [|[k v] sets IH]; intros r Hu Hr; [done|]. cbn in *.
  apply orb_false_iff in Hu as [Hk Hu]. apply negb_false_iff, bool_decide_eq_true in Hk. apply IH; [done|].
  rewrite jset_same_keys; [done|]. by rewrite Hr.
Qed.

(** A column after an assignment: unchanged, or one of the assigned values. *)
Lemma col_set_row c sets r : col c (set_row sets r) = col c r \/ (c, col c (set_row sets r)) ∈ sets.
Proof.
  unfold set_row. revert r. induction sets as [|[k v] sets IH]; intros r; [by left|]. cbn.
  destruct (IH (jset k v r)) as [E|E]; [|right; by right]. rewrite E. unfold col.
  destruct (decide (k = c)) as [->|Hne]; [|left; by rewrite jget_jset_ne].
  right. rewrite jget_jset_eq. by left.
Qed.

Lemma nulls_ok_spec T r : nulls_ok T r = true <-> forall c, In c (required T) -> is_null (col c r) = false.
Proof. unfold nulls_ok. rewrite forallb_forall. by setoid_rewrite negb_true_iff. Qed.

Lemma set_row_nulls db T sets r : set_error db T sets = None -> nulls_ok T r = true -> nulls_ok T (set_row sets r) = true.
Proof.
  unfold set_error. rewrite !nulls_ok_spec. intros HE Hr c Hc. destruct (unknown_column T sets); [done|].
  destruct (existsb _ sets) eqn:EN; [done|]. rewrite existsb_false in EN.
  destruct (col_set_row c sets r) as [->|Hin]; [by apply Hr|].
  apply list_elem_of_In in Hin. specialize (EN _ Hin). cbn in EN.
  apply andb_false_iff in EN as [->|EN]; [done|]. apply bool_decide_eq_false in EN. destruct EN. by apply list_elem_of_In.
Qed.

Lemma complete_row_ok T id n r : nulls_ok T (complete_row T id n r) = true -> row_ok T (complete_row T id n r).
Proof. intros Hn. split; [|done]. unfold complete_row. induction (columns T) as [|c cs IH]; [done|]. cbn. by rewrite IH. Qed.

Lemma update_table_ok t T cond sets db :
  jget t catalogue = Some T -> table_ok T (rows_of t db) -> table_ok T (rows_of t (update t cond sets db).1).
Proof.
  intros HT [HR HK]. unfold keys_ok in HK. unfold update. rewrite HT. destruct (_ =? 0)%nat; [done|].
  destruct (set_error db T sets) eqn:HE; [done|]. destruct (_ && _) eqn:HU; [done|]. cbn. rewrite rows_of_jset_eq.
  split.
  - apply Forall_map. eapply list.Forall_impl; [exact HR|]. intros r [Hk Hn]. destruct (cond r); [|done]. split.
    + apply set_row_keys; [|done]. unfold set_error in HE. by destruct (unknown_column T sets).
    + by eapply set_row_nulls.
  - apply andb_false_iff in HU as [HU|HU].
    + apply list.Forall_forall. intros u Hu. rewrite all_distinct_map.
      * rewrite list.Forall_forall in HK. by apply HK.
      * intros r c Hc. destruct (cond r); [|done]. apply col_set_row_ne. intros Hin. apply list_elem_of_fmap in Hin as (kv & -> & Hin).
        unfold touches_unique in HU. rewrite existsb_false in HU. apply list_elem_of_In in Hin. specialize (HU _ Hin).
        rewrite existsb_false in HU. apply list_elem_of_In in Hu. specialize (HU _ Hu). by apply bool_decide_eq_false in HU.
    + apply negb_false_iff in HU. rewrite forallb_forall in HU. apply list.Forall_forall. intros u Hu. by apply HU, list_elem_of_In.
Qed.

Lemma append_table_ok t T new db :
  row_ok T new -> conflicts (uniques T) new (rows_of t db) = false -> table_ok T (rows_of t db) ->
  table_ok T (rows_of t (append t T new db).1).
Proof.
  intros Hn Hc [HR HK]. unfold append. destruct (negb _); [done|]. cbn. rewrite rows_of_jset_eq. split.
  - by apply Forall_app_2; [|apply Forall_singleton].
  - unfold conflicts in Hc. rewrite existsb_false in Hc. unfold keys_ok in *. rewrite list.Forall_forall in HK |- *. intros u Hu.
    rewrite all_distinct_app, HK by done. cbn. by rewrite Hc by by apply list_elem_of_In.
Qed.

Lemma insert_table_ok t T r oc id n db :
  jget t catalogue = Some T -> table_ok T (rows_of t db) -> table_ok T (rows_of t (insert t r oc id n db).1).
Proof.
  intros HT Hok. unfold insert. rewrite HT. destruct (unknown_column T r); [done|]. destruct (negb _) eqn:HN; [done|].
  apply negb_false_iff in HN. pose proof (complete_row_ok T id n r HN) as Hrow. clear HN. set (new := complete_row T id n r) in *.
  destruct oc as [| |u|u cs touch]; [..|destruct (List.find _ _) as [old|]].
  4: { pose proof (update_table_ok t T (same_on u new) (map (fun c => (c, col c new)) cs ++ map (fun c => (c, JNum n)) touch)%list db HT Hok) as HU.
       by destruct (update _ _ _ _) as [db' [k|e]]. }
  all: repeat case_match; try done; by apply append_table_ok.
Qed.

Lemma delete_table_ok t T cond db : table_ok T (rows_of t db) -> table_ok T (rows_of t (delete t cond db).1).
Proof.
  intros [HR HK]. cbn. rewrite rows_of_jset_eq. split.
  - apply list.Forall_forall. intros r [Hr _]%list_elem_of_In%filter_In. rewrite list.Forall_forall in HR. by apply HR, list_elem_of_In.
  - unfold keys_ok in *. eapply list.Forall_impl; [exact HK|]. intros u. apply all_distinct_filter.
Qed.

Lemma exec_wf o id n s : db_wf s.1 -> db_wf (exec o id n s).1.
Proof.
  intros Hdb t T HT. destruct (decide (table o = t)) as [<-|Hne]; [|rewrite exec_frame by done; by apply Hdb].
  destruct o; cbn in *; [apply insert_table_ok|apply update_table_ok|apply delete_table_ok|]; auto.
Qed.

Lemma empty_wf : db_wf [].
Proof. intros t T _. split; [by apply Forall_nil|]. apply Forall_true. by intros u. Qed.
