(* ===== verification/Schemas.v ===== *)
(** The request schemas (apps/api/src/schemas.ts, packages/rfq-types/src/index.ts).

    A schema is the data the source builds with zod's combinators.  Zod itself
    is the class [Zod]: [zparse s v] is the value [s.parse(v)] returns, [None]
    its ZodError.  [zod_ref] interprets schemas the way zod documents them; it
    is the instance the concrete examples run on. *)

From S2P Require Import Prelude Text Json Sql Web.
Local Open Scope string_scope.
Local Open Scope Z_scope.

Inductive string_check := CMin (n : nat) | CMax (n : nat) | CRegex (matches : string -> bool) | CUuid | CEmail | CUrl | CDatetime.
Inductive number_check := CInt | CPositive.

Inductive schema :=
| ZString (cs : list string_check)
| ZNumber (cs : list number_check)
| ZBoolean
| ZLiteral (v : json)
| ZEnum (vs : list string)
| ZRecord                                   (** z.record(z.unknown()) *)
| ZArray (s : schema) (lo hi : option nat)
| ZObject (fields : list (string * schema))
| ZOptional (s : schema)
| ZDefault (s : schema) (d : json)
| ZRefine (s : schema) (p : json -> bool).

Class Zod := { zparse : schema -> json -> option json }.

Section Parse.
Context {Z : Zod}.
(** The server answers a ZodError with 400. *)
Definition parse (s : schema) (v : json) : M json :=
  match zparse s v with Some x => ret x | None => fail 400 "invalid request body" end.
End Parse.

(** ** Regular expressions *)

Definition nonempty_all (f : ascii -> bool) (s : string) : bool := negb (bool_decide (s = "")) && str_forall f s.
Definition is_hex (c : ascii) : bool := bool_decide (is_Some (hex_val c)).
(** [/^\d+$/] *)
Definition digits (s : string) : bool := nonempty_all is_digit s.
(** [/^0x[a-fA-F0-9]{n}$/] *)
Definition hex0x (n : nat) (s : string) : bool :=
  match strip_prefix "0x" s with Some t => (String.length t =? n)%nat && str_forall is_hex t | None => false end.
(** [/^[0-9a-fA-F]{64}$/] *)
Definition hex64 (s : string) : bool := (String.length s =? 64)%nat && str_forall is_hex s.
(** [/^\d+(\.\d+)?$/] *)
Definition decimal (s : string) : bool :=
  let '(a, rest) := span_digits s in
  negb (bool_decide (a = "")) && match rest with "" => true | String c t => Ascii.eqb c "." && digits t end.
Definition is_base32 (c : ascii) : bool := let n := byte_val c in ((65 <=? n) && (n <=? 90)) || ((50 <=? n) && (n <=? 55)).
(** [/^G[A-Z2-7]{55}$/] *)
Definition stellar_address (s : string) : bool :=
  match s with String "G" t => (String.length t =? 55)%nat && str_forall is_base32 t | _ => false end.

(** ** The schemas *)

Definition str1 : schema := ZString [CMin 1].

Definition idempotencyHeader : schema := ZObject [("idempotency-key", ZString [CMin 8])].

Definition prepareDepositSchema : schema := ZObject
  [("amount_usdc_6dp", ZString [CRegex digits]); ("asset_id", str1); ("owner_public_key", str1); ("spend_public_key", str1);
   ("compliance_tag", str1); ("source_context", str1); ("memo_commitment", str1); ("encrypted_note_payload_hash", str1);
   ("policy_id", str1); ("shade_vault_contract", str1)].

Definition proofRequestSchema : schema := ZObject
  [("proof_type", ZEnum ["deposit_note_mint"; "withdraw_public"; "withdraw_cctp"; "rfq_settlement"; "private_transfer"]);
   ("public_inputs", ZRecord); ("witness", ZOptional ZRecord)].

Definition withdrawalSchema : schema := ZObject
  [("root", str1); ("nullifier", str1); ("asset_id", str1); ("amount_public", ZString [CRegex digits]); ("recipient", str1);
   ("relayer_fee", ZString [CRegex digits]); ("deadline_ledger", ZNumber [CInt; CPositive]); ("policy_id", str1); ("pool_id", str1);
   ("chain_id", str1)].

Definition quoteAcceptanceSchema : schema := ZObject [("intent_hash", str1); ("user_signature_hash", str1)].

Definition lockSchema : schema := ZObject
  [("solver_id", str1); ("lock_hash", str1); ("amount", str1); ("asset", str1); ("expires_at_ledger", ZNumber [CInt; CPositive])].

Definition fillSchema : schema := ZObject
  [("quote_id", ZString [CUuid]); ("fill_receipt_hash", str1); ("destination_tx_hash", ZOptional (ZString [])); ("amount", str1);
   ("recipient", str1)].

Definition settlementSchema : schema := ZObject
  [("intent_hash", str1); ("quote_id", ZString [CUuid]); ("fill_id", ZOptional (ZString [])); ("fill_receipt_hash", ZOptional (ZString []));
   ("proof_job_id", str1); ("nullifier", str1)].

Definition cctpExitSchema : schema := ZObject
  [("nullifier", str1); ("destination_domain", ZNumber [CInt]); ("destination_recipient", str1);
   ("amount_usdc_7dp", ZString [CRegex digits]); ("relayer_fee", ZString [CRegex digits])].

Definition authNonceSchema : schema := ZObject [("wallet_type", ZEnum ["EVM"; "STELLAR"]); ("address", str1)].

Definition authVerifySchema : schema := ZObject [("address", str1); ("signature", str1); ("nonce", str1)].

Definition updateMeSchema : schema := ZObject
  [("display_name", ZOptional (ZString [CMax 100])); ("email", ZOptional (ZString [CEmail; CMax 200]));
   ("avatar_url", ZOptional (ZString [CUrl; CMax 500])); ("preferences", ZOptional ZRecord)].

Definition addWalletSchema : schema := ZObject
  [("wallet_type", ZEnum ["EVM"; "STELLAR"]); ("address", str1); ("signature", str1); ("nonce", str1)].

Definition noteBackupSchema : schema := ZObject
  [("commitment", str1); ("encrypted_payload", str1); ("encryption_version", ZDefault (ZString []) (JStr "v1"))].

Definition requestQuotesSchema : schema := ZObject
  [("amount", ZString [CRegex digits]); ("expiry_ledger", ZOptional (ZNumber [CInt; CPositive]))].

Definition vaultWrapperSchema : schema := ZObject
  [("id", ZString []);
   ("type", ZEnum ["passkey_prf"; "stellar_ed25519_signature"; "recovery_file_secret"; "recovery_kit_password"; "evm_signature"]);
   ("status", ZEnum ["active"; "revoked"]); ("kdf", ZEnum ["HKDF-SHA256"; "PBKDF2-SHA256"]); ("salt", ZString []);
   ("wrapped_key", ZString []); ("diagnostic_only", ZOptional ZBoolean); ("metadata", ZRecord)].

Definition encryptedVaultEnvelopeSchema : schema := ZObject
  [("version", ZLiteral (JStr "shade-encrypted-vault-v1")); ("vault_id", str1); ("privy_user_id", str1);
   ("cipher", ZObject [("name", ZLiteral (JStr "AES-256-GCM")); ("iv", ZString []); ("tagLength", ZLiteral (JNum 128))]);
   ("aad", ZRecord); ("ciphertext", str1); ("wrappers", ZArray vaultWrapperSchema None None)].

Definition addWrapperSchema : schema := ZObject [("wrapper", vaultWrapperSchema); ("envelope", encryptedVaultEnvelopeSchema)].

Definition userDepositPrepareSchema : schema := ZObject
  [("amount_usdc_6dp", ZString [CRegex digits]); ("source_chain", str1); ("source_wallet_address", ZString [CRegex (hex0x 40)]);
   ("vault_id", str1); ("commitment", str1); ("encrypted_note_payload_hash", str1); ("policy_id", str1)].

Definition burnSubmittedSchema : schema := ZObject
  [("burn_tx_hash", ZString [CRegex (hex0x 64)]); ("source_chain", str1); ("source_wallet_address", ZString [CRegex (hex0x 40)])].

Definition wallet_address_ok (w : json) : bool :=
  let a := text "address" w in if bool_decide (text "wallet_type" w = "EVM") then hex0x 40 a else stellar_address a.

Definition syncPrivyWalletsSchema : schema := ZObject
  [("wallets", ZArray (ZRefine (ZObject
      [("wallet_type", ZEnum ["EVM"; "STELLAR"]);
       ("wallet_source", ZOptional (ZEnum ["privy_embedded"; "external"; "freighter"; "legacy"])); ("chain", str1); ("address", str1);
       ("privy_wallet_id", ZOptional (ZString []))]) wallet_address_ok) (Some 1%nat) None)].

Definition noteRecoverSchema : schema := ZObject [("vault_id", ZOptional str1)].

Definition verifyBackupSchema : schema := ZObject
  [("verification", ZObject
      [("vault_id", str1); ("decrypted_vault_hash", ZString [CMin 8]); ("commitments_hash", str1);
       ("method", ZEnum ["stellar_ed25519_signature"; "recovery_file_secret"; "recovery_kit_password"; "passkey_prf"]);
       ("verified_at_client", str1)])].

Definition viewKeyReportSchema : schema := ZObject
  [("settlement_ids", ZDefault (ZArray str1 None (Some 200%nat)) (JArr [])); ("note_commitments", ZDefault (ZArray str1 None (Some 200%nat)) (JArr []));
   ("time_range_from", ZOptional (ZString [CDatetime])); ("time_range_to", ZOptional (ZString [CDatetime]));
   ("quote_id", ZOptional str1); ("policy_id", ZOptional str1); ("anchor_id", ZOptional str1);
   ("disclose_amounts", ZDefault ZBoolean (JBool false)); ("attachment_recipient_pubkey", ZOptional (ZString [CRegex hex64]))].

Definition encryptedShareSchema : schema := ZObject [("nodeId", str1); ("ciphertext", str1); ("nonce", str1); ("senderPubkey", str1)].

Definition intentSchema : schema := ZObject
  [("intent_type", ZLiteral (JStr "PRIVATE_RFQ")); ("version", ZLiteral (JStr "1.0")); ("user_pubkey_commitment", str1); ("input_asset", str1);
   ("output_asset", str1); ("amount_mode", ZEnum ["exact_in"; "exact_out"; "max_in"]); ("amount_commitment", str1);
   ("min_output_commitment", str1); ("expiry_ledger", ZNumber [CInt; CPositive]); ("allowed_solvers_root", str1);
   ("compliance_policy_id", str1); ("destination_commitment", str1); ("replay_domain", ZLiteral (JStr "shade:stellar:testnet:rfq:v1"));
   ("signature", str1); ("note_nullifier", ZOptional str1); ("note_commitment", ZOptional str1); ("recipient_commitment", ZOptional str1);
   ("encrypted_shares", ZOptional (ZArray encryptedShareSchema None None))].

Definition quoteSchema : schema := ZObject
  [("quote_id", ZString [CUuid]); ("intent_hash", str1); ("solver_id", str1); ("input_asset", str1); ("output_asset", str1);
   ("gross_input", ZString [CRegex decimal]); ("net_output", ZString [CRegex decimal]); ("fee", ZString [CRegex decimal]);
   ("valid_until_ledger", ZNumber [CInt; CPositive]); ("solver_inventory_commitment", str1);
   ("settlement_method", ZEnum ["private_note"; "stellar_payout"; "cctp_exit"; "proof_of_fill"]); ("quote_signature", str1)].

(** ** A reference interpreter *)

(** The formats whose exact grammar is zod's own are accepted when non-empty. *)
Definition check_string (c : string_check) (s : string) : bool :=
  match c with
  | CMin n => (n <=? String.length s)%nat
  | CMax n => (String.length s <=? n)%nat
  | CRegex p => p s
  | CUuid | CEmail | CUrl | CDatetime => negb (bool_decide (s = ""))
  end.
Definition check_number (c : number_check) (z : Z) : bool := match c with CInt => true | CPositive => 0 <? z end.

Definition check_bound (o : option nat) (le : nat -> bool) : bool := match o with Some n => le n | None => true end.

Fixpoint all_some {A} (l : list (option A)) : option (list A) :=
  match l with [] => Some [] | None :: _ => None | Some a :: l => match all_some l with Some r => Some (a :: r) | None => None end end.

(** The value of one object field; [None] is a refusal, [Some None] no field. *)
Fixpoint zod_ref (s : schema) (v : option json) : option (option json) :=
  match s with
  | ZString cs => match v with Some (JStr t) => if forallb (fun c => check_string c t) cs then Some (Some (JStr t)) else None | _ => None end
  | ZNumber cs => match v with Some (JNum z) => if forallb (fun c => check_number c z) cs then Some (Some (JNum z)) else None | _ => None end
  | ZBoolean => match v with Some (JBool b) => Some (Some (JBool b)) | _ => None end
  | ZLiteral l => match v with Some x => if sql_eq x l then Some (Some x) else None | None => None end
  | ZEnum vs => match v with Some (JStr t) => if bool_decide (t ∈ vs) then Some (Some (JStr t)) else None | _ => None end
  | ZRecord => match v with Some (JObj l) => Some (Some (JObj l)) | _ => None end
  | ZArray s lo hi =>
      match v with
      | Some (JArr l) =>
          if check_bound lo (fun n => (n <=? length l)%nat) && check_bound hi (fun n => (length l <=? n)%nat) then
            match all_some (map (fun x => match zod_ref s (Some x) with Some (Some y) => Some y | _ => None end) l) with
            | Some l' => Some (Some (JArr l'))
            | None => None
            end
          else None
      | _ => None
      end
  | ZObject fs =>
      match v with
      | Some (JObj l) =>
          match all_some (map (fun f => match zod_ref f.2 (jget f.1 l) with Some o => Some (f.1, o) | None => None end) fs) with
          | Some kvs => Some (Some (JObj (omap (fun kv => match kv.2 with Some x => Some (kv.1, x) | None => None end) kvs)))
          | None => None
          end
      | _ => None
      end
  | ZOptional s => match v with None => Some None | Some _ => zod_ref s v end
  | ZDefault s d => match v with None => Some (Some d) | Some _ => zod_ref s v end
  | ZRefine s p => match zod_ref s v with Some (Some x) => if p x then Some (Some x) else None | _ => None end
  end.

Definition zod_example : Zod := {| zparse s v := match zod_ref s (Some v) with Some (Some x) => Some x | _ => None end |}.

(** ** What a parsed object is known to hold *)

Class ZodLaws (Zd : Zod) : Prop := {
  zod_object : forall fs v o k, zparse (ZObject fs) v = Some o ->
    match jget k fs with
    | Some (ZEnum vs) => exists s, prop k o = Some (JStr s) /\ s ∈ vs
    | Some (ZString cs) => exists s, prop k o = Some (JStr s) /\ forall p, In (CRegex p) cs -> p s = true
    | _ => True
    end
}.

Lemma all_some_spec {A} (l : list (option A)) r : all_some l = Some r -> l = map Some r.
Proof.
  revert r. induction l as [|[a|] l IH]; cbn; intros r H; simplify_eq; [done|]. destruct (all_some l) as [r'|]; simplify_eq.
  cbn. f_equal. by apply IH.
Qed.

Definition field_results (fs : list (string * schema)) (l : list (string * json)) : list (option (string * option json)) :=
  map (fun f => match zod_ref f.2 (jget f.1 l) with Some o => Some (f.1, o) | None => None end) fs.
Definition present_fields (kvs : list (string * option json)) : list (string * json) :=
  omap (fun kv => match kv.2 with Some x => Some (kv.1, x) | None => None end) kvs.

(** The field a parsed object has is the one its schema returned. *)
Lemma zod_ref_field fs l kvs k s x :
  field_results fs l = map Some kvs ->
  jget k fs = Some s -> zod_ref s (jget k l) = Some (Some x) ->
  jget k (present_fields kvs) = Some x.
Proof.
  unfold present_fields. revert kvs. induction fs as [|[k' s'] fs IH]; cbn; intros kvs E Hk Hx; [done|]. destruct kvs as [|[k2 o2] kvs]; [done|]. cbn in E.
  destruct (zod_ref s' (jget k' l)) as [o|] eqn:Eo; [|done]. injection E as <- <- E. case_decide as Ek.
  - subst k'. injection Hk as ->. rewrite Hx in Eo. injection Eo as <-. cbn. by rewrite decide_True.
  - destruct o as [y|]; cbn; [rewrite decide_False by done|]; by apply IH.
Qed.

Lemma zod_ref_accepts fs l kvs k s :
  field_results fs l = map Some kvs ->
  jget k fs = Some s -> exists o, zod_ref s (jget k l) = Some o.
Proof.
  revert kvs. induction fs as [|[k' s'] fs IH]; cbn; intros kvs E Hk; [done|]. destruct kvs as [|kv kvs]; [done|]. cbn in E.
  destruct (zod_ref s' (jget k' l)) as [o|] eqn:Eo; [|done]. injection E as _ E. case_decide as Ek; [subst; simplify_eq; by eexists|by eapply IH].
Qed.

#[export] Instance zod_example_laws : ZodLaws zod_example.
Proof.
  split. intros fs v o k H. cbn in H. destruct v as [| | | | |l]; try done.
  destruct (all_some _) as [kvs|] eqn:E; [|done]. injection H as <-. apply all_some_spec in E.
  destruct (jget k fs) as [[cs| | | |vs| | | | | | ]|] eqn:Hk; try done;
    destruct (zod_ref_accepts fs l kvs k _ E Hk) as [x Hx]; cbn in Hx; destruct (jget k l) as [[| | |t| |]|] eqn:Hl; try done.
  - destruct (forallb _ cs) eqn:Hc; [|done]. injection Hx as <-. exists t. split.
    + cbn. eapply zod_ref_field; [done..|]. cbn. by rewrite Hl, Hc.
    + intros p Hp. rewrite forallb_forall in Hc. apply (Hc _ Hp).
  - case_bool_decide as Ht; [|done]. injection Hx as <-. exists t. split; [|done]. cbn. eapply zod_ref_field; [done..|]. cbn.
    by rewrite Hl, bool_decide_true.
Qed.
