(* ===== verification/Store.v ===== *)
(** The database layer of the API (class [Store] of apps/api/src/db.ts): one
    definition per method, each statement as the source writes it. *)

From S2P Require Import Prelude Text Json Sql Web.
Local Open Scope string_scope.
Local Open Scope Z_scope.

Module Store.
Section Store.
Context {RT : Runtime}.

Definition some_row (l : list row) : bool := negb (bool_decide (length l = 0%nat)).

Record StateTransition := {
  entityType : string; entityId : string; fromState : option string; toState : string; reason : option string; txHash : option string;
  tr_metadata : option json }.

Definition to_state (ty id st : string) : StateTransition :=
  {| entityType := ty; entityId := id; fromState := None; toState := st; reason := None; txHash := None; tr_metadata := None |}.

Definition transition (t : StateTransition) : M unit :=
  do! _ := sql_insert "state_transitions"
    [("entity_type", JStr (entityType t)); ("entity_id", JStr (entityId t)); ("from_state", opt_str (fromState t)); ("to_state", JStr (toState t));
     ("reason", opt_str (reason t)); ("tx_hash", opt_str (txHash t)); ("metadata", default (JObj []) (tr_metadata t))] Raise in
  ret tt.

Definition upsertDeposit (depositId idempotencyKey : string) (sourceDomain destinationDomain : Z)
    (assetId amount6 amount7 commitment encryptedNotePayloadHash policyId state : string) : M unit :=
  do! _ := sql_insert "cctp_deposits"
    [("deposit_id", JStr depositId); ("idempotency_key", JStr idempotencyKey); ("source_domain", JNum sourceDomain);
     ("destination_domain", JNum destinationDomain); ("asset_id", JStr assetId); ("amount_usdc_6dp", JStr amount6);
     ("amount_usdc_7dp", JStr amount7); ("commitment", JStr commitment); ("encrypted_note_payload_hash", JStr encryptedNotePayloadHash);
     ("policy_id", JStr policyId); ("state", JStr state)] (DoNothingOn ["idempotency_key"]) in
  ret tt.

Definition criticalRootMismatchCount : M Z :=
  do! rows := sql_select "root_audit_findings" (where_eq [("code", JStr "ROOT_MISMATCH_CRITICAL")]) in
  ret (Z.of_nat (length rows)).

(** ** Deposits *)

Record UserDeposit := {
  depositId : string; idempotencyKey : string; ud_userId : string; sourceChain : string; sourceWalletAddress : string; ud_vaultId : string;
  sourceDomain : Z; destinationDomain : Z; assetId : string; amount6 : string; amount7Max : string; commitment : string;
  encryptedNotePayloadHash : string; policyId : string }.

Definition createUserDeposit (i : UserDeposit) : M unit :=
  do! _ := sql_insert "cctp_deposits"
    [("deposit_id", JStr (depositId i)); ("idempotency_key", JStr (idempotencyKey i)); ("user_id", JStr (ud_userId i));
     ("source_chain", JStr (sourceChain i)); ("source_wallet_address", JStr (sourceWalletAddress i)); ("vault_id", JStr (ud_vaultId i));
     ("source_domain", JNum (sourceDomain i)); ("destination_domain", JNum (destinationDomain i)); ("asset_id", JStr (assetId i));
     ("amount_usdc_6dp", JStr (amount6 i)); ("amount_usdc_7dp", JStr (amount7Max i)); ("commitment", JStr (commitment i));
     ("encrypted_note_payload_hash", JStr (encryptedNotePayloadHash i)); ("policy_id", JStr (policyId i)); ("state", JStr "prepared")]
    (DoNothingOn ["deposit_id"]) in
  ret tt.

Definition getDepositForUser (userId depositId : string) : M (option row) :=
  do! rows := sql_select "cctp_deposits" (where_eq [("deposit_id", JStr depositId); ("user_id", JStr userId)]) in ret (head rows).

Definition setDepositBurnTx (depositId burnTxHash : string) : M unit :=
  do! _ := sql_update "cctp_deposits" (where_eq [("deposit_id", JStr depositId)])
             (fun t => [("source_tx_hash", JStr burnTxHash); ("state", JStr "burn_submitted"); ("updated_at", JNum t)]) in
  ret tt.

(** ** Generic access *)

Definition get_tables : list string :=
  ["cctp_deposits"; "proof_jobs"; "withdrawals"; "intents"; "quotes"; "settlements"; "cctp_exits"; "note_commitments"].

Definition getById (table idColumn id : string) : M (option row) :=
  if negb (bool_decide (table ∈ get_tables)) then fail 500 ("unsafe table " +:+ table)
  else do! rows := sql_select table (where_eq [(idColumn, JStr id)]) in ret (head rows).

Definition insert_tables : list string :=
  ["proof_jobs"; "withdrawals"; "intents"; "quotes"; "quote_acceptances"; "solver_inventory_locks"; "fills"; "settlements"; "cctp_exits"].

Definition insertGeneric (table : string) (r : row) : M unit :=
  if negb (bool_decide (table ∈ insert_tables)) then fail 500 ("unsafe table " +:+ table)
  else do! _ := sql_insert table r DoNothing in ret tt.

(** ** Users *)

Definition row_id (o : option row) : string := match o with Some r => text "id" (JObj r) | None => "" end.

Definition upsertUserByPrivyId (privyUserId : string) (email primaryAuthMethod : option string) : M string :=
  do! existing := sql_select "users" (where_eq [("privy_user_id", JStr privyUserId)]) in
  match head existing with
  | Some u =>
      let id := col "id" u in
      do! _ := sql_update "users" (where_eq [("id", id)]) (fun t => [("last_login_at", JNum t); ("updated_at", JNum t)]) in
      ret (to_primitive id)
  | None =>
      do! u := sql_insert "users" [("privy_user_id", JStr privyUserId); ("email", opt_str email);
                 ("primary_auth_method", JStr (default "privy" primaryAuthMethod)); ("last_login_at", JNum now)] Raise in
      do! _ := sql_insert "user_profiles" [("user_id", JStr (row_id u))] DoNothing in
      ret (row_id u)
  end.

Definition lower_eq (s : string) (v : json) : bool := match v with JStr t => bool_decide (toLowerCase t = toLowerCase s) | _ => false end.

Definition userOwnsWallet (userId address : string) (chain : option string) : M bool :=
  do! rows := sql_select "user_wallets" (fun r => where_eq [("user_id", JStr userId)] r && lower_eq address (col "address" r) &&
                match chain with Some c => if bool_decide (c = "") then true else where_eq [("chain", JStr c)] r | None => true end) in
  ret (some_row rows).

Definition userOwnsVault (userId vaultId : string) : M bool :=
  do! rows := sql_select "note_vaults" (where_eq [("user_id", JStr userId); ("vault_id", JStr vaultId)]) in ret (some_row rows).

(** ** Note vaults *)

Definition createNoteVault (userId privyUserId vaultId : string) (envelope : json) (ciphertext : string) (aad : json) (recoveryPolicyStatus : string)
    : M unit :=
  do! _ := sql_insert "note_vaults"
    [("user_id", JStr userId); ("privy_user_id", JStr privyUserId); ("vault_id", JStr vaultId); ("envelope", envelope);
     ("ciphertext", JStr ciphertext); ("aad", aad); ("backup_status", JStr "created"); ("recovery_policy_status", JStr recoveryPolicyStatus)]
    (DoUpdateOn ["vault_id"] ["envelope"; "ciphertext"; "aad"; "recovery_policy_status"] ["updated_at"]) in
  ret tt.

Definition project (cs : list string) (r : row) : row := map (fun c => (c, col c r)) cs.

Definition listNoteVaults (userId : string) : M (list row) :=
  do! rows := sql_select "note_vaults" (where_eq [("user_id", JStr userId)]) in
  ret (map (project ["vault_id"; "backup_status"; "recovery_policy_status"; "last_backup_verified_at"; "last_restored_at"; "created_at"; "updated_at"])
         (order_desc "created_at" rows)).

Definition getNoteVault (userId vaultId : string) : M (option row) :=
  do! rows := sql_select "note_vaults" (where_eq [("user_id", JStr userId); ("vault_id", JStr vaultId)]) in ret (head rows).

Definition updateNoteVault (userId vaultId : string) (envelope : json) (ciphertext : string) (aad : json) (recoveryPolicyStatus : string) : M bool :=
  do! n := sql_update "note_vaults" (where_eq [("user_id", JStr userId); ("vault_id", JStr vaultId)])
             (fun t => [("envelope", envelope); ("ciphertext", JStr ciphertext); ("aad", aad);
                        ("recovery_policy_status", JStr recoveryPolicyStatus); ("updated_at", JNum t)]) in
  ret (0 <? n)%nat.

Inductive BackupStatus := verified | restored | failed.
Definition backup_name (s : BackupStatus) : string := match s with verified => "verified" | restored => "restored" | failed => "failed" end.

Definition setVaultBackupStatus (userId vaultId : string) (status : BackupStatus) : M bool :=
  let stamp t := match status with
                 | verified => [("last_backup_verified_at", JNum t)]
                 | restored => [("last_restored_at", JNum t)]
                 | failed => []
                 end in
  do! n := sql_update "note_vaults" (where_eq [("user_id", JStr userId); ("vault_id", JStr vaultId)])
             (fun t => [("backup_status", JStr (backup_name status))] ++ stamp t ++ [("updated_at", JNum t)])%list in
  ret (0 <? n)%nat.

Definition setVaultBackupVerified (userId vaultId : string) (verification : json) : M bool :=
  do! n := sql_update "note_vaults" (where_eq [("user_id", JStr userId); ("vault_id", JStr vaultId)])
             (fun t => [("backup_status", JStr "verified"); ("last_backup_verified_at", JNum t);
                        ("last_backup_verification", verification); ("updated_at", JNum t)]) in
  ret (0 <? n)%nat.

Definition setVaultRecoveryPolicy (vaultId status : string) : M unit :=
  do! _ := sql_update "note_vaults" (where_eq [("vault_id", JStr vaultId)])
             (fun t => [("recovery_policy_status", JStr status); ("updated_at", JNum t)]) in
  ret tt.

Record DepositReady := { ready : bool; backup_status : json; recovery_policy_status : json }.

Definition is_str (s : string) (v : json) : bool := sql_eq v (JStr s).

Definition deposit_ready (r : row) : bool :=
  is_str "verified" (col "backup_status" r) &&
  (is_str "sufficient" (col "recovery_policy_status" r) || is_str "strong" (col "recovery_policy_status" r)).

Definition vaultDepositReady (userId vaultId : string) : M (option DepositReady) :=
  do! rows := sql_select "note_vaults" (where_eq [("user_id", JStr userId); ("vault_id", JStr vaultId)]) in
  ret (match head rows with
       | None => None
       | Some r => Some {| ready := deposit_ready r; backup_status := col "backup_status" r; recovery_policy_status := col "recovery_policy_status" r |}
       end).

Definition addVaultWrapper (userId vaultId wrapperType : string) (metadata : json) : M string :=
  do! r := sql_insert "note_vault_wrappers"
    [("vault_id", JStr vaultId); ("user_id", JStr userId); ("wrapper_type", JStr wrapperType);
     ("metadata", if is_null metadata then JObj [] else metadata)] Raise in
  ret (row_id r).

Definition deleteVaultWrapper (userId vaultId wrapperId : string) : M bool :=
  do! n := sql_delete "note_vault_wrappers" (where_eq [("id", JStr wrapperId); ("vault_id", JStr vaultId); ("user_id", JStr userId)]) in
  ret (0 <? n)%nat.

Definition listVaultWrappers (vaultId : string) : M (list row) :=
  do! rows := sql_select "note_vault_wrappers" (where_eq [("vault_id", JStr vaultId)]) in
  ret (map (project ["wrapper_type"; "wrapper_status"; "metadata"]) rows).

(** ** Wallet authentication *)

Definition createNonce (walletType address nonce message : string) (expiresAt : Z) : M unit :=
  do! _ := sql_insert "auth_nonces" [("wallet_type", JStr walletType); ("address", JStr address); ("nonce", JStr nonce);
             ("message", JStr message); ("expires_at", JNum expiresAt)] Raise in
  ret tt.

Definition after (t : Z) (v : json) : bool := match v with JNum z => t <? z | _ => false end.

Definition live_nonce (walletType address nonce : string) (t : Z) (r : row) : bool :=
  where_eq [("wallet_type", JStr walletType); ("address", JStr address); ("nonce", JStr nonce)] r &&
  is_null (col "consumed_at" r) && after t (col "expires_at" r).

(** One UPDATE of the newest live nonce. *)
Definition consumeNonce (walletType address nonce : string) : M (option string) :=
  do! rows := sql_select "auth_nonces" (live_nonce walletType address nonce now) in
  match head (order_desc "created_at" rows) with
  | None => ret None
  | Some r =>
      do! _ := sql_update "auth_nonces" (where_eq [("id", col "id" r)]) (fun t => [("consumed_at", JNum t)]) in
      ret (Some (text "message" (JObj r)))
  end.

Definition upsertUserByWallet (walletType chain address : string) : M string :=
  do! existing := sql_select "user_wallets" (where_eq [("wallet_type", JStr walletType); ("address", JStr address)]) in
  match head existing with
  | Some w =>
      let id := col "user_id" w in
      do! _ := sql_update "users" (where_eq [("id", id)]) (fun t => [("last_login_at", JNum t); ("updated_at", JNum t)]) in
      ret (to_primitive id)
  | None =>
      do! u := sql_insert "users" [("last_login_at", JNum now)] Raise in
      let userId := row_id u in
      do! _ := sql_insert "user_profiles" [("user_id", JStr userId)] DoNothing in
      do! _ := sql_insert "user_wallets" [("user_id", JStr userId); ("wallet_type", JStr walletType); ("chain", JStr chain);
                 ("address", JStr address); ("is_primary", JBool true); ("verified_at", JNum now)] Raise in
      ret userId
  end.

Definition createSession (userId sessionHash : string) (expiresAt : Z) : M unit :=
  do! _ := sql_insert "user_sessions" [("user_id", JStr userId); ("session_hash", JStr sessionHash); ("expires_at", JNum expiresAt)] Raise in
  ret tt.

Definition live_session (sessionHash : string) (t : Z) (r : row) : bool :=
  where_eq [("session_hash", JStr sessionHash)] r && is_null (col "revoked_at" r) && after t (col "expires_at" r).

Definition userIdForSession (sessionHash : string) : M (option string) :=
  do! rows := sql_select "user_sessions" (live_session sessionHash now) in
  ret (match head rows with Some r => Some (text "user_id" (JObj r)) | None => None end).

Definition revokeSession (sessionHash : string) : M unit :=
  do! _ := sql_update "user_sessions" (where_eq [("session_hash", JStr sessionHash)]) (fun t => [("revoked_at", JNum t)]) in
  ret tt.

(** ** Profiles, wallets, activity *)

Definition wallet_columns : list string := ["id"; "wallet_type"; "chain"; "address"; "is_primary"; "verified_at"; "created_at"].

Definition listWallets (userId : string) : M (list row) :=
  do! rows := sql_select "user_wallets" (where_eq [("user_id", JStr userId)]) in
  ret (map (project wallet_columns) (order_asc "created_at" rows)).

Definition getUser (userId : string) : M (option row) :=
  do! us := sql_select "users" (where_eq [("id", JStr userId)]) in
  match head us with
  | None => ret None
  | Some u =>
      do! ps := sql_select "user_profiles" (where_eq [("user_id", JStr userId)]) in
      let p := default [] (head ps) in
      do! ws := listWallets userId in
      ret (Some (project ["id"; "privy_user_id"; "display_name"; "email"; "avatar_url"; "testnet_only"; "created_at"; "last_login_at"] u
                 ++ project ["preferences"; "risk_flags"] p ++ [("wallets", rows_json ws)])%list)
  end.

(** One upsert per wallet: the wallet row is taken over by [userId]. *)
Definition sync_wallet (userId privyUserId : string) (w : json) : M unit :=
  do! _ := sql_insert "user_wallets"
    [("user_id", JStr userId); ("privy_user_id", JStr privyUserId); ("wallet_type", field "wallet_type" w);
     ("wallet_source", match prop "wallet_source" w with None | Some JNull => JStr "external" | Some s => s end); ("chain", field "chain" w);
     ("address", field "address" w); ("privy_wallet_id", field "privy_wallet_id" w); ("verified_at", JNum now)]
    (DoUpdateOn ["wallet_type"; "address"] ["user_id"; "privy_user_id"; "wallet_source"; "chain"; "privy_wallet_id"] ["verified_at"]) in
  ret tt.

Definition syncPrivyWallets (userId privyUserId : string) (wallets : list json) : M Z :=
  do! _ := for_each (sync_wallet userId privyUserId) wallets in ret (Z.of_nat (length wallets)).

(** Only the fields present in the body are set. *)
Definition updateUser (userId : string) (fields : json) : M unit :=
  let sets := List.filter (fun kv => bool_decide (is_Some (prop kv.1 fields)))
                (map (fun k => (k, field k fields)) ["display_name"; "email"; "avatar_url"]) in
  do! _ := (match sets with
            | [] => ret 0%nat
            | _ => sql_update "users" (where_eq [("id", JStr userId)]) (fun t => sets ++ [("updated_at", JNum t)])%list
            end) in
  match prop "preferences" fields with
  | None => ret tt
  | Some p => do! _ := sql_update "user_profiles" (where_eq [("user_id", JStr userId)]) (fun t => [("preferences", p); ("updated_at", JNum t)]) in ret tt
  end.

Definition addWallet (userId walletType chain address : string) : M string :=
  do! r := sql_insert "user_wallets" [("user_id", JStr userId); ("wallet_type", JStr walletType); ("chain", JStr chain); ("address", JStr address)]
             (DoUpdateOn ["wallet_type"; "address"] ["chain"] []) in
  ret (row_id r).

Definition deleteWallet (userId walletId : string) : M bool :=
  do! n := sql_delete "user_wallets" (where_eq [("id", JStr walletId); ("user_id", JStr userId); ("is_primary", JBool false)]) in
  ret (0 <? n)%nat.

Record Activity := { event_type : string; act_entity_type : option string; act_entity_id : option string; act_tx_hash : option string; act_metadata : option json }.

Definition activity (ev : string) (ty id : option string) : Activity :=
  {| event_type := ev; act_entity_type := ty; act_entity_id := id; act_tx_hash := None; act_metadata := None |}.
Definition with_metadata (a : Activity) (m : json) : Activity :=
  {| event_type := event_type a; act_entity_type := act_entity_type a; act_entity_id := act_entity_id a; act_tx_hash := act_tx_hash a;
     act_metadata := Some m |}.
Definition with_tx (a : Activity) (h : string) : Activity :=
  {| event_type := event_type a; act_entity_type := act_entity_type a; act_entity_id := act_entity_id a; act_tx_hash := Some h;
     act_metadata := act_metadata a |}.

Definition logActivity (userId : option string) (ev : Activity) : M unit :=
  do! _ := sql_insert "user_activity" [("user_id", opt_str userId); ("event_type", JStr (event_type ev)); ("entity_type", opt_str (act_entity_type ev));
             ("entity_id", opt_str (act_entity_id ev)); ("tx_hash", opt_str (act_tx_hash ev)); ("metadata", default (JObj []) (act_metadata ev))] Raise in
  ret tt.

Definition listActivity (userId : string) (limit : nat) : M (list row) :=
  do! rows := sql_select "user_activity" (where_eq [("user_id", JStr userId)]) in
  ret (map (project ["event_type"; "entity_type"; "entity_id"; "tx_hash"; "metadata"; "created_at"]) (take limit (order_desc "created_at" rows))).

Definition user_tables : list string :=
  ["cctp_deposits"; "note_commitments"; "withdrawals"; "intents"; "settlements"; "cctp_exits"; "encrypted_note_backups"].

Definition listByUser (table userId : string) : M (list row) :=
  if negb (bool_decide (table ∈ user_tables)) then fail 500 ("unsafe table " +:+ table)
  else do! rows := sql_select table (where_eq [("user_id", JStr userId)]) in ret (take 200 (order_desc "created_at" rows)).

Definition listNoteVaultsForRecovery (userId : string) (vaultId : option string) : M (list row) :=
  let filter := match vaultId with Some v => if bool_decide (v = "") then [] else [("vault_id", JStr v)] | None => [] end in
  do! rows := sql_select "note_vaults" (where_eq (("user_id", JStr userId) :: filter)) in
  ret (map (project ["vault_id"; "envelope"; "ciphertext"; "aad"; "backup_status"; "recovery_policy_status"; "created_at"; "updated_at"])
         (order_desc "created_at" rows)).

Definition addNoteBackup (userId commitment encryptedPayload version : string) : M unit :=
  do! _ := sql_insert "encrypted_note_backups" [("user_id", JStr userId); ("commitment", JStr commitment);
             ("encrypted_payload", JStr encryptedPayload); ("encryption_version", JStr version)]
             (DoUpdateOn ["user_id"; "commitment"] ["encrypted_payload"] []) in
  ret tt.

(** ** RFQ lifecycle *)

Record Lifecycle := { lc_intent : option row; lc_quote : option row; accepted : bool; lc_fill : option row }.

Definition rfqLifecycle (intentHash quoteId : string) : M Lifecycle :=
  do! i := sql_select "intents" (where_eq [("intent_hash", JStr intentHash)]) in
  do! q := sql_select "quotes" (where_eq [("quote_id", JStr quoteId)]) in
  do! a := sql_select "quote_acceptances" (where_eq [("quote_id", JStr quoteId)]) in
  do! f := sql_select "fills" (where_eq [("quote_id", JStr quoteId)]) in
  ret {| lc_intent := project ["intent_hash"; "user_id"; "expiry_ledger"] <$> head i;
         lc_quote := project ["quote_id"; "intent_hash"; "quote_hash"; "solver_id"; "state"; "valid_until_ledger"] <$> head q;
         accepted := some_row a;
         lc_fill := project ["fill_id"; "quote_id"; "fill_receipt_hash"; "state"; "destination_tx_hash"] <$> head (order_desc "created_at" f) |}.

Definition isNullifierSpent (nullifier : string) : M bool :=
  do! rows := sql_select "nullifier_spends" (where_eq [("nullifier", JStr nullifier)]) in ret (some_row rows).

Definition listQuotesByIntent (intentHash : string) : M (list row) :=
  do! rows := sql_select "quotes" (where_eq [("intent_hash", JStr intentHash)]) in
  ret (map (project ["quote_id"; "intent_hash"; "quote_hash"; "solver_id"; "payload"; "valid_until_ledger"; "state"]) (order_asc "created_at" rows)).

Definition executeFill (fillId destinationTxHash : string) : M bool :=
  do! n := sql_update "fills" (where_eq [("fill_id", JStr fillId)]) (fun _ => [("destination_tx_hash", JStr destinationTxHash); ("state", JStr "EXECUTED")]) in
  ret (0 <? n)%nat.

Definition owner_tables : list string := ["cctp_deposits"; "withdrawals"; "intents"; "settlements"; "cctp_exits"].

Definition setRowUser (table idColumn id userId : string) : M unit :=
  if negb (bool_decide (table ∈ owner_tables)) then ret tt
  else do! _ := sql_update table (where_eq [(idColumn, JStr id)]) (fun _ => [("user_id", JStr userId)]) in ret tt.

(** ** Disclosure reports *)

Definition any_of (k : string) (ids : list string) (r : row) : bool := existsb (fun id => sql_eq (col k r) (JStr id)) ids.

Definition getOwnedSettlements (userId : string) (settlementIds : list string) : M (list row) :=
  match settlementIds with
  | [] => ret []
  | _ => do! rows := sql_select "settlements" (fun r => where_eq [("user_id", JStr userId)] r && any_of "settlement_id" settlementIds r) in
         ret (map (project ["settlement_id"; "intent_hash"; "quote_id"; "nullifier"; "stellar_tx_hash"; "state"; "created_at"]) rows)
  end.

Definition getOwnedNoteCommitments (userId : string) (commitments : list string) : M (list row) :=
  match commitments with
  | [] => ret []
  | _ => do! rows := sql_select "note_commitments" (fun r => where_eq [("user_id", JStr userId)] r && any_of "commitment" commitments r) in
         ret (map (project ["commitment"; "policy_id"; "amount_usdc_7dp"; "status"; "created_at"]) rows)
  end.

Definition distinct_texts (l : list json) : list string :=
  fold_left (fun acc v => match v with JStr s => if bool_decide (s ∈ acc) then acc else (acc ++ [s])%list | _ => acc end) l [].

Definition getAnchorIdsForSettlements (settlementIds : list string) : M (list string) :=
  match settlementIds with
  | [] => ret []
  | _ => do! rows := sql_select "anchor_payouts" (fun r => any_of "settlement_id" settlementIds r && negb (is_null (col "anchor_transaction_id" r))) in
         ret (distinct_texts (map (col "anchor_transaction_id") rows))
  end.

Definition strings_json (l : list string) : json := JArr (map JStr l).

Record ReportRow := {
  rr_reportId : string; rr_userId : string; rr_from : option string; rr_to : option string; rr_commitments : list string;
  rr_nullifiers : list string; rr_quoteId : option string; rr_policyId : option string; rr_anchorId : option string; rr_amountDisclosed : bool;
  rr_proofLinks : list string; rr_pubkey : string; rr_signature : string; rr_attachment : option json }.

(** The JSONB columns are stored from their texts. *)
Definition insertViewKeyReport (r : ReportRow) : M unit :=
  do! _ := sql_insert "view_key_reports"
    [("report_id", JStr (rr_reportId r)); ("user_id", JStr (rr_userId r)); ("time_range_from", opt_str (rr_from r)); ("time_range_to", opt_str (rr_to r));
     ("note_commitments", strings_json (rr_commitments r)); ("disclosed_nullifiers", strings_json (rr_nullifiers r));
     ("quote_id", opt_str (rr_quoteId r)); ("policy_id", opt_str (rr_policyId r)); ("anchor_id", opt_str (rr_anchorId r));
     ("amount_disclosed", JBool (rr_amountDisclosed r)); ("proof_links", strings_json (rr_proofLinks r)); ("service_pubkey", JStr (rr_pubkey r));
     ("service_signature", JStr (rr_signature r)); ("encrypted_attachment", default JNull (rr_attachment r))] Raise in
  ret tt.

Definition getViewKeyReport (userId reportId : string) : M (option row) :=
  do! rows := sql_select "view_key_reports" (where_eq [("report_id", JStr reportId); ("user_id", JStr userId)]) in ret (head rows).

End Store.
End Store.
