(* ===== verification/Ids.v ===== *)
(** Derived identifiers (packages/shared-types/src/ids.ts) and the note
    commitments of packages/note-crypto/src/index.ts.

    SHA-256 is the operation of [NodeCrypto], string collation the class
    [Collation]; Poseidon (@iden3/js-crypto) is an argument. *)

From S2P Require Import Prelude Text Json Rfq.
Import Rfq.
Local Open Scope string_scope.
Local Open Scope Z_scope.

Module Ids.
Section Ids.
Context {C : NodeCrypto} {L : Collation}.

Definition nul : string := String (byte_of 0) "".

(** The text hashed by [deterministicId]. *)
Definition id_text (namespace : string) (parts : list string) : string := namespace +:+ nul +:+ join nul parts.

Definition deterministicId (namespace : string) (parts : list string) : string :=
  namespace +:+ "_" +:+ bytes_take 32 (hex_encode (sha256_digest (id_text namespace parts))).

Definition stableStringify : json -> string := stable.

Definition hashJson (value : json) : string := "0x" +:+ hex_encode (sha256_digest (stableStringify value)).

(** ** Note commitments *)

Variable poseidon_hash : list Z -> Z.

Definition FIELD_MODULUS : Z := 21888242871839275222246405745257275088548364400416034343698204186575808495617.

Record CoinPreimage := {
  assetId : string; amount7dp : string; ownerPublicKey : string; spendPublicKey : string; cp_blinding : string; cp_nonce : string;
  complianceTag : string; sourceContext : string; memoCommitment : string }.

Definition to_big (s : string) : result Z := match BigInt s with Some z => Ok z | None => Err "SyntaxError: Cannot convert to a BigInt" end.

Definition fieldFromString (value : string) : result Z :=
  let! z := to_big ("0x" +:+ hex_encode (sha256_digest value)) in Ok (Z.rem z FIELD_MODULUS).

Definition fieldFromHex (value : string) : result Z := let! z := to_big value in Ok (Z.rem z FIELD_MODULUS).

Definition noteToFields (n : CoinPreimage) : result (list Z) :=
  let! a := fieldFromString (assetId n) in
  let! v := to_big (amount7dp n) in
  let! o := fieldFromString (ownerPublicKey n) in
  let! s := fieldFromString (spendPublicKey n) in
  let! b := fieldFromHex (cp_blinding n) in
  let! k := fieldFromHex (cp_nonce n) in
  let! c := fieldFromString (complianceTag n) in
  let! x := fieldFromString (sourceContext n) in
  let! m := fieldFromString (memoCommitment n) in
  Ok [a; v; o; s; b; k; c; x; m].

Definition hex32 (z : Z) : string := "0x" +:+ padStart64 (toString16 z).

Definition poseidonCommitment (n : CoinPreimage) : result string :=
  let! fs := noteToFields n in Ok (hex32 (poseidon_hash fs)).

Definition deriveNullifier (n : CoinPreimage) (domain : string) : result string :=
  let! d := fieldFromString domain in
  let! k := fieldFromHex (cp_nonce n) in
  let! b := fieldFromHex (cp_blinding n) in
  let! o := fieldFromString (ownerPublicKey n) in
  Ok (hex32 (poseidon_hash [d; k; b; o])).

(** Two fresh blocks of 32 random bytes. *)
Definition generateNotePreimage (i : CoinPreimage) (blinding nonce : string) : CoinPreimage :=
  {| assetId := assetId i; amount7dp := amount7dp i; ownerPublicKey := ownerPublicKey i; spendPublicKey := spendPublicKey i;
     cp_blinding := "0x" +:+ hex_encode blinding; cp_nonce := "0x" +:+ hex_encode nonce;
     complianceTag := complianceTag i; sourceContext := sourceContext i; memoCommitment := memoCommitment i |}.

End Ids.
End Ids.
