(* ===== verification/ShadeView.v ===== *)
(** Selective-disclosure reports (apps/api/src/shade-view.ts): the canonical
    text, its signature, its verification and the encrypted attachment. *)

From S2P Require Import Prelude Text Json Committee Rfq.
Local Open Scope string_scope.
Local Open Scope Z_scope.

Module ShadeView.

Record AmountDisclosed := { ad_commitment : string; ad_amount7dp : string; ad_currency : string }.

(** An optional field is [None] when it is undefined. *)
Record ViewKeyReportInput := {
  vk_userId : string; timeRangeFrom : option string; timeRangeTo : option string; noteCommitments : list string; disclosedNullifiers : list string;
  quoteId : option string; policyId : option string; anchorId : option string; amountsDisclosed : option (list AmountDisclosed);
  proofLinks : list string }.

Record UnsignedReport := { input : ViewKeyReportInput; reportId : string; generatedAt : string }.
Record SignedViewKeyReport := { unsigned : UnsignedReport; servicePubkeyHex : string; serviceSignatureHex : string }.

Definition strs (l : list string) : json := JArr (map JStr l).
Definition or_null (o : option string) : json := match o with Some s => JStr s | None => JNull end.
Definition amount_json (a : AmountDisclosed) : json :=
  JObj [("commitment", JStr (ad_commitment a)); ("amount7dp", JStr (ad_amount7dp a)); ("currency", JStr (ad_currency a))].

Definition canonical_json (u : UnsignedReport) : json :=
  let r := input u in
  JObj [("reportId", JStr (reportId u)); ("userId", JStr (vk_userId r)); ("generatedAt", JStr (generatedAt u));
        ("timeRangeFrom", or_null (timeRangeFrom r)); ("timeRangeTo", or_null (timeRangeTo r));
        ("noteCommitments", strs (js_sort str_ltb (noteCommitments r))); ("disclosedNullifiers", strs (js_sort str_ltb (disclosedNullifiers r)));
        ("quoteId", or_null (quoteId r)); ("policyId", or_null (policyId r)); ("anchorId", or_null (anchorId r));
        ("amountsDisclosed", JArr (map amount_json (default [] (amountsDisclosed r)))); ("proofLinks", strs (js_sort str_ltb (proofLinks r)))].

Definition canonicalReportPayload (u : UnsignedReport) : string := stringify (canonical_json u).

(** A field that is undefined is not written. *)
Definition some_field (k : string) (o : option string) : list (string * json) := match o with Some s => [(k, JStr s)] | None => [] end.

Definition report_fields (r : SignedViewKeyReport) : list (string * json) :=
  let i := input (unsigned r) in
  ([("userId", JStr (vk_userId i))] ++ some_field "timeRangeFrom" (timeRangeFrom i) ++ some_field "timeRangeTo" (timeRangeTo i) ++
   [("noteCommitments", strs (noteCommitments i)); ("disclosedNullifiers", strs (disclosedNullifiers i))] ++ some_field "quoteId" (quoteId i) ++
   some_field "policyId" (policyId i) ++ some_field "anchorId" (anchorId i) ++
   match amountsDisclosed i with Some l => [("amountsDisclosed", JArr (map amount_json l))] | None => [] end ++
   [("proofLinks", strs (proofLinks i)); ("reportId", JStr (reportId (unsigned r))); ("generatedAt", JStr (generatedAt (unsigned r)));
    ("servicePubkeyHex", JStr (servicePubkeyHex r)); ("serviceSignatureHex", JStr (serviceSignatureHex r))])%list.
Definition report_json (r : SignedViewKeyReport) : json := JObj (report_fields r).

Section Signing.
Context {C : NodeCrypto} {N : Nacl}.

Definition digest (u : UnsignedReport) : string := sha256_digest (canonicalReportPayload u).

Definition signViewKeyReport (i : ViewKeyReportInput) (id serviceSecret generated : string) : result SignedViewKeyReport :=
  let! pk := kp_public serviceSecret in
  let u := {| input := i; reportId := id; generatedAt := generated |} in
  let! sg := kp_sign serviceSecret (digest u) in
  Ok {| unsigned := u; servicePubkeyHex := hex_encode pk; serviceSignatureHex := hex_encode sg |}.

(** The key encoding refuses anything but 32 bytes. *)
Definition verifyViewKeyReport (r : SignedViewKeyReport) : result bool :=
  let pk := hex_decode (servicePubkeyHex r) in
  if (String.length pk =? 32)%nat then Ok (ed25519_verify pk (digest (unsigned r)) (hex_decode (serviceSignatureHex r))) else Err "invalid version byte".

Definition encryptReportAttachment (r : SignedViewKeyReport) (recipientPubkeyHex ephemeral nonce : string) : result json :=
  let! ct := box (stringify (report_json r)) nonce (hex_decode recipientPubkeyHex) ephemeral in
  Ok (JObj [("ciphertext", JStr (hex_encode ct)); ("nonce", JStr (hex_encode nonce)); ("senderPubkey", JStr (hex_encode (box_public ephemeral)))]).

End Signing.
End ShadeView.
