(* ===== verification/Auth.v ===== *)
(** Authentication (apps/api/src/auth.ts, packages/auth-privy/src/index.ts and
    the helpers [authedUser] and [authedUserOptional] of apps/api/src/routes.ts).

    Wallet libraries (ethers, stellar-sdk) are the class [WalletLib]; WebCrypto's
    ES256 and the import of keys are the class [Es256].  Imported keys are not
    cached in the model.  A token's subject is text.  Session cookies are read;
    the set-cookie headers of replies are not modelled. *)

From S2P Require Import Prelude Text Json Queue Sql Web Schemas Store Rfq Vault.
Import Store Rfq.
Local Open Scope string_scope.
Local Open Scope Z_scope.

Class WalletLib := {
  getAddress : string -> result string;                       (** checksummed EVM address *)
  verifyMessage : string -> string -> result string;          (** message, signature: the address that signed *)
  stellar_verify : string -> string -> string -> result bool  (** address, message, signature bytes *)
}.

Class Es256 := {
  import_pem : string -> result string;
  import_jwk : json -> result string;
  es256_verify : string -> string -> string -> bool           (** key, signature bytes, signed text *)
}.

Module Auth.
Section Auth.
Context {RT : Runtime} {C : NodeCrypto} {W : WalletLib} {E : Es256}.

Definition SESSION_TTL : Z := 1000 * 60 * 60 * 24 * 7.
Definition NONCE_TTL : Z := 1000 * 60 * 10.
Definition COOKIE : string := "shade_session".

Inductive WalletType := EVM | STELLAR.
Definition wallet_name (w : WalletType) : string := match w with EVM => "EVM" | STELLAR => "STELLAR" end.
(** The value of a parsed [wallet_type] field. *)
Definition wallet_of (s : string) : WalletType := if bool_decide (s = "EVM") then EVM else STELLAR.

Definition sha256Hex (s : string) : string := hex_encode (sha256_digest s).

Definition nl : string := String "010" "".

Definition authMessage (w : WalletType) (address nonce : string) : string :=
  "Shade Protocol Testnet wants you to sign in with your " +:+ wallet_name w +:+ " wallet:" +:+ nl +:+ address +:+ nl +:+ nl +:+ "Nonce: " +:+ nonce.

Definition normalizeAddress (w : WalletType) (address : string) : result string :=
  match w with EVM => getAddress address | STELLAR => Ok address end.

Definition verifyWalletSignature (w : WalletType) (address message sg : string) : bool :=
  match w with
  | EVM => match verifyMessage message sg with
           | Ok recovered => match getAddress recovered, getAddress address with Ok a, Ok b => bool_decide (a = b) | _, _ => false end
           | Err _ => false
           end
  | STELLAR =>
      let bytes := if nonempty_all is_hex sg && (String.length sg =? 128)%nat then hex_decode sg else base64_decode sg in
      match stellar_verify address message bytes with Ok b => b | Err _ => false end
  end.

(** [decodeURIComponent]: percent escapes of the UTF-8 bytes. *)
Fixpoint decodeURIComponent (s : string) : result string :=
  match s with
  | EmptyString => Ok ""
  | String c t =>
      if Ascii.eqb c "%" then
        match t with
        | String a (String b t) =>
            match hex_val a, hex_val b with
            | Some x, Some y => let! r := decodeURIComponent t in Ok (String (byte_of (16 * x + y)) r)
            | _, _ => Err "URIError: URI malformed"
            end
        | _ => Err "URIError: URI malformed"
        end
      else let! r := decodeURIComponent t in Ok (String c r)
  end.

Definition bearer (h : option string) : option string :=
  match h with Some a => match strip_prefix "Bearer " a with Some t => Some (trim t) | None => None end | None => None end.

(** The first part [name=value] with a non-empty value. *)
Fixpoint cookie_value (name : string) (parts : list string) : option string :=
  match parts with
  | [] => None
  | p :: ps =>
      match split_on "=" (trim p) with
      | k :: v :: _ => if bool_decide (k = name) && negb (bool_decide (v = "")) then Some v else cookie_value name ps
      | _ => cookie_value name ps
      end
  end.

Definition token_of (name : string) (r : Request) : M (option string) :=
  match bearer (authorization r) with
  | Some t => ret (Some t)
  | None =>
      match cookie r with
      | Some c => match cookie_value name (split_on ";" c) with
                  | Some v => do! d := lift (decodeURIComponent v) in ret (Some d)
                  | None => ret None
                  end
      | None => ret None
      end
  end.

Definition readSessionToken (r : Request) : M (option string) := token_of COOKIE r.

(** [!token]: an empty token counts as none. *)
Definition present (o : option string) : option string := match o with Some t => if bool_decide (t = "") then None else Some t | None => None end.

Definition requireUser (r : Request) : M string :=
  do! t := readSessionToken r in
  match present t with
  | None => fail 401 "authentication required"
  | Some token =>
      do! u := userIdForSession (sha256Hex token) in
      match u with Some id => ret id | None => fail 401 "invalid or expired session" end
  end.

Definition optionalUser (r : Request) : M (option string) :=
  do! t := readSessionToken r in
  match present t with None => ret None | Some token => userIdForSession (sha256Hex token) end.

Definition newSessionToken : M string := draw.

(** ** Privy access tokens *)

Record PrivyClaims := { claims_userId : string; claims_appId : json; issuer : json; issuedAt : json; expiration : json; sessionId : json }.

Definition extractPrivyAccessToken (r : Request) : M (option string) := token_of "privy-token" r.

Definition url_char (c : ascii) : ascii := if Ascii.eqb c "-" then "+"%char else if Ascii.eqb c "_" then "/"%char else c.
Fixpoint map_chars (f : ascii -> ascii) (s : string) : string := match s with EmptyString => "" | String c s => String (f c) (map_chars f s) end.

Definition b64urlToBytes (s : string) : result string :=
  fromB64 (map_chars url_char s +:+ bytes_drop ((String.length s + 3) mod 4) "===").

Definition decode_json (part : string) : result json :=
  let! b := b64urlToBytes part in
  match JSON_parse b with Some v => Ok v | None => Err "SyntaxError" end.

Definition find_kid (kid : string) (keys : list json) : option json :=
  List.find (fun k => sql_eq (field "kid" k) (JStr kid)) keys.

Definition verificationKey (kid : option string) : M string :=
  match env_or "PRIVY_JWT_VERIFICATION_KEY" "" with
  | String _ _ as pem => lift (import_pem pem)
  | EmptyString =>
      match env_or "PRIVY_APP_ID" "" with
      | EmptyString => fail 500 "provide PRIVY_JWT_VERIFICATION_KEY or PRIVY_APP_ID for token verification"
      | appId =>
          let url := match env_var "PRIVY_JWKS_URL" with Some u => u | None => "https://auth.privy.io/api/v1/apps/" +:+ appId +:+ "/jwks.json" end in
          do! resp := call (Fetch "GET" url None) in
          if negb (resp_ok resp) then fail 500 ("failed to fetch Privy JWKS (" +:+ toString resp.1 +:+ ")")
          else
            let keys := match prop "keys" resp.2 with Some (JArr l) => l | _ => [] end in
            match (match kid with Some k => if bool_decide (k = "") then None else find_kid k keys | None => None end), keys with
            | Some jwk, _ => lift (import_jwk jwk)
            | None, jwk :: _ => lift (import_jwk jwk)
            | None, [] => fail 500 "no matching JWK for token kid"
            end
      end
  end.

(** [payload.exp <= now]; false when [exp] is no number. *)
Definition expired (nowSec : Z) (v : option json) : bool :=
  match v with None => false | Some x => match Number_value x with JNum e => e <=? nowSec | _ => false end end.

Definition verifyPrivyAccessToken (token : string) : M PrivyClaims :=
  match split_on "." token with
  | [headerB64; payloadB64; sigB64] =>
      do! header := lift (decode_json headerB64) in
      fail_if negb (sql_eq (field "alg" header) (JStr "ES256")) with 500, "unexpected alg " +:+ text "alg" header in
      do! sg := lift (b64urlToBytes sigB64) in
      do! key := verificationKey (text_opt "kid" header) in
      fail_if negb (es256_verify key sg (headerB64 +:+ "." +:+ payloadB64)) with 500, "invalid token signature" in
      do! payload := lift (decode_json payloadB64) in
      fail_if negb (sql_eq (field "iss" payload) (JStr "privy.io")) with 500, "bad issuer" in
      fail_if env_set "PRIVY_APP_ID" && negb (sql_eq (field "aud" payload) (JStr (env_or "PRIVY_APP_ID" ""))) with 500, "audience mismatch" in
      fail_if expired (now / 1000) (prop "exp" payload) with 500, "token expired" in
      ret {| claims_userId := text "sub" payload; claims_appId := field "aud" payload; issuer := field "iss" payload;
             issuedAt := field "iat" payload; expiration := field "exp" payload; sessionId := field "sid" payload |}
  | _ => fail 500 "malformed JWT"
  end.

Record PrivyUser := { userId : string; privyUserId : string }.

Definition requirePrivyUser (r : Request) : M PrivyUser :=
  do! t := extractPrivyAccessToken r in
  match present t with
  | None => fail 401 "Privy authentication required"
  | Some token =>
      do! claims := catch (verifyPrivyAccessToken token) (fun e => fail 401 ("invalid Privy token: " +:+ e)) in
      do! id := upsertUserByPrivyId (claims_userId claims) None None in
      ret {| userId := id; privyUserId := claims_userId claims |}
  end.

Definition optionalPrivyUser (r : Request) : M (option PrivyUser) :=
  do! t := extractPrivyAccessToken r in
  match present t with
  | None => ret None
  | Some token =>
      catch (do! claims := verifyPrivyAccessToken token in
             do! id := upsertUserByPrivyId (claims_userId claims) None None in
             ret (Some {| userId := id; privyUserId := claims_userId claims |}))
            (fun _ => ret None)
  end.

Definition syncPrivyUserToDb (id : string) (email primaryAuthMethod : option string) : M string := upsertUserByPrivyId id email primaryAuthMethod.

Definition requireUserOwnedWallet (uid walletAddress : string) (chain : option string) : M unit :=
  do! b := userOwnsWallet uid walletAddress chain in
  if b then ret tt else fail 403 "wallet is not linked to the authenticated user".

Definition requireUserOwnedVault (uid vaultId : string) : M unit :=
  do! b := userOwnsVault uid vaultId in if b then ret tt else fail 403 "vault does not belong to the authenticated user".

(** ** Which identity provider *)

Definition privyEnabled : bool := env_set "PRIVY_APP_ID" || env_set "PRIVY_JWT_VERIFICATION_KEY".
Definition legacyWalletAuth : bool := env_is "ENABLE_LEGACY_WALLET_AUTH" "true".

Definition authedUser (r : Request) : M string :=
  if privyEnabled then (do! u := requirePrivyUser r in ret (userId u))
  else if legacyWalletAuth then requireUser r
  else fail 401 "authentication not configured (set PRIVY_APP_ID or ENABLE_LEGACY_WALLET_AUTH)".

Definition authedUserOptional (r : Request) : M (option string) :=
  if privyEnabled then (do! u := optionalPrivyUser r in ret (userId <$> u))
  else if legacyWalletAuth then optionalUser r
  else ret None.

End Auth.
End Auth.
