(* ===== verification/Cctp.v ===== *)
(** Inbound USDC through Circle's CCTP (packages/cctp-utils/src/index.ts and
    packages/cctp/src/cctp-inbound.ts).

    The operations run in a monad that records every call to a chain, to Circle
    or to the prover; [answer] gives the reply to a call from the calls made
    before it, so a balance may change between two reads.  Stellar's key
    encoding, ethers' calldata decoding and keccak are the class [ChainLib]. *)

From S2P Require Import Prelude Effects Text Json.
Local Open Scope string_scope.
Local Open Scope Z_scope.

Class ChainLib := {
  decodeContract : string -> option string;             (** the 32 bytes of a contract key; [None] when it is not one *)
  decodeBurn : string -> result (option (list json));   (** [Interface.parseTransaction] of depositForBurnWithHook *)
  keccak256 : string -> string
}.

Module Cctp.

(** ** Constants and routes *)

Definition arbitrumSepoliaDomain : Z := 3.
Definition stellarDomain : Z := 27.
Definition arbitrumSepoliaUsdc : string := "0x75faf114eafb1BDbe2F0316DF893fd58CE46AA4d".
Definition arbitrumSepoliaTokenMessenger : string := "0x8FE6B999Dc680CcFDD5Bf7EB0974218be2542DAA".
Definition arbitrumSepoliaMessageTransmitter : string := "0xE737e5cEBEEBa77EFE34D4aa090756590b1CE275".
Definition stellarCctpForwarder : string := "CA66Q2WFBND6V4UEB7RD4SAXSVIWMD6RA4X3U32ELVFGXV5PJK4T4VSZ".
Definition FINALITY_THRESHOLD_FINALIZED : Z := 2000.
Definition FINALITY_THRESHOLD_CONFIRMED : Z := 1000.

Definition LOCKED_CCTP : json := JObj
  [("cctpVersion", JStr "v2"); ("arbitrumSepoliaDomain", JNum arbitrumSepoliaDomain); ("stellarDomain", JNum stellarDomain);
   ("arbitrumSepoliaUsdc", JStr arbitrumSepoliaUsdc); ("arbitrumSepoliaTokenMessenger", JStr arbitrumSepoliaTokenMessenger);
   ("arbitrumSepoliaMessageTransmitter", JStr arbitrumSepoliaMessageTransmitter); ("stellarCctpForwarder", JStr stellarCctpForwarder);
   ("stellarMessageTransmitter", JStr "CBJ6MTCKKZG73PMDZCJMSFRD7DQEMI4FKDH7CGDSV4W6FHCRBCQAVVJY");
   ("stellarTokenMessengerMinter", JStr "CDNG7HXAPBWICI2E3AUBP3YZWZELJLYSB6F5CC7WLDTLTHVM74SLRTHP");
   ("stellarUsdcAsset", JStr "USDC-GBBD47IF6LWK7P7MDEVSCWR7DPUWV3NY3DTQEVFL4NAT4AQH3ZLLFLA5")].

Record CctpInboundRoute := { r_destinationDomain : Z; r_mintRecipient : string; r_destinationCaller : string; r_forwardRecipient : string }.

Definition usdc6ToStellar7 (amount6 : Z) : Z := amount6 * 10.

Definition stellar7ToUsdc6 (amount7 : Z) : result Z :=
  throw_if negb (Z.rem amount7 10 =? 0) with "Stellar 7dp amount cannot be represented exactly as CCTP 6dp" in
  Ok (Z.quot amount7 10).

Section Routes.
Context {CL : ChainLib}.

Definition isValidContract (c : string) : bool := match decodeContract c with Some _ => true | None => false end.

Definition stellarContractToBytes32 (contractId : string) : result string :=
  match decodeContract contractId with
  | Some b => Ok ("0x" +:+ hex_encode b)
  | None => Err ("Expected Stellar contract strkey, got " +:+ contractId)
  end.

Definition validateInboundRoute (route : CctpInboundRoute) (expectedForwarder : string) : result unit :=
  throw_if negb (r_destinationDomain route =? stellarDomain) with "wrong destination domain: expected " +:+ toString stellarDomain in
  throw_if negb (isValidContract (r_mintRecipient route)) with "mintRecipient must be a Stellar C contract" in
  throw_if negb (isValidContract (r_destinationCaller route)) with "destinationCaller must be a Stellar C contract" in
  throw_if negb (bool_decide (r_mintRecipient route = expectedForwarder)) with "mintRecipient must equal CctpForwarder" in
  throw_if negb (bool_decide (r_destinationCaller route = expectedForwarder)) with "destinationCaller must equal CctpForwarder" in
  throw_if negb (isValidContract (r_forwardRecipient route)) with "forwardRecipient must be the ShadeVault C contract" in
  Ok tt.

Fixpoint zero_bytes (n : nat) : string := match n with O => "" | S n => String (byte_of 0) (zero_bytes n) end.
(** [writeUInt32BE] *)
Definition be32 (n : Z) : string :=
  String (byte_of (n / 2 ^ 24 mod 256)) (String (byte_of (n / 2 ^ 16 mod 256)) (String (byte_of (n / 2 ^ 8 mod 256)) (String (byte_of (n mod 256)) ""))).

(** 24 zero bytes, 4 reserved bytes, the length and the recipient. *)
Definition hook_bytes (recipient : string) : string :=
  zero_bytes 24 +:+ zero_bytes 4 +:+ be32 (Z.of_nat (String.length recipient)) +:+ recipient.

Definition encodeStellarForwardHook (forwardRecipient : string) : result string :=
  throw_if negb (isValidContract forwardRecipient) with "forwardRecipient must be a Stellar C contract" in
  Ok ("0x" +:+ hex_encode (hook_bytes forwardRecipient)).

End Routes.

(** ** Calls to other systems *)

Inductive Call :=
| GetTransaction (hash : string)
| GetReceipt (hash : string)
| Erc20 (token method : string) (args : list json)
| DepositForBurnWithHook (messenger : string) (args : list json)
| IrisLookup (url : string)
| Soroban (contract secret method : string) (args : list string) (readOnly : bool)
| BuildDepositProof (coin binding : json)
| ReadClock
| Sleep (ms : Z).

Definition M : Type -> Type := SE (list Call).

Definition EnvMap := list (string * string).
(** [env.K ?? d] *)
Definition env_default (env : EnvMap) (k d : string) : string := default d (jget k env).
Definition need (env : EnvMap) (key : string) : result string :=
  match jget key env with
  | Some v => if bool_decide (v = "") then Err ("missing env " +:+ key) else Ok v
  | None => Err ("missing env " +:+ key)
  end.

Definition fld (k : string) (v : json) : json := default JNull (prop k v).
Definition txt (k : string) (v : json) : string := match prop k v with Some x => to_primitive x | None => "undefined" end.

(** Double quotes removed, then trimmed. *)
Fixpoint drop_quotes (s : string) : string :=
  match s with EmptyString => "" | String c s => if Ascii.eqb c dq then drop_quotes s else String c (drop_quotes s) end.
Definition clean (s : string) : string := trim (drop_quotes s).

Definition DEFAULT_API_BASE : string := "https://iris-api-sandbox.circle.com".

Section Inbound.
Context {CL : ChainLib}.
Variable answer : list Call -> Call -> result json.

Definition call (c : Call) : M json := fun h => ((h ++ [c])%list, answer h c).

(** [bytesToCliHex] *)
Definition bytesToCliHex (h : string) : string := stripHex h.

(** ** Attestations *)

(** A final slash removed. *)
Fixpoint drop_slash (s : string) : string :=
  match s with
  | EmptyString => ""
  | String c EmptyString => if Ascii.eqb c "/" then "" else s
  | String c s => String c (drop_slash s)
  end.

(** The reply of the lookup is its status code and parsed body. *)
Definition fetchAttestationByTx (apiBase : string) (sourceDomain : Z) (burnTxHash : string) : M (option json) :=
  run! res := call (IrisLookup (drop_slash apiBase +:+ "/v2/messages/" +:+ toString sourceDomain +:+ "?transactionHash=" +:+ burnTxHash)) in
  match prop "status" res with
  | Some (JNum st) =>
      if st =? 404 then ret None
      else if negb ((200 <=? st) && (st <? 300)) then throw ("Iris lookup failed " +:+ toString st +:+ ": " +:+ txt "text" res)
      else match prop "messages" (fld "body" res) with
           | Some (JArr (msg :: _)) =>
               if negb (truthy msg) then ret None
               else ret (Some (JObj ([("status", JStr (txt "status" msg)); ("message", fld "message" msg); ("attestation", fld "attestation" msg)]
                     ++ (if truthy (fld "eventNonce" msg) then [("eventNonce", JStr (txt "eventNonce" msg))] else [])
                     ++ (match fld "cctpVersion" msg with JNum v => [("cctpVersion", JNum v)] | _ => [] end))%list))
           | _ => ret None
           end
  | _ => throw "fetch failed"
  end.

Definition attestation_complete (att : option json) : option json :=
  match att with
  | Some a =>
      match fld "attestation" a with
      | JStr s => if bool_decide (txt "status" a = "complete") && negb (bool_decide (s ∈ [""; "0x"; "PENDING"])) then Some a else None
      | _ => None
      end
  | None => None
  end.

Definition clock : M Z := run! v := call ReadClock in match v with JNum z => ret z | _ => throw "no clock" end.

(** [Math.round(ms / 1000)] of a non-negative number. *)
Definition round_seconds (ms : Z) : Z := (ms + 500) / 1000.

(** [None] when the fuel runs out before the loop ends. *)
Fixpoint poll_loop (fuel : nat) (apiBase : string) (sourceDomain : Z) (burnTxHash : string) (intervalMs timeoutMs start : Z) : M (option json) :=
  match fuel with
  | O => ret None
  | S fuel =>
      run! att := fetchAttestationByTx apiBase sourceDomain burnTxHash in
      match attestation_complete att with
      | Some a => ret (Some a)
      | None =>
          run! t := clock in
          if timeoutMs <? t - start then
            run! t' := clock in
            throw ("attestation timed out after " +:+ toString (round_seconds (t' - start)) +:+ "s (last status: "
                   +:+ match att with Some a => txt "status" a | None => "pending" end +:+ ")")
          else
            run! _ := call (Sleep intervalMs) in
            poll_loop fuel apiBase sourceDomain burnTxHash intervalMs timeoutMs start
      end
  end.

Definition pollAttestation (fuel : nat) (apiBase : string) (sourceDomain : Z) (burnTxHash : string) : M (option json) :=
  run! start := clock in poll_loop fuel apiBase sourceDomain burnTxHash 8000 (20 * 60 * 1000) start.

(** ** Balances *)

(** Up to [n] reads of the balance until one is not empty. *)
Fixpoint sac_reads (n : nat) (sac ofContract secret : string) : M Z :=
  match n with
  | O => ret 0
  | S n =>
      run! res := call (Soroban sac secret "balance" ["--id"; ofContract] true) in
      let cleaned := clean (txt "returnValue" res) in
      if bool_decide (cleaned = "") then sac_reads n sac ofContract secret
      else match BigInt cleaned with Some z => ret z | None => throw "SyntaxError: Cannot convert to a BigInt" end
  end.
Definition sacBalance (sac ofContract secret : string) : M Z := sac_reads 5 sac ofContract secret.

Fixpoint wait_balance (n : nat) (sac ofContract secret : string) (before after : Z) : M Z :=
  match n with
  | O => ret after
  | S n =>
      if after <=? before then
        run! _ := call (Sleep 3000) in
        run! after := sacBalance sac ofContract secret in
        wait_balance n sac ofContract secret before after
      else ret after
  end.

(** ** Validating the user's burn *)

Record BurnArgs := {
  burnTxHash : string; expectedSender : string; expectedAmount6 : Z; pool : string; expectedMaxFee6 : option Z; expectedFinality : option Z }.

Record BurnValidation := {
  v_burnTxHash : string; sender : string; v_amount6 : Z; destinationDomain : Z; mintRecipient : string; destinationCaller : string;
  burnToken : string; maxFee : Z; minFinalityThreshold : Z; hookData : string }.

Definition lower_is (v : json) (s : string) : bool := bool_decide (toLowerCase (to_primitive v) = s).
Definition big (v : json) : result Z := match BigInt_json v with Some z => Ok z | None => Err "Cannot convert to a BigInt" end.
(** [Number(v) === z] *)
Definition number_is (v : json) (z : Z) : bool := match Number_value v with JNum n => n =? z | _ => false end.
Definition number_or (v : json) (d : Z) : Z := match Number_value v with JNum n => n | _ => d end.

(** [args.expectedFinality ?? (env.X ? Number(env.X) : CONFIRMED)]; a number
    that is no integer equals no threshold. *)
Definition expected_finality (env : EnvMap) (o : option Z) : option Z :=
  match o with
  | Some z => Some z
  | None =>
      match jget "EXPECTED_CCTP_FINALITY_THRESHOLD" env with
      | Some s => if bool_decide (s = "") then Some FINALITY_THRESHOLD_CONFIRMED
                  else match Number_value (JStr s) with JNum n => Some n | _ => None end
      | None => Some FINALITY_THRESHOLD_CONFIRMED
      end
  end.

(** The checks on the decoded calldata. *)
Definition check_burn (env : EnvMap) (a : BurnArgs) (from : json) (d : list json) : result BurnValidation :=
  let nth i := nth i d JNull in
  let forwarder := env_default env "STELLAR_CCTP_FORWARDER_CONTRACT" stellarCctpForwarder in
  let usdc := toLowerCase (env_default env "ARB_SEPOLIA_USDC_ADDRESS" arbitrumSepoliaUsdc) in
  let! mint := stellarContractToBytes32 forwarder in
  let expMint := toLowerCase mint in
  let! hook := encodeStellarForwardHook (pool a) in
  let expHook := toLowerCase hook in
  let! amount := big (nth 0%nat) in
  throw_if negb (amount =? expectedAmount6 a) with "burn amount != deposit amount" in
  throw_if negb (number_is (nth 1%nat) stellarDomain) with "burn destination domain != Stellar" in
  throw_if negb (lower_is (nth 2%nat) expMint) with "burn mintRecipient != Stellar CCTP Forwarder" in
  throw_if negb (lower_is (nth 3%nat) usdc) with "burn burnToken != expected USDC" in
  throw_if negb (lower_is (nth 4%nat) expMint) with "burn destinationCaller != Stellar CCTP Forwarder" in
  let! _ := match expectedMaxFee6 a with
            | Some m => let! fee := big (nth 5%nat) in if m <? fee then Err "burn maxFee exceeds prepared maxFee" else Ok tt
            | None => Ok tt
            end in
  throw_if negb (match expected_finality env (expectedFinality a) with Some f => number_is (nth 6%nat) f | None => false end)
    with "burn minFinalityThreshold != expected" in
  throw_if negb (lower_is (nth 7%nat) expHook) with "burn hookData forwardRecipient != ShadePool" in
  let! fee := big (nth 5%nat) in
  Ok {| v_burnTxHash := burnTxHash a; sender := to_primitive from; v_amount6 := amount; destinationDomain := number_or (nth 1%nat) 0;
        mintRecipient := to_primitive (nth 2%nat); destinationCaller := to_primitive (nth 4%nat); burnToken := to_primitive (nth 3%nat);
        maxFee := fee; minFinalityThreshold := number_or (nth 6%nat) 0; hookData := to_primitive (nth 7%nat) |}.

(** Transaction and receipt are [JNull] when they do not exist. *)
Definition validateInboundBurnTx (env : EnvMap) (a : BurnArgs) : M BurnValidation :=
  run! tx := call (GetTransaction (burnTxHash a)) in
  run! receipt := call (GetReceipt (burnTxHash a)) in
  if negb (truthy tx) || negb (truthy receipt) then throw "burn tx not found on Arbitrum"
  else if negb (match prop "status" receipt with Some (JNum s) => s =? 1 | _ => false end) then throw "burn tx reverted"
  else if negb (bool_decide (toLowerCase (txt "from" tx) = toLowerCase (expectedSender a))) then throw "burn sender != deposit user wallet"
  else
    let tokenMessenger := toLowerCase (env_default env "ARB_SEPOLIA_CCTP_TOKEN_MESSENGER" arbitrumSepoliaTokenMessenger) in
    let to := match prop "to" tx with None | Some JNull => "" | Some v => to_primitive v end in
    if negb (bool_decide (toLowerCase to = tokenMessenger)) then throw "burn tx target != CCTP TokenMessenger"
    else match decodeBurn (txt "data" tx) with
         | Err _ => throw "burn tx is not depositForBurnWithHook"
         | Ok None => throw "could not decode burn calldata"
         | Ok (Some d) => lift (check_burn env a (fld "from" tx) d)
         end.

(** ** Completing the Stellar side *)

Record InboundResult := {
  ir_burnTxHash : string; message : string; attestation : string; cctpNonceHex : string; mintForwardTxHash : json; vaultUsdcBefore : string;
  vaultUsdcAfter : string; receiveDepositTxHash : json; leafIndex : string; root : string; amount7 : string }.

Record DepositTerms := {
  dt_pool : string; dt_sac : string; dt_amount6 : Z; dt_commitmentHex : string; dt_payloadHashHex : string; dt_policyIdHex : string;
  dt_newRootHex : option string; dt_poolId : string; dt_chainId : string }.

Definition deposit_binding (t : DepositTerms) (nonce burn : string) (amount7 : Z) : json := JObj
  [("sourceDomain", JStr (toString arbitrumSepoliaDomain)); ("destinationDomain", JStr (toString stellarDomain)); ("cctpNonceHex", JStr nonce);
   ("burnTxHashHex", JStr burn); ("amount6dp", JStr (toString (dt_amount6 t))); ("amount7dp", JStr (toString amount7)); ("assetStrkey", JStr (dt_sac t));
   ("poolStrkey", JStr (dt_pool t)); ("encryptedNotePayloadHashHex", JStr (dt_payloadHashHex t)); ("policyIdHex", JStr (dt_policyIdHex t));
   ("poolId", JStr (dt_poolId t)); ("chainId", JStr (dt_chainId t))].

Definition receive_args (t : DepositTerms) (nonce : string) (amount7 : Z) (proofArgs : list string) : list string :=
  (["--source_domain"; toString arbitrumSepoliaDomain; "--cctp_nonce"; bytesToCliHex nonce; "--asset"; dt_sac t; "--amount"; toString amount7;
    "--commitment"; bytesToCliHex (dt_commitmentHex t)]
   ++ match dt_newRootHex t with Some r => ["--new_root"; bytesToCliHex r] | None => [] end
   ++ ["--encrypted_note_payload_hash"; bytesToCliHex (dt_payloadHashHex t); "--policy_id"; bytesToCliHex (dt_policyIdHex t)]
   ++ proofArgs)%list.

(** The DepositNoteMint proof as arguments of the contract call. *)
Definition deposit_proof (t : DepositTerms) (coin : option json) (no_coin not_verified : string) (nonce burn : string) (amount7 : Z)
    : M (list string) :=
  match coin with
  | None => throw no_coin
  | Some c =>
      run! dep := call (BuildDepositProof c (deposit_binding t nonce burn amount7)) in
      if negb (truthy (fld "locallyVerified" dep)) then throw not_verified
      else ret ["--proof_bytes"; txt "proofHex" dep; "--pub_signals_bytes"; txt "publicHex" dep]
  end.

(** Registration under [secret], then the new root of [rootContract]. *)
Definition register_deposit (t : DepositTerms) (secret : string) (nonce : string) (amount7 : Z) (proofArgs : list string)
    (rootSecret : string) (rootContract : M string) (rootMethod : string) : M (json * string * string) :=
  run! receive := call (Soroban (dt_pool t) secret "receive_cctp_deposit" (receive_args t nonce amount7 proofArgs) false) in
  run! rc := rootContract in
  run! rootRes := call (Soroban rc rootSecret rootMethod [] true) in
  ret (fld "txHash" receive, clean (txt "returnValue" receive), clean (txt "returnValue" rootRes)).

(** Attestation, mint and the balance delta, common to both flows. *)
Definition mint_forward (fuel : nat) (env : EnvMap) (secret forwarder sac target burn : string) : M (option (json * string * json * Z * Z)) :=
  run! att := pollAttestation fuel (env_default env "CCTP_ATTESTATION_API_BASE" DEFAULT_API_BASE) arbitrumSepoliaDomain burn in
  match att with
  | None => ret None
  | Some att =>
      let nonce := keccak256 (txt "message" att) in
      run! before := sacBalance sac target secret in
      run! mf := call (Soroban forwarder secret "mint_and_forward"
                   ["--message"; bytesToCliHex (txt "message" att); "--attestation"; bytesToCliHex (txt "attestation" att)] false) in
      run! after := sacBalance sac target secret in
      run! after := wait_balance 10 sac target secret before after in
      ret (Some (att, nonce, fld "txHash" mf, before, after))
  end.

Definition inbound_result (burn nonce : string) (att mint_tx : json) (before after : Z) (reg : json * string * string) : InboundResult :=
  {| ir_burnTxHash := burn; message := txt "message" att; attestation := txt "attestation" att; cctpNonceHex := nonce;
     mintForwardTxHash := mint_tx; vaultUsdcBefore := toString before; vaultUsdcAfter := toString after;
     receiveDepositTxHash := reg.1.1; leafIndex := reg.1.2; root := reg.2; amount7 := toString (after - before) |}.

Record PostUserBurnParams := {
  pb_burnTxHash : string; pb_pool : string; pb_amount6 : Z; pb_commitmentHex : string; pb_payloadHashHex : string; pb_policyIdHex : string;
  pb_newRootHex : string; pb_coin : option json; pb_poolId : option string; pb_chainId : option string }.

(** [None] when the polling fuel runs out. *)
Definition runPostUserBurnCctpInbound (fuel : nat) (env : EnvMap) (p : PostUserBurnParams) : M (option InboundResult) :=
  let forwarder := env_default env "STELLAR_CCTP_FORWARDER_CONTRACT" stellarCctpForwarder in
  run! sac := lift (need env "STELLAR_TESTNET_USDC_SAC_CONTRACT") in
  run! secret := lift (need env "STELLAR_RELAYER_SECRET") in
  run! m := mint_forward fuel env secret forwarder sac (pb_pool p) (pb_burnTxHash p) in
  match m with
  | None => ret None
  | Some (att, nonce, mint_tx, before, after) =>
      let amount7 := after - before in
      if amount7 <=? 0 then throw "mint_and_forward produced no pool USDC delta"
      else
        let t := {| dt_pool := pb_pool p; dt_sac := sac; dt_amount6 := pb_amount6 p; dt_commitmentHex := pb_commitmentHex p;
                    dt_payloadHashHex := pb_payloadHashHex p; dt_policyIdHex := pb_policyIdHex p; dt_newRootHex := Some (pb_newRootHex p);
                    dt_poolId := default "1" (pb_poolId p); dt_chainId := default "148" (pb_chainId p) |} in
        run! proofArgs := deposit_proof t (pb_coin p) "coin opening required to build DepositNoteMint proof (supply via prover path)"
                            "DepositNoteMint proof failed local verification" nonce (pb_burnTxHash p) amount7 in
        run! reg := register_deposit t secret nonce amount7 proofArgs secret (ret (pb_pool p)) "get_root" in
        ret (Some (inbound_result (pb_burnTxHash p) nonce att mint_tx before after reg))
  end.

(** ** The operator's own burn

    Without a target contract the deposit goes to the older vault, which has
    neither a proof nor an embedded tree. *)

Record InboundParams := {
  ip_amount6 : Z; ip_commitmentHex : string; ip_payloadHashHex : string; ip_policyIdHex : string; ip_fast : option bool; ip_maxFee6 : option Z;
  ip_target : option string; ip_rootMethod : option string; ip_newRootHex : option string; ip_coin : option json; ip_poolId : option string;
  ip_chainId : option string; ip_adminSecret : option string }.

(** [p.targetContract ? ... : ...] *)
Definition shielded (p : InboundParams) : bool := match ip_target p with Some t => negb (bool_decide (t = "")) | None => false end.

Definition fast_fee (amount6 : Z) : Z := if 0 <? Z.quot amount6 1000 then Z.quot amount6 1000 else 1.

Definition runCctpInbound (fuel : nat) (env : EnvMap) (wallet : string) (p : InboundParams) : M (option InboundResult) :=
  let privateKey := match jget "ARB_SEPOLIA_PRIVATE_KEY" env with Some k => k | None => env_default env "ETH_PRIVATE_KEY" "" end in
  if bool_decide (privateKey = "") then throw "ARB_SEPOLIA_PRIVATE_KEY/ETH_PRIVATE_KEY required"
  else
    run! forwarder := lift (need env "STELLAR_CCTP_FORWARDER_CONTRACT") in
    run! vault := match ip_target p with Some t => ret t | None => lift (need env "SHADE_VAULT_CONTRACT") end in
    run! sac := lift (need env "STELLAR_TESTNET_USDC_SAC_CONTRACT") in
    run! relayerSecret := lift (need env "STELLAR_RELAYER_SECRET") in
    let usdcAddr := env_default env "ARB_SEPOLIA_USDC_ADDRESS" arbitrumSepoliaUsdc in
    let tokenMessenger := env_default env "ARB_SEPOLIA_CCTP_TOKEN_MESSENGER" arbitrumSepoliaTokenMessenger in
    run! b := call (Erc20 usdcAddr "balanceOf" [JStr wallet]) in
    run! bal := lift (big b) in
    if bal <? ip_amount6 p then throw ("insufficient USDC: have " +:+ toString bal +:+ ", need " +:+ toString (ip_amount6 p))
    else
      run! al := call (Erc20 usdcAddr "allowance" [JStr wallet; JStr tokenMessenger]) in
      run! allowance := lift (big al) in
      run! _ := (if allowance <? ip_amount6 p then call (Erc20 usdcAddr "approve" [JStr tokenMessenger; JNum (ip_amount6 p * 100)]) else ret JNull) in
      run! mintRecipient := lift (stellarContractToBytes32 forwarder) in
      run! hook := lift (encodeStellarForwardHook vault) in
      let fast := default true (ip_fast p) in
      let maxFee := if fast then match ip_maxFee6 p with Some m => m | None => fast_fee (ip_amount6 p) end else 0 in
      let finalityThreshold := if fast then FINALITY_THRESHOLD_CONFIRMED else FINALITY_THRESHOLD_FINALIZED in
      run! receipt := call (DepositForBurnWithHook tokenMessenger
        [JNum (ip_amount6 p); JNum stellarDomain; JStr mintRecipient; JStr usdcAddr; JStr mintRecipient; JNum maxFee; JNum finalityThreshold; JStr hook]) in
      let burn := txt "hash" receipt in
      run! m := mint_forward fuel env relayerSecret forwarder sac vault burn in
      match m with
      | None => ret None
      | Some (att, nonce, mint_tx, before, after) =>
          let mintedDelta7 := after - before in
          let expectedMax7 := usdc6ToStellar7 (ip_amount6 p) in
          if (mintedDelta7 <=? 0) || (expectedMax7 <? mintedDelta7) then
            throw ("vault USDC delta " +:+ toString mintedDelta7 +:+ " not in (0, " +:+ toString expectedMax7 +:+ "]")
          else
            let t := {| dt_pool := vault; dt_sac := sac; dt_amount6 := ip_amount6 p; dt_commitmentHex := ip_commitmentHex p;
                        dt_payloadHashHex := ip_payloadHashHex p; dt_policyIdHex := ip_policyIdHex p;
                        dt_newRootHex := if shielded p then ip_newRootHex p else None;
                        dt_poolId := default "1" (ip_poolId p); dt_chainId := default "148" (ip_chainId p) |} in
            run! proofArgs := (if shielded p then
              deposit_proof t (ip_coin p) "P1.8: coin (note opening) required for shielded_pool deposit proof"
                "P1.8 deposit proof failed local verification" nonce burn mintedDelta7
              else ret []) in
            if shielded p && negb (bool_decide (is_Some (ip_newRootHex p))) then throw "newRootHex required for shielded_pool deposit"
            else
              run! reg := register_deposit t (default relayerSecret (ip_adminSecret p)) nonce mintedDelta7 proofArgs relayerSecret
                            match ip_target p with Some c => ret c | None => lift (need env "COMMITMENT_TREE_CONTRACT") end
                            (default (if shielded p then "get_root" else "get_latest_root") (ip_rootMethod p)) in
              ret (Some (inbound_result burn nonce att mint_tx before after reg))
      end.

End Inbound.
(** ** The forwarding hook *)

Lemma hex_char_lower d : 0 <= d < 16 -> lower_char (hex_char d) = hex_char d.
Proof.
  intros Hd. assert (forallb (fun d => Ascii.eqb (lower_char (hex_char d)) (hex_char d)) (Z.of_nat <$> seq 0 16) = true) as H by (by vm_compute).
  rewrite forallb_forall in H. apply Ascii.eqb_eq, (H d), list_elem_of_In, list_elem_of_fmap. exists (Z.to_nat d). split; [lia|].
  apply elem_of_seq. lia.
Qed.

Lemma hex_encode_lower s : toLowerCase (hex_encode s) = hex_encode s.
Proof.
  induction s as [|c s IH]; [done|]. cbn. pose proof (byte_val_range c). rewrite !hex_char_lower, IH; [done|..].
  - apply Z.mod_pos_bound. lia. - split; [apply Z.div_pos; lia|apply Z.div_lt_upper_bound; lia].
Qed.

Lemma hook_bytes_inj a b : hook_bytes a = hook_bytes b -> a = b.
Proof. unfold hook_bytes, be32. cbn. intros H. by injection H. Qed.

Lemma hook_text {CL : ChainLib} p h : encodeStellarForwardHook p = Ok h -> h = "0x" +:+ hex_encode (hook_bytes p) /\ isValidContract p = true.
Proof. unfold encodeStellarForwardHook. destruct (isValidContract p); [|done]. cbn [negb]. intros H. split; [congruence|done]. Qed.

Lemma hook_lower {CL : ChainLib} p h : encodeStellarForwardHook p = Ok h -> toLowerCase h = h.
Proof. intros H. apply hook_text in H as [-> _]. by rewrite lower_0x, hex_encode_lower. Qed.

Lemma hook_binds {CL : ChainLib} p p' h : encodeStellarForwardHook p = Ok h -> encodeStellarForwardHook p' = Ok h -> p = p'.
Proof. intros H H'. apply hook_text in H as [-> _], H' as [H' _]. apply (sapp_inj_length "0x" "0x" _ _ eq_refl) in H' as [_ H']. by apply (inj hex_encode), hook_bytes_inj in H'. Qed.

(** What a validated burn commits to. *)
Record burn_commits {CL : ChainLib} (env : EnvMap) (a : BurnArgs) (v : BurnValidation) : Prop := {
  bc_amount : v_amount6 v = expectedAmount6 a;
  bc_token : toLowerCase (burnToken v) = toLowerCase (env_default env "ARB_SEPOLIA_USDC_ADDRESS" arbitrumSepoliaUsdc);
  bc_forwarder : exists f, stellarContractToBytes32 (env_default env "STELLAR_CCTP_FORWARDER_CONTRACT" stellarCctpForwarder) = Ok f /\
    toLowerCase (mintRecipient v) = toLowerCase f /\ toLowerCase (destinationCaller v) = toLowerCase f;
  bc_domain : destinationDomain v = stellarDomain;
  bc_fee : forall m, expectedMaxFee6 a = Some m -> maxFee v <= m;
  bc_recipient : isValidContract (pool a) = true /\ forall p, encodeStellarForwardHook p = Ok (toLowerCase (hookData v)) -> p = pool a }.

(** A burn that the relayer accepts moves exactly the deposit: its calldata
    names the deposit's amount and token, Stellar as destination, the CCTP
    forwarder as mint recipient and caller, a fee within the one prepared, and a
    hook that forwards to the shielded pool and to no other contract. *)
Theorem burn_validation_sound (CL : ChainLib) (env : EnvMap) (a : BurnArgs) (from : json) (d : list json) (v : BurnValidation) :
  check_burn env a from d = Ok v -> burn_commits env a v.
Proof.
  unfold check_burn. intros H. apply rbind_Ok in H as (mint & Hm & H). apply rbind_Ok in H as (hook & Hh & H).
  apply rbind_Ok in H as (amount & Ha & H). destruct (_ =? _) eqn:E1 in H; cbn [negb] in H; [|done].
  destruct (number_is (nth 1 d JNull) _) eqn:E2 in H; cbn [negb] in H; [|done]. destruct (lower_is (nth 2 d JNull) _) eqn:E3 in H; cbn [negb] in H; [|done].
  destruct (lower_is (nth 3 d JNull) _) eqn:E4 in H; cbn [negb] in H; [|done]. destruct (lower_is (nth 4 d JNull) _) eqn:E5 in H; cbn [negb] in H; [|done].
  apply rbind_Ok in H as (u & Hfee & H). destruct (match expected_finality _ _ with Some _ => _ | None => _ end) in H; cbn [negb] in H; [|done].
  destruct (lower_is (nth 7 d JNull) _) eqn:E6 in H; cbn [negb] in H; [|done]. apply rbind_Ok in H as (fee & Hf & [= <-]).
  unfold lower_is in *. breflect. pose proof (hook_lower _ _ Hh) as Hlow. destruct (hook_text _ _ Hh) as [_ Hval]. split; cbn.
  - done. - done. - exists mint. done.
  - unfold number_is in E2. unfold number_or. destruct (Number_value _) as [| |z| | |]; try done. by apply Z.eqb_eq in E2.
  - intros m Em. rewrite Em, Hf in Hfee. cbn in Hfee. destruct (Z.ltb_spec m fee); [done|lia].
  - split; [done|]. intros p Hp. rewrite E6, Hlow in Hp. by eapply hook_binds.
Qed.

(** ** Amounts registered *)

(** The amounts of a result are the balance change, which is positive. *)
Definition registers (r : InboundResult) (bound : option Z) : Prop :=
  exists before after, vaultUsdcBefore r = toString before /\ vaultUsdcAfter r = toString after /\ amount7 r = toString (after - before) /\
    before < after /\ match bound with Some b => after - before <= b | None => True end.


(** The same of a deposit after the user's burn, without an upper bound. *)
Lemma user_burn_amount_positive (CL : ChainLib) answer fuel env p h h' r :
  runPostUserBurnCctpInbound answer fuel env p h = (h', Ok (Some r)) -> registers r None.
Proof.
  unfold runPostUserBurnCctpInbound. intros H. do 2 (apply bindM_Ok in H as (? & ? & _ & H)). apply bindM_Ok in H as (m & h1 & _ & H).
  destruct m as [[[[[att nonce] mint] before] after]|]; [|done]. destruct (Z.leb_spec (after - before) 0) in H; [done|].
  apply bindM_Ok in H as (? & ? & _ & H). apply bindM_Ok in H as (reg & h2 & _ & [= <- <-]). exists before, after. split_and!; try done; lia.
Qed.

(** ** Polling ends *)

(** Milliseconds slept in a history of calls. *)
Fixpoint slept (h : list Call) : Z := match h with [] => 0 | Sleep ms :: h => ms + slept h | _ :: h => slept h end.

Lemma slept_app a b : slept (a ++ b)%list = slept a + slept b.
Proof. induction a as [|c a IH]; [done|]. cbn. rewrite IH. destruct c; lia. Qed.

Section Polling.
Variable answer : list Call -> Call -> result json.
Variable clk : list Call -> Z.
Hypothesis clock_answers : forall h, answer h ReadClock = Ok (JNum (clk h)).
(** Sleeping takes at least the time asked for. *)
Hypothesis clock_sleeps : forall h ext, clk h + slept ext <= clk (h ++ ext).

Lemma fetch_history api dom tx h : exists r, fetchAttestationByTx answer api dom tx h = ((h ++ [IrisLookup (drop_slash api +:+ "/v2/messages/" +:+ toString dom +:+ "?transactionHash=" +:+ tx)])%list, r).
Proof. unfold fetchAttestationByTx, bindM, call. destruct (answer h _) as [res|e]; [|by eexists]. repeat case_match; by eexists. Qed.

Lemma poll_loop_ends fuel api dom tx interval timeout h0 ext k :
  0 < interval -> slept ext = k * interval -> 0 <= k -> timeout < (k + Z.of_nat fuel - 1) * interval -> (0 < fuel)%nat ->
  (poll_loop answer fuel api dom tx interval timeout (clk h0) (h0 ++ ext)%list).2 <> Ok None.
Proof.
  intros Hi. revert ext k. induction fuel as [|fuel IH]; intros ext k He Hk Hn Hf; [lia|]. cbn [poll_loop]. unfold bindM at 1.
  destruct (fetch_history api dom tx (h0 ++ ext)%list) as [r ->]. destruct r as [att|e]; [|done].
  set (q := IrisLookup _). destruct (attestation_complete att) as [a|]; [done|].
  unfold clock at 1, call, bindM at 1 2. rewrite clock_answers. cbv beta iota delta [ret].
  pose proof (clock_sleeps h0 (ext ++ [q])%list) as Hc. rewrite slept_app in Hc. cbn in Hc. rewrite <- (assoc_L (++)) .
  destruct (Z.ltb_spec timeout (clk (h0 ++ ext ++ [q])%list - clk h0)) as [Hlt|Hge].
  - unfold clock, call, bindM. rewrite clock_answers. done.
  - unfold bindM, call. destruct (answer _ (Sleep interval)) as [v|e]; [|done].
    replace (((h0 ++ ext ++ [q]) ++ [ReadClock]) ++ [Sleep interval])%list with (h0 ++ (((ext ++ [q]) ++ [ReadClock]) ++ [Sleep interval]))%list by (by rewrite !(assoc_L (++))).
    apply (IH _ (k + 1)).
    + rewrite !slept_app, He. cbn. lia. + lia. + nia. + destruct fuel; [nia|lia].
Qed.

(** Waiting for Circle's attestation ends: when a sleep takes at least the
    time asked for, 152 rounds of eight seconds outlast the timeout of twenty
    minutes, so polling returns an attestation or throws and never runs out of
    rounds. *)
Theorem poll_attestation_terminates (api : string) (dom : Z) (tx : string) (h : list Call) (fuel : nat) :
  (152 <= fuel)%nat -> (pollAttestation answer fuel api dom tx h).2 <> Ok None.
Proof.
  intros Hf. unfold pollAttestation, clock, call, bindM at 1 2. rewrite clock_answers. cbv beta iota delta [ret].
  pose proof (poll_loop_ends fuel api dom tx 8000 (20 * 60 * 1000) h [ReadClock] 0) as H. apply H; [lia|done|lia|lia|lia].
Qed.

End Polling.

(** ** Examples *)

(** A contract key is text that starts with C. *)
#[global] Instance toy_chains : ChainLib :=
  {| decodeContract := fun c => match c with String "C" t => Some t | _ => None end; decodeBurn := fun _ => Ok None; keccak256 := fun s => s |}.

Definition toy_env : EnvMap :=
  [("STELLAR_TESTNET_USDC_SAC_CONTRACT", "CSAC"); ("STELLAR_RELAYER_SECRET", "S"); ("STELLAR_CCTP_FORWARDER_CONTRACT", "CFWD"); ("ETH_PRIVATE_KEY", "k")].
Definition minted (h : list Call) : bool := existsb (fun c => match c with Soroban _ _ m _ _ => bool_decide (m = "mint_and_forward") | _ => false end) h.
Definition toy_answer (h : list Call) (c : Call) : result json :=
  match c with
  | Erc20 _ _ _ => Ok (JNum 1000000)
  | DepositForBurnWithHook _ _ => Ok (JObj [("hash", JStr "0xburn")])
  | IrisLookup _ => Ok (JObj [("status", JNum 200); ("body", JObj [("messages", JArr [JObj [("status", JStr "complete"); ("message", JStr "0xm"); ("attestation", JStr "0xa")]])])])
  | Soroban _ _ m _ _ => Ok (JObj [("txHash", JStr "t"); ("returnValue", JStr (if bool_decide (m = "balance") then (if minted h then "1990" else "1000") else "7"))])
  | BuildDepositProof _ _ => Ok (JObj [("locallyVerified", JBool true)])
  | ReadClock => Ok (JNum (slept h))
  | _ => Ok JNull
  end.
Definition toy_inbound : InboundParams :=
  {| ip_amount6 := 100; ip_commitmentHex := "0x01"; ip_payloadHashHex := "0x02"; ip_policyIdHex := "0x03"; ip_fast := None; ip_maxFee6 := None;
     ip_target := Some "CPOOL"; ip_rootMethod := None; ip_newRootHex := Some "0x04"; ip_coin := Some (JObj []); ip_poolId := None;
     ip_chainId := None; ip_adminSecret := None |}.
Definition toy_result : list Call * result (option InboundResult) := runCctpInbound toy_answer 5 toy_env "0xw" toy_inbound [].


Lemma poll_attestation_terminates_witness : (pollAttestation toy_answer 152 "https://iris" 3 "0xburn" []).2 <> Ok None.
Proof.
  apply (poll_attestation_terminates toy_answer slept); [reflexivity| |lia]. intros h ext. rewrite slept_app. lia.
Defined.

Definition toy_burn_args : BurnArgs :=
  {| burnTxHash := "0xb"; expectedSender := "0xs"; expectedAmount6 := 100; pool := "CPOOL"; expectedMaxFee6 := Some 1; expectedFinality := None |}.
Definition toy_calldata : list json :=
  [JStr "100"; JNum 27; JStr ("0x" +:+ hex_encode "FWD"); JStr arbitrumSepoliaUsdc; JStr ("0x" +:+ hex_encode "FWD"); JStr "1"; JNum 1000;
   JStr ("0x" +:+ hex_encode (hook_bytes "CPOOL"))].

Lemma burn_validation_sound_witness : match check_burn toy_env toy_burn_args (JStr "0xs") toy_calldata with Ok v => burn_commits toy_env toy_burn_args v | Err _ => False end.
Proof.
  pose proof (burn_validation_sound toy_chains toy_env toy_burn_args (JStr "0xs") toy_calldata) as H.
  destruct (check_burn toy_env toy_burn_args (JStr "0xs") toy_calldata) as [v|e] eqn:Hv; [exact (H v eq_refl)|by vm_compute in Hv].
Defined.

End Cctp.
