(* ===== verification/SdkRoutes.v ===== *)
(** The SDK's CCTP routes (packages/sdk/src/cctp.ts) and wallet adapters
    (packages/sdk/src/wallets.ts).

    A wallet is a record of its methods; each answers or throws.  Stellar's key
    encoding is [ChainLib]. *)

From S2P Require Import Prelude Text Json Vault Rfq Assets ProofPath Cctp.
Local Open Scope string_scope.
Local Open Scope Z_scope.

Module SdkCctp.

Record DepositRoute := {
  tokenMessenger : string; burnToken : string; d_amount : Z; d_destinationDomain : Z; mintRecipient : string; destinationCaller : string;
  d_maxFee : Z; d_minFinalityThreshold : Z; hookData : string; forwarder : string; d_pool : string; d_amount7dp : Z }.

Record ExitRoute := {
  e_pool : string; e_destinationDomain : Z; destinationRecipient : string; e_maxFee : Z; e_minFinalityThreshold : Z }.

Record DepositRouteParams := { pool : string; amount6 : Z; fast : option bool; maxFee6 : option Z }.
Record ExitRouteParams := { x_pool : string; recipientEvm : string; maxFee7 : Z; x_fast : option bool }.

Definition finality (fast : bool) : Z := if fast then 1000 else 2000.

Section Routes.
Context {CL : ChainLib}.

Definition buildDepositRoute (p : DepositRouteParams) : result DepositRoute :=
  let! _ := Cctp.validateInboundRoute
    {| Cctp.r_destinationDomain := Cctp.stellarDomain; Cctp.r_mintRecipient := Cctp.stellarCctpForwarder;
       Cctp.r_destinationCaller := Cctp.stellarCctpForwarder; Cctp.r_forwardRecipient := pool p |} Cctp.stellarCctpForwarder in
  let! mint := Cctp.stellarContractToBytes32 Cctp.stellarCctpForwarder in
  let! caller := Cctp.stellarContractToBytes32 Cctp.stellarCctpForwarder in
  let! hook := Cctp.encodeStellarForwardHook (pool p) in
  let fast := default true (fast p) in
  Ok {| tokenMessenger := Cctp.arbitrumSepoliaTokenMessenger; burnToken := Cctp.arbitrumSepoliaUsdc; d_amount := amount6 p;
        d_destinationDomain := Cctp.stellarDomain; mintRecipient := mint; destinationCaller := caller;
        d_maxFee := if fast then default (Z.quot (amount6 p) 1000) (maxFee6 p) else 0; d_minFinalityThreshold := finality fast;
        hookData := hook; forwarder := Cctp.stellarCctpForwarder; d_pool := pool p; d_amount7dp := Cctp.usdc6ToStellar7 (amount6 p) |}.

(** [s.padStart(40, "0")] *)
Definition padStart40 (s : string) : string := zeros16 (40 - String.length s) +:+ s.

Definition buildExitRoute (p : ExitRouteParams) : ExitRoute :=
  let addr := padStart40 (toLowerCase (bytes_drop 2 (recipientEvm p))) in
  {| e_pool := x_pool p; e_destinationDomain := Cctp.arbitrumSepoliaDomain; destinationRecipient := "0x" +:+ zeros16 24 +:+ addr;
     e_maxFee := maxFee7 p; e_minFinalityThreshold := finality (default true (x_fast p)) |}.

(** The parameters of depositForBurnWithHook, in its order. *)
Definition route_args (r : DepositRoute) : list json :=
  [JStr (toString (d_amount r)); JNum (d_destinationDomain r); JStr (mintRecipient r); JStr (burnToken r); JStr (destinationCaller r);
   JStr (toString (d_maxFee r)); JNum (d_minFinalityThreshold r); JStr (hookData r)].

(** A deposit route is built exactly for a pool that is a contract. *)
Lemma deposit_route_built p : is_Some (decodeContract Cctp.stellarCctpForwarder) ->
  is_ok (buildDepositRoute p) = Cctp.isValidContract (pool p).
Proof.
  intros [b Hb]. unfold buildDepositRoute, Cctp.validateInboundRoute, Cctp.stellarContractToBytes32, Cctp.encodeStellarForwardHook.
  cbn [Cctp.r_destinationDomain Cctp.r_mintRecipient Cctp.r_destinationCaller Cctp.r_forwardRecipient]. rewrite Z.eqb_refl. cbn [negb rbind].
  assert (Cctp.isValidContract Cctp.stellarCctpForwarder = true) as -> by (unfold Cctp.isValidContract; by rewrite Hb).
  rewrite !bool_decide_true by done. cbn [negb rbind]. rewrite Hb. destruct (Cctp.isValidContract (pool p)); done.
Qed.

(** The exit recipient of a 20-byte address is that address in 32 bytes. *)
Lemma exit_recipient a p : String.length a = 20%nat -> recipientEvm p = "0x" +:+ hex_encode a ->
  destinationRecipient (buildExitRoute p) = "0x" +:+ hex_encode (Cctp.zero_bytes 12 +:+ a).
Proof.
  intros Ha Hr. unfold buildExitRoute. cbn [destinationRecipient]. rewrite Hr. change (bytes_drop 2 ("0x" +:+ hex_encode a)) with (hex_encode a).
  assert (forall s, toLowerCase (hex_encode s) = hex_encode s) as ->.
  { induction s as [|c s IH]; [done|]. cbn [hex_encode toLowerCase]. rewrite IH. by destruct c as [[] [] [] [] [] [] [] []]. }
  assert (forall s, String.length (hex_encode s) = (2 * String.length s)%nat) as Hl by (induction s as [|c s IH]; [done|]; cbn [hex_encode String.length]; lia).
  unfold padStart40. rewrite Hl, Ha. reflexivity.
Qed.

End Routes.
End SdkCctp.

(** ** Wallet adapters *)

Module Wallets.

(** Two shapes an answer may have: the value itself, or an object with it. *)
Record FreighterApi := {
  getPublicKey : result string;
  f_isConnected : result (bool + bool);
  signTransaction : string -> option string -> result (string + string);
  f_signMessage : option (string -> result (string + string))   (** the signature as text or as bytes *)
}.

Definition either {A} (v : A + A) : A := match v with inl a | inr a => a end.

Definition publicKey (f : FreighterApi) : result string := getPublicKey f.
Definition isConnected (f : FreighterApi) : result bool := let! r := f_isConnected f in Ok (either r).
Definition signXdr (f : FreighterApi) (xdr : string) (networkPassphrase : option string) : result string :=
  let! r := signTransaction f xdr networkPassphrase in Ok (either r).

(** [/^[0-9a-f]{128}$/i] *)
Definition is_hex128 (s : string) : bool := Nat.eqb (String.length s) 128 && str_forall (fun c => bool_decide (is_Some (hex_val c))) s.

(** The raw signature; [None] when the wallet cannot sign messages. *)
Definition signMessage (f : FreighterApi) (message : string) : result (option string) :=
  match f_signMessage f with
  | None => Ok None
  | Some sign =>
      let! sig := sign message in
      match sig with
      | inl s => if is_hex128 s then Ok (Some (hex_decode s)) else let! b := fromB64 s in Ok (Some b)
      | inr bytes => Ok (Some bytes)
      end
  end.

(** [FreighterAdapter.fromWindow] *)
Definition fromWindow (global : option FreighterApi) : option FreighterApi := global.

Record EvmSigner := { getAddress : result string; e_signMessage : string -> result string }.

Definition address (s : EvmSigner) : result string := getAddress s.
Definition evm_signMessage (s : EvmSigner) (message : string) : result string := e_signMessage s message.

Definition verifyOwnership (s : EvmSigner) (now : Z) (expectedAddress : string) : bool :=
  match (let! sig := e_signMessage s ("shade:verify:" +:+ toString now) in let! addr := getAddress s in Ok (sig, addr)) with
  | Ok (sig, addr) => bool_decide (toLowerCase addr = toLowerCase expectedAddress) && (0 <? Z.of_nat (String.length sig))
  | Err _ => false
  end.

End Wallets.

(** ** Theorems *)

Import SdkCctp Wallets.

(** The default contracts are configured, or none are. *)
Definition default_contracts (env : Cctp.EnvMap) : Prop :=
  Cctp.env_default env "STELLAR_CCTP_FORWARDER_CONTRACT" Cctp.stellarCctpForwarder = Cctp.stellarCctpForwarder /\
  Cctp.env_default env "ARB_SEPOLIA_USDC_ADDRESS" Cctp.arbitrumSepoliaUsdc = Cctp.arbitrumSepoliaUsdc.

(** A deposit burned along the SDK's route passes the relayer's validation.
    The route exists exactly for a pool that is a contract, and a burn with its
    parameters is accepted for the same amount, pool, fee and finality; an exit
    route names its 20-byte recipient as the 32 bytes whose value is the circuit's
    field element. *)
Theorem sdk_routes_validate {CL : ChainLib} (env : Cctp.EnvMap) (p : DepositRouteParams) (tx sender : string) (from : json)
    (x : ExitRouteParams) (addr : string) :
  default_contracts env -> is_Some (decodeContract Cctp.stellarCctpForwarder) ->
  String.length addr = 20%nat -> recipientEvm x = "0x" +:+ hex_encode addr ->
  match buildDepositRoute p with
  | Ok r => d_amount7dp r = 10 * amount6 p /\
      exists v, Cctp.check_burn env
        {| Cctp.burnTxHash := tx; Cctp.expectedSender := sender; Cctp.expectedAmount6 := amount6 p; Cctp.pool := pool p;
           Cctp.expectedMaxFee6 := Some (d_maxFee r); Cctp.expectedFinality := Some (d_minFinalityThreshold r) |} from (route_args r) = Ok v /\
        Cctp.v_amount6 v = amount6 p /\ Cctp.maxFee v = d_maxFee r
  | Err _ => Cctp.isValidContract (pool p) = false
  end /\
  ProofPath.recipient32ToField (destinationRecipient (buildExitRoute x)) = Ok (toString (be addr)) /\ 0 <= be addr < 2 ^ 160.
Proof.
  intros [Ef Eu] Hf Ha Hx. split_and!.
  - pose proof (deposit_route_built p Hf) as Hb. destruct (buildDepositRoute p) as [r|e] eqn:Hr; [|by destruct (Cctp.isValidContract (pool p))].
    unfold buildDepositRoute in Hr. apply rbind_Ok in Hr as (_ & _ & Hr). apply rbind_Ok in Hr as (mint & Hm & Hr).
    apply rbind_Ok in Hr as (caller & Hc & Hr). apply rbind_Ok in Hr as (hook & Hh & [= <-]). rewrite Hm in Hc. injection Hc as <-.
    cbn [d_amount7dp d_maxFee d_minFinalityThreshold]. unfold Cctp.usdc6ToStellar7. split; [lia|]. unfold Cctp.check_burn.
    cbn [Cctp.pool]. rewrite Ef, Eu, Hm, Hh. unfold route_args. cbn [rbind nth d_amount d_destinationDomain mintRecipient burnToken destinationCaller d_maxFee
      d_minFinalityThreshold hookData Cctp.expectedAmount6 Cctp.expectedMaxFee6 Cctp.expectedFinality].
    unfold Cctp.big, Cctp.number_is, Cctp.lower_is. cbn [BigInt_json Number_value to_primitive]. rewrite !BigInt_toString. cbn [rbind].
    rewrite !Z.eqb_refl, !bool_decide_true by done. cbn [negb rbind]. rewrite Z.ltb_irrefl. cbn [rbind Cctp.expected_finality]. rewrite Z.eqb_refl.
    cbn [negb]. eexists. split; [reflexivity|done].
  - rewrite (exit_recipient addr x) by done. rewrite recipient32_hex; [done|]. by rewrite slen_app, Ha.
  - pose proof (be_bound addr) as H. rewrite Ha in H. lia.
  - pose proof (be_bound addr) as H. rewrite Ha in H. lia.
Qed.

(** A wallet that returns a 64-byte signature as hexadecimal, as base64 or as
    bytes is read the same way. *)
Lemma freighter_signature_recovered f message sig sign : String.length sig = 64%nat -> f_signMessage f = Some sign ->
  sign message = Ok (inl (hex_encode sig)) \/ sign message = Ok (inl (toB64 sig)) \/ sign message = Ok (inr sig) ->
  signMessage f message = Ok (Some sig).
Proof.
  intros Hl Hs H. unfold signMessage. rewrite Hs.
  assert (forall s, String.length (hex_encode s) = (2 * String.length s)%nat) as Hhex by (induction s as [|c s IH]; [done|]; cbn [hex_encode String.length]; lia).
  destruct H as [-> | [-> | ->]]; cbn [rbind]; [| |done].
  - assert (is_hex128 (hex_encode sig) = true) as ->; [|by rewrite hex_decode_encode].
    unfold is_hex128. rewrite Hhex, Hl. cbn [Nat.eqb Nat.mul Nat.add andb].
    assert (forall s, str_forall (fun c => bool_decide (is_Some (hex_val c))) (hex_encode s) = true) as Hd; [|apply Hd].
    induction s as [|c s IH]; [done|]. cbn [hex_encode str_forall]. rewrite IH. destruct (hex_byte c) as [E1 E2].
    rewrite !bool_decide_true by (rewrite ?E1, ?E2; by eexists). done.
  - assert (is_hex128 (toB64 sig) = false) as ->; [|by rewrite fromB64_toB64].
    unfold is_hex128. rewrite (proj2 (Nat.eqb_neq _ _)); [done|]. clear Hs Hhex. unfold toB64.
    do 64 (destruct sig as [|? sig]; [cbn in Hl; lia|]). destruct sig; [cbn; lia|cbn in Hl; lia].
Qed.

(** [verifyOwnership] believes the address the signer names: the signature only
    has to be there. *)
Lemma ownership_not_verified s now sig addr : e_signMessage s ("shade:verify:" +:+ toString now) = Ok sig -> sig <> "" ->
  getAddress s = Ok addr -> verifyOwnership s now addr = true.
Proof.
  intros Hs Hne Ha. unfold verifyOwnership. rewrite Hs, Ha. cbn [rbind]. rewrite bool_decide_true by done. by destruct sig.
Qed.

Lemma sdk_routes_validate_witness :
  match @buildDepositRoute Cctp.toy_chains {| pool := "CPOOL"; amount6 := 5000000; fast := None; maxFee6 := None |} with
  | Ok r => d_amount7dp r = 10 * 5000000 /\
      exists v, @Cctp.check_burn Cctp.toy_chains []
        {| Cctp.burnTxHash := "0xb"; Cctp.expectedSender := "0xs"; Cctp.expectedAmount6 := 5000000; Cctp.pool := "CPOOL";
           Cctp.expectedMaxFee6 := Some (d_maxFee r); Cctp.expectedFinality := Some (d_minFinalityThreshold r) |} (JStr "0xs") (route_args r) = Ok v /\
        Cctp.v_amount6 v = 5000000 /\ Cctp.maxFee v = d_maxFee r
  | Err _ => @Cctp.isValidContract Cctp.toy_chains "CPOOL" = false
  end /\
  ProofPath.recipient32ToField (destinationRecipient (buildExitRoute {| x_pool := "CPOOL"; recipientEvm := "0x" +:+ hex_encode "twenty-byte-address!"; maxFee7 := 0; x_fast := None |}))
    = Ok (toString (be "twenty-byte-address!")) /\ 0 <= be "twenty-byte-address!" < 2 ^ 160.
Proof.
  apply (@sdk_routes_validate Cctp.toy_chains [] {| pool := "CPOOL"; amount6 := 5000000; fast := None; maxFee6 := None |} "0xb" "0xs" (JStr "0xs")
    {| x_pool := "CPOOL"; recipientEvm := "0x" +:+ hex_encode "twenty-byte-address!"; maxFee7 := 0; x_fast := None |} "twenty-byte-address!");
    [by split|by eexists|done|done].
Defined.
