(* ===== verification/ApiUsers.v ===== *)
(** The API's account routes (apps/api/src/routes.ts): wallet login and
    sessions, profiles, linked wallets, per-user history, activity. *)

From S2P Require Import Prelude Text Json Queue Sql Web Schemas Store Rfq Vault Auth.
Import Store Rfq Auth.
Local Open Scope string_scope.
Local Open Scope Z_scope.

Module ApiUsers.
Section ApiUsers.
Context {RT : Runtime} {Zd : Zod} {C : NodeCrypto} {W : WalletLib} {E : Es256}.

Definition CHAIN_FOR (w : WalletType) : string := match w with EVM => "arbitrum-sepolia" | STELLAR => "stellar-testnet" end.

(** [randomUUID()] without its dashes. *)
Fixpoint drop_dashes (s : string) : string :=
  match s with EmptyString => "" | String c s => if Ascii.eqb c "-" then drop_dashes s else String c (drop_dashes s) end.
Definition randomNonce : M string := do! u := draw in ret (drop_dashes u).

Definition requireDevRoutes : M unit :=
  if env_is "ENABLE_DEV_ROUTES" "true" then ret tt else fail 404 "dev route disabled (set ENABLE_DEV_ROUTES=true)".

(** [idempotencyHeader.parse(request.headers)] *)
Definition idem (r : Request) : M string :=
  do! h := parse idempotencyHeader (JObj (match idempotency_header r with Some k => [("idempotency-key", JStr k)] | None => [] end)) in
  ret (text "idempotency-key" h).

(** ** Login *)

Definition auth_nonce (r : Request) : M reply :=
  do! body := parse authNonceSchema (req_body r) in
  let wt := wallet_of (text "wallet_type" body) in
  do! address := lift (normalizeAddress wt (text "address" body)) in
  do! nonce := randomNonce in
  let message := authMessage wt address nonce in
  do! _ := createNonce (wallet_name wt) address nonce message (now + NONCE_TTL) in
  ok [("wallet_type", JStr (wallet_name wt)); ("address", JStr address); ("nonce", JStr nonce); ("message", JStr message)].

Definition verifyHandler (wt : WalletType) (r : Request) : M reply :=
  do! body := parse authVerifySchema (req_body r) in
  do! address := lift (normalizeAddress wt (text "address" body)) in
  do! message := consumeNonce (wallet_name wt) address (text "nonce" body) in
  match present message with
  | None => answer_error 401 "invalid or expired nonce"
  | Some m =>
      if negb (verifyWalletSignature wt address m (text "signature" body)) then answer_error 401 "signature verification failed"
      else
        do! uid := upsertUserByWallet (wallet_name wt) (CHAIN_FOR wt) address in
        do! token := newSessionToken in
        do! _ := createSession uid (sha256Hex token) (now + SESSION_TTL) in
        do! _ := logActivity (Some uid) (with_metadata (activity "auth.login" (Some "wallet") (Some address)) (JObj [("walletType", JStr (wallet_name wt))])) in
        ok [("user_id", JStr uid); ("session_token", JStr token); ("wallet_type", JStr (wallet_name wt)); ("address", JStr address)]
  end.

Definition auth_session (r : Request) : M reply :=
  do! u := authedUserOptional r in
  ok [("authenticated", JBool (match present u with Some _ => true | None => false end)); ("user_id", opt_str u)].

Definition auth_logout (r : Request) : M reply :=
  do! t := readSessionToken r in
  do! _ := (match present t with Some token => revokeSession (sha256Hex token) | None => ret tt end) in
  ok [("ok", JBool true)].

(** ** Profile and wallets *)

Definition get_me (r : Request) : M reply := do! uid := authedUser r in do! u := getUser uid in ret (200, row_json u).

Definition patch_me (r : Request) : M reply :=
  do! uid := authedUser r in
  do! body := parse updateMeSchema (req_body r) in
  do! _ := updateUser uid body in
  do! u := getUser uid in ret (200, row_json u).

Definition me_wallets (r : Request) : M reply :=
  do! uid := authedUser r in do! ws := listWallets uid in ok [("wallets", rows_json ws)].

Definition array_of (k : string) (v : json) : list json := match prop k v with Some (JArr l) => l | _ => [] end.

Definition sync_privy (r : Request) : M reply :=
  do! auth := requirePrivyUser r in
  do! body := parse syncPrivyWalletsSchema (req_body r) in
  do! n := syncPrivyWallets (userId auth) (privyUserId auth) (array_of "wallets" body) in
  do! _ := logActivity (Some (userId auth)) (with_metadata (activity "wallet.sync_privy" None None) (JObj [("count", JNum n)])) in
  do! ws := listWallets (userId auth) in
  ok [("synced", JNum n); ("wallets", rows_json ws)].

Definition add_wallet (r : Request) : M reply :=
  do! uid := authedUser r in
  do! body := parse addWalletSchema (req_body r) in
  let wt := wallet_of (text "wallet_type" body) in
  do! address := lift (normalizeAddress wt (text "address" body)) in
  do! message := consumeNonce (wallet_name wt) address (text "nonce" body) in
  match present message with
  | Some m =>
      if negb (verifyWalletSignature wt address m (text "signature" body)) then answer_error 401 "wallet signature verification failed"
      else
        do! walletId := addWallet uid (wallet_name wt) (CHAIN_FOR wt) address in
        do! _ := logActivity (Some uid) (activity "wallet.add" (Some "wallet") (Some address)) in
        ok [("wallet_id", JStr walletId)]
  | None => answer_error 401 "wallet signature verification failed"
  end.

Definition delete_wallet (wallet_id : string) (r : Request) : M reply :=
  do! uid := authedUser r in
  do! b := deleteWallet uid wallet_id in
  if b then ok [("ok", JBool true)] else answer_error 409 "cannot delete (not found or primary)".

(** ** History and activity *)

Definition me_list (key table : string) (r : Request) : M reply :=
  do! uid := authedUser r in do! rows := listByUser table uid in ok [(key, rows_json rows)].

Definition get_activity (r : Request) : M reply :=
  do! uid := authedUser r in do! rows := listActivity uid 100 in ok [("activity", rows_json rows)].

(** One tick of the server-sent event stream: the text sent last and the new
    one, when it differs. *)
Definition activity_tick (uid lastSent : string) : M (string * option string) :=
  do! rows := listActivity uid 20 in
  let payload := stringify (rows_json rows) in
  if bool_decide (payload = lastSent) then ret (lastSent, None)
  else ret (payload, Some ("data: " +:+ payload +:+ nl +:+ nl)).

End ApiUsers.
End ApiUsers.
