(* ===== verification/ApiVaults.v ===== *)
(** The API's deposit, note and note-vault routes (apps/api/src/routes.ts),
    with the checks on a request's owner that other routes share. *)

From S2P Require Import Prelude Text Json Queue Sql Web Schemas Store Rfq Vault Ids Auth Cctp ApiUsers.
Import Ids Auth ApiUsers Store.
Local Open Scope string_scope.
Local Open Scope Z_scope.

Module ApiVaults.

(** ** Guards shared by the routes *)

Section Guards.
Context {RT : Runtime}.

Definition assertRootHealthy : M unit :=
  do! critical := criticalRootMismatchCount in
  fail_if 0 <? critical with 409,
    "ROOT_MISMATCH_CRITICAL: " +:+ toString critical +:+ " unresolved root-audit finding(s); spends are blocked" in
  ret tt.

(** [row.user_id && row.user_id !== userId] *)
Definition foreign_row (uid : string) (r : row) : bool := truthy (col "user_id" r) && negb (is_str uid (col "user_id" r)).

Definition requireOwned (table idColumn id uid what : string) : M unit :=
  do! r := getById table idColumn id in
  match r with
  | None => fail 404 (what +:+ " not found")
  | Some r => if foreign_row uid r then fail 403 (what +:+ " not owned by user") else ret tt
  end.

Definition requireOwnedIntent (uid intentHash : string) : M unit := requireOwned "intents" "intent_hash" intentHash uid "intent".
Definition requireOwnedExit (uid exitId : string) : M unit := requireOwned "cctp_exits" "exit_id" exitId uid "exit".

(** A route that answers one row of a table. *)
Definition get_row (table idColumn id : string) : M reply := do! r := getById table idColumn id in ret (200, row_json r).

End Guards.

Section ApiVaults.
Context {RT : Runtime} {Zd : Zod} {C : NodeCrypto} {L : Collation} {W : WalletLib} {E : Es256} {CL : ChainLib}.
Variable poseidon_hash : list Z -> Z.

(** ** Deposits *)

(** What the user's wallet is asked to sign. *)
Record BurnRequest := {
  br_usdc : string; br_messenger : string; br_pool : string; br_mintRecipient : string; br_destinationCaller : string; br_hookData : string;
  br_maxFee : string; br_amount6 : Z }.

Definition burn_args (b : BurnRequest) : list json :=
  [JStr (toString (br_amount6 b)); JNum Cctp.stellarDomain; JStr (br_mintRecipient b); JStr (br_usdc b); JStr (br_destinationCaller b);
   JStr (br_maxFee b); JNum Cctp.FINALITY_THRESHOLD_CONFIRMED; JStr (br_hookData b)].

Definition burn_request (amount6 : Z) : result BurnRequest :=
  let usdcAddress := env_or "ARB_SEPOLIA_USDC_ADDRESS" Cctp.arbitrumSepoliaUsdc in
  let tokenMessenger := env_or "ARB_SEPOLIA_CCTP_TOKEN_MESSENGER" Cctp.arbitrumSepoliaTokenMessenger in
  let forwarder := env_or "STELLAR_CCTP_FORWARDER_CONTRACT" Cctp.stellarCctpForwarder in
  let pool := env_or "SHIELDED_POOL_CONTRACT" "" in
  let! mintRecipient := Cctp.stellarContractToBytes32 forwarder in
  let! destinationCaller := Cctp.stellarContractToBytes32 forwarder in
  let! hookData := Cctp.encodeStellarForwardHook pool in
  Ok {| br_usdc := usdcAddress; br_messenger := tokenMessenger; br_pool := pool; br_mintRecipient := mintRecipient;
        br_destinationCaller := destinationCaller; br_hookData := hookData; br_maxFee := toString (Cctp.fast_fee amount6); br_amount6 := amount6 |}.

Definition depositId_of (idempotencyKey commitment : string) : string := deterministicId "udep" [idempotencyKey; commitment].

Definition deposit_reply (depositId : string) (b : BurnRequest) (amount7Max : Z) : list (string * json) :=
  [("deposit_id", JStr depositId);
   ("approval_tx_request", JObj [("to", JStr (br_usdc b)); ("abi", JStr "function approve(address,uint256)");
      ("args", JArr [JStr (br_messenger b); JStr (toString (br_amount6 b))])]);
   ("burn_tx_request", JObj [("to", JStr (br_messenger b));
      ("abi", JStr "function depositForBurnWithHook(uint256,uint32,bytes32,address,bytes32,uint256,uint32,bytes)"); ("args", JArr (burn_args b))]);
   ("usdc_address", JStr (br_usdc b)); ("token_messenger_address", JStr (br_messenger b)); ("destination_domain", JNum Cctp.stellarDomain);
   ("mint_recipient", JStr (br_mintRecipient b)); ("destination_caller", JStr (br_destinationCaller b)); ("hook_data", JStr (br_hookData b));
   ("forward_recipient", JStr (br_pool b)); ("max_fee", JStr (br_maxFee b)); ("finality_threshold", JNum Cctp.FINALITY_THRESHOLD_CONFIRMED);
   ("expected_amount_7dp_max", JStr (toString amount7Max))].

Definition template (v : option json) : string := match v with None => "undefined" | Some x => to_primitive x end.

Definition deposits_prepare (r : Request) : M reply :=
  do! auth := requirePrivyUser r in
  do! body := parse userDepositPrepareSchema (req_body r) in
  do! key := idem r in
  fail_if negb (bool_decide (text "source_chain" body = "arbitrum-sepolia")) with 400, "unsupported source_chain" in
  do! amount6 := lift (to_big (text "amount_usdc_6dp" body)) in
  fail_if amount6 <=? 0 with 400, "amount must be positive" in
  do! owns := userOwnsWallet (userId auth) (text "source_wallet_address" body) None in
  fail_if negb owns with 403, "source wallet not linked to user" in
  do! ownsVault := userOwnsVault (userId auth) (text "vault_id" body) in
  fail_if negb ownsVault with 403, "vault not owned by user" in
  do! rd := vaultDepositReady (userId auth) (text "vault_id" body) in
  fail_if negb (match rd with Some d => ready d | None => false end) with 409,
    "vault not deposit-ready (backup=" +:+ template (backup_status <$> rd) +:+ ", policy=" +:+ template (recovery_policy_status <$> rd) +:+ ")" in
  do! _ := assertRootHealthy in
  let amount7Max := Cctp.usdc6ToStellar7 amount6 in
  do! b := lift (burn_request amount6) in
  let depositId := depositId_of key (text "commitment" body) in
  do! _ := createUserDeposit
    {| depositId := depositId; idempotencyKey := key; ud_userId := userId auth; sourceChain := text "source_chain" body;
       sourceWalletAddress := text "source_wallet_address" body; ud_vaultId := text "vault_id" body; sourceDomain := Cctp.arbitrumSepoliaDomain;
       destinationDomain := Cctp.stellarDomain; Store.assetId := br_usdc b; amount6 := toString amount6; amount7Max := toString amount7Max;
       commitment := text "commitment" body; encryptedNotePayloadHash := text "encrypted_note_payload_hash" body; policyId := text "policy_id" body |} in
  do! _ := logActivity (Some (userId auth)) (activity "deposit.prepare" (Some "deposit") (Some depositId)) in
  ok (deposit_reply depositId b amount7Max).

Definition burn_job (dep : row) (depositId burn wallet : string) : json := JObj
  ([("deposit_id", JStr depositId); ("burn_tx_hash", JStr burn); ("source_wallet_address", JStr wallet);
    ("expected_amount6", col "amount_usdc_6dp" dep); ("commitment", col "commitment" dep); ("vault_id", col "vault_id" dep);
    ("expected_finality", JNum Cctp.FINALITY_THRESHOLD_CONFIRMED)]
   ++ (if is_null (col "max_fee" dep) then [] else [("expected_max_fee6", col "max_fee" dep)])
   ++ [("encryptedNotePayloadHashHex", col "encrypted_note_payload_hash" dep); ("policyIdHex", col "policy_id" dep)])%list.

Definition queued (k id : string) (j : ServiceJob) : M reply := ok [(k, JStr id); ("job_id", JStr (job_id j)); ("status", JStr "queued")].

Definition burn_submitted (depositId : string) (r : Request) : M reply :=
  do! auth := requirePrivyUser r in
  do! body := parse burnSubmittedSchema (req_body r) in
  do! dep := getDepositForUser (userId auth) depositId in
  match dep with
  | None => answer_error 404 "deposit not found"
  | Some dep =>
      if negb (bool_decide (toLowerCase (to_primitive (col "source_wallet_address" dep)) = toLowerCase (text "source_wallet_address" body)))
      then answer_error 403 "wallet mismatch"
      else
        do! _ := setDepositBurnTx depositId (text "burn_tx_hash" body) in
        do! job := enqueue_job relayer "CCTP_INBOUND_AFTER_USER_BURN"
                     (burn_job dep depositId (text "burn_tx_hash" body) (text "source_wallet_address" body)) (Some ("user-burn:" +:+ depositId)) in
        do! _ := logActivity (Some (userId auth))
                   (with_tx (activity "deposit.burn_submitted" (Some "deposit") (Some depositId)) (text "burn_tx_hash" body)) in
        queued "deposit_id" depositId job
  end.

Definition get_deposit (depositId : string) : M reply := get_row "cctp_deposits" "deposit_id" depositId.

Inductive DepositStep := Process | SubmitBurn | FetchAttestation | MintForward | RegisterNote.

(** The steps registered, with the suffix of their path; their job types. *)
Definition deposit_steps : list (string * DepositStep) :=
  [("process", Process); ("submit-burn", SubmitBurn); ("fetch-attestation", FetchAttestation); ("mint-forward", MintForward);
   ("register-note", RegisterNote)].
Definition step_job (s : DepositStep) : string :=
  match s with
  | Process => "CCTP_INBOUND" | SubmitBurn => "CCTP_INBOUND_BURN" | FetchAttestation => "CCTP_FETCH_ATTESTATION"
  | MintForward => "STELLAR_MINT_FORWARD" | RegisterNote => "REGISTER_NOTE"
  end.

Definition depositStep (step : DepositStep) (depositId : string) (r : Request) : M reply :=
  let jobType := step_job step in
  do! job := enqueue_job relayer jobType (JObj (merge [("deposit_id", JStr depositId)] (spread (req_body r)))) (Some (jobType +:+ ":" +:+ depositId)) in
  queued "deposit_id" depositId job.

(** ** Notes *)

(** The body as a preimage: hashed fields are text, the others [BigInt] arguments. *)
Definition preimage_of (b : json) : result CoinPreimage :=
  let str k := match prop k b with Some (JStr s) => Ok s | _ => Err "TypeError" end in
  let num k := match BigInt_json (field k b) with Some z => Ok (toString z) | None => Err "TypeError" end in
  let! a := str "assetId" in
  let! v := num "amount7dp" in
  let! o := str "ownerPublicKey" in
  let! s := str "spendPublicKey" in
  let! bl := num "blinding" in
  let! n := num "nonce" in
  let! c := str "complianceTag" in
  let! x := str "sourceContext" in
  let! m := str "memoCommitment" in
  Ok {| Ids.assetId := a; amount7dp := v; ownerPublicKey := o; spendPublicKey := s; cp_blinding := bl; cp_nonce := n; complianceTag := c;
        sourceContext := x; memoCommitment := m |}.

Definition notes_commitment (r : Request) : M reply :=
  do! c := lift (let! n := preimage_of (req_body r) in poseidonCommitment poseidon_hash n) in ok [("commitment", JStr c)].

Definition note_status (commitment : string) : M reply := get_row "note_commitments" "commitment" commitment.

Definition encrypted_backup (r : Request) : M reply :=
  do! uid := authedUser r in
  do! body := parse noteBackupSchema (req_body r) in
  do! _ := addNoteBackup uid (text "commitment" body) (text "encrypted_payload" body) (text "encryption_version" body) in
  do! _ := logActivity (Some uid) (activity "note.backup" (Some "note") (Some (text "commitment" body))) in
  ok [("ok", JBool true); ("commitment", field "commitment" body)].

Definition notes_recover (r : Request) : M reply :=
  do! auth := requirePrivyUser r in
  do! body := parse noteRecoverSchema (if is_null (req_body r) then JObj [] else req_body r) in
  do! vaults := listNoteVaultsForRecovery (userId auth) (text_opt "vault_id" body) in
  do! _ := for_each (fun v => lift (assertNoPlaintextNoteFields (col "envelope" v))) vaults in
  do! noteBackups := listByUser "encrypted_note_backups" (userId auth) in
  do! _ := logActivity (Some (userId auth)) (with_metadata (activity "notes.recover" None None)
             (JObj [("vault_count", JNum (Z.of_nat (length vaults))); ("backup_count", JNum (Z.of_nat (length noteBackups)));
                    ("vault_id", field "vault_id" body)])) in
  ok [("vaults", rows_json (map (project ["vault_id"; "envelope"; "backup_status"; "recovery_policy_status"; "created_at"]) vaults));
      ("note_backups", rows_json noteBackups); ("recovery_started_at", JStr iso_now)].

(** ** Note vaults *)

Definition wrapper_of_json (w : json) : VaultWrapper :=
  {| w_id := text "id" w;
     w_type := match text "type" w with
               | "passkey_prf" => passkey_prf | "stellar_ed25519_signature" => stellar_ed25519_signature
               | "recovery_file_secret" => recovery_file_secret | "recovery_kit_password" => recovery_kit_password | _ => evm_signature end;
     w_active := bool_decide (text "status" w = "active");
     w_kdf := if bool_decide (text "kdf" w = "HKDF-SHA256") then HKDF_SHA256 else PBKDF2_SHA256;
     salt := text "salt" w; wrapped_key := text "wrapped_key" w;
     diagnostic_only := match prop "diagnostic_only" w with Some (JBool b) => Some b | _ => None end;
     metadata := spread (field "metadata" w) |}.

(** A minimum that is not a number never exceeds a count. *)
Definition policy_opts : PolicyOpts :=
  let mainnet := bool_decide (env_default "SHADE_NETWORK_MODE" "testnet" = "mainnet") in
  let min := if mainnet then env_default "SHADE_MIN_RECOVERY_WRAPPERS_MAINNET" "2" else env_default "SHADE_MIN_RECOVERY_WRAPPERS_TESTNET" "1" in
  {| mainnet := mainnet; min_wrappers := match Number_value (JStr min) with JNum z => z | _ => 0 end;
     allowEvmOnly := env_is "ALLOW_EVM_SIGNATURE_ONLY_RECOVERY" "true" |}.

Definition policy_name (s : RecoveryPolicyStatus) : string :=
  match s with Insufficient => "insufficient" | Sufficient => "sufficient" | Strong => "strong" end.

Definition recoveryPolicyFor (ws : list json) : string := policy_name (evaluateRecoveryPolicy (map wrapper_of_json ws) policy_opts).

Definition ingestEnvelope (env : json) : M string :=
  do! _ := lift (validateVaultEnvelope env) in
  do! _ := lift (assertNoPlaintextNoteFields env) in
  ret (recoveryPolicyFor (array_of "wrappers" env)).

(** [(request.body as { envelope }).envelope] after the scan of the raw body. *)
Definition body_envelope (r : Request) : M json :=
  do! _ := lift (assertNoPlaintextNoteFields (req_body r)) in
  fail_if is_null (req_body r) with 500, "TypeError: Cannot read properties of null" in
  parse encryptedVaultEnvelopeSchema (field "envelope" (req_body r)).

Definition create_vault (r : Request) : M reply :=
  do! auth := requirePrivyUser r in
  do! env := body_envelope r in
  fail_if negb (bool_decide (text "privy_user_id" env = privyUserId auth)) with 403, "envelope privy_user_id mismatch" in
  do! policy := ingestEnvelope env in
  let vid := text "vault_id" env in
  do! _ := createNoteVault (userId auth) (privyUserId auth) vid env (text "ciphertext" env) (field "aad" env) policy in
  do! _ := for_each (fun w => do! _ := addVaultWrapper (userId auth) vid (text "type" w) (field "metadata" w) in ret tt) (array_of "wrappers" env) in
  do! _ := logActivity (Some (userId auth))
             (with_metadata (activity "vault.create" (Some "vault") (Some vid)) (JObj [("recovery_policy_status", JStr policy)])) in
  ok [("vault_id", JStr vid); ("backup_status", JStr "created"); ("recovery_policy_status", JStr policy)].

Definition list_vaults (r : Request) : M reply :=
  do! auth := requirePrivyUser r in do! vs := listNoteVaults (userId auth) in ok [("vaults", rows_json vs)].

Definition get_vault (vaultId : string) (r : Request) : M reply :=
  do! auth := requirePrivyUser r in
  do! v := getNoteVault (userId auth) vaultId in
  match v with None => fail 404 "vault not found" | Some v => ret (200, JObj v) end.

Definition put_vault (vaultId : string) (r : Request) : M reply :=
  do! auth := requirePrivyUser r in
  do! env := body_envelope r in
  fail_if negb (bool_decide (text "vault_id" env = vaultId)) || negb (bool_decide (text "privy_user_id" env = privyUserId auth))
    with 403, "vault id / identity mismatch" in
  do! policy := ingestEnvelope env in
  do! b := updateNoteVault (userId auth) vaultId env (text "ciphertext" env) (field "aad" env) policy in
  fail_if negb b with 404, "vault not found" in
  ok [("vault_id", JStr vaultId); ("recovery_policy_status", JStr policy)].

Definition verify_backup (vaultId : string) (r : Request) : M reply :=
  do! auth := requirePrivyUser r in
  do! body := parse verifyBackupSchema (req_body r) in
  let ver := field "verification" body in
  if negb (bool_decide (text "vault_id" ver = vaultId)) then answer_error 400 "verification vault_id mismatch"
  else
    do! v := getNoteVault (userId auth) vaultId in
    match v with
    | None => answer_error 404 "vault not found"
    | Some v =>
        let policy := col "recovery_policy_status" v in
        if negb (is_str "sufficient" policy) && negb (is_str "strong" policy)
        then answer_error 409 ("recovery policy insufficient (" +:+ to_primitive policy +:+ ")")
        else
          do! _ := setVaultBackupVerified (userId auth) vaultId ver in
          do! _ := logActivity (Some (userId auth))
                     (with_metadata (activity "vault.backup_verified" (Some "vault") (Some vaultId)) (JObj [("method", field "method" ver)])) in
          do! rd := vaultDepositReady (userId auth) vaultId in
          ok (merge [("vault_id", JStr vaultId); ("backup_status", JStr "verified")]
                (match rd with
                 | Some d => [("ready", JBool (ready d)); ("backup_status", backup_status d); ("recovery_policy_status", recovery_policy_status d)]
                 | None => []
                 end))
    end.

Definition mark_restored (vaultId : string) (r : Request) : M reply :=
  do! auth := requirePrivyUser r in
  do! b := setVaultBackupStatus (userId auth) vaultId restored in
  if negb b then answer_error 404 "vault not found"
  else
    do! _ := logActivity (Some (userId auth)) (activity "vault.restored" (Some "vault") (Some vaultId)) in
    ok [("vault_id", JStr vaultId); ("backup_status", JStr "restored")].

Definition add_wrapper (vaultId : string) (r : Request) : M reply :=
  do! auth := requirePrivyUser r in
  do! _ := lift (assertNoPlaintextNoteFields (req_body r)) in
  do! body := parse addWrapperSchema (req_body r) in
  let env := field "envelope" body in
  fail_if negb (bool_decide (text "vault_id" env = vaultId)) with 403, "vault id mismatch" in
  do! policy := ingestEnvelope env in
  do! _ := updateNoteVault (userId auth) vaultId env (text "ciphertext" env) (field "aad" env) policy in
  do! wid := addVaultWrapper (userId auth) vaultId (text "type" (field "wrapper" body)) (field "metadata" (field "wrapper" body)) in
  ok [("wrapper_id", JStr wid); ("recovery_policy_status", JStr policy)].

Definition delete_wrapper (vaultId wrapperId : string) (r : Request) : M reply :=
  do! auth := requirePrivyUser r in
  do! b := deleteVaultWrapper (userId auth) vaultId wrapperId in
  if b then ok [("ok", JBool true)] else answer_error 404 "wrapper not found".

End ApiVaults.
End ApiVaults.
