(* ===== verification/ApiRfq.v ===== *)
(** The API's proof, withdrawal, RFQ and CCTP-exit routes
    (apps/api/src/routes.ts).

    The transactions that wallets sign are built by @shade/stellar-actions and
    @shade/arc-actions, which talk to a node: a route records the request and
    answers what the builder returns.  Events of a job carry no time. *)

From S2P Require Import Prelude Text Json Queue Sql Web Schemas Store Rfq Vault Ids Auth Cctp ApiUsers ApiVaults.
Import Ids Auth ApiUsers Store ApiVaults.
Local Open Scope string_scope.
Local Open Scope Z_scope.

Module ApiRfq.
Section ApiRfq.
Context {RT : Runtime} {Zd : Zod} {C : NodeCrypto} {L : Collation} {W : WalletLib} {E : Es256}.

(** ** Proofs and jobs *)

Definition proof_request (kind : string) (r : Request) : M reply :=
  do! uid := authedUser r in
  do! body := parse proofRequestSchema (JObj (merge (spread (req_body r)) [("proof_type", JStr kind)])) in
  do! key := idem r in
  let pt := text "proof_type" body in
  let inputs := hashJson (field "public_inputs" body) in
  let proofJobId := deterministicId "proof" [key; pt; inputs] in
  do! _ := insertGeneric "proof_jobs" [("proof_job_id", JStr proofJobId); ("idempotency_key", JStr key); ("proof_type", JStr pt);
             ("public_inputs_hash", JStr inputs); ("user_id", JStr uid); ("status", JStr "queued")] in
  do! _ := transition (to_state "proof_job" proofJobId "queued") in
  do! job := enqueue_job prover pt (JObj (merge (spread (field "witness" body)) [("user_id", JStr uid)])) (Some ("proof:" +:+ proofJobId)) in
  queued "proof_job_id" proofJobId job.

Definition get_proof (proofJobId : string) (r : Request) : M reply :=
  do! uid := authedUser r in
  do! pj := getById "proof_jobs" "proof_job_id" proofJobId in
  match pj with
  | Some p => if foreign_row uid p then fail 403 "not your proof job" else ret (200, JObj p)
  | None => ret (200, JNull)
  end.

Definition queue_name (q : QueueName) : string := match q with prover => "prover" | relayer => "relayer" end.
Definition event_json (e : ServiceEvent) : json := JObj [("status", JStr (ev_status e)); ("detail", opt_str (ev_detail e))].
Definition job_json (j : ServiceJob) (evs : list ServiceEvent) : list (string * json) :=
  [("job_id", JStr (job_id j)); ("type", JStr (job_type j)); ("queue", JStr (queue_name (queue j))); ("status", JStr (job_status j));
   ("attempts", JNum (attempts j)); ("result", opt (job_result j)); ("error", opt_str (job_error j)); ("events", JArr (map event_json evs))].

Definition with_jobs {A} (f : JobDb -> A) : M A := fun w => (w, Done (f (w_jobs w))).

Definition get_job (id : string) (r : Request) : M reply :=
  do! _ := authedUser r in
  do! j := with_jobs (getJob id) in
  match j with
  | None => fail 404 "job not found"
  | Some j => do! evs := with_jobs (getEvents id) in ok (job_json j evs)
  end.

(** ** Withdrawals *)

Definition createWithdrawal (uid : string) (r : Request) : M reply :=
  do! body := parse withdrawalSchema (req_body r) in
  do! key := idem r in
  let withdrawalId := deterministicId "wd" [key; text "nullifier" body] in
  do! _ := insertGeneric "withdrawals" [("withdrawal_id", JStr withdrawalId); ("idempotency_key", JStr key); ("nullifier", field "nullifier" body);
             ("amount_usdc_7dp", field "amount_public" body); ("recipient", field "recipient" body); ("relayer_fee", field "relayer_fee" body);
             ("deadline_ledger", field "deadline_ledger" body); ("user_id", JStr uid); ("state", JStr "prepared")] in
  do! _ := transition (to_state "withdrawal" withdrawalId "prepared") in
  do! _ := logActivity (Some uid) (activity "withdrawal.prepare" (Some "withdrawal") (Some withdrawalId)) in
  ok [("withdrawal_id", JStr withdrawalId)].

Definition withdrawals_prepare (r : Request) : M reply :=
  do! uid := authedUser r in do! _ := assertRootHealthy in createWithdrawal uid r.

Definition given (k : string) (b : json) : bool := truthy (field k b).

Definition withdrawals_build_xdr (r : Request) : M reply :=
  do! _ := authedUser r in
  do! _ := assertRootHealthy in
  let b := req_body r in
  fail_if negb (given "to" b) || negb (given "proofHex" b) || negb (given "publicHex" b) with 400, "to, proofHex, publicHex required" in
  do! xdr := call (BuildInvokeXdr (text "to" b) (env_default "SHIELDED_POOL_CONTRACT" "") "withdraw" [field "to" b; field "proofHex" b; field "publicHex" b]) in
  ok [("unsigned_xdr", xdr.2); ("sign_with", JStr "stellar_wallet"); ("submit_to", JStr "/v1/withdrawals/submit (signedXdr)")].

(** [arcNetwork] of @shade/arc-actions *)
Definition arcNetwork : M unit := if env_set "ARC_RPC_URL" then ret tt else fail 500 "ARC_RPC_URL is required".

Definition withdrawArgs (to proof pub : json) : list json := [to; proof; pub].
Definition withdrawCctpArgs (to destinationRecipient : json) (maxFee : Z) (minFinalityThreshold proof pub : json) : list json :=
  [to; destinationRecipient; JNum maxFee; minFinalityThreshold; proof; pub].

Definition evm_tx (submit : string) (tx : json) : M reply :=
  ok [("unsigned_tx", tx); ("sign_with", JStr "evm_wallet"); ("submit_to", JStr submit)].

Definition withdrawals_build_tx (r : Request) : M reply :=
  do! _ := authedUser r in
  do! _ := assertRootHealthy in
  let b := req_body r in
  fail_if negb (given "to" b) || negb (given "proof" b) || negb (given "publicSignals" b) with 400, "to, proof, publicSignals required" in
  do! _ := arcNetwork in
  do! tx := call (BuildUnsignedTx (text "to" b) (env_default "ARC_SHIELDED_POOL_CONTRACT" "") "withdraw"
                    (withdrawArgs (field "to" b) (field "proof" b) (field "publicSignals" b))) in
  evm_tx "/v1/withdrawals/submit (signedRawTx)" tx.2.

(** [b.idempotency_key ? prefix + b.idempotency_key : undefined] *)
Definition body_key (prefix : string) (b : json) : option string :=
  if given "idempotency_key" b then Some (prefix +:+ text "idempotency_key" b) else None.
Definition body_object (b : json) : json := if is_null b then JObj [] else b.

Definition job_reply (j : ServiceJob) : M reply := ok [("job_id", JStr (job_id j)); ("status", JStr "queued")].

Definition withdrawals_submit (r : Request) : M reply :=
  do! _ := authedUser r in
  do! _ := assertRootHealthy in
  let b := body_object (req_body r) in
  do! job := enqueue_job relayer "WITHDRAW_PUBLIC_SUBMIT" b (body_key "wd-submit:" b) in
  job_reply job.

Definition get_withdrawal (id : string) : M reply := get_row "withdrawals" "withdrawal_id" id.

(** ** Intents *)

Definition mpcUrl : string := env_default "MPC_COMMITTEE_URL" "http://localhost:8090".

(** [data.a ?? data.b] *)
Definition either_prop (a b : string) (v : json) : option json :=
  match prop a v with Some JNull | None => (match prop b v with Some JNull | None => None | Some x => Some x end) | Some x => Some x end.

Definition zero32 : string := "0x" +:+ String.concat "" (repeat "00" 32).

Definition mpc_intent (uid intentHash : string) (body : json) : json := JObj
  [("intentId", JStr intentHash); ("userId", JStr uid); ("inputAsset", field "input_asset" body); ("outputAsset", field "output_asset" body);
   ("expiryLedger", field "expiry_ledger" body); ("policyId", field "compliance_policy_id" body); ("noteNullifier", field "note_nullifier" body);
   ("noteCommitment", field "note_commitment" body); ("recipientCommitment", default (JStr zero32) (prop "recipient_commitment" body));
   ("encryptedShares", field "encrypted_shares" body); ("submittedAt", JNum now)].

(** The session row, the intent row and its shares, as both routes write them. *)
Definition ensure_session (sid : option json) : M unit :=
  match sid with
  | Some s => if truthy s then (do! _ := sql_insert "mpc_sessions" [("session_id", s)] DoNothing in ret tt) else ret tt
  | None => ret tt
  end.
Definition insert_mpc_intent (r : row) : M unit :=
  do! _ := sql_insert "mpc_intents" (r ++ [("status", JStr "pending")])%list (DoUpdateOn ["intent_id"] ["session_id"] ["updated_at"]) in ret tt.
Definition insert_share (intentId : json) (share : json) : M unit :=
  do! _ := sql_insert "mpc_intent_shares" [("intent_id", intentId); ("node_id", field "nodeId" share); ("ciphertext", field "ciphertext" share);
             ("nonce", field "nonce" share); ("sender_pubkey", field "senderPubkey" share)] (DoNothingOn ["intent_id"; "node_id"]) in
  ret tt.

Definition has_mpc_fields (body : json) : bool :=
  negb (bool_decide (length (array_of "encrypted_shares" body) = 0%nat)) && given "note_nullifier" body && given "note_commitment" body.

Definition persist_route (uid intentHash : string) (body : json) (sid : option json) : M unit :=
  do! _ := ensure_session sid in
  do! _ := insert_mpc_intent [("intent_id", JStr intentHash); ("session_id", default (JStr "unknown") sid); ("user_id", JStr uid);
             ("input_asset", field "input_asset" body); ("output_asset", field "output_asset" body); ("expiry_ledger", field "expiry_ledger" body);
             ("policy_id", field "compliance_policy_id" body); ("note_nullifier", field "note_nullifier" body);
             ("note_commitment", field "note_commitment" body); ("recipient_commitment", default (JStr "") (prop "recipient_commitment" body))] in
  do! _ := for_each (insert_share (JStr intentHash)) (array_of "encrypted_shares" body) in
  do! _ := sql_update "intents" (where_eq [("intent_hash", JStr intentHash)]) (fun _ => [("mpc_session_id", opt sid)]) in
  logActivity (Some uid) (with_metadata (activity "mpc.intent.routed" (Some "intent") (Some intentHash))
    (JObj (match sid with Some s => [("mpcSessionId", s)] | None => [] end))).

(** Hand the intent to the committee; what fails is only logged, and the session
    id received before a failure is kept. *)
Definition route_mpc (uid intentHash : string) (body : json) : M (option json) :=
  do! resp := catch (do! x := call (Fetch "POST" (mpcUrl +:+ "/v1/mpc/intents") (Some (JObj [("intent", mpc_intent uid intentHash body)]))) in ret (Some x))
                    (fun _ => ret None) in
  match resp with
  | Some x =>
      if resp_ok x && negb (is_null x.2) then
        let sid := either_prop "sessionId" "session_id" x.2 in
        do! _ := catch (persist_route uid intentHash body sid) (fun _ => ret tt) in ret sid
      else ret None
  | None => ret None
  end.

Definition routed (sid : option json) : bool := match sid with Some s => truthy s | None => false end.

Definition create_intent (r : Request) : M reply :=
  do! uid := authedUser r in
  do! body := parse intentSchema (req_body r) in
  do! key := idem r in
  let intentHash := hashJson body in
  do! _ := insertGeneric "intents" [("intent_hash", JStr intentHash); ("idempotency_key", JStr key);
             ("encrypted_payload", JStr (stringify (JObj [("ciphertext", JStr "client-encrypted-payload-required")]))); ("public_commitment", body);
             ("expiry_ledger", field "expiry_ledger" body); ("policy_id", field "compliance_policy_id" body);
             ("user_signature", field "signature" body); ("user_id", JStr uid); ("state", JStr "INTENT_CREATED")] in
  do! _ := transition (to_state "intent" intentHash "INTENT_CREATED") in
  do! _ := logActivity (Some uid) (activity "intent.create" (Some "intent") (Some intentHash)) in
  do! sid := (if has_mpc_fields body then route_mpc uid intentHash body else ret None) in
  ok ([("intent_hash", JStr intentHash); ("mpc_routed", JBool (routed sid))] ++ (if routed sid then [("mpc_session_id", opt sid)] else []))%list.

Definition get_intent (intentHash : string) : M reply := get_row "intents" "intent_hash" intentHash.
Definition intent_quotes (intentHash : string) : M reply := do! qs := listQuotesByIntent intentHash in ok [("quotes", rows_json qs)].

Definition request_quotes (intentHash : string) (r : Request) : M reply :=
  do! uid := authedUser r in
  do! _ := requireOwnedIntent uid intentHash in
  do! body := parse requestQuotesSchema (req_body r) in
  if env_set "SOLVER_URL" then
    do! resp := call (Fetch "POST" (env_or "SOLVER_URL" "" +:+ "/v1/quote") (Some (JObj ([("intent_hash", JStr intentHash); ("amount", field "amount" body)]
                        ++ match prop "expiry_ledger" body with Some x => [("expiry_ledger", x)] | None => [] end)%list))) in
    fail_if negb (resp_ok resp) with 502, "solver responded " +:+ toString resp.1 in
    let q := field "quote" resp.2 in
    fail_if is_null q with 500, "TypeError: Cannot read properties of undefined" in
    do! _ := insertGeneric "quotes" [("quote_id", field "quote_id" q); ("intent_hash", JStr intentHash); ("quote_hash", field "quote_hash" resp.2);
               ("solver_id", field "solver_id" q); ("payload", q); ("quote_signature", field "solver_sig" resp.2);
               ("valid_until_ledger", field "valid_until_ledger" q); ("state", JStr "QUOTE_RECEIVED")] in
    ok [("requested", JBool true); ("quote_id", field "quote_id" q)]
  else
    do! qs := listQuotesByIntent intentHash in
    ok [("requested", JBool false); ("reason", JStr "SOLVER_URL not configured"); ("quotes", rows_json qs)].

(** ** Quotes and fills *)

Definition solver_quotes (r : Request) : M reply :=
  do! body := parse quoteSchema (req_body r) in
  let quoteHash := hashJson body in
  let quoteId := text "quote_id" body in
  do! _ := insertGeneric "quotes" [("quote_id", JStr quoteId); ("intent_hash", field "intent_hash" body); ("quote_hash", JStr quoteHash);
             ("solver_id", field "solver_id" body); ("payload", body); ("quote_signature", field "quote_signature" body);
             ("valid_until_ledger", field "valid_until_ledger" body); ("state", JStr "QUOTE_RECEIVED")] in
  do! _ := transition (to_state "quote" quoteId "QUOTE_RECEIVED") in
  ok [("quote_id", JStr quoteId); ("quote_hash", JStr quoteHash)].

Definition accept_quote (quoteId : string) (r : Request) : M reply :=
  do! uid := authedUser r in
  do! body := parse quoteAcceptanceSchema (req_body r) in
  let ih := text "intent_hash" body in
  do! _ := requireOwnedIntent uid ih in
  do! lc := rfqLifecycle ih quoteId in
  match lc_quote lc with
  | None => fail 404 "quote not found"
  | Some q =>
      fail_if negb (is_str ih (col "intent_hash" q)) with 409, "quote does not belong to intent" in
      fail_if accepted lc with 409, "a quote is already accepted for this intent (immutable)" in
      let acceptanceId := deterministicId "accept" [quoteId; text "user_signature_hash" body] in
      do! _ := insertGeneric "quote_acceptances" [("acceptance_id", JStr acceptanceId); ("quote_id", JStr quoteId); ("intent_hash", JStr ih);
                 ("user_signature_hash", field "user_signature_hash" body); ("user_id", JStr uid)] in
      do! _ := transition (to_state "quote" quoteId "QUOTE_ACCEPTED") in
      ok [("acceptance_id", JStr acceptanceId)]
  end.

Definition lock_quote (quoteId : string) (r : Request) : M reply :=
  do! body := parse lockSchema (req_body r) in
  let lockId := deterministicId "lock" [quoteId; text "lock_hash" body] in
  do! _ := insertGeneric "solver_inventory_locks" (merge (merge [("lock_id", JStr lockId); ("quote_id", JStr quoteId)] (spread body))
             [("state", JStr "SOLVER_INVENTORY_LOCKED")]) in
  do! _ := transition (to_state "quote" quoteId "SOLVER_INVENTORY_LOCKED") in
  ok [("lock_id", JStr lockId)].

Definition create_fill (r : Request) : M reply :=
  do! body := parse fillSchema (req_body r) in
  let fillId := deterministicId "fill" [text "quote_id" body; text "fill_receipt_hash" body] in
  do! _ := insertGeneric "fills" (merge (merge [("fill_id", JStr fillId)] (spread body)) [("state", JStr "FILL_CREATED")]) in
  do! _ := transition (to_state "fill" fillId "FILL_CREATED") in
  ok [("fill_id", JStr fillId)].

Definition with_hash (t : StateTransition) (h : string) : StateTransition :=
  {| entityType := entityType t; entityId := entityId t; fromState := fromState t; toState := toState t; reason := reason t;
     txHash := Some h; tr_metadata := tr_metadata t |}.

Definition execute_fill (fillId : string) (r : Request) : M reply :=
  if negb (given "destination_tx_hash" (req_body r)) then answer_error 400 "destination_tx_hash required"
  else
    let h := text "destination_tx_hash" (req_body r) in
    do! b := executeFill fillId h in
    if negb b then answer_error 404 "fill not found"
    else
      do! _ := transition (with_hash (to_state "fill" fillId "FILL_EXECUTED") h) in
      ok [("fill_id", JStr fillId); ("state", JStr "EXECUTED"); ("destination_tx_hash", JStr h)].

(** ** Settlement *)

Definition reject {A} (msg : string) (code : Z) : M A := fail code msg.

(** The committee has matched the intent, when it was routed to it. *)
Definition mpc_gate (intentHash : string) : M unit :=
  do! intentRow := getById "intents" "intent_hash" intentHash in
  if match intentRow with Some i => truthy (col "mpc_session_id" i) | None => false end then
    do! matchRows := sql_select "mpc_intents" (where_eq [("intent_id", JStr intentHash); ("status", JStr "matched")]) in
    if negb (some_row matchRows) then reject "MPC match not yet confirmed — intent is awaiting private committee matching" 409 else ret tt
  else ret tt.

Definition lifecycle_checks (uid : string) (body : json) (lc : Lifecycle) : M unit :=
  match lc_intent lc with
  | None => reject "intent not found" 404
  | Some i =>
      if foreign_row uid i then reject "authenticated user does not own this intent" 403
      else match lc_quote lc with
           | None => reject "quote not found" 404
           | Some q =>
               if negb (is_str (text "intent_hash" body) (col "intent_hash" q)) then reject "quote does not belong to intent" 409
               else if negb (accepted lc) then reject "quote is not accepted" 409
               else match lc_fill lc with
                    | None => reject "fill not found for quote" 409
                    | Some f =>
                        if negb (is_str "EXECUTED" (col "state" f)) then reject "fill is not executed" 409
                        else if given "fill_receipt_hash" body && negb (sql_eq (col "fill_receipt_hash" f) (field "fill_receipt_hash" body))
                        then reject "fill receipt hash mismatch" 409
                        else ret tt
                    end
           end
  end.

Definition settle (r : Request) : M reply :=
  do! uid := authedUser r in
  do! _ := assertRootHealthy in
  do! body := parse settlementSchema (req_body r) in
  let ih := text "intent_hash" body in
  do! lc := rfqLifecycle ih (text "quote_id" body) in
  do! _ := lifecycle_checks uid body lc in
  do! proofReady := getById "proof_jobs" "proof_job_id" (text "proof_job_id" body) in
  if negb (match proofReady with Some p => is_str "ready" (col "status" p) | None => false end) then reject "proof job is not ready" 409
  else
    do! spent := isNullifierSpent (text "nullifier" body) in
    if spent then reject "nullifier already spent" 409
    else
      do! _ := mpc_gate ih in
      let settlementId := deterministicId "settle" [ih; text "quote_id" body; text "nullifier" body] in
      do! _ := insertGeneric "settlements" (merge (merge [("settlement_id", JStr settlementId)] (spread body)) [("state", JStr "SETTLEMENT_SUBMITTED")]) in
      do! _ := transition (to_state "settlement" settlementId "SETTLEMENT_SUBMITTED") in
      do! _ := setRowUser "settlements" "settlement_id" settlementId uid in
      do! _ := logActivity (Some uid) (activity "rfq.settle" (Some "settlement") (Some settlementId)) in
      ok [("settlement_id", JStr settlementId); ("lifecycle_verified", JBool true)].

Definition get_settlement (id : string) : M reply := get_row "settlements" "settlement_id" id.

(** ** CCTP exits *)

Definition outbound_prepare (r : Request) : M reply :=
  do! uid := authedUser r in
  do! _ := assertRootHealthy in
  do! body := parse cctpExitSchema (req_body r) in
  do! key := idem r in
  let exitId := deterministicId "exit" [key; text "nullifier" body] in
  do! _ := insertGeneric "cctp_exits" (merge (merge [("exit_id", JStr exitId); ("idempotency_key", JStr key)] (spread body))
             [("user_id", JStr uid); ("state", JStr "prepared")]) in
  do! _ := transition (to_state "cctp_exit" exitId "prepared") in
  do! _ := logActivity (Some uid) (activity "cctp_exit.prepare" (Some "cctp_exit") (Some exitId)) in
  ok [("exit_id", JStr exitId)].

Definition missing (k : string) (b : json) : bool := match prop k b with None => true | Some _ => false end.

Definition outbound_build_tx (r : Request) : M reply :=
  do! _ := authedUser r in
  do! _ := assertRootHealthy in
  let b := req_body r in
  fail_if negb (given "to" b) || negb (given "destinationRecipient" b) || missing "maxFee" b || missing "minFinalityThreshold" b
          || negb (given "proof" b) || negb (given "publicSignals" b)
    with 400, "to, destinationRecipient, maxFee, minFinalityThreshold, proof, publicSignals required" in
  do! _ := arcNetwork in
  do! maxFee := lift (match BigInt_json (field "maxFee" b) with Some z => Ok z | None => Err "Cannot convert to a BigInt" end) in
  do! tx := call (BuildUnsignedTx (text "to" b) (env_default "ARC_SHIELDED_POOL_CONTRACT" "") "withdrawCctp"
                    (withdrawCctpArgs (field "to" b) (field "destinationRecipient" b) maxFee (field "minFinalityThreshold" b) (field "proof" b)
                       (field "publicSignals" b))) in
  evm_tx "/v1/cctp/outbound/submit (signedRawTx)" tx.2.

Definition outbound_submit (r : Request) : M reply :=
  do! uid := authedUser r in
  do! _ := assertRootHealthy in
  let b := body_object (req_body r) in
  do! _ := (if given "exit_id" b then requireOwnedExit uid (text "exit_id" b) else ret tt) in
  do! job := enqueue_job relayer "WITHDRAW_CCTP_BURN" b (body_key "exit-submit:" b) in
  job_reply job.

Inductive OutboundStep := OutboundAttestation | CompleteMint.
Definition outbound_job (s : OutboundStep) : string :=
  match s with OutboundAttestation => "CCTP_OUTBOUND_ATTESTATION" | CompleteMint => "CCTP_OUTBOUND_MINT" end.

(** The routes fetch-attestation and complete-mint. *)
Definition outbound_step (step : OutboundStep) (exitId : string) (r : Request) : M reply :=
  let jobType := outbound_job step in
  do! uid := authedUser r in
  do! _ := requireOwnedExit uid exitId in
  do! job := enqueue_job relayer jobType (JObj (merge [("exit_id", JStr exitId)] (spread (req_body r)))) (Some (jobType +:+ ":" +:+ exitId)) in
  queued "exit_id" exitId job.

Definition get_exit (id : string) : M reply := get_row "cctp_exits" "exit_id" id.

End ApiRfq.
End ApiRfq.
