(* ===== verification/ApiMpc.v ===== *)
(** The API's committee proxies, anchor routes, disclosure reports and status
    routes (apps/api/src/routes.ts). *)

From S2P Require Import Prelude Text Json Committee Queue Sql Web Schemas Store Rfq Vault Ids Auth Cctp ShadeView ApiUsers ApiVaults ApiRfq.
Import Ids Auth ApiUsers Store ApiVaults ApiRfq.
Local Open Scope string_scope.
Local Open Scope Z_scope.

Module ApiMpc.
Section ApiMpc.
Context {RT : Runtime} {Zd : Zod} {C : NodeCrypto} {N : Nacl} {L : Collation} {W : WalletLib} {E : Es256}.

(** ** Committee proxies *)

(** A fetch whose failure is caught. *)
Definition try_fetch (method path : string) (body : option json) : M (option (Z * json)) :=
  catch (do! x := call (Fetch method (mpcUrl +:+ path) body) in ret (Some x)) (fun _ => ret None).

Definition proxy (method path : string) (body : option json) (refused : Z * json -> reply) (unreachable : string) : M reply :=
  do! resp := try_fetch method path body in
  match resp with
  | None => answer_error 503 unreachable
  | Some x => ret (if resp_ok x then (200, x.2) else refused x)
  end.

Definition error_reply (code : Z) (msg : string) : reply := (code, JObj [("error", JStr msg)]).
Definition MPC_DOWN : string := "MPC committee unreachable".

Definition mpc_committee : M reply :=
  proxy "GET" "/v1/mpc/committee" None (fun _ => error_reply 502 "committee unavailable") "MPC_COMMITTEE_URL not reachable — is mpc:dev running?".
Definition mpc_session (sid : string) : M reply := proxy "GET" ("/v1/mpc/sessions/" +:+ sid) None (fun x => x) MPC_DOWN.
Definition mpc_match (sid : string) : M reply := proxy "POST" ("/v1/mpc/sessions/" +:+ sid +:+ "/match") None (fun x => (502, x.2)) MPC_DOWN.
Definition mpc_batches : M reply := proxy "GET" "/v1/mpc/batches" None (fun _ => error_reply 502 "committee unavailable") MPC_DOWN.
Definition mpc_verify (r : Request) : M reply :=
  proxy "POST" "/v1/mpc/verify" (Some (req_body r)) (fun _ => error_reply 502 "committee unavailable") MPC_DOWN.

Definition camel (a b : string) (d : json) (body : json) : json := default d (either_prop a b body).

(** [body.encryptedShares ?? []]; something that is no array cannot be iterated. *)
Definition body_shares (body : json) : result (list json) :=
  match prop "encryptedShares" body with
  | None | Some JNull => Ok []
  | Some (JArr l) => Ok l
  | Some _ => Err "TypeError: encryptedShares is not iterable"
  end.

Definition persist_intent (intentId : json) (uid : option string) (body data : json) : M reply :=
  let sid := either_prop "sessionId" "session_id" data in
  do! _ := ensure_session sid in
  do! _ := insert_mpc_intent [("intent_id", intentId); ("session_id", default (JStr "unknown") sid); ("user_id", opt_str uid);
             ("input_asset", camel "inputAsset" "input_asset" JNull body); ("output_asset", camel "outputAsset" "output_asset" JNull body);
             ("expiry_ledger", camel "expiryLedger" "expiry_ledger" (JNum 0) body); ("policy_id", camel "policyId" "policy_id" (JStr "default") body);
             ("note_nullifier", camel "noteNullifier" "note_nullifier" (JStr "") body);
             ("note_commitment", camel "noteCommitment" "note_commitment" (JStr "") body);
             ("recipient_commitment", camel "recipientCommitment" "recipient_commitment" (JStr "") body)] in
  do! shares := lift (body_shares body) in
  do! _ := for_each (insert_share intentId) shares in
  do! _ := (match present uid with
            | Some u => logActivity (Some u) (activity "mpc.intent.submit" (Some "mpc_intent") (Some (to_primitive intentId)))
            | None => ret tt end) in
  ret (200, data).

Definition mpc_submit (r : Request) : M reply :=
  let body := req_body r in
  fail_if is_null body with 500, "TypeError: Cannot read properties of null" in
  match either_prop "intentId" "intent_id" body with
  | Some intentId =>
      if negb (truthy intentId) then answer_error 400 "intentId required"
      else
        do! uid := optionalUser r in
        do! resp := try_fetch "POST" "/v1/mpc/intents" (Some (JObj [("intent", body)])) in
        match resp with
        | None => answer_error 503 MPC_DOWN
        | Some x =>
            if negb (resp_ok x) then ret (502, x.2)
            else fail_if is_null x.2 with 500, "TypeError: Cannot read properties of null" in
                 persist_intent intentId uid body x.2
        end
  | None => answer_error 400 "intentId required"
  end.

Definition mpc_intent_status (id : string) : M reply :=
  do! rows := sql_select "mpc_intents" (where_eq [("intent_id", JStr id)]) in
  match head rows with None => answer_error 404 "intent not found" | Some i => ret (200, JObj i) end.

(** ** Anchors *)

Definition proxyAnchor (path method : string) (body : option json) : M reply :=
  match env_or "ANCHOR_API_BASE" "" with
  | EmptyString => answer_error 501 "no anchor adapter configured (set ANCHOR_API_BASE)"
  | base => call (Fetch method (base +:+ path) body)
  end.

Definition anchors_discovery : M reply := proxyAnchor "/info" "GET" None.

(** [insertGeneric(...).catch(() => {})] *)
Definition insert_quietly (table : string) (r : row) : M unit := catch (insertGeneric table r) (fun _ => ret tt).
(** [String(body.k ?? d)] *)
Definition text_or (k d : string) (b : json) : string := match prop k b with None | Some JNull => d | Some v => to_primitive v end.
Definition client_body (uid : string) (r : Request) : option json := Some (JObj (merge (spread (req_body r)) [("client_id", JStr uid)])).
Definition id_of (v : json) : json := field "id" v.

Definition anchors_quotes (r : Request) : M reply :=
  do! uid := authedUser r in
  let body := req_body r in
  do! quoteId := draw in
  do! res := proxyAnchor "/quotes" "POST" (client_body uid r) in
  if res.1 <? 300 then
    fail_if is_null body || is_null res.2 with 500, "TypeError: Cannot read properties of null" in
    do! _ := insert_quietly "anchor_quotes" [("quote_id", JStr quoteId); ("user_id", JStr uid); ("asset", JStr (text_or "asset" "" body));
               ("amount_7dp", JStr (text_or "amount7dp" "0" body)); ("destination_currency", JStr (text_or "destination_currency" "" body));
               ("destination_country", JStr (text_or "destination_country" "" body)); ("anchor_quote_id", id_of res.2); ("status", JStr "quoted");
               ("raw", res.2)] in
    ret res
  else ret res.

Definition anchors_payouts (r : Request) : M reply :=
  do! uid := authedUser r in
  let body := req_body r in
  do! payoutId := draw in
  do! res := proxyAnchor "/transactions" "POST" (client_body uid r) in
  do! _ := (if res.1 <? 300 then
              fail_if is_null body || is_null res.2 with 500, "TypeError: Cannot read properties of null" in
              insert_quietly "anchor_payouts" [("payout_id", JStr payoutId); ("user_id", JStr uid); ("quote_id", JStr (text_or "quote_id" "" body));
                ("settlement_id", JStr (text_or "settlement_id" "" body)); ("anchor_transaction_id", id_of res.2); ("status", JStr "pending");
                ("raw", res.2)]
            else ret tt) in
  ret (res.1, JObj (merge [("payout_id", JStr payoutId)] (spread res.2))).

Definition get_payout (payoutId : string) (r : Request) : M reply :=
  do! _ := authedUser r in
  do! p := getById "anchor_payouts" "payout_id" payoutId in
  match p with
  | None => answer_error 404 "payout not found"
  | Some p => if truthy (col "anchor_transaction_id" p) then proxyAnchor ("/transactions/" +:+ to_primitive (col "anchor_transaction_id" p)) "GET" None
              else ret (200, JObj p)
  end.

Definition compliance_package (r : Request) : M reply :=
  do! _ := authedUser r in
  let body := req_body r in
  fail_if is_null body with 500, "TypeError: Cannot read properties of null" in
  do! p := getById "anchor_payouts" "payout_id" (text_or "payout_id" "" body) in
  match p with
  | None => answer_error 404 "payout not found"
  | Some p =>
      if negb (truthy (col "anchor_transaction_id" p)) then answer_error 400 "payout has no anchor transaction"
      else proxyAnchor ("/transactions/" +:+ to_primitive (col "anchor_transaction_id" p) +:+ "/kyc_documents") "POST"
             (Some (JObj (match prop "encrypted_package_hex" body with Some v => [("encrypted_package", v)] | None => [] end)))
  end.

(** ** Disclosure reports *)

Definition texts (l : list json) : list string := map to_primitive l.
Definition nonempty (s : string) : bool := negb (bool_decide (s = "")).
Definition str_of (v : json) : option string := match v with JStr s => Some s | _ => None end.
(** [body.k ?? rows[0]?.c] *)
Definition or_first (k c : string) (body : json) (rows : list row) : option string :=
  match text_opt k body with Some s => Some s | None => match rows with r :: _ => str_of (col c r) | [] => None end end.

Definition report_input (uid : string) (body : json) (settlements commitments : list row) (anchorIds : list string) : ShadeView.ViewKeyReportInput :=
  {| ShadeView.vk_userId := uid; ShadeView.timeRangeFrom := text_opt "time_range_from" body; ShadeView.timeRangeTo := text_opt "time_range_to" body;
     ShadeView.noteCommitments := texts (map (col "commitment") commitments);
     ShadeView.disclosedNullifiers := List.filter nonempty (texts (map (col "nullifier") settlements));
     ShadeView.quoteId := or_first "quote_id" "quote_id" body settlements; ShadeView.policyId := or_first "policy_id" "policy_id" body commitments;
     ShadeView.anchorId := head anchorIds;
     ShadeView.amountsDisclosed :=
       if truthy (field "disclose_amounts" body)
       then Some (map (fun c => {| ShadeView.ad_commitment := to_primitive (col "commitment" c); ShadeView.ad_amount7dp := to_primitive (col "amount_usdc_7dp" c);
                                   ShadeView.ad_currency := "USDC" |}) commitments)
       else None;
     ShadeView.proofLinks := map (fun h => "https://stellar.expert/explorer/testnet/tx/" +:+ h)
                               (List.filter nonempty (omap str_of (map (col "stellar_tx_hash") settlements))) |}.

Definition view_key_report (r : Request) : M reply :=
  do! uid := authedUser r in
  do! body := parse viewKeyReportSchema (req_body r) in
  match env_or "SHADE_VIEW_SIGNING_SECRET" "" with
  | EmptyString => answer_error 503 "Shade View service not configured (SHADE_VIEW_SIGNING_SECRET unset)"
  | serviceSecret =>
      do! settlements := getOwnedSettlements uid (texts (array_of "settlement_ids" body)) in
      do! commitments := getOwnedNoteCommitments uid (texts (array_of "note_commitments" body)) in
      do! anchorIds := (if given "anchor_id" body then ret [text "anchor_id" body]
                        else getAnchorIdsForSettlements (texts (map (col "settlement_id") settlements))) in
      do! reportId := draw in
      do! signed := lift (ShadeView.signViewKeyReport (report_input uid body settlements commitments anchorIds) reportId serviceSecret iso_now) in
      do! att := (if given "attachment_recipient_pubkey" body then
                    do! ephemeral := draw in
                    do! nonce := draw in
                    do! a := lift (ShadeView.encryptReportAttachment signed (text "attachment_recipient_pubkey" body) ephemeral nonce) in
                    ret (Some a)
                  else ret None) in
      let i := ShadeView.input (ShadeView.unsigned signed) in
      do! _ := insertViewKeyReport
        {| rr_reportId := reportId; rr_userId := uid; rr_from := text_opt "time_range_from" body; rr_to := text_opt "time_range_to" body;
           rr_commitments := ShadeView.noteCommitments i; rr_nullifiers := ShadeView.disclosedNullifiers i; rr_quoteId := ShadeView.quoteId i;
           rr_policyId := ShadeView.policyId i; rr_anchorId := ShadeView.anchorId i; rr_amountDisclosed := truthy (field "disclose_amounts" body);
           rr_proofLinks := ShadeView.proofLinks i; rr_pubkey := ShadeView.servicePubkeyHex signed; rr_signature := ShadeView.serviceSignatureHex signed;
           rr_attachment := att |} in
      do! _ := logActivity (Some uid) (activity "shade_view.report.generate" (Some "view_key_report") (Some reportId)) in
      ok [("report", ShadeView.report_json signed); ("encrypted_attachment", opt att)]
  end.

Definition get_report (reportId : string) (r : Request) : M reply :=
  do! uid := authedUser r in
  do! v := getViewKeyReport uid reportId in
  match v with None => answer_error 404 "report not found" | Some v => ret (200, JObj v) end.

(** ** Status *)

Definition env_json (k v : string) : list (string * json) := match env_var v with Some s => [(k, JStr s)] | None => [] end.

Definition health : M reply := ok [("ok", JBool true)].
Definition config : M reply := ret (200, Cctp.LOCKED_CCTP).
Definition contracts : M reply := ok
  (env_json "shadePool" "SHIELDED_POOL_CONTRACT" ++ env_json "nullifierRegistry" "NULLIFIER_REGISTRY_CONTRACT" ++
   env_json "verifierWithdraw" "VERIFIER_WITHDRAW_CONTRACT" ++ env_json "verifierTransfer" "TRANSFER_VERIFIER_CONTRACT" ++
   env_json "verifierDepositNoteMint" "VERIFIER_DEPOSIT_NOTE_MINT_CONTRACT" ++ env_json "cctpForwarder" "STELLAR_CCTP_FORWARDER_CONTRACT" ++
   env_json "usdcSac" "STELLAR_TESTNET_USDC_SAC_CONTRACT" ++
   [("deprecated", JObj (env_json "shadeVault" "SHADE_VAULT_CONTRACT" ++ env_json "commitmentTree" "COMMITMENT_TREE_CONTRACT" ++
       env_json "complianceRegistry" "COMPLIANCE_REGISTRY_CONTRACT" ++ env_json "intentEscrow" "INTENT_ESCROW_CONTRACT"))])%list.
Definition health_full : M reply := ok
  [("ok", JBool true); ("db", JBool true);
   ("pool", match env_or "SHIELDED_POOL_CONTRACT" "" with EmptyString => JNull | p => JStr p end);
   ("network", JStr (env_default "STELLAR_NETWORK_PASSPHRASE" "testnet"))].
Definition fixed_reply (k v : string) : M reply := ok [(k, JStr v)].

End ApiMpc.
End ApiMpc.
