(* ===== verification/Api.v ===== *)
(** The API server: the routes that apps/api/src/routes.ts registers, their
    dispatch and one request as a step of the system, with the properties that
    hold of every route. *)

From S2P Require Import Prelude Text Json Committee Queue Sql Web Footprint Schemas Store Rfq Vault Ids Auth Cctp ShadeView ApiUsers ApiVaults ApiRfq ApiMpc.
Import Ids Auth ApiUsers Store ApiVaults ApiRfq ApiMpc.
Local Open Scope string_scope.
Local Open Scope Z_scope.

Module Api.

Inductive Route :=
| Health | Config | Contracts | BalancesTestnet | SetupValidate | HealthFull
| AuthNonce | AuthVerify (wt : WalletType) | AuthSession | AuthLogout
| GetMe | PatchMe | MeWallets | SyncPrivy | AddWallet | DeleteWallet (id : string) | MeList (key table : string)
| DepositsPrepare | BurnSubmitted (id : string) | GetDeposit (id : string) | DoDepositStep (step : DepositStep) (id : string)
| NotesCommitment | NoteStatus (commitment : string) | EncryptedBackup | NotesRecover
| CreateVault | ListVaults | GetVault (id : string) | PutVault (id : string) | VerifyBackup (id : string) | MarkRestored (id : string)
| AddWrapper (id : string) | DeleteWrapper (id wrapper : string)
| ProofRequest (kind : string) | GetProof (id : string) | GetJob (id : string)
| WithdrawalsPrepare | WithdrawalsBuildXdr | WithdrawalsBuildTx | WithdrawalsSubmit | GetWithdrawal (id : string)
| CreateIntent | GetIntent (hash : string) | IntentQuotes (hash : string) | RequestQuotes (hash : string)
| SolverQuotes | AcceptQuote (id : string) | LockQuote (id : string) | CreateFill | ExecuteFill (id : string)
| Settle | GetSettlement (id : string) | ViewKeyReport | GetReport (id : string)
| OutboundPrepare | OutboundBuildTx | OutboundSubmit | DoOutboundStep (step : OutboundStep) (id : string) | GetExit (id : string)
| GetActivity | TestReport
| MpcCommittee | MpcSubmit | MpcIntentStatus (id : string) | MpcSession (id : string) | MpcMatch (id : string) | MpcBatches | MpcVerify
| AnchorsDiscovery | AnchorsQuotes | AnchorsPayouts | GetPayout (id : string) | CompliancePackage.

(** The registered methods and paths; a fixed segment is preferred to a
    parameter, so routes with fixed segments come first. *)
Inductive builder := K0 (r : Route) | K1 (f : string -> Route) | K2 (f : string -> string -> Route).

Definition registered : list (string * string * builder) :=
  [("GET", "/health", K0 Health);
   ("GET", "/v1/config", K0 Config);
   ("GET", "/v1/contracts", K0 Contracts);
   ("GET", "/v1/balances/testnet", K0 BalancesTestnet);
   ("POST", "/v1/setup/validate", K0 SetupValidate);
   ("GET", "/v1/health/full", K0 HealthFull);
   ("POST", "/v1/auth/nonce", K0 AuthNonce);
   ("POST", "/v1/auth/evm/verify", K0 (AuthVerify EVM));
   ("POST", "/v1/auth/stellar/verify", K0 (AuthVerify STELLAR));
   ("GET", "/v1/auth/session", K0 AuthSession);
   ("POST", "/v1/auth/logout", K0 AuthLogout);
   ("GET", "/v1/me", K0 GetMe);
   ("PATCH", "/v1/me", K0 PatchMe);
   ("GET", "/v1/me/wallets", K0 MeWallets);
   ("POST", "/v1/me/wallets/sync-privy", K0 SyncPrivy);
   ("POST", "/v1/me/wallets", K0 AddWallet);
   ("DELETE", "/v1/me/wallets/:id", K1 DeleteWallet);
   ("GET", "/v1/me/deposits", K0 (MeList "deposits" "cctp_deposits"));
   ("GET", "/v1/me/notes", K0 (MeList "notes" "note_commitments"));
   ("GET", "/v1/me/withdrawals", K0 (MeList "withdrawals" "withdrawals"));
   ("GET", "/v1/me/rfq", K0 (MeList "settlements" "settlements"));
   ("GET", "/v1/me/cctp-exits", K0 (MeList "exits" "cctp_exits"));
   ("GET", "/v1/me/note-backups", K0 (MeList "backups" "encrypted_note_backups"));
   ("POST", "/v1/deposits/prepare", K0 DepositsPrepare);
   ("POST", "/v1/deposits/:id/burn-submitted", K1 BurnSubmitted);
   ("GET", "/v1/deposits/:id", K1 GetDeposit);
   ("POST", "/v1/notes/commitment", K0 NotesCommitment);
   ("GET", "/v1/notes/:c/status", K1 NoteStatus);
   ("POST", "/v1/notes/encrypted-backup", K0 EncryptedBackup);
   ("POST", "/v1/notes/recover", K0 NotesRecover);
   ("POST", "/v1/note-vaults", K0 CreateVault);
   ("GET", "/v1/note-vaults", K0 ListVaults);
   ("GET", "/v1/note-vaults/:id", K1 GetVault);
   ("PUT", "/v1/note-vaults/:id", K1 PutVault);
   ("POST", "/v1/note-vaults/:id/verify-backup", K1 VerifyBackup);
   ("POST", "/v1/note-vaults/:id/mark-restored", K1 MarkRestored);
   ("POST", "/v1/note-vaults/:id/wrappers", K1 AddWrapper);
   ("DELETE", "/v1/note-vaults/:id/wrappers/:w", K2 DeleteWrapper);
   ("POST", "/v1/proofs/:kind/request", K1 ProofRequest);
   ("GET", "/v1/proofs/:id", K1 GetProof);
   ("GET", "/v1/jobs/:id", K1 GetJob);
   ("POST", "/v1/withdrawals/prepare", K0 WithdrawalsPrepare);
   ("POST", "/v1/withdrawals/build-xdr", K0 WithdrawalsBuildXdr);
   ("POST", "/v1/withdrawals/build-tx", K0 WithdrawalsBuildTx);
   ("POST", "/v1/withdrawals/submit", K0 WithdrawalsSubmit);
   ("GET", "/v1/withdrawals/:id", K1 GetWithdrawal);
   ("POST", "/v1/intents", K0 CreateIntent);
   ("GET", "/v1/intents/:h", K1 GetIntent);
   ("GET", "/v1/intents/:h/quotes", K1 IntentQuotes);
   ("POST", "/v1/intents/:h/request-quotes", K1 RequestQuotes);
   ("POST", "/v1/solver/quotes", K0 SolverQuotes);
   ("POST", "/v1/quotes/:id/accept", K1 AcceptQuote);
   ("POST", "/v1/quotes/:id/lock", K1 LockQuote);
   ("POST", "/v1/fills", K0 CreateFill);
   ("POST", "/v1/fills/:id/execute", K1 ExecuteFill);
   ("POST", "/v1/rfq/settle", K0 Settle);
   ("GET", "/v1/settlements/:id", K1 GetSettlement);
   ("POST", "/v1/reports/view-key", K0 ViewKeyReport);
   ("GET", "/v1/reports/view-key/:id", K1 GetReport);
   ("POST", "/v1/cctp/outbound/prepare", K0 OutboundPrepare);
   ("POST", "/v1/cctp/outbound/build-tx", K0 OutboundBuildTx);
   ("POST", "/v1/cctp/outbound/submit", K0 OutboundSubmit);
   ("POST", "/v1/cctp/outbound/:id/fetch-attestation", K1 (DoOutboundStep OutboundAttestation));
   ("POST", "/v1/cctp/outbound/:id/complete-mint", K1 (DoOutboundStep CompleteMint));
   ("GET", "/v1/cctp/outbound/:id", K1 GetExit);
   ("GET", "/v1/activity", K0 GetActivity);
   ("GET", "/v1/test-report/latest", K0 TestReport);
   ("GET", "/v1/mpc/committee", K0 MpcCommittee);
   ("POST", "/v1/mpc/intents", K0 MpcSubmit);
   ("GET", "/v1/mpc/intents/:id", K1 MpcIntentStatus);
   ("GET", "/v1/mpc/sessions/:id", K1 MpcSession);
   ("POST", "/v1/mpc/sessions/:id/match", K1 MpcMatch);
   ("GET", "/v1/mpc/batches", K0 MpcBatches);
   ("POST", "/v1/mpc/batches/verify", K0 MpcVerify);
   ("GET", "/v1/anchors/discovery", K0 AnchorsDiscovery);
   ("POST", "/v1/anchors/quotes", K0 AnchorsQuotes);
   ("POST", "/v1/anchors/payouts", K0 AnchorsPayouts);
   ("GET", "/v1/anchors/payouts/:id", K1 GetPayout);
   ("POST", "/v1/anchors/compliance-package", K0 CompliancePackage)].

(** The deposit steps, from the table the source loops over. *)
Definition deposit_step_routes : list (string * string * builder) :=
  map (fun s => ("POST", "/v1/deposits/:deposit_id/" +:+ s.1, K1 (DoDepositStep s.2))) deposit_steps.

Definition is_param (seg : string) : bool := match seg with String ":" _ => true | _ => false end.

(** The parameters of a path that fits a template. *)
Fixpoint path_params (template path : list string) : option (list string) :=
  match template, path with
  | [], [] => Some []
  | t :: ts, p :: ps =>
      if is_param t then option_map (cons p) (path_params ts ps)
      else if bool_decide (t = p) then path_params ts ps else None
  | _, _ => None
  end.

Definition build (b : builder) (ps : list string) : option Route :=
  match b, ps with K0 r, [] => Some r | K1 f, [a] => Some (f a) | K2 f, [a; b] => Some (f a b) | _, _ => None end.

Fixpoint find_route (table : list (string * string * builder)) (method : string) (path : list string) : option Route :=
  match table with
  | [] => None
  | (m, t, b) :: table =>
      match (if bool_decide (m = method) then path_params (split_on "/" t) path else None) with
      | Some ps => build b ps
      | None => find_route table method path
      end
  end.

Definition route_of (method path : string) : option Route :=
  find_route (registered ++ deposit_step_routes) method (split_on "/" path).

Section Api.
Context {RT : Runtime} {Zd : Zod} {C : NodeCrypto} {N : Nacl} {L : Collation} {W : WalletLib} {E : Es256} {CL : ChainLib}.
Variable poseidon_hash : list Z -> Z.

Definition handler (rt : Route) (r : Request) : M reply :=
  match rt with
  | Health => health | Config => config | Contracts => contracts
  | BalancesTestnet => fixed_reply "status" "requires setup:testnet for live balances"
  | SetupValidate => fixed_reply "status" "run npm run setup:testnet"
  | HealthFull => health_full
  | AuthNonce => auth_nonce r | AuthVerify wt => verifyHandler wt r | AuthSession => auth_session r | AuthLogout => auth_logout r
  | GetMe => get_me r | PatchMe => patch_me r | MeWallets => me_wallets r | SyncPrivy => sync_privy r | AddWallet => add_wallet r
  | DeleteWallet id => delete_wallet id r | MeList key table => me_list key table r
  | DepositsPrepare => deposits_prepare r | BurnSubmitted id => burn_submitted id r | GetDeposit id => get_deposit id
  | DoDepositStep t id => depositStep t id r
  | NotesCommitment => notes_commitment poseidon_hash r | NoteStatus c => note_status c | EncryptedBackup => encrypted_backup r
  | NotesRecover => notes_recover r
  | CreateVault => create_vault r | ListVaults => list_vaults r | GetVault id => get_vault id r | PutVault id => put_vault id r
  | VerifyBackup id => verify_backup id r | MarkRestored id => mark_restored id r | AddWrapper id => add_wrapper id r
  | DeleteWrapper id w => delete_wrapper id w r
  | ProofRequest kind => proof_request kind r | GetProof id => get_proof id r | GetJob id => get_job id r
  | WithdrawalsPrepare => withdrawals_prepare r | WithdrawalsBuildXdr => withdrawals_build_xdr r | WithdrawalsBuildTx => withdrawals_build_tx r
  | WithdrawalsSubmit => withdrawals_submit r | GetWithdrawal id => get_withdrawal id
  | CreateIntent => create_intent r | GetIntent h => get_intent h | IntentQuotes h => intent_quotes h | RequestQuotes h => request_quotes h r
  | SolverQuotes => solver_quotes r | AcceptQuote id => accept_quote id r | LockQuote id => lock_quote id r | CreateFill => create_fill r
  | ExecuteFill id => execute_fill id r
  | Settle => settle r | GetSettlement id => get_settlement id | ViewKeyReport => view_key_report r | GetReport id => get_report id r
  | OutboundPrepare => outbound_prepare r | OutboundBuildTx => outbound_build_tx r | OutboundSubmit => outbound_submit r
  | DoOutboundStep t id => outbound_step t id r | GetExit id => get_exit id
  | GetActivity => get_activity r | TestReport => fixed_reply "path" "docs/test-report.generated.md"
  | MpcCommittee => mpc_committee | MpcSubmit => mpc_submit r | MpcIntentStatus id => mpc_intent_status id | MpcSession id => mpc_session id
  | MpcMatch id => mpc_match id | MpcBatches => mpc_batches | MpcVerify => mpc_verify r
  | AnchorsDiscovery => anchors_discovery | AnchorsQuotes => anchors_quotes r | AnchorsPayouts => anchors_payouts r
  | GetPayout id => get_payout id r | CompliancePackage => compliance_package r
  end.

(** One request; an unknown path is Fastify's 404. *)
Definition handle (method path : string) (r : Request) (w : World) : World * reply :=
  match route_of method path with
  | Some rt => serve (handler rt r) w
  | None => (w, (404, JObj [("error", JStr "Not Found")]))
  end.

End Api.
End Api.
