(* ===== verification/ApiSafety.v ===== *)
(** Properties of the API as a whole: what its routes write, the typing of the
    database, revoked sessions, spends while the tree is suspect, settlement. *)

From S2P Require Import Prelude Text Json Committee Queue Relayer Prover Sql Web Footprint Schemas Store Rfq Vault Ids Auth Cctp ShadeView ApiUsers ApiVaults ApiRfq ApiMpc Api.
Import Ids Auth ApiUsers Store ApiVaults ApiRfq ApiMpc Api.
Local Open Scope string_scope.
Local Open Scope Z_scope.

Module ApiSafety.
Section ApiSafety.
Context {Zd : Zod} {C : NodeCrypto} {N : Nacl} {L : Collation} {W : WalletLib} {E : Es256} {CL : ChainLib} {ZL : ZodLaws Zd}.
Variable poseidon_hash : list Z -> Z.

Notation handler := (handler poseidon_hash).
Notation handle := (handle poseidon_hash).

(** ** The footprint of the API *)

Definition inserted : list string :=
  ["state_transitions"; "cctp_deposits"; "proof_jobs"; "withdrawals"; "intents"; "quotes"; "quote_acceptances"; "solver_inventory_locks"; "fills";
   "settlements"; "cctp_exits"; "users"; "user_profiles"; "note_vaults"; "note_vault_wrappers"; "auth_nonces"; "user_wallets"; "user_sessions";
   "user_activity"; "encrypted_note_backups"; "view_key_reports"; "mpc_sessions"; "mpc_intents"; "mpc_intent_shares"].
Definition updated : list string :=
  ["cctp_deposits"; "users"; "user_profiles"; "note_vaults"; "auth_nonces"; "user_sessions"; "fills"; "settlements"; "intents"].
Definition deleted : list string := ["user_wallets"; "note_vault_wrappers"].

(** Proof jobs are created queued and never updated; a nonce or a session is
    created live, and only ever consumed or revoked. *)
Definition allowed (o : write) : Prop :=
  match o with
  | WInsert t r oc =>
      t ∈ inserted /\ (t = "proof_jobs" -> jget "status" r = Some (JStr "queued") /\ oc = DoNothing) /\
      (t = "user_sessions" -> oc = Raise) /\ (t = "auth_nonces" -> oc = Raise)
  | WUpdate t cond sets =>
      t ∈ updated /\ (t = "user_sessions" -> exists z, sets = [("revoked_at", JNum z)]) /\ (t = "auth_nonces" -> exists z, sets = [("consumed_at", JNum z)])
  | WDelete t cond => t ∈ deleted
  | WJob q t p k => match q with relayer => t ∈ RELAYER_JOB_TYPES | prover => t ∈ Prover.PROOF_JOB_TYPES end
  end.

Ltac allowed_tac :=
  cbv beta;
  first [ member_tac | split_and!; first [member_tac | discriminate | done | by eexists]
        | exfalso; match goal with H : negb (bool_decide (_ ∈ _)) = false |- _ => by vm_compute in H end ].

Lemma writes_parse {RT : Runtime} P {A} s v (k : json -> M A) : (forall x, zparse s v = Some x -> writes P (k x)) -> writes P (bindM (parse s v) k).
Proof. unfold parse. destruct (zparse s v) as [x|]; intros H; [exact (H x eq_refl)|exact (writes_fail P A 400 "invalid request body")]. Qed.

Lemma proof_request_writes {RT : Runtime} kind r : writes allowed (proof_request kind r).
Proof.
  unfold proof_request. apply writes_bind; [writes_tac; allowed_tac|]. intros uid. apply writes_parse. intros body Hb.
  pose proof (zod_object _ _ _ "proof_type" Hb) as (pt & Hpt & Hin). unfold text. rewrite Hpt. cbn [to_primitive].
  writes_tac; try allowed_tac. revert pt Hpt Hin. cbn. set_solver.
Qed.

Lemma handler_writes {RT : Runtime} rt r : writes allowed (handler rt r).
Proof.
  destruct rt; cbn [Api.handler]; first [apply proof_request_writes | writes_tac; first [allowed_tac | destruct step; allowed_tac]].
Qed.

(** ** The system around the API *)

Definition with_state (w : World) (s : Tables * JobDb) : World :=
  {| w_db := s.1; w_jobs := s.2; w_calls := w_calls w; w_next := w_next w |}.

(** A request, each with a clock, an environment and answers of its own, or a
    statement or job of another service that satisfies [P], or any change of the
    queue by its workers. *)
Inductive step (P : write -> Prop) (w : World) : World -> Prop :=
| by_request (RT : Runtime) method path r : step P w (handle method path r w).1
| by_service o id n : P o -> step P w (with_state w (exec o id n (state w)))
| by_worker js : step P w (with_state w (w_db w, js)).

Lemma handle_keeps {RT : Runtime} (I : Tables * JobDb -> Prop) method path r w :
  (forall o id n s, allowed o -> I s -> I (exec o id n s)) -> I (state w) -> I (state (handle method path r w).1).
Proof.
  intros HI Hw. unfold Api.handle. destruct (route_of method path) as [rt|]; [|done].
  apply keeps_serve; [|done]. eapply writes_keeps; [exact HI|apply handler_writes].
Qed.

(** An invariant of the database that the API's writes and the services' writes
    preserve holds in every later state. *)
Lemma steps_keep (P : write -> Prop) (I : Tables -> Prop) w w' :
  (forall o id n s, allowed o \/ P o -> I s.1 -> I (exec o id n s).1) -> rtc (step P) w w' -> I (w_db w) -> I (w_db w').
Proof.
  intros HI. induction 1 as [w|w w1 w' [RT m p r|o id n Ho|js] _ IH]; intros Hw; [done|apply IH..]; [|by apply (HI o id n (state w)); [right|]|done].
  apply (handle_keeps (fun s => I s.1)); [|done]. intros o id n s Ho. apply HI. by left.
Qed.

(** ** Proof jobs stay queued *)

Definition all_queued (db : Tables) : Prop := Forall (fun p => col "status" p = JStr "queued") (rows_of "proof_jobs" db).

Lemma proof_jobs_catalogue : exists T, jget "proof_jobs" catalogue = Some T /\ "status" ∈ columns T.
Proof. eexists. split; [reflexivity|]. apply (bool_decide_unpack _). by vm_compute. Qed.

Lemma queued_kept o id n s : allowed o \/ table o <> "proof_jobs" -> all_queued s.1 -> all_queued (exec o id n s).1.
Proof.
  intros Ho Hq. destruct (decide (table o = "proof_jobs")) as [Ht|Ht]; [|unfold all_queued; by rewrite exec_frame].
  destruct Ho as [Ho|Ho]; [|done]. destruct o as [t r oc|t cond sets|t cond|q t p k]; cbn in Ht; [subst t..|done]; cbn in Ho.
  - destruct Ho as (_ & [Hst ->] & _); [done|]. destruct proof_jobs_catalogue as (T & HT & Hc). cbn. unfold all_queued.
    destruct (insert_rows "proof_jobs" T r DoNothing id n s.1 HT) as [->| ->|? ? ? ? [=]]; [done|]. intros.
    apply Forall_app_2; [done|]. apply Forall_singleton. by rewrite col_complete, Hst.
  - exfalso. destruct Ho as [Ho _]. revert Ho. apply (bool_decide_unpack _). by vm_compute.
  - exfalso. revert Ho. apply (bool_decide_unpack _). by vm_compute.
Qed.

(** Authentication only writes the user it logs in. *)
Definition login_tables : list string := ["users"; "user_profiles"].
Lemma privy_writes {RT : Runtime} r : writes (fun o => table o ∈ login_tables) (requirePrivyUser r).
Proof. writes_tac; member_tac. Qed.
Lemma authed_writes {RT : Runtime} r : writes (fun o => table o ∈ login_tables) (authedUser r).
Proof. writes_tac; member_tac. Qed.

Lemma login_keeps {RT : Runtime} (I : Tables * JobDb -> Prop) r :
  (forall o id n s, table o ∈ login_tables -> I s -> I (exec o id n s)) ->
  keeps (on_state I) (authedUser r) /\ keeps (on_state I) (requirePrivyUser r).
Proof. intros HI. split; (eapply writes_keeps; [exact HI|]); [apply authed_writes|apply privy_writes]. Qed.

Lemma parse_keeps {RT : Runtime} I s v : keeps I (parse s v).
Proof. unfold parse. destruct (zparse s v); [apply keeps_ret|apply keeps_fail]. Qed.
Lemma lifecycle_keeps {RT : Runtime} I uid body lc : keeps I (lifecycle_checks uid body lc).
Proof. unfold lifecycle_checks, reject. repeat case_match; apply keeps_ret || apply keeps_fail. Qed.
Lemma root_keeps {RT : Runtime} I : keeps I assertRootHealthy.
Proof. apply keeps_bind; [apply keeps_bind; [apply keeps_select|intros; apply keeps_ret]|]. intros. case_match; apply keeps_ret || apply keeps_fail. Qed.
Lemma rfq_keeps {RT : Runtime} I a b : keeps I (rfqLifecycle a b).
Proof. repeat (apply keeps_bind; [apply keeps_select|intros]). apply keeps_ret. Qed.

(** A row that was read is in its table. *)
Lemma getById_spec {RT : Runtime} (I : World -> Prop) t c id :
  hoare I (getById t c id) (fun o w => I w /\ match o with Some r => r ∈ rows_of t (w_db w) | None => True end) I.
Proof.
  unfold getById. case_match; [by apply hoare_fail|]. intros w Hw. cbn. split; [done|]. unfold select.
  destruct (List.filter _ _) as [|r l] eqn:Hf; [done|]. cbn. apply list_elem_of_In. eapply filter_In. rewrite Hf. by left.
Qed.

(** Settlement needs a proof job that is ready. *)
Lemma settle_throws {RT : Runtime} r R :
  let I := on_state (fun s => all_queued s.1 /\ rows_of "settlements" s.1 = R) in
  hoare I (settle r) (fun _ _ => False) I.
Proof.
  intros I. unfold settle.
  eapply hoare_bind; [apply (login_keeps (fun s => all_queued s.1 /\ rows_of "settlements" s.1 = R))|intros uid].
  { intros o id n s Ho [Hq HR]. split; [apply queued_kept; [right|done]|rewrite exec_frame; [done|]]; intros Et; rewrite Et in Ho;
      revert Ho; member_tac. }
  eapply hoare_bind; [apply root_keeps|intros ?]. eapply hoare_bind; [apply parse_keeps|intros body]. cbv zeta.
  eapply hoare_bind; [apply rfq_keeps|intros lc]. eapply hoare_bind; [apply lifecycle_keeps|intros ?].
  eapply hoare_bind; [apply getById_spec|intros pj]. destruct pj as [p|]; cbn [negb].
  - destruct (is_str "ready" (col "status" p)) eqn:Hs; cbn [negb].
    + intros w [[Hq _] Hp]. exfalso. unfold all_queued in Hq. rewrite list.Forall_forall in Hq. specialize (Hq p Hp).
      unfold is_str in Hs. rewrite Hq in Hs. by vm_compute in Hs.
    + by intros w [HI _].
  - by intros w [HI _].
Qed.

(** ** Sessions *)

Definition hash_is (h : string) (s : row) : bool := sql_eq (col "session_hash" s) (JStr h).
Definition dead (h : string) (db : Tables) : Prop :=
  Exists (fun s => hash_is h s = true) (rows_of "user_sessions" db) /\
  Forall (fun s => hash_is h s = true -> is_null (col "revoked_at" s) = false) (rows_of "user_sessions" db).

Lemma sessions_catalogue : exists T, jget "user_sessions" catalogue = Some T /\ ["session_hash"] ∈ uniques T.
Proof. eexists. split; [reflexivity|]. member_tac. Qed.

(** Revoking a session: the hash stays, the row is revoked or unchanged. *)
Lemma revoke_row z r : col "session_hash" (set_row [("revoked_at", JNum z)] r) = col "session_hash" r /\
  col "revoked_at" (set_row [("revoked_at", JNum z)] r) = JNum z.
Proof. split; [apply col_set_row_ne; set_solver|]. unfold set_row, col. cbn. by rewrite jget_jset_eq. Qed.

Lemma dead_revoke h z (cond : row -> bool) rows :
  let f r := if cond r then set_row [("revoked_at", JNum z)] r else r in
  Forall (fun s => hash_is h s = true -> cond s = true \/ is_null (col "revoked_at" s) = false) rows ->
  Exists (fun s => hash_is h s = true) rows ->
  Exists (fun s => hash_is h s = true) (map f rows) /\ Forall (fun s => hash_is h s = true -> is_null (col "revoked_at" s) = false) (map f rows).
Proof.
  intros f HF HE. assert (forall r, hash_is h (f r) = hash_is h r) as Hh.
  { intros r. unfold f, hash_is. destruct (cond r); [|done]. by rewrite (proj1 (revoke_row z r)). }
  split.
  - apply Exists_exists in HE as (s & Hs & Eh). apply Exists_exists. exists (f s). rewrite Hh. split; [|done].
    by apply in_map.
  - apply Forall_map. eapply list.Forall_impl; [exact HF|]. intros r Hr. rewrite Hh. intros Eh. unfold f. destruct (Hr Eh) as [->|Hn].
    + by rewrite (proj2 (revoke_row z r)). + destruct (cond r); [by rewrite (proj2 (revoke_row z r))|done].
Qed.

Lemma dead_kept h o id n s : allowed o \/ table o <> "user_sessions" -> dead h s.1 -> dead h (exec o id n s).1.
Proof.
  intros Ho Hd. destruct (decide (table o = "user_sessions")) as [Ht|Ht]; [|unfold dead; by rewrite exec_frame].
  destruct Ho as [Ho|Ho]; [|done]. destruct o as [t r oc|t cond sets|t cond|q t p k]; cbn in Ht; [subst t..|done]; cbn in Ho.
  - destruct Ho as (_ & _ & Ho & _). rewrite (Ho eq_refl). destruct sessions_catalogue as (T & HT & Hu). cbn. destruct Hd as [HE HF]. unfold dead.
    destruct (insert_rows "user_sessions" T r Raise id n s.1 HT) as [->| -> Hc|? ? ? ? [=]]; [done|]. split; [apply Exists_app; by left|].
    apply Forall_app_2; [done|]. apply Forall_singleton. intros Hh. exfalso. apply Exists_exists in HE as (s0 & Hs0 & Eh).
    unfold conflicts in Hc. rewrite existsb_false in Hc. apply list_elem_of_In in Hu. specialize (Hc _ Hu). rewrite existsb_false in Hc.
    specialize (Hc _ Hs0). cbn in Hc. unfold hash_is in Hh, Eh. apply sql_eq_spec in Hh as [Hh _], Eh as [Eh _].
    rewrite Hh, Eh in Hc. cbn in Hc. by rewrite bool_decide_true in Hc.
  - destruct Ho as (_ & Ho & _). destruct (Ho eq_refl) as [z ->]. cbn. destruct Hd as [HE HF]. unfold dead.
    destruct (update_rows "user_sessions" cond [("revoked_at", JNum z)] s.1) as [->| ->]; [done|]. apply dead_revoke; [|done].
    eapply list.Forall_impl; [exact HF|]. intros r Hr Hh. right. auto.
  - exfalso. revert Ho. member_tac.
Qed.

(** A dead session authenticates nobody. *)
Lemma dead_rejected {RT : Runtime} h w : dead h (w_db w) -> userIdForSession h w = (w, Done None).
Proof.
  intros [_ HF]. unfold userIdForSession, bindM, sql_select, select. cbn. do 2 f_equal.
  destruct (List.filter _ _) as [|s l] eqn:Hf; [done|]. exfalso. assert (In s (s :: l)) as Hs by by left. rewrite <- Hf in Hs.
  apply filter_In in Hs as [Hs Hl]. rewrite list.Forall_forall in HF. apply list_elem_of_In in Hs. specialize (HF s Hs).
  unfold live_session, where_eq in Hl. cbn in Hl. rewrite andb_true_r in Hl. apply andb_prop in Hl as [Hl _]. apply andb_prop in Hl as [Hh Hn].
  specialize (HF Hh). by rewrite HF in Hn.
Qed.

End ApiSafety.

(** ** A small deployment for the examples *)

Definition toy_uuid (n : nat) : string := "id" +:+ toString (Z.of_nat n).
Definition runtime_at (t : Z) (env : list (string * string)) : Runtime :=
  {| process_env := env; uuid := toy_uuid; now := t; iso_now := "2026-01-01T00:00:00.000Z"; answer := fun _ => Err "unreachable" |}.
Definition legacy_env : list (string * string) := [("ENABLE_LEGACY_WALLET_AUTH", "true"); ("SHIELDED_POOL_CONTRACT", "CPOOL")].

(** A signature is the address that made it. *)
#[global] Instance toy_wallets : WalletLib := {| getAddress := Ok; verifyMessage := fun _ sg => Ok sg; stellar_verify := fun a _ sg => Ok (bool_decide (a = sg)) |}.
#[global] Instance toy_es256 : Es256 := {| import_pem := Ok; import_jwk := fun _ => Ok "key"; es256_verify := fun k sg _ => bool_decide (k = sg) |}.
#[global] Instance toy_zod : Zod := zod_example.

Definition empty_world : World := {| w_db := []; w_jobs := emptyDb; w_calls := []; w_next := 0 |}.
Definition request (token : option string) (body : list (string * json)) : Request :=
  {| authorization := match token with Some t => Some ("Bearer " +:+ t) | None => None end; cookie := None;
     idempotency_header := Some "idempotency-1"; req_body := JObj body |}.
Definition toy_hash (l : list Z) : Z := 0.

(** A user asks for a nonce, signs it and logs in. *)
Definition nonce_request : Request := request None [("wallet_type", JStr "EVM"); ("address", JStr "0xA")].
Definition login_request : Request := request None [("address", JStr "0xA"); ("signature", JStr "0xA"); ("nonce", JStr "id0")].
Definition after_nonce : World :=
  (@handle (runtime_at 1000 legacy_env) _ _ _ _ _ _ _ toy_hash "POST" "/v1/auth/nonce" nonce_request empty_world).1.
Definition toy_login : World * reply :=
  @handle (runtime_at 2000 legacy_env) _ _ _ _ _ _ _ toy_hash "POST" "/v1/auth/evm/verify" login_request after_nonce.

Example login_works : toy_login.2.1 = 200.
Proof. vm_compute. reflexivity. Qed.

End ApiSafety.
