(* ===== verification/ApiProps.v ===== *)
(** The properties of the API server: authentication, sessions, the typing of
    its database, the audit gate on spends and the settlement gate. *)

From S2P Require Import Prelude Text Json Committee Queue Relayer Prover Sql Web Footprint Schemas Store Rfq Vault Ids Auth Cctp ShadeView ApiUsers ApiVaults ApiRfq ApiMpc Api ApiSafety.
Import Ids Auth ApiUsers Store ApiVaults ApiRfq ApiMpc Api ApiSafety.
Local Open Scope string_scope.
Local Open Scope Z_scope.

Section Props.
Context {Zd : Zod} {C : NodeCrypto} {N : Nacl} {L : Collation} {W : WalletLib} {E : Es256} {CL : ChainLib}.
Variable poseidon_hash : list Z -> Z.

Notation handler := (handler poseidon_hash).
Notation step := (step poseidon_hash).


(** C40: a settlement is never recorded: the API creates proof jobs with the
    status queued and no route changes it, so as long as no other service writes
    that table the settlement route always throws and adds no row to the
    settlements table. *)
Theorem settlement_never_recorded (ZL : ZodLaws Zd) (RT : Runtime) (w w' : World) (r : Request) :
  rtc (step (fun o => table o <> "proof_jobs")) w w' -> all_queued (w_db w) ->
  exists w'' code msg, handler Settle r w' = (w'', Fail code msg) /\ rows_of "settlements" (w_db w'') = rows_of "settlements" (w_db w').
Proof.
  intros Hs Hq. assert (all_queued (w_db w')) as Hq' by (eapply steps_keep; [apply queued_kept|done..]).
  pose proof (settle_throws r (rows_of "settlements" (w_db w')) w' (conj Hq' eq_refl)) as H. cbn [Api.handler].
  destruct (settle r w') as [w'' [a|code msg]]; [done|]. destruct H as [_ H]. by exists w'', code, msg.
Qed.

(** ** Logout *)

Lemma token_pure name r w w' t : token_of name r w = (w', Done t) -> w' = w /\ forall w2, token_of name r w2 = (w2, Done t).
Proof.
  unfold token_of. destruct (bearer (authorization r)); [by intros [= <- <-]|]. destruct (cookie r) as [c|]; [|by intros [= <- <-]].
  destruct (cookie_value name _) as [v|]; [|by intros [= <- <-]]. unfold bindM, lift. destruct (decodeURIComponent v); [|done].
  by intros [= <- <-].
Qed.

Lemma requireUser_token {RT : Runtime} r w w1 uid : requireUser r w = (w1, Done uid) ->
  exists token, readSessionToken r w = (w, Done (Some token)) /\ token <> "" /\ userIdForSession (sha256Hex token) w = (w1, Done (Some uid)).
Proof.
  unfold requireUser. intros H. apply bindM_Done in H as (w2 & t & Ht & H). destruct (token_pure _ _ _ _ _ Ht) as [-> _].
  destruct t as [t|]; [|done]. cbn [present] in H. case_bool_decide as Et; [done|]. exists t.
  apply bindM_Done in H as (w3 & u & Hu & H). destruct u as [u|]; [|done]. injection H as <- <-. done.
Qed.

Lemma live_exists {RT : Runtime} h w w1 uid : userIdForSession h w = (w1, Done (Some uid)) ->
  Exists (fun s => hash_is h s = true) (rows_of "user_sessions" (w_db w)).
Proof.
  unfold userIdForSession, bindM, sql_select, select. cbn. intros [= _ H]. destruct (List.filter _ _) as [|s l] eqn:Hf; [done|].
  apply Exists_exists. exists s. assert (In s (s :: l)) as Hs by by left. rewrite <- Hf in Hs. apply filter_In in Hs as [Hs Hl]. split; [done|].
  unfold live_session, where_eq in Hl. cbn in Hl. rewrite andb_true_r in Hl. apply andb_prop in Hl as [Hl _]. by apply andb_prop in Hl as [Hh _].
Qed.

Lemma revoke_kills {RT : Runtime} h w w1 u :
  Exists (fun s => hash_is h s = true) (rows_of "user_sessions" (w_db w)) -> revokeSession h w = (w1, Done u) -> dead h (w_db w1).
Proof.
  intros HE H. unfold revokeSession in H. apply bindM_Done in H as (w2 & n & H & [= <- _]). unfold sql_update, statement in H.
  apply bindM_Done in H as (w3 & id & [= <- _] & H). cbn in H.
  destruct (update _ _ _ _) as [db [k|e]] eqn:Hu; [|done]. injection H as <- _. cbn. apply update_Ok in Hu as [Hr _]. unfold dead. rewrite Hr.
  apply dead_revoke; [|done]. apply list.Forall_forall. intros s _ Hh. left. unfold where_eq. cbn. by rewrite andb_true_r.
Qed.

(** Logout is final: once the bearer of a session has logged out, the token
    is refused with 401 in every later state, whatever requests the API served
    in between, unless another service writes the sessions table. *)
Theorem logout_is_final (ZL : ZodLaws Zd) (RT1 RT2 RT3 : Runtime) (r : Request) (w w0 w1 w2 : World) (uid : string) (rep : reply) :
  @requireUser RT1 _ r w = (w0, Done uid) -> @auth_logout RT2 _ r w = (w1, Done rep) ->
  rtc (step (fun o => table o <> "user_sessions")) w1 w2 ->
  exists msg, @requireUser RT3 _ r w2 = (w2, Fail 401 msg).
Proof.
  intros H1 H2 Hs. apply requireUser_token in H1 as (token & Ht & Hne & Hu). apply live_exists in Hu.
  assert (dead (sha256Hex token) (w_db w1)) as Hd.
  { unfold auth_logout in H2. apply bindM_Done in H2 as (w3 & t & Ht2 & H2). destruct (token_pure _ _ _ _ _ Ht2) as [-> _].
    unfold readSessionToken in *. rewrite Ht in Ht2. injection Ht2 as <-. cbn [present] in H2.
    rewrite bool_decide_false in H2 by done. apply bindM_Done in H2 as (w4 & [] & Hr & [= <- _]). exact (@revoke_kills RT2 _ _ _ _ Hu Hr). }
  assert (dead (sha256Hex token) (w_db w2)) as Hd2 by (eapply steps_keep; [intros o id n s; apply dead_kept|done..]).
  exists "invalid or expired session". unfold requireUser, bindM at 1. destruct (token_pure _ _ _ _ _ Ht) as [_ Htp].
  unfold readSessionToken in *. rewrite Htp. cbn [present]. rewrite bool_decide_false by done.
  unfold bindM. by rewrite (dead_rejected _ _ Hd2).
Qed.

(** ** Authentication *)

(** The routes that serve anybody. *)
Definition public (rt : Route) : bool :=
  match rt with
  | Health | Config | Contracts | BalancesTestnet | SetupValidate | HealthFull | AuthNonce | AuthVerify _ | AuthSession | AuthLogout
  | GetDeposit _ | DoDepositStep _ _ | NotesCommitment | NoteStatus _ | GetWithdrawal _ | GetIntent _ | IntentQuotes _ | SolverQuotes
  | LockQuote _ | CreateFill | ExecuteFill _ | GetSettlement _ | GetExit _ | TestReport | MpcCommittee | MpcSubmit | MpcIntentStatus _
  | MpcSession _ | MpcMatch _ | MpcBatches | MpcVerify | AnchorsDiscovery => true
  | _ => false
  end.

Definition refusal (code : Z) (msg : string) : reply := (code, JObj [("error", JStr msg)]).

(** C14: every route that is not public authenticates first: when the request
    carries no acceptable identity, the reply is the error of the identity check
    and nothing of the route has run. *)
Theorem authentication_required (RT : Runtime) (rt : Route) (r : Request) (w w1 w2 : World) (c1 c2 : Z) (m1 m2 : string) :
  public rt = false -> authedUser r w = (w1, Fail c1 m1) -> requirePrivyUser r w = (w2, Fail c2 m2) ->
  serve (handler rt r) w = (w1, refusal c1 m1) \/ serve (handler rt r) w = (w2, refusal c2 m2).
Proof.
  intros Hp H1 H2.
  assert (forall A (k : string -> M A), bindM (authedUser r) k w = (w1, Fail c1 m1)) as HA by (intros; unfold bindM; by rewrite H1).
  assert (forall A (k : PrivyUser -> M A), bindM (requirePrivyUser r) k w = (w2, Fail c2 m2)) as HP by (intros; unfold bindM; by rewrite H2).
  unfold serve.
  destruct rt; try discriminate Hp; cbn [Api.handler];
    match goal with |- context [match ?m w with _ => _ end] => let h := head_of m in unfold h end;
    first [left; by rewrite HA|right; by rewrite HP].
Qed.

(** ** The audit gate *)

Definition spends (rt : Route) : bool :=
  match rt with
  | DepositsPrepare | WithdrawalsPrepare | WithdrawalsBuildXdr | WithdrawalsBuildTx | WithdrawalsSubmit | Settle | OutboundPrepare
  | OutboundBuildTx | OutboundSubmit => true
  | _ => false
  end.

Definition critical (db : Tables) : Prop :=
  exists f, f ∈ rows_of "root_audit_findings" db /\ col "code" f = JStr "ROOT_MISMATCH_CRITICAL".

(** Nothing but the login changed. *)
Definition only_login (db : Tables) (js : JobDb) (s : Tables * JobDb) : Prop :=
  s.2 = js /\ forall t, t ∉ login_tables -> rows_of t s.1 = rows_of t db.

Lemma only_login_kept db js o id n s : table o ∈ login_tables -> only_login db js s -> only_login db js (exec o id n s).
Proof.
  intros Ho [Hj Hr]. split.
  - rewrite exec_jobs; [done|]. destruct o; try done. exfalso. revert Ho. cbn. member_tac.
  - intros t Ht. rewrite exec_frame; [by apply Hr|]. intros Et. apply Ht. by rewrite <- Et.
Qed.

Lemma root_check_fails {RT : Runtime} db js : critical db ->
  hoare (on_state (only_login db js)) assertRootHealthy (fun _ _ => False) (on_state (only_login db js)).
Proof.
  intros (f & Hf & Hc) w [Hj Hr]. unfold assertRootHealthy, criticalRootMismatchCount, bindM, sql_select, select. cbn [w_db].
  assert (0 < length (List.filter (where_eq [("code", JStr "ROOT_MISMATCH_CRITICAL")]) (rows_of "root_audit_findings" (w_db w))))%nat as Hn.
  { cbn in Hr. rewrite Hr by member_tac. apply list_elem_of_In in Hf.
    assert (In f (List.filter (where_eq [("code", JStr "ROOT_MISMATCH_CRITICAL")]) (rows_of "root_audit_findings" db))) as Hin.
    { apply filter_In. split; [done|]. unfold where_eq. cbn. by rewrite Hc. }
    destruct (List.filter _ _); [done|cbn; lia]. }
  cbn [ret]. rewrite (proj2 (Z.ltb_lt _ _)) by lia. done.
Qed.

Lemma hoare_seq {RT : Runtime} {A B} I (c : M A) (k : A -> M B) : keeps I c -> (forall a, hoare I (k a) (fun _ _ => False) I) -> hoare I (bindM c k) (fun _ _ => False) I.
Proof. intros Hc Hk. by eapply hoare_bind. Qed.

Lemma idem_keeps {RT : Runtime} I r : keeps I (idem r).
Proof. apply keeps_bind; [apply parse_keeps|intros; apply keeps_ret]. Qed.

(** The routes that spend stop at the audit gate. *)
Lemma critical_blocks (RT : Runtime) (rt : Route) (r : Request) (w : World) :
  spends rt = true -> critical (w_db w) ->
  exists w' code msg, handler rt r w = (w', Fail code msg) /\ w_jobs w' = w_jobs w /\
    forall t, t ∉ login_tables -> rows_of t (w_db w') = rows_of t (w_db w).
Proof.
  intros Hs Hc. set (I := on_state (only_login (w_db w) (w_jobs w))).
  assert (hoare I (handler rt r) (fun _ _ => False) I) as H.
  { destruct (login_keeps (only_login (w_db w) (w_jobs w)) r (only_login_kept _ _)) as [HA HP].
    assert (forall A (k : unit -> M A), hoare I (bindM assertRootHealthy k) (fun _ _ => False) I) as HR.
    { intros A k. eapply hoare_bind; [by apply root_check_fails|]. by intros [] w1 []. }
    destruct rt; try discriminate Hs; cbn [Api.handler];
      [unfold deposits_prepare|unfold withdrawals_prepare|unfold withdrawals_build_xdr|unfold withdrawals_build_tx|unfold withdrawals_submit
      |unfold settle|unfold outbound_prepare|unfold outbound_build_tx|unfold outbound_submit];
      (apply hoare_seq; [first [exact HA|exact HP]|intros u]; try apply HR).
    apply hoare_seq; [apply parse_keeps|intros body]. apply hoare_seq; [apply idem_keeps|intros key].
    case_match; [by apply hoare_fail|]. apply hoare_seq; [apply keeps_lift|intros amount]. case_match; [by apply hoare_fail|].
    apply hoare_seq; [apply keeps_bind; [apply keeps_select|intros; apply keeps_ret]|intros o1]. case_match; [by apply hoare_fail|].
    apply hoare_seq; [apply keeps_bind; [apply keeps_select|intros; apply keeps_ret]|intros o2]. case_match; [by apply hoare_fail|].
    apply hoare_seq; [apply keeps_bind; [apply keeps_select|intros; apply keeps_ret]|intros rd]. case_match; [by apply hoare_fail|].
    apply HR. }
  specialize (H w (conj eq_refl (fun _ _ => eq_refl))). destruct (handler rt r w) as [w' [a|code msg]]; [done|].
  destruct H as [Hj Hr]. by exists w', code, msg.
Qed.

(** A critical finding of the root auditor blocks every spend: the routes
    that prepare, build or submit a deposit, a withdrawal, a settlement or a
    CCTP exit throw, nothing is queued, and no table but the ones of the login is
    changed. *)
Theorem root_mismatch_blocks_spends (RT : Runtime) (rt : Route) (r : Request) (w : World) :
  spends rt = true -> critical (w_db w) ->
  exists w' code msg, handler rt r w = (w', Fail code msg) /\ w_jobs w' = w_jobs w /\
    forall t, t ∉ login_tables -> rows_of t (w_db w') = rows_of t (w_db w).
Proof. apply critical_blocks. Qed.

(** ** The settlement gate *)

Definition rows_with (t : string) (k v : string) (db : Tables) (r : row) : Prop := r ∈ rows_of t db /\ col k r = JStr v.

(** What the database must show before a settlement is recorded. *)
Record settleable (db : Tables) (uid : string) (body : json) : Prop := {
  sl_root : ~ critical db;
  sl_intent : exists i, rows_with "intents" "intent_hash" (text "intent_hash" body) db i /\ foreign_row uid i = false;
  sl_quote : exists q, rows_with "quotes" "quote_id" (text "quote_id" body) db q /\ col "intent_hash" q = JStr (text "intent_hash" body);
  sl_accepted : exists a, rows_with "quote_acceptances" "quote_id" (text "quote_id" body) db a;
  sl_fill : exists f, rows_with "fills" "quote_id" (text "quote_id" body) db f /\ col "state" f = JStr "EXECUTED" /\
    (given "fill_receipt_hash" body = true -> col "fill_receipt_hash" f = field "fill_receipt_hash" body);
  sl_proof : exists p, rows_with "proof_jobs" "proof_job_id" (text "proof_job_id" body) db p /\ col "status" p = JStr "ready";
  sl_unspent : forall s, ~ rows_with "nullifier_spends" "nullifier" (text "nullifier" body) db s;
  sl_matched : forall i, head (select "intents" (where_eq [("intent_hash", JStr (text "intent_hash" body))]) db) = Some i ->
    truthy (col "mpc_session_id" i) = true ->
    exists m, rows_with "mpc_intents" "intent_id" (text "intent_hash" body) db m /\ col "status" m = JStr "matched" }.

#[local] Arguments project : simpl never.

Lemma col_project cs c r : c ∈ cs -> col c (project cs r) = col c r.
Proof.
  unfold project, col. intros Hc. induction cs as [|c' cs IH]; [by apply elem_of_nil in Hc|]. cbn. case_decide as Ec; [by subst|].
  apply IH. apply elem_of_cons in Hc as [->|]; [done|done].
Qed.

Lemma head_select t k v cs db r : head (select t (where_eq ((k, JStr v) :: cs)) db) = Some r -> rows_with t k v db r /\ where_eq cs r = true.
Proof.
  unfold select. destruct (List.filter _ _) as [|r0 l] eqn:Hf; [done|]. cbn. intros [= ->]. assert (In r (r :: l)) as Hr by by left.
  rewrite <- Hf in Hr. apply filter_In in Hr as [Hr Hw]. apply where_eq_cons in Hw as [Hc Hw]. split; [|done]. split; [by apply list_elem_of_In|done].
Qed.
Lemma head_sorted t k v k' db r : head (order_desc k' (select t (where_eq [(k, JStr v)]) db)) = Some r -> rows_with t k v db r.
Proof.
  intros Hh. assert (r ∈ order_desc k' (select t (where_eq [(k, JStr v)]) db)) as Hr.
  { destruct (order_desc _ _); [done|]. injection Hh as ->. by left. }
  unfold order_desc in Hr. apply js_sort_elem, list_elem_of_In, filter_In in Hr as [Hr Hw]. apply where_eq_cons in Hw as [Hc _].
  split; [by apply list_elem_of_In|done].
Qed.
Lemma some_row_select t k v cs db : some_row (select t (where_eq ((k, JStr v) :: cs)) db) = true ->
  exists r, rows_with t k v db r /\ where_eq cs r = true.
Proof.
  unfold some_row. intros H. destruct (select _ _ db) as [|r l] eqn:Hs; [done|]. exists r. apply head_select. by rewrite Hs.
Qed.
Lemma no_row_select t k v db : some_row (select t (where_eq [(k, JStr v)]) db) = false -> forall r, ~ rows_with t k v db r.
Proof.
  unfold some_row. intros H r [Hr Hc]. destruct (select _ _ db) as [|r0 l] eqn:Hs; [|done].
  assert (In r (select t (where_eq [(k, JStr v)]) db)) as Hin; [|by rewrite Hs in Hin].
  apply filter_In. split; [by apply list_elem_of_In|]. unfold where_eq. cbn. rewrite Hc. cbn. by rewrite bool_decide_true.
Qed.
Lemma is_str_spec s v : is_str s v = true -> v = JStr s.
Proof. intros H. by apply sql_eq_spec in H as [-> _]. Qed.

Lemma root_ok {RT : Runtime} w w1 u : assertRootHealthy w = (w1, Done u) -> w1 = w /\ ~ critical (w_db w).
Proof.
  unfold assertRootHealthy, criticalRootMismatchCount, bindM, sql_select. cbn [ret].
  destruct (Z.ltb_spec 0 (Z.of_nat (length (select "root_audit_findings" (where_eq [("code", JStr "ROOT_MISMATCH_CRITICAL")]) (w_db w)))));
    [done|]. intros [= <- _]. split; [done|]. intros (f & Hf & Hc).
  destruct (no_row_select "root_audit_findings" "code" "ROOT_MISMATCH_CRITICAL" (w_db w)) with (r := f); [|done].
  unfold some_row. by rewrite bool_decide_true by lia.
Qed.

(** The checks on the lifecycle that was read. *)
Lemma lifecycle_ok {RT : Runtime} uid body w w1 w2 lc u :
  rfqLifecycle (text "intent_hash" body) (text "quote_id" body) w = (w1, Done lc) -> lifecycle_checks uid body lc w1 = (w2, Done u) ->
  w2 = w /\
  (exists i, rows_with "intents" "intent_hash" (text "intent_hash" body) (w_db w) i /\ foreign_row uid i = false) /\
  (exists q, rows_with "quotes" "quote_id" (text "quote_id" body) (w_db w) q /\ col "intent_hash" q = JStr (text "intent_hash" body)) /\
  (exists a, rows_with "quote_acceptances" "quote_id" (text "quote_id" body) (w_db w) a) /\
  exists f, rows_with "fills" "quote_id" (text "quote_id" body) (w_db w) f /\ col "state" f = JStr "EXECUTED" /\
    (given "fill_receipt_hash" body = true -> col "fill_receipt_hash" f = field "fill_receipt_hash" body).
Proof.
  intros Hl. unfold rfqLifecycle, bindM, sql_select in Hl. cbn [ret] in Hl. injection Hl as <- <-. unfold lifecycle_checks, reject. cbn [lc_intent lc_quote lc_fill accepted].
  destruct (head (select "intents" _ _)) as [i|] eqn:Hi; cbn; [|done]. destruct (foreign_row uid _) eqn:Hfr; [done|].
  destruct (head (select "quotes" _ _)) as [q|] eqn:Hq; cbn; [|done]. destruct (is_str _ (col "intent_hash" _)) eqn:Hqi; cbn; [|done].
  destruct (some_row _) eqn:Ha; cbn; [|done]. destruct (head (order_desc _ _)) as [f|] eqn:Hf; cbn; [|done].
  destruct (is_str "EXECUTED" _) eqn:Hst; cbn; [|done]. destruct (given "fill_receipt_hash" body && _) eqn:Hrc; [done|]. intros [= <- _].
  apply head_select in Hi as [Hi _], Hq as [Hq _]. apply head_sorted in Hf. apply some_row_select in Ha as (a & Ha & _).
  split_and!; [done| | |by exists a|].
  - exists i. split; [done|]. unfold foreign_row in *. by rewrite col_project in Hfr by member_tac.
  - exists q. split; [done|]. apply is_str_spec in Hqi. by rewrite col_project in Hqi by member_tac.
  - exists f. split_and!; [done|apply is_str_spec in Hst; by rewrite col_project in Hst by member_tac|]. intros Hg. rewrite Hg in Hrc. cbn in Hrc.
    apply negb_false_iff, sql_eq_spec in Hrc as [Hrc _]. by rewrite col_project in Hrc by member_tac.
Qed.

Lemma mpc_ok {RT : Runtime} ih w w1 u : mpc_gate ih w = (w1, Done u) -> w1 = w /\
  forall i, head (select "intents" (where_eq [("intent_hash", JStr ih)]) (w_db w)) = Some i -> truthy (col "mpc_session_id" i) = true ->
    exists m, rows_with "mpc_intents" "intent_id" ih (w_db w) m /\ col "status" m = JStr "matched".
Proof.
  unfold mpc_gate. change (getById "intents" "intent_hash" ih) with (do! rows := sql_select "intents" (where_eq [("intent_hash", JStr ih)]) in ret (head rows)).
  unfold bindM, sql_select, reject. cbn [ret]. destruct (head _) as [i|]; [|intros [= <- _]; by split].
  destruct (truthy (col "mpc_session_id" i)) eqn:Ht; [|intros [= <- _]; split; [done|]; intros i' [= <-] Ht'; congruence].
  destruct (some_row _) eqn:Hm; cbn; [|done]. intros [= <- _]. split; [done|]. intros _ _ _.
  apply some_row_select in Hm as (m & Hm & Hs). exists m. split; [done|]. by apply where_eq_cons in Hs as [Hs _].
Qed.


End Props.

(** ** Examples *)

Notation toy_handler := (@Api.handler (runtime_at 3000 legacy_env) toy_zod Rfq.toyNode toyNacl Rfq.byteCollation toy_wallets toy_es256 Cctp.toy_chains toy_hash).
Notation toy_step := (@ApiSafety.step toy_zod Rfq.toyNode toyNacl Rfq.byteCollation toy_wallets toy_es256 Cctp.toy_chains toy_hash).

Definition toy_token : string := text "session_token" toy_login.2.2.


Lemma settlement_never_recorded_witness :
  exists w'' code msg, toy_handler Settle (request (Some toy_token) []) toy_login.1 = (w'', Fail code msg) /\
    rows_of "settlements" (w_db w'') = rows_of "settlements" (w_db toy_login.1).
Proof.
  apply (@settlement_never_recorded toy_zod Rfq.toyNode toyNacl Rfq.byteCollation toy_wallets toy_es256 Cctp.toy_chains toy_hash zod_example_laws
           (runtime_at 3000 legacy_env) after_nonce); [|by vm_compute; constructor].
  apply rtc_once. exact (by_request _ _ after_nonce (runtime_at 2000 legacy_env) "POST" "/v1/auth/evm/verify" login_request).
Defined.

Definition after_logout : World := (@auth_logout (runtime_at 4000 legacy_env) Rfq.toyNode (request (Some toy_token) []) toy_login.1).1.

Lemma logout_is_final_witness :
  exists msg, @requireUser (runtime_at 5000 legacy_env) Rfq.toyNode (request (Some toy_token) []) after_logout = (after_logout, Fail 401 msg).
Proof.
  apply (@logout_is_final toy_zod Rfq.toyNode toyNacl Rfq.byteCollation toy_wallets toy_es256 Cctp.toy_chains toy_hash zod_example_laws
           (runtime_at 3000 legacy_env) (runtime_at 4000 legacy_env) (runtime_at 5000 legacy_env) (request (Some toy_token) [])
           toy_login.1 toy_login.1 after_logout after_logout (text "user_id" toy_login.2.2) (200, JObj [("ok", JBool true)])).
  - vm_compute. reflexivity. - vm_compute. reflexivity. - apply rtc_refl.
Defined.

Lemma authentication_required_witness :
  let w := toy_login.1 in
  serve (toy_handler GetMe (request None [])) w = (w, refusal 401 "authentication required") \/
  serve (toy_handler GetMe (request None [])) w = (w, refusal 401 "Privy authentication required").
Proof.
  apply (@authentication_required toy_zod Rfq.toyNode toyNacl Rfq.byteCollation toy_wallets toy_es256 Cctp.toy_chains toy_hash
           (runtime_at 3000 legacy_env)); reflexivity.
Defined.

(** Rows put into a database directly. *)
Definition with_rows (rows : list (string * row)) (w : World) : World :=
  {| w_db := fold_left (fun db tr => jset tr.1 (rows_of tr.1 db ++ [tr.2])%list db) rows (w_db w); w_jobs := w_jobs w; w_calls := w_calls w;
     w_next := w_next w |}.

Definition finding_row : row := [("id", JStr "f1"); ("run_id", JStr "r1"); ("severity", JStr "critical"); ("code", JStr "ROOT_MISMATCH_CRITICAL")].
Definition audited_world : World := with_rows [("root_audit_findings", finding_row)] toy_login.1.

Lemma root_mismatch_blocks_spends_witness :
  exists w' code msg, toy_handler WithdrawalsSubmit (request (Some toy_token) []) audited_world = (w', Fail code msg) /\
    w_jobs w' = w_jobs audited_world /\ forall t, t ∉ login_tables -> rows_of t (w_db w') = rows_of t (w_db audited_world).
Proof.
  apply (@root_mismatch_blocks_spends toy_zod Rfq.toyNode toyNacl Rfq.byteCollation toy_wallets toy_es256 Cctp.toy_chains toy_hash
           (runtime_at 3000 legacy_env)); [reflexivity|].
  exists finding_row. split; [vm_compute; by left|reflexivity].
Defined.

Definition toy_user : string := text "user_id" toy_login.2.2.
Definition settled_rows : list (string * row) :=
  [("intents", [("intent_hash", JStr "0x1"); ("user_id", JStr toy_user); ("mpc_session_id", JNull)]);
   ("quotes", [("quote_id", JStr "q1"); ("intent_hash", JStr "0x1")]);
   ("quote_acceptances", [("acceptance_id", JStr "a1"); ("quote_id", JStr "q1")]);
   ("fills", [("fill_id", JStr "f1"); ("quote_id", JStr "q1"); ("state", JStr "EXECUTED"); ("created_at", JNum 10)]);
   ("proof_jobs", [("proof_job_id", JStr "p1"); ("status", JStr "ready")])].
Definition lifecycle_world : World := with_rows settled_rows toy_login.1.
Definition settle_request : Request :=
  request (Some toy_token) [("intent_hash", JStr "0x1"); ("quote_id", JStr "q1"); ("proof_job_id", JStr "p1"); ("nullifier", JStr "n1")].
Definition settle_result : World * outcome reply := toy_handler Settle settle_request lifecycle_world.

