(* ===== verification/ApiFlows.v ===== *)
(** The API's flows across components: login, deposits and the relayer's check
    of the burn they prepare, note vaults, disclosure reports. *)

From S2P Require Import Prelude Text Json Committee Queue Relayer Prover Sql Web Footprint Schemas Store Rfq Vault Ids Auth Cctp ShadeView ApiUsers ApiVaults ApiRfq ApiMpc Api ApiSafety ApiProps.
Import Ids Auth ApiUsers Store ApiVaults ApiRfq ApiMpc Api ApiSafety.
Local Open Scope string_scope.
Local Open Scope Z_scope.

Section Flows.
Context {Zd : Zod} {C : NodeCrypto} {N : Nacl} {L : Collation} {W : WalletLib} {E : Es256} {CL : ChainLib}.

(** ** Login *)

(** The rows of a table that a computation does not write. *)
Lemma writes_same_rows {RT : Runtime} {A} (m : M A) t w w' o :
  writes (fun x => table x <> t) m -> m w = (w', o) -> rows_of t (w_db w') = rows_of t (w_db w).
Proof.
  intros Hw Hm. pose proof (writes_keeps (fun x => table x <> t) (fun s => rows_of t s.1 = rows_of t (w_db w)) m) as HK.
  specialize (HK ltac:(intros x id n s Hx Hs; cbv beta; by rewrite exec_frame) Hw w eq_refl). rewrite Hm in HK. by destruct o.
Qed.

Lemma writes_same_jobs {RT : Runtime} {A} (P : write -> Prop) (m : M A) w w' o :
  (forall x id n, P x -> (exec x id n (w_db w, w_jobs w)).2 = w_jobs w) -> writes P m -> m w = (w', o) -> w_jobs w' = w_jobs w.
Proof.
  intros HP Hw Hm. pose proof (writes_keeps P (fun s => s.2 = w_jobs w) m) as HK.
  specialize (HK ltac:(intros x id n s Hx Hs; cbv beta in *; rewrite <- (HP x id n Hx); destruct s as [d j]; cbn in Hs |- *; subst j; by destruct x) Hw w eq_refl).
  rewrite Hm in HK. by destruct o.
Qed.

Definition consume (t : Z) (n : row) (rows : list row) : list row :=
  map (fun r => if where_eq [("id", col "id" n)] r then set_row [("consumed_at", JNum t)] r else r) rows.

Lemma consume_spec {RT : Runtime} wt a n w w' m : consumeNonce wt a n w = (w', Done (Some m)) ->
  exists r, r ∈ rows_of "auth_nonces" (w_db w) /\ live_nonce wt a n now r = true /\ text "message" (JObj r) = m /\
    rows_of "auth_nonces" (w_db w') = consume now r (rows_of "auth_nonces" (w_db w)).
Proof.
  unfold consumeNonce. intros H. apply bindM_Done in H as (w1 & rows & [= <- <-] & H).
  destruct (head (order_desc _ _)) as [r|] eqn:Hr; [|done]. apply bindM_Done in H as (w2 & k & H & [= <- <-]).
  exists r. assert (r ∈ order_desc "created_at" (select "auth_nonces" (live_nonce wt a n now) (w_db w))) as Hin.
  { destruct (order_desc _ _); [done|]. injection Hr as ->. by left. }
  unfold order_desc in Hin. apply js_sort_elem, list_elem_of_In, filter_In in Hin as [Hin Hl].
  split_and!; [by apply list_elem_of_In|done|done|]. unfold sql_update, statement in H. apply bindM_Done in H as (w3 & id & [= <- <-] & H). cbn in H.
  destruct (update _ _ _ _) as [db [j|e]] eqn:Hu; [|done]. injection H as <- _. apply update_Ok in Hu as [Hu _]. exact Hu.
Qed.

(** A login uses up a nonce that was signed: when the verify route answers
    200, a nonce was issued for this wallet and address, not consumed and not
    expired, the signature verifies over the message stored with it, and the
    login marked it consumed. *)
Theorem login_consumes_signed_nonce (RT : Runtime) (wt : WalletType) (r : Request) (w w' : World) (b : json) :
  verifyHandler wt r w = (w', Done (200, b)) ->
  exists body address n, zparse authVerifySchema (req_body r) = Some body /\ normalizeAddress wt (text "address" body) = Ok address /\
    n ∈ rows_of "auth_nonces" (w_db w) /\ live_nonce (wallet_name wt) address (text "nonce" body) now n = true /\
    verifyWalletSignature wt address (text "message" (JObj n)) (text "signature" body) = true /\
    rows_of "auth_nonces" (w_db w') = consume now n (rows_of "auth_nonces" (w_db w)).
Proof.
  unfold verifyHandler. intros H. apply bindM_Done in H as (w1 & body & Hb & H). unfold parse in Hb.
  destruct (zparse _ _) as [b0|] eqn:Hz; [|done]. injection Hb as <- <-. apply bindM_Done in H as (w2 & address & Ha & H). unfold lift in Ha.
  destruct (normalizeAddress wt _) as [a|e] eqn:Hn; [|done]. injection Ha as <- <-. apply bindM_Done in H as (w3 & m & Hm & H).
  destruct m as [m|]; [|done]. apply consume_spec in Hm as (n & Hin & Hl & <- & Hrows). cbn [present] in H. case_bool_decide; [done|].
  destruct (verifyWalletSignature _ _ _ _) eqn:Hs; cbn [negb] in H; [|done]. exists b0, a, n. split_and!; try done. rewrite <- Hrows.
  eapply (writes_same_rows _ "auth_nonces"); [|exact H]. writes_tac; done.
Qed.

(** ** Deposits *)

Lemma idem_pure {RT : Runtime} r w w' k : idem r w = (w', Done k) -> w' = w.
Proof.
  unfold idem. intros H. apply bindM_Done in H as (w1 & h & Hh & [= <- _]). unfold parse in Hh. destruct (zparse _ _); [by injection Hh|done].
Qed.

(** A deposit is prepared only for a safe vault: when the route answers, the
    caller is authenticated, owns the wallet and the vault, the vault's backup
    was verified under a sufficient recovery policy, the auditor has no critical
    finding and the amount is positive; the reply carries the burn request for
    that amount. *)
Theorem deposit_prepare_gated (RT : Runtime) (r : Request) (w w' : World) (rep : reply) :
  deposits_prepare r w = (w', Done rep) ->
  exists auth w1 body amount b key, requirePrivyUser r w = (w1, Done auth) /\ zparse userDepositPrepareSchema (req_body r) = Some body /\
    BigInt (text "amount_usdc_6dp" body) = Some amount /\ 0 < amount /\ burn_request amount = Ok b /\
    (exists wl, wl ∈ rows_of "user_wallets" (w_db w1) /\ col "user_id" wl = JStr (userId auth) /\
       lower_eq (text "source_wallet_address" body) (col "address" wl) = true) /\
    (exists v, v ∈ rows_of "note_vaults" (w_db w1) /\ col "user_id" v = JStr (userId auth) /\ col "vault_id" v = JStr (text "vault_id" body) /\
       deposit_ready v = true) /\
    ~ critical (w_db w1) /\
    rep = (200, JObj (deposit_reply (depositId_of key (text "commitment" body)) b (Cctp.usdc6ToStellar7 amount))).
Proof.
  unfold deposits_prepare. intros H. apply bindM_Done in H as (w1 & auth & Hu & H). apply bindM_Done in H as (w2 & body & Hb & H). unfold parse in Hb.
  destruct (zparse userDepositPrepareSchema _) as [b0|] eqn:Hz; [|done]. injection Hb as <- <-. apply bindM_Done in H as (w3 & key & Hk & H).
  apply idem_pure in Hk as ->. destruct (negb _) in H; [done|]. apply bindM_Done in H as (w4 & amount & Ha & H). unfold to_big in Ha.
  destruct (BigInt _) as [z|] eqn:Hz6; [|done]. injection Ha as <- <-. destruct (Z.leb_spec z 0) in H; [done|].
  apply bindM_Done in H as (w5 & ow & [= <- <-] & H). destruct (some_row _) eqn:How in H; cbn [negb] in H; [|done].
  apply bindM_Done in H as (w6 & ov & [= <- <-] & H). destruct (some_row _) eqn:Hov in H; cbn [negb] in H; [|done].
  apply bindM_Done in H as (w7 & rd & [= <- <-] & H). destruct (head _) as [v|] eqn:Hv in H; cbn [negb ready] in H; [|done].
  destruct (deposit_ready v) eqn:Hrd; cbn [negb] in H; [|done]. apply bindM_Done in H as (w8 & u & Hr & H). apply root_ok in Hr as [-> Hr].
  apply bindM_Done in H as (w9 & b & Hbr & H). unfold lift in Hbr. destruct (burn_request z) as [b1|] eqn:Hb1; [|done]. injection Hbr as <- <-.
  apply bindM_Done in H as (w10 & u1 & _ & H). apply bindM_Done in H as (w11 & u2 & _ & [= _ <-]).
  exists auth, w1, b0, z, b1, key. split_and!; try done.
  - unfold some_row in How. destruct (select _ _ _) as [|wl l] eqn:Hs; [done|]. assert (In wl (wl :: l)) as Hin by by left. rewrite <- Hs in Hin.
    apply filter_In in Hin as [Hin Hc]. exists wl.
    apply andb_prop in Hc as [Hc _]. apply andb_prop in Hc as [Hc Hl]. apply andb_prop in Hc as [Hc _]. apply sql_eq_spec in Hc as [Hc _].
    split_and!; [by apply list_elem_of_In|done|done].
  - apply head_select in Hv as [[Hin Hc] Hw]. apply where_eq_cons in Hw as [Hw _]. by exists v.
Qed.

(** A variable the API and the relayer read in the same way: [||] and [??]
    differ on the empty text. *)
Definition set_or_unset {RT : Runtime} (k : string) : Prop := env_var k <> Some "".

Lemma env_agree {RT : Runtime} k d : set_or_unset k -> Cctp.env_default process_env k d = env_or k d.
Proof.
  unfold set_or_unset, Cctp.env_default, env_or, env_var. destruct (jget k process_env) as [v|]; [|done]. intros Hne. cbn.
  case_bool_decide; [by subst|done].
Qed.


(** ** Burn submission *)

Definition has_burn_job (id : string) (js : JobDb) : Prop := is_Some (enqueue_lookup (Some ("user-burn:" +:+ id)) js).

Lemma enqueue_present q t p k id n js j : enqueue_lookup k js = Some j -> (enqueue q t p k id n js).1 = js.
Proof. intros H. unfold enqueue. by rewrite H. Qed.

Lemma find_snoc {A} (f : A -> bool) l a : f a = true -> is_Some (List.find f (l ++ [a])).
Proof. intros Ha. induction l as [|x l IH]; cbn; [rewrite Ha; by eexists|]. by destruct (f x). Qed.

Lemma lookup_after_enqueue q t p k id n js js' j : k <> "" -> enqueue q t p (Some k) id n js = (js', Ok j) -> is_Some (enqueue_lookup (Some k) js').
Proof.
  intros Hk. unfold enqueue, enqueue_insert. destruct (enqueue_lookup (Some k) js) as [j0|] eqn:Hl; [intros [= <- _]; by rewrite Hl|].
  destruct (existsb _ _); [done|]. intros [= <- _]. unfold enqueue_lookup. cbn. rewrite bool_decide_false by done.
  apply find_snoc. unfold has_key. cbn. by rewrite bool_decide_true.
Qed.

(** One relayer job per deposit: after a burn was submitted for a deposit,
    submitting again, with whatever transaction, leaves the queue as it is: the
    job keeps the transaction hash submitted first. *)
Theorem burn_job_unique (RT1 RT2 : Runtime) (id : string) (r1 r2 : Request) (w w1 w2 : World) (o : outcome reply) (b : json) :
  @burn_submitted RT1 _ _ id r1 w = (w1, Done (200, b)) -> @burn_submitted RT2 _ _ id r2 w1 = (w2, o) -> w_jobs w2 = w_jobs w1.
Proof.
  intros H1 H2. assert (has_burn_job id (w_jobs w1)) as [j Hj].
  { unfold burn_submitted in H1. apply bindM_Done in H1 as (wa & auth & _ & H1). apply bindM_Done in H1 as (wb & body & _ & H1).
    apply bindM_Done in H1 as (wc & dep & _ & H1). destruct dep as [dep|]; [|done].
    destruct (negb _) in H1; [done|]. apply bindM_Done in H1 as (wd & u & _ & H1). apply bindM_Done in H1 as (we & job & Hq & H1).
    apply bindM_Done in H1 as (wf & u2 & Hl & [= <- _]). unfold enqueue_job in Hq. apply bindM_Done in Hq as (wg & jid & _ & Hq). cbn in Hq.
    destruct (enqueue _ _ _ _ _ _ _) as [js [j|e]] eqn:He; [|done]. injection Hq as <- <-. apply lookup_after_enqueue in He; [|done].
    pose proof (fun H1 H2 => @writes_same_jobs RT1 _ (fun x => is_job x = false) _ _ _ _ H1 H2 Hl) as HJ. unfold has_burn_job. rewrite HJ; [exact He| |].
    - intros x i n Hx. by rewrite exec_jobs. - writes_tac; done. }
  eapply (@writes_same_jobs RT2 _ (fun x => is_job x = true -> exists q t p, x = WJob q t p (Some ("user-burn:" +:+ id)))); [| |exact H2].
  - intros [] i n Hx; try done. destruct (Hx eq_refl) as (q' & t' & p' & [= -> -> -> ->]). cbn. by apply (enqueue_present _ _ _ _ _ _ _ j).
  - writes_tac; intros Hx; try discriminate Hx; by repeat eexists.
Qed.

(** ** Note vaults *)

Variable poseidon_hash : list Z -> Z.
Notation handler := (Api.handler poseidon_hash).

(** The vaults of other users. *)
Definition others (uid : string) (rows : list row) : list row := List.filter (fun v => negb (is_str uid (col "user_id" v))) rows.

(** The routes on an existing vault. *)
Definition vault_route (rt : Route) : bool :=
  match rt with
  | ListVaults | GetVault _ | PutVault _ | VerifyBackup _ | MarkRestored _ | AddWrapper _ | DeleteWrapper _ _ | NotesRecover => true
  | _ => false
  end.

(** A write that only touches vaults of [uid]. *)
Definition own_vaults (uid : string) (o : write) : Prop :=
  table o = "note_vaults" ->
  exists cs sets, o = WUpdate "note_vaults" (where_eq (("user_id", JStr uid) :: cs)) sets /\ "user_id" ∉ sets.*1.

Lemma others_update uid cs sets rows : "user_id" ∉ sets.*1 ->
  others uid (map (fun r => if where_eq (("user_id", JStr uid) :: cs) r then set_row sets r else r) rows) = others uid rows.
Proof.
  intros Hs. induction rows as [|r rows IH]; [done|]. unfold others in *. cbn [map List.filter].
  destruct (where_eq (("user_id", JStr uid) :: cs) r) eqn:Hw; [|by rewrite IH].
  apply where_eq_cons in Hw as [Hu _]. rewrite col_set_row_ne, Hu by done.
  assert (is_str uid (JStr uid) = true) as -> by (unfold is_str; cbn; by rewrite bool_decide_true). cbn. exact IH.
Qed.

Lemma own_vaults_kept uid R o id n s : own_vaults uid o -> others uid (rows_of "note_vaults" s.1) = R ->
  others uid (rows_of "note_vaults" (exec o id n s).1) = R.
Proof.
  intros Ho Hs. destruct (decide (table o = "note_vaults")) as [Ht|Ht]; [|by rewrite exec_frame].
  destruct (Ho Ht) as (cs & sets & -> & Hk). cbn. destruct (update_rows "note_vaults" (where_eq (("user_id", JStr uid) :: cs)) sets s.1) as [->| ->]; [done|].
  by rewrite others_update.
Qed.

Ltac own_tac := intros Ht; try discriminate Ht; do 2 eexists; (split; [reflexivity|member_tac]).

(** A user cannot change another user's vault through its routes: listing,
    reading, replacing, verifying, restoring or recovering a vault, and adding
    or removing wrappers, leaves the vault rows of every other user as they
    are. *)
Theorem vault_routes_isolated (RT : Runtime) (rt : Route) (r : Request) (w w1 : World) (auth : PrivyUser) :
  vault_route rt = true -> requirePrivyUser r w = (w1, Done auth) ->
  others (userId auth) (rows_of "note_vaults" (w_db (serve (handler rt r) w).1)) = others (userId auth) (rows_of "note_vaults" (w_db w)).
Proof.
  intros Hrt Hu. assert (exists k, handler rt r w = k w1 /\ writes (own_vaults (userId auth)) k) as (k & Hk & Hw).
  { destruct rt; try discriminate Hrt; cbn [Api.handler];
      match goal with |- context [?m w = _] => let h := head_of m in unfold h end; unfold bindM at 1; rewrite Hu;
      (eexists; split; [reflexivity|]); writes_tac; try own_tac. }
  assert (rows_of "note_vaults" (w_db w1) = rows_of "note_vaults" (w_db w)) as <-.
  { eapply (writes_same_rows _ "note_vaults"); [|exact Hu]. eapply writes_impl; [|apply privy_writes].
    intros o Ho Ht. cbv beta in Ho. rewrite Ht in Ho. revert Ho. member_tac. }
  pose proof (writes_keeps _ (fun s => others (userId auth) (rows_of "note_vaults" s.1) = others (userId auth) (rows_of "note_vaults" (w_db w1))) k
    (own_vaults_kept (userId auth) _) Hw w1 eq_refl) as HK.
  unfold serve. rewrite Hk. by destruct (k w1) as [w2 [a|n e]].
Qed.

(** ** Disclosure reports *)

Definition owned (t uid : string) (db : Tables) (r : row) : Prop := r ∈ rows_of t db /\ col "user_id" r = JStr uid.

(** The report discloses rows of the user only, amounts only on request. *)
Record discloses_own (db : Tables) (uid : string) (body : json) (i : ShadeView.ViewKeyReportInput) : Prop := {
  do_user : ShadeView.vk_userId i = uid;
  do_notes : forall c, c ∈ ShadeView.noteCommitments i -> exists n, owned "note_commitments" uid db n /\ c = to_primitive (col "commitment" n);
  do_nullifiers : forall x, x ∈ ShadeView.disclosedNullifiers i -> exists s, owned "settlements" uid db s /\ x = to_primitive (col "nullifier" s);
  do_amounts : truthy (field "disclose_amounts" body) = false -> ShadeView.amountsDisclosed i = None }.

Lemma owned_rows t uid f cs db rows c x :
  rows = map (project cs) (select t (fun r => where_eq [("user_id", JStr uid)] r && f r) db) -> c ∈ cs -> x ∈ texts (map (col c) rows) ->
  exists r, owned t uid db r /\ x = to_primitive (col c r).
Proof.
  intros -> Hc Hx. unfold texts in Hx. rewrite !map_map in Hx. apply list_elem_of_In, in_map_iff in Hx as (r & <- & Hr).
  apply filter_In in Hr as [Hr Hw]. apply andb_prop in Hw as [Hw _]. apply andb_prop in Hw as [Hw _]. apply sql_eq_spec in Hw as [Hw _].
  exists r. split; [split; [by apply list_elem_of_In|done]|]. by rewrite col_project.
Qed.

Lemma settlements_read {RT : Runtime} uid ids w w1 rows : getOwnedSettlements uid ids w = (w1, Done rows) -> w1 = w /\
  forall x, x ∈ texts (map (col "nullifier") rows) -> exists s, owned "settlements" uid (w_db w) s /\ x = to_primitive (col "nullifier" s).
Proof.
  unfold getOwnedSettlements. destruct ids as [|i ids]; intros [= <- <-]; (split; [done|]); intros x Hx; [by apply elem_of_nil in Hx|].
  eapply owned_rows; [reflexivity| |exact Hx]. member_tac.
Qed.
Lemma commitments_read {RT : Runtime} uid ids w w1 rows : getOwnedNoteCommitments uid ids w = (w1, Done rows) -> w1 = w /\
  forall x, x ∈ texts (map (col "commitment") rows) -> exists s, owned "note_commitments" uid (w_db w) s /\ x = to_primitive (col "commitment" s).
Proof.
  unfold getOwnedNoteCommitments. destruct ids as [|i ids]; intros [= <- <-]; (split; [done|]); intros x Hx; [by apply elem_of_nil in Hx|].
  eapply owned_rows; [reflexivity| |exact Hx]. member_tac.
Qed.

Lemma signed_verifies (CLaws : NodeCryptoLaws C) i id secret at_ signed pk :
  ShadeView.signViewKeyReport i id secret at_ = Ok signed -> kp_public secret = Ok pk -> String.length pk = 32%nat ->
  ShadeView.verifyViewKeyReport signed = Ok true /\ ShadeView.input (ShadeView.unsigned signed) = i.
Proof.
  unfold ShadeView.signViewKeyReport. intros H Hpk Hlen. rewrite Hpk in H. cbn [rbind] in H. apply rbind_Ok in H as (sg & Hsg & [= <-]).
  split; [|done]. unfold ShadeView.verifyViewKeyReport. cbn. rewrite !hex_decode_encode, Hlen. cbn. by rewrite (kp_verifies _ _ _ _ Hpk Hsg).
Qed.

(** A disclosure report is the user's own and verifies: when the route
    answers 200, the report it returns verifies under the key it carries, the
    commitments and nullifiers in it are those of rows the authenticated user
    owns, and amounts are disclosed only when the user asked for it. *)
Theorem report_discloses_own (RT : Runtime) (CLaws : NodeCryptoLaws C) (r : Request) (w w' : World) (b : json) (pk : string) :
  view_key_report r w = (w', Done (200, b)) -> kp_public (env_or "SHADE_VIEW_SIGNING_SECRET" "") = Ok pk -> String.length pk = 32%nat ->
  exists uid w1 body signed, authedUser r w = (w1, Done uid) /\ zparse viewKeyReportSchema (req_body r) = Some body /\
    prop "report" b = Some (ShadeView.report_json signed) /\ ShadeView.verifyViewKeyReport signed = Ok true /\
    discloses_own (w_db w1) uid body (ShadeView.input (ShadeView.unsigned signed)).
Proof.
  unfold view_key_report. intros H Hpk Hlen. apply bindM_Done in H as (w1 & uid & Hu & H). apply bindM_Done in H as (w2 & body & Hb & H).
  unfold parse in Hb. destruct (zparse _ _) as [b0|] eqn:Hz; [|done]. injection Hb as <- <-.
  destruct (env_or "SHADE_VIEW_SIGNING_SECRET" "") as [|c sec] eqn:Hsec; [done|].
  apply bindM_Done in H as (w3 & ss & Hss & H). apply settlements_read in Hss as [-> Hss]. apply bindM_Done in H as (w4 & cs & Hcs & H).
  apply commitments_read in Hcs as [-> Hcs]. apply bindM_Done in H as (w5 & anchors & _ & H). apply bindM_Done in H as (w6 & rid & _ & H).
  apply bindM_Done in H as (w7 & signed & Hsg & H). unfold lift in Hsg. destruct (ShadeView.signViewKeyReport _ _ _ _) as [sg|] eqn:Hsign; [|done].
  injection Hsg as <- <-. destruct (signed_verifies CLaws _ _ _ _ _ _ Hsign Hpk Hlen) as [Hv Hi].
  apply bindM_Done in H as (w8 & att & _ & H). apply bindM_Done in H as (w9 & u1 & _ & H). apply bindM_Done in H as (w10 & u2 & _ & [= _ <-]).
  exists uid, w1, b0, sg. split_and!; try done. rewrite Hi. split; cbn.
  - done. - exact Hcs. - intros x Hx. apply list_elem_of_In, filter_In in Hx as [Hx _]. by apply Hss, list_elem_of_In.
  - intros ->. done.
Qed.

End Flows.

(** ** Examples *)

Lemma login_consumes_signed_nonce_witness :
  exists body address n, @zparse toy_zod authVerifySchema (req_body login_request) = Some body /\ normalizeAddress EVM (text "address" body) = Ok address /\
    n ∈ rows_of "auth_nonces" (w_db after_nonce) /\ live_nonce "EVM" address (text "nonce" body) 2000 n = true /\
    verifyWalletSignature EVM address (text "message" (JObj n)) (text "signature" body) = true /\
    rows_of "auth_nonces" (w_db toy_login.1) = consume 2000 n (rows_of "auth_nonces" (w_db after_nonce)).
Proof.
  apply (@login_consumes_signed_nonce toy_zod Rfq.toyNode toy_wallets (runtime_at 2000 legacy_env) EVM login_request after_nonce toy_login.1 toy_login.2.2).
  vm_compute. reflexivity.
Defined.

(** A deployment with Privy. *)
Definition privy_env : list (string * string) :=
  [("PRIVY_JWT_VERIFICATION_KEY", "key"); ("SHIELDED_POOL_CONTRACT", "CPOOL"); ("SHADE_VIEW_SIGNING_SECRET", "0123456789abcdef0123456789abcdef")].
Definition privy_token (sub : string) : string :=
  base64_encode (stringify (JObj [("alg", JStr "ES256")])) +:+ "." +:+
  base64_encode (stringify (JObj [("iss", JStr "privy.io"); ("sub", JStr sub)])) +:+ "." +:+ base64_encode "key".
Definition toy_address : string := "0x" +:+ String.concat "" (repeat "ab" 20).
Definition toy_tx : string := "0x" +:+ String.concat "" (repeat "cd" 32).

Definition privy_world : World := with_rows
  [("users", [("id", JStr "u1"); ("privy_user_id", JStr "did:a"); ("testnet_only", JBool true)]);
   ("users", [("id", JStr "u2"); ("privy_user_id", JStr "did:b"); ("testnet_only", JBool true)]);
   ("user_wallets", [("id", JStr "w1"); ("user_id", JStr "u1"); ("address", JStr toy_address)]);
   ("note_vaults", [("id", JStr "v1"); ("user_id", JStr "u1"); ("vault_id", JStr "vault1"); ("backup_status", JStr "verified");
                    ("recovery_policy_status", JStr "strong"); ("envelope", JObj [])]);
   ("note_commitments", [("commitment", JStr "c1"); ("user_id", JStr "u1"); ("policy_id", JStr "p")]);
   ("note_commitments", [("commitment", JStr "c2"); ("user_id", JStr "u2"); ("policy_id", JStr "p")]);
   ("cctp_deposits", [("deposit_id", JStr "d1"); ("user_id", JStr "u1"); ("source_wallet_address", JStr toy_address)])] empty_world.

Definition deposit_body : list (string * json) :=
  [("amount_usdc_6dp", JStr "100000"); ("source_chain", JStr "arbitrum-sepolia"); ("source_wallet_address", JStr toy_address);
   ("vault_id", JStr "vault1"); ("commitment", JStr "0xc"); ("encrypted_note_payload_hash", JStr "0xe"); ("policy_id", JStr "0xp")].
Definition privy_request (body : list (string * json)) : Request := request (Some (privy_token "did:a")) body.
Notation rt_privy := (runtime_at 9000 privy_env).

Definition prepare_result : World * outcome reply :=
  @deposits_prepare rt_privy toy_zod Rfq.toyNode toy_es256 Cctp.toy_chains (privy_request deposit_body) privy_world.

Example prepare_works : match prepare_result.2 with Done r => r.1 = 200 | Fail c m => False end.
Proof. vm_compute. reflexivity. Qed.

Definition deposit_gate (r : Request) (w w1 : World) (auth : PrivyUser) (body : json) (amount : Z) (b : BurnRequest) : Prop :=
  @requirePrivyUser rt_privy toy_es256 r w = (w1, Done auth) /\ @zparse toy_zod userDepositPrepareSchema (req_body r) = Some body /\
  BigInt (text "amount_usdc_6dp" body) = Some amount /\ 0 < amount /\ @burn_request rt_privy Cctp.toy_chains amount = Ok b.

Lemma ended {A} (m : World * outcome A) o : m.2 = o -> m = (m.1, o).
Proof. destruct m. cbn. congruence. Qed.
Definition body_of (m : World * outcome reply) : json := match m.2 with Done r => r.2 | Fail _ _ => JNull end.

Lemma deposit_prepare_gated_witness :
  exists auth w1 body amount b, deposit_gate (privy_request deposit_body) privy_world w1 auth body amount b /\ ~ critical (w_db w1).
Proof.
  assert (prepare_result.2 = Done (200, body_of prepare_result)) as Hp by (vm_compute; reflexivity). apply ended in Hp.
  assert (prepare_result = @deposits_prepare rt_privy toy_zod Rfq.toyNode toy_es256 Cctp.toy_chains (privy_request deposit_body) privy_world) as Hq by reflexivity.
  destruct (@deposit_prepare_gated toy_zod Rfq.toyNode toy_es256 Cctp.toy_chains rt_privy (privy_request deposit_body) privy_world _ _ (eq_trans (eq_sym Hq) Hp))
    as (auth & w1 & body & amount & b & key & H1 & H2 & H3 & H4 & H5 & _ & _ & H6 & _).
  exists auth, w1, body, amount, b. split; [by split_and!|exact H6].
Defined.

Definition toy_burn : BurnRequest :=
  match @burn_request rt_privy Cctp.toy_chains 100000 with
  | Ok b => b
  | Err _ => {| br_usdc := ""; br_messenger := ""; br_pool := ""; br_mintRecipient := ""; br_destinationCaller := ""; br_hookData := ""; br_maxFee := ""; br_amount6 := 0 |}
  end.


Definition burn_request_body : list (string * json) :=
  [("burn_tx_hash", JStr toy_tx); ("source_chain", JStr "arbitrum-sepolia"); ("source_wallet_address", JStr toy_address)].
Definition submit_burn (w : World) : World * outcome reply := @burn_submitted rt_privy toy_zod toy_es256 "d1" (privy_request burn_request_body) w.
Definition after_burn : World := (submit_burn privy_world).1.

Lemma burn_job_unique_witness : length (jobs (w_jobs after_burn)) = 1%nat /\ w_jobs (submit_burn after_burn).1 = w_jobs after_burn.
Proof.
  split; [vm_compute; reflexivity|]. assert ((submit_burn privy_world).2 = Done (200, body_of (submit_burn privy_world))) as H1 by (vm_compute; reflexivity).
  apply ended in H1. exact (@burn_job_unique toy_zod toy_es256 rt_privy rt_privy "d1" _ _ privy_world after_burn _ _ _ H1 (ended _ _ eq_refl)).
Defined.

Definition toy_login_user : World * outcome PrivyUser := @requirePrivyUser rt_privy toy_es256 (privy_request []) privy_world.

Lemma vault_routes_isolated_witness :
  others "u1" (rows_of "note_vaults" (w_db (serve (@Api.handler rt_privy toy_zod Rfq.toyNode toyNacl Rfq.byteCollation toy_wallets toy_es256
    Cctp.toy_chains toy_hash (MarkRestored "vault1") (privy_request [])) privy_world).1)) = others "u1" (rows_of "note_vaults" (w_db privy_world)).
Proof.
  assert (toy_login_user.2 = Done {| userId := "u1"; privyUserId := "did:a" |}) as Hu by (vm_compute; reflexivity). apply ended in Hu.
  exact (@vault_routes_isolated toy_zod Rfq.toyNode toyNacl Rfq.byteCollation toy_wallets toy_es256 Cctp.toy_chains toy_hash rt_privy
           (MarkRestored "vault1") _ privy_world _ _ eq_refl Hu).
Defined.

Definition report_request : Request := privy_request [("note_commitments", JArr [JStr "c1"; JStr "c2"])].
Definition report_result : World * outcome reply := @view_key_report rt_privy toy_zod Rfq.toyNode toyNacl toy_es256 report_request privy_world.

Lemma report_discloses_own_witness :
  exists uid w1 body signed, @authedUser rt_privy Rfq.toyNode toy_es256 report_request privy_world = (w1, Done uid) /\
    @zparse toy_zod viewKeyReportSchema (req_body report_request) = Some body /\
    prop "report" (body_of report_result) = Some (ShadeView.report_json signed) /\
    @ShadeView.verifyViewKeyReport Rfq.toyNode signed = Ok true /\ discloses_own (w_db w1) uid body (ShadeView.input (ShadeView.unsigned signed)).
Proof.
  assert (report_result.2 = Done (200, body_of report_result)) as Hr by (vm_compute; reflexivity). apply ended in Hr.
  assert (report_result = @view_key_report rt_privy toy_zod Rfq.toyNode toyNacl toy_es256 report_request privy_world) as Hq by reflexivity.
  exact (@report_discloses_own toy_zod Rfq.toyNode toyNacl toy_es256 rt_privy Rfq.toyNode_laws report_request privy_world _ _
           "0123456789abcdef0123456789abcdef" (eq_trans (eq_sym Hq) Hr) eq_refl eq_refl).
Defined.

(** ** Taking over a vault *)

Definition takeover_envelope : json := JObj
  [("version", JStr "shade-encrypted-vault-v1"); ("vault_id", JStr "vault1"); ("privy_user_id", JStr "did:b");
   ("cipher", JObj [("name", JStr "AES-256-GCM"); ("iv", JStr "aXY="); ("tagLength", JNum 128)]); ("aad", JObj []);
   ("ciphertext", JStr "b3RoZXI="); ("wrappers", JArr [])].
Definition takeover : World * reply :=
  @handle rt_privy toy_zod Rfq.toyNode toyNacl Rfq.byteCollation toy_wallets toy_es256 Cctp.toy_chains toy_hash "POST" "/v1/note-vaults"
    (request (Some (privy_token "did:b")) [("envelope", takeover_envelope)]) privy_world.

(** Creating a vault under another user's vault id replaces that user's
    envelope: the upsert does not look at the owner, so the row of user u1 keeps
    its owner and now holds the envelope user u2 sent. *)
Theorem vault_create_overwrites :
  takeover.2.1 = 200 /\
  map (fun v => (col "user_id" v, col "envelope" v)) (rows_of "note_vaults" (w_db privy_world)) = [(JStr "u1", JObj [])] /\
  map (fun v => (col "user_id" v, col "envelope" v)) (rows_of "note_vaults" (w_db takeover.1)) = [(JStr "u1", takeover_envelope)].
Proof. split_and!; vm_compute; reflexivity. Qed.
