(* ===== verification/Client.v ===== *)
(** The SDK's client against the API and the committee: a private intent built
    in the browser, posted to the API, forwarded to the committee and matched;
    and the requests of the client that the API refuses. *)

From S2P Require Import Prelude Effects Text Json Shamir Committee Matching Rounds Queue Sql Web Footprint Schemas Store Rfq Vault Ids Auth Cctp ShadeView ApiUsers ApiVaults ApiRfq ApiMpc Api ApiSafety ApiProps Sdk Intents.
Local Open Scope string_scope.
Local Open Scope Z_scope.
Import Store Ids Auth ApiUsers ApiVaults ApiRfq ApiMpc Api ApiSafety.

(** ** Zod on formats it does not define itself *)

Definition plain_check (c : string_check) : bool := match c with CUuid | CEmail | CUrl | CDatetime => false | _ => true end.
Fixpoint plain (s : schema) : bool :=
  match s with
  | ZString cs => forallb plain_check cs
  | ZArray s _ _ | ZOptional s | ZDefault s _ | ZRefine s _ => plain s
  | ZObject fs => forallb (fun f => plain f.2) fs
  | _ => true
  end.

(** On plain schemas zod answers as the reference interpreter does. *)
Class ZodRef (Zd : Zod) : Prop :=
  zod_plain : forall s v, plain s = true -> zparse s v = match zod_ref s (Some v) with Some (Some x) => Some x | _ => None end.
#[global] Instance zod_example_ref : ZodRef zod_example.
Proof. by intros s v _. Qed.

(** Keys and ciphertexts of NaCl are not empty. *)
Class NaclSizes (N : Nacl) : Prop := {
  box_not_empty : forall m n pk sk c, is_nonce n -> box m n pk sk = Ok c -> c <> "";
  public_not_empty : forall sk, box_secret sk -> box_public sk <> ""
}.

(** ** The payload passes the API's schema *)

(** The object has exactly fields its schema returns unchanged, in its order. *)
Inductive accepts : list (string * schema) -> list (string * json) -> Prop :=
| accepts_nil : accepts [] []
| accepts_present k s v fs l : zod_ref s (Some v) = Some (Some v) -> accepts fs l -> accepts ((k, s) :: fs) ((k, v) :: l)
| accepts_absent k s fs l : zod_ref s None = Some None -> k ∉ l.*1 -> accepts fs l -> accepts ((k, s) :: fs) l.

Lemma jget_skip {V} (k : string) (l0 l : list (string * V)) : k ∉ l0.*1 -> jget k (l0 ++ l)%list = jget k l.
Proof.
  induction l0 as [|[k' v] l0 IH]; cbn; intros H; [done|]. apply not_elem_of_cons in H as [H1 H2].
  rewrite decide_False by done. by apply IH.
Qed.

Lemma accepts_fields fs l : accepts fs l -> NoDup fs.*1 -> forall l0, (forall k, k ∈ fs.*1 -> k ∉ l0.*1) ->
  exists kvs, field_results fs (l0 ++ l)%list = map Some kvs /\ present_fields kvs = l.
Proof.
  induction 1 as [|k s v fs l Hv _ IH|k s fs l Hv Hk _ IH]; cbn; intros Hnd l0 Hd; [by exists []|inversion_clear Hnd as [|?? Hn Hnd']; rename Hnd' into Hnd..].
  - destruct (IH Hnd (l0 ++ [(k, v)])%list) as (kvs & E & F).
    { intros k' Hk'. rewrite fmap_app, not_elem_of_app. split; [apply Hd; by right|]. cbn. intros ->%list_elem_of_singleton. done. }
    rewrite <- (assoc_L (++)%list) in E. exists ((k, Some v) :: kvs). unfold field_results in *. cbn in E |- *.
    rewrite jget_skip by (apply Hd; by left). cbn. rewrite decide_True by done. rewrite Hv, E. split; [done|]. unfold present_fields in *. cbn. by rewrite F.
  - destruct (IH Hnd l0) as (kvs & E & F); [intros k' Hk'; apply Hd; by right|]. exists ((k, None) :: kvs). unfold field_results in *. cbn.
    rewrite jget_skip by (apply Hd; by left). replace (jget k l) with (@None json) by (symmetry; by apply jget_None).
    rewrite Hv, E. split; [done|]. unfold present_fields in *. cbn. done.
Qed.

Lemma all_some_map_id {A} (l : list A) : all_some (map Some l) = Some l.
Proof. induction l as [|a l IH]; [done|]. cbn. by rewrite IH. Qed.

Lemma object_accepted fs l : accepts fs l -> NoDup fs.*1 -> zod_ref (ZObject fs) (Some (JObj l)) = Some (Some (JObj l)).
Proof.
  intros Ha Hnd. destruct (accepts_fields fs l Ha Hnd [] ltac:(intros k _; apply not_elem_of_nil)) as (kvs & E & F). cbn [app] in E.
  cbn [zod_ref]. fold (field_results fs l). rewrite E, all_some_map_id. fold (present_fields kvs). by rewrite F.
Qed.

Lemma str1_ok s : s <> "" -> zod_ref str1 (Some (JStr s)) = Some (Some (JStr s)).
Proof. by destruct s. Qed.
Lemma opt_ok s v : zod_ref s (Some v) = Some (Some v) -> zod_ref (ZOptional s) (Some v) = Some (Some v).
Proof. done. Qed.

(** Goals [accepts] of concrete fields. *)
Ltac accepts_tac :=
  repeat (apply accepts_present; [first [apply opt_ok; by apply str1_ok|by apply str1_ok|by vm_compute|idtac]|]); try apply accepts_nil.

Definition share_ok (e : EncryptedShare) : Prop := es_nodeId e <> "" /\ ciphertext e <> "" /\ nonce e <> "" /\ senderPubkey e <> "".

Lemma share_accepted e : share_ok e -> zod_ref encryptedShareSchema (Some (Intents.share_json e)) = Some (Some (Intents.share_json e)).
Proof. intros (H1 & H2 & H3 & H4). apply object_accepted; [accepts_tac|by apply (bool_decide_unpack _); vm_compute]. Qed.

Lemma shares_accepted es : Forall share_ok es ->
  zod_ref (ZArray encryptedShareSchema None None) (Some (JArr (map Intents.share_json es))) = Some (Some (JArr (map Intents.share_json es))).
Proof.
  intros H. cbn [zod_ref check_bound andb].
  replace (map _ (map Intents.share_json es)) with (map Some (map Intents.share_json es)); [by rewrite all_some_map_id|].
  rewrite !map_map. induction H as [|e es He _ IH]; [done|]. cbn [map]. rewrite IH. f_equal. by rewrite share_accepted.
Qed.

Definition payload_ok (p : Intents.IntentParams) : Prop :=
  Intents.inputAsset p <> "" /\ Intents.outputAsset p <> "" /\ Intents.amountMode p = "exact_in" /\ Intents.amount7dp p <> "" /\
  Intents.minOutput7dp p <> "" /\ 0 < Intents.expiryLedger p /\ Intents.noteCommitment p <> "" /\ Intents.destination p <> "" /\
  default "policy" (Intents.policyId p) <> "" /\
  exists nn rc e es, Intents.noteNullifier p = Some nn /\ nn <> "" /\ Intents.recipientCommitment p = Some rc /\ rc <> "" /\
    Intents.encryptedShares p = Some (e :: es) /\ Forall share_ok (e :: es).

Lemma payload_accepted p : payload_ok p -> zod_ref intentSchema (Some (Intents.submit_body p)) = Some (Some (Intents.submit_body p)).
Proof.
  destruct p as [ia oa am a7 m7 ex nc de po nn rc es]. intros Hp. unfold payload_ok in Hp. cbn in Hp. destruct Hp as
    (H1 & H2 & -> & H4 & H5 & H6 & H7 & H8 & H9 & nn' & rc' & e & es' & -> & Hn & -> & Hr & -> & Hs).
  unfold Intents.submit_body. cbn [Intents.encryptedShares Intents.noteNullifier]. replace (Intents.given (Some nn')) with true by by destruct nn'.
  cbn [Intents.inputAsset Intents.outputAsset Intents.amountMode Intents.amount7dp Intents.minOutput7dp Intents.expiryLedger Intents.noteCommitment
       Intents.destination Intents.policyId Intents.recipientCommitment Intents.opt_field app].
  unfold intentSchema. apply object_accepted; [|by apply (bool_decide_unpack _); vm_compute].
  accepts_tac. 1: by destruct ex. 1: by destruct po as [[]|]. apply opt_ok. by apply shares_accepted.
Qed.

(** ** Building the payload *)

Section Build.
Context {N : Nacl} {NL : NaclLaws N} {NS : NaclSizes N}.

Definition params_ok (p : Intents.PrivateIntentBuildParams) : Prop :=
  0 <= Intents.b_amount7dp p < Shamir.P /\ Intents.b_inputAsset p <> "" /\ Intents.b_outputAsset p <> "" /\ 0 < Intents.b_expiryLedger p /\
  Intents.b_noteCommitment p <> "" /\ Intents.b_noteNullifier p <> "" /\ Intents.b_recipientCommitment p <> "" /\
  default "policy" (Intents.b_policyId p) <> "".

(** One field draw per call of the sharing, a key and a nonce per node. *)
Definition randomness_ok (kps : list CommitteeNodeKeyPair) (r : Intents.Randomness) : Prop :=
  Intents.r_field r <> [] /\ Forall rnd_ok (Intents.r_boxes r) /\ length (Intents.r_boxes r) = length kps.

Lemma hex_not_empty s : s <> "" -> hex_encode s <> "".
Proof. by destruct s. Qed.

Lemma encrypt_all_fields shares kps rnd es : Forall (fun kp => nodeId kp <> "") kps -> Forall rnd_ok rnd ->
  encrypt_all shares (map nodePublicInfo kps) rnd = Ok es -> Forall share_ok es.
Proof.
  intros Hk. revert shares rnd es. induction Hk as [|kp kps Hid _ IH]; intros shares rnd es Hr H.
  { assert (es = []) as -> by (destruct shares; cbn in H; congruence). constructor. }
  destruct shares as [|s shares]; [done|]. destruct rnd as [|[eph n] rnd]; [done|]. inversion Hr as [|?? [He Hn] Hr']; subst. cbn in He, Hn.
  cbn [map encrypt_all] in H. unfold encryptShareForNode in H. destruct (box _ _ _ _) as [c|] eqn:Hc; cbn [rbind] in H; [|done].
  destruct (encrypt_all _ _ _) as [es'|] eqn:E; cbn [rbind] in H; [|done]. injection H as <-. constructor; [|by eapply IH].
  assert (n <> "") as Hn0 by (intros ->; done). unfold share_ok. cbn. split_and!; [done|apply hex_not_empty; by eapply box_not_empty|by apply hex_not_empty|].
  apply hex_not_empty. by apply public_not_empty.
Qed.

Lemma split_fields amount kps t draws rnd es : Forall (fun kp => nodeId kp <> "") kps -> Forall rnd_ok rnd ->
  splitAmountForCommittee amount (map nodePublicInfo kps) t draws rnd = Some (Ok es) -> Forall share_ok es.
Proof.
  intros Hk Hr. unfold splitAmountForCommittee. destruct (BigInt amount) as [a|]; [|done].
  destruct (shamirSplit _ _ _ _) as [[shares|]|]; cbn [rbind]; [|done..]. intros [= H]. by eapply encrypt_all_fields.
Qed.

(** The payload exists, passes the schema, and its shares are those of the
    committee's own splitting. *)
Lemma payload_built kps p r : committee_ok kps -> Forall (fun kp => nodeId kp <> "") kps -> params_ok p -> randomness_ok kps r ->
  exists payload b es draws cs rest,
    Intents.private_payload p (map nodePublicInfo kps) r = Ok (payload, b) /\ payload_ok payload /\
    Intents.encryptedShares payload = Some es /\ draw_coeffs 1 draws = Some (cs, rest) /\
    splitAmountForCommittee (toString (Intents.b_amount7dp p)) (map nodePublicInfo kps) 2 draws (Intents.r_boxes r) = Some (Ok es) /\
    Intents.inputAsset payload = Intents.b_inputAsset p /\ Intents.outputAsset payload = Intents.b_outputAsset p.
Proof.
  intros (Hn & Hnd & Hlen & HP & _) Hids (Ha & P1 & P2 & P3 & P4 & P5 & P6 & P7) (R1 & R2 & R3).
  destruct (SdkMpc.random_coeffs 1 (Intents.r_field r)) as [[cs rest]|] eqn:Hc; [|by destruct (Intents.r_field r)].
  assert (draw_coeffs (2 - 1) (map SdkMpc.modp (Intents.r_field r)) = Some (cs, map SdkMpc.modp rest)) as Hd by (change (2 - 1)%nat with 1%nat; by rewrite SdkMpc.coeffs_agree, Hc).
  destruct (committee_split _ kps 2 _ (Intents.r_boxes r) cs _ Ha Hn R2 R3 ltac:(lia) HP Hd) as (es & shares & Hs & Hf & _ & _).
  pose proof (split_fields _ _ _ _ _ _ Hids R2 Hs) as Hok.
  assert (es <> []) as Hne by (intros ->; apply Forall2_length in Hf; cbn in Hf; lia).
  eexists _, _, es, _, cs, _. split_and!; [unfold Intents.private_payload; rewrite SdkMpc.sdk_split_is_committee_split by lia; rewrite Hs; cbn [rbind];
    reflexivity| |reflexivity|exact Hd|exact Hs|done..].
  unfold payload_ok. cbn. split_and!; try done. destruct es as [|e es]; [done|]. by exists (Intents.b_noteNullifier p), (Intents.b_recipientCommitment p), e, es.
Qed.

(** ** The committee's keys through the API *)

Lemma nodes_of_json ns : Intents.nodes_of (map Intents.node_json ns) = Ok ns.
Proof. induction ns as [|[i k s] ns IH]; [done|]. cbn [map Intents.nodes_of]. by rewrite IH. Qed.

Definition committee_json (kps : list CommitteeNodeKeyPair) : json := JObj [("nodes", JArr (map Intents.node_json (map nodePublicInfo kps)))].

Lemma committee_json_wf kps : json_wf (committee_json kps).
Proof.
  unfold committee_json. cbn. split_and!; [by repeat constructor; set_solver| |done].
  induction kps as [|kp kps IH]; [done|]. cbn. split; [|done]. split; [|done]. by apply (bool_decide_unpack _); vm_compute.
Qed.

(** The API relays the committee's keys. *)
Definition relays_committee (kps : list CommitteeNodeKeyPair) (apiBase : string) (fetch : list Intents.Call -> Intents.Call -> result Intents.Response) : Prop :=
  forall h hdrs, fetch h (Intents.Fetch "GET" (apiBase +:+ "/v1/mpc/committee") hdrs None) =
    Ok {| Intents.status := 200; Intents.text := stringify (committee_json kps) |}.

Lemma build_with_committee kps p r fetch base token h : relays_committee kps base fetch ->
  (Intents.buildPrivateIntent fetch base token p r h).2 = Intents.private_payload p (map nodePublicInfo kps) r.
Proof.
  intros Hf. unfold Intents.buildPrivateIntent, Intents.fetchCommittee, Intents.get, Intents.send, Effects.bindM. rewrite Hf. cbn [Intents.res_ok Intents.status negb].
  change ((200 <=? 200) && (200 <? 300)) with true. cbn [negb]. unfold Intents.res_json. cbn [Intents.text].
  rewrite JSON_parse_stringify by apply committee_json_wf. cbn. rewrite decide_True by done. cbn. by rewrite nodes_of_json.
Qed.

End Build.

(** ** The API forwards the intent *)

(** The intent the committee reads from a request body. *)
Definition str_at (k : string) (v : json) : option string := match prop k v with Some (JStr s) => Some s | _ => None end.
Definition share_of (v : json) : option EncryptedShare :=
  match str_at "nodeId" v, str_at "ciphertext" v, str_at "nonce" v, str_at "senderPubkey" v with
  | Some i, Some c, Some n, Some k => Some {| es_nodeId := i; ciphertext := c; nonce := n; senderPubkey := k |}
  | _, _, _, _ => None
  end.
Definition intent_of_json (v : json) : option MpcIntent :=
  match str_at "intentId" v, str_at "userId" v, str_at "inputAsset" v, str_at "outputAsset" v, prop "expiryLedger" v, str_at "policyId" v,
        str_at "noteNullifier" v, str_at "noteCommitment" v, str_at "recipientCommitment" v, prop "encryptedShares" v, prop "submittedAt" v with
  | Some i, Some u, Some a, Some o, Some (JNum e), Some p, Some nn, Some nc, Some rc, Some (JArr es), Some (JNum t) =>
      match all_some (map share_of es) with
      | Some es => Some {| i_intentId := i; Rounds.userId := u; i_inputAsset := a; i_outputAsset := o; Rounds.expiryLedger := e; Rounds.policyId := p; Rounds.noteNullifier := nn;
                           Rounds.noteCommitment := nc; Rounds.recipientCommitment := rc; Rounds.encryptedShares := es; submittedAt := t |}
      | None => None
      end
  | _, _, _, _, _, _, _, _, _, _, _ => None
  end.

Lemma shares_decode es : all_some (map share_of (map Intents.share_json es)) = Some es.
Proof. induction es as [|[i c n k] es IH]; [done|]. cbn [map all_some]. rewrite IH. done. Qed.

Section Forward.
Context {RT : Runtime} {Zd : Zod} {ZR : ZodRef Zd} {C : NodeCrypto} {L : Collation} {W : WalletLib} {E : Es256}.

Lemma forwarded_decodes uid hash payload : payload_ok payload -> exists i,
  intent_of_json (mpc_intent uid hash (Intents.submit_body payload)) = Some i /\ i_intentId i = hash /\ Rounds.userId i = uid /\
  Some (Rounds.encryptedShares i) = Intents.encryptedShares payload /\ i_inputAsset i = Intents.inputAsset payload /\ i_outputAsset i = Intents.outputAsset payload.
Proof.
  destruct payload as [ia oa am a7 m7 ex nc de po nn rc es]. intros Hp. unfold payload_ok in Hp. cbn in Hp. destruct Hp as (_ & _ & _ & _ & _ & _ & _ & _ & _ & nn' & rc' & e & es' & -> & Hn & -> & _ & -> & _).
  assert (Intents.given (Some nn') = true) as Hg by (by destruct nn').
  unfold Intents.submit_body. cbn [Intents.encryptedShares Intents.noteNullifier]. rewrite Hg.
  pose proof (shares_decode (e :: es')) as Hl. revert Hl. generalize (map Intents.share_json (e :: es')). intros l Hl.
  eexists. split; [unfold intent_of_json; lazy -[share_of all_some map]; rewrite Hl; reflexivity|]. done.
Qed.

Lemma payload_has_mpc_fields payload : payload_ok payload -> has_mpc_fields (Intents.submit_body payload) = true.
Proof.
  destruct payload as [ia oa am a7 m7 ex nc de po nn rc es]. intros Hp. unfold payload_ok in Hp. cbn in Hp. destruct Hp as (_ & _ & _ & _ & _ & _ & Hc & _ & _ & nn' & rc' & e & es' & -> & Hn & -> & _ & -> & _).
  assert (Intents.given (Some nn') = true) as Hg by (by destruct nn').
  unfold Intents.submit_body. cbn [Intents.encryptedShares Intents.noteNullifier]. rewrite Hg. cbn in Hc. by destruct nn', nc.
Qed.

(** The call that hands an intent to the committee is among those made. *)
Definition hands_over (w w' : World) (v : json) : Prop :=
  exists cs, w_calls w' = (w_calls w ++ cs)%list /\ Fetch "POST" (mpcUrl +:+ "/v1/mpc/intents") (Some (JObj [("intent", v)])) ∈ cs.

Lemma hands_over_after {A} (m : M A) w0 w v : writes (fun _ => True) m -> hands_over (m w0).1 w v -> hands_over w0 w v.
Proof.
  intros Hm (cs & Ecs & Hin). destruct (writes_calls _ m Hm w0) as [c1 E1].
  exists (c1 ++ cs)%list. split; [by rewrite Ecs, E1, (assoc_L (++)%list)|]. rewrite elem_of_app. by right.
Qed.

Ltac any_tac := writes_tac; exact I.

Lemma route_hands_over uid hash body w : hands_over w (route_mpc uid hash body w).1 (mpc_intent uid hash body).
Proof.
  unfold route_mpc, catch, Web.bindM at 1. cbv beta. unfold Web.bindM at 1, call at 1.
  set (c := Fetch "POST" _ _). set (w1 := {| w_db := w_db w; w_jobs := w_jobs w; w_calls := (w_calls w ++ [c])%list; w_next := w_next w |}).
  assert (hands_over w w1 (mpc_intent uid hash body)) as H1 by (exists [c]; split; [done|by left]).
  destruct (answer c) as [x|e]; cbn [Web.ret]; [|exact H1].
  destruct (resp_ok x && negb (is_null x.2)); [|exact H1].
  destruct (writes_calls (fun _ => True) (catch (persist_route uid hash body (either_prop "sessionId" "session_id" x.2)) (fun _ => ret tt))
              ltac:(any_tac) w1) as [cs Ecs].
  unfold catch, Web.bindM in Ecs |- *. destruct H1 as (c0 & E0 & Hin).
  exists (c0 ++ cs)%list. rewrite (assoc_L (++)%list), <- E0. split; [|rewrite elem_of_app; by left].
  destruct (persist_route _ _ _ _ w1) as [w2 [u|n m]]; exact Ecs.
Qed.

(** A step of the handler that ended normally. *)
Lemma step_over {A B} (m : M A) (k : A -> M B) w0 w' b v : bindM m k w0 = (w', Done b) -> writes (fun _ => True) m ->
  (forall a w1, m w0 = (w1, Done a) -> k a w1 = (w', Done b) -> hands_over w1 w' v) -> hands_over w0 w' v.
Proof.
  intros H Hm Hk. apply Web.bindM_Done in H as (w1 & a & Ha & H). apply (hands_over_after m); [done|]. rewrite Ha. by apply (Hk a).
Qed.

Lemma create_intent_forwards r w w' rep payload : req_body r = Intents.submit_body payload -> payload_ok payload ->
  create_intent r w = (w', Done rep) ->
  exists uid, hands_over w w' (mpc_intent uid (hashJson (Intents.submit_body payload)) (Intents.submit_body payload)).
Proof.
  intros Hb Hp H. unfold create_intent in H. pose proof H as H0. apply Web.bindM_Done in H0 as (wa & uid & Hu & H0). exists uid.
  apply (hands_over_after (authedUser r)); [any_tac|]. rewrite Hu. cbn [fst]. clear H Hu. rename H0 into H.
  rewrite Hb in H. unfold parse at 1 in H. rewrite zod_plain in H by reflexivity. rewrite payload_accepted in H by done.
  apply Web.bindM_Done in H as (wb & body & [= <- <-] & H).
  apply (step_over _ _ _ _ _ _ H); [any_tac|]. clear H. intros key w1 _ H.
  apply (step_over _ _ _ _ _ _ H); [any_tac|]. clear H. intros u1 w2 _ H.
  apply (step_over _ _ _ _ _ _ H); [any_tac|]. clear H. intros u2 w3 _ H.
  apply (step_over _ _ _ _ _ _ H); [any_tac|]. clear H. intros u3 w4 _ H.
  rewrite payload_has_mpc_fields in H by done. apply Web.bindM_Done in H as (w5 & sid & Hs & [= <- _]).
  pose proof (route_hands_over uid (hashJson (Intents.submit_body payload)) (Intents.submit_body payload) w4) as Hr. by rewrite Hs in Hr.
Qed.
End Forward.

(** ** From the browser to the signed batch *)

Record User := {
  u_params : Intents.PrivateIntentBuildParams; u_random : Intents.Randomness;
  u_fetch : list Intents.Call -> Intents.Call -> result Intents.Response; u_apiBase : string; u_token : option string;
  u_key : string;                     (** the idempotency key added to the request *)
  u_runtime : Runtime; u_world : World  (** the API when the request arrives *) }.

Section EndToEnd.
Context {N : Nacl} {NL : NaclLaws N} {NS : NaclSizes N} {Zd : Zod} {ZR : ZodRef Zd} {C : NodeCrypto} {L : Collation} {W : WalletLib} {E : Es256}.

Definition u_built (u : User) : result (Intents.IntentParams * Intents.IntentBlindings) :=
  (Intents.buildPrivateIntent (u_fetch u) (u_apiBase u) (u_token u) (u_params u) (u_random u) []).2.

(** The request [submit] makes, with an idempotency key. *)
Definition u_request (u : User) (payload : Intents.IntentParams) : Request :=
  {| authorization := jget "Authorization" (Intents.headers (u_token u)); cookie := None; idempotency_header := Some (u_key u);
     req_body := Intents.submit_body payload |}.

Definition user_ok (kps : list CommitteeNodeKeyPair) (u : User) : Prop :=
  params_ok (u_params u) /\ randomness_ok kps (u_random u) /\ relays_committee kps (u_apiBase u) (u_fetch u).

Definition answered (u : User) (payload : Intents.IntentParams) (w' : World) : Prop :=
  exists rep, create_intent (RT := u_runtime u) (u_request u payload) (u_world u) = (w', Done rep).

Definition accepted (u : User) : Prop := forall payload b, u_built u = Ok (payload, b) -> exists w', answered u payload w'.

(** What the committee receives of a user. *)
Definition forwarded (u : User) (i : MpcIntent) : Prop :=
  exists payload b w' v, u_built u = Ok (payload, b) /\ answered u payload w' /\
    hands_over (RT := u_runtime u) (u_world u) w' v /\ intent_of_json v = Some i.

Definition wanted (u : User) (i : MpcIntent) : Intent :=
  {| Matching.intentId := i_intentId i; Matching.amount7dp := Intents.b_amount7dp (u_params u); Matching.inputAsset := Intents.b_inputAsset (u_params u);
     Matching.outputAsset := Intents.b_outputAsset (u_params u) |}.

Lemma user_forwarded kps u : committee_ok kps -> Forall (fun kp => nodeId kp <> "") kps -> user_ok kps u -> accepted u ->
  exists i, forwarded u i /\ honest kps (i, Intents.b_amount7dp (u_params u)) /\ i_intentId i <> "" /\
    true_intent (i, Intents.b_amount7dp (u_params u)) = wanted u i.
Proof.
  intros Hc Hids (Hp & Hr & Hf) Hacc.
  destruct (payload_built kps _ _ Hc Hids Hp Hr) as (payload & b & es & draws & cs & rest & Hb & Hok & He & Hd & Hs & Ha & Ho).
  assert (u_built u = Ok (payload, b)) as Hu by (unfold u_built; by rewrite (build_with_committee kps)).
  destruct (Hacc _ _ Hu) as [w' Hw]. pose proof Hw as [rep Hrep].
  destruct (create_intent_forwards (RT := u_runtime u) (u_request u payload) _ _ _ payload eq_refl Hok Hrep) as [uid Hh].
  destruct (forwarded_decodes (RT := u_runtime u) uid (hashJson (Intents.submit_body payload)) payload Hok) as (i & Hi & Hid & _ & Hes & Hia & Hio).
  rewrite He in Hes. injection Hes as Hes. exists i. split_and!.
  - by exists payload, b, w', (mpc_intent (RT := u_runtime u) uid (hashJson (Intents.submit_body payload)) (Intents.submit_body payload)).
  - split; [apply Hp|]. cbn. rewrite Hes. exists draws, (Intents.r_boxes (u_random u)), cs, rest. by destruct Hr as (_ & ? & ?).
  - by rewrite Hid.
  - unfold true_intent, wanted. cbn. by rewrite Hia, Hio, Ha, Ho.
Qed.


End EndToEnd.

(** ** Requests the API refuses *)

Section Refused.
Context {RT : Runtime} {Zd : Zod} {ZR : ZodRef Zd} {C : NodeCrypto} {L : Collation} {W : WalletLib} {E : Es256}.

(** The API's view of a request the client sends: of its headers the server
    reads these three. *)
Definition client_request (token : option string) (body : json) : Request :=
  {| authorization := jget "Authorization" (Intents.headers token); cookie := jget "Cookie" (Intents.headers token);
     idempotency_header := jget "Idempotency-Key" (Intents.headers token); req_body := body |}.

Lemma no_key token body : idempotency_header (client_request token body) = None.
Proof. unfold client_request, Intents.headers. by destruct (Intents.given token). Qed.

Lemma refused_bind {A B} I (m : M A) (k : A -> M B) : hoare I m (fun _ _ => False) I -> hoare I (bindM m k) (fun _ _ => False) I.
Proof. intros H. eapply hoare_bind; [exact H|]. by intros a w []. Qed.

Lemma refused_at_login {A} (m : M A) w : hoare (on_state (only_login (w_db w) (w_jobs w))) m (fun _ _ => False) (on_state (only_login (w_db w) (w_jobs w))) ->
  exists w' code msg, m w = (w', Fail code msg) /\ only_login (w_db w) (w_jobs w) (state w').
Proof.
  intros H. specialize (H w (conj eq_refl (fun _ _ => eq_refl))). destruct (m w) as [w' [a|code msg]]; [done|]. by exists w', code, msg.
Qed.

(** The client as shipped cannot place an intent or accept a quote: it sends
    no idempotency key and an empty acceptance, so whatever the state of the
    server, the token and the payload, the API's handlers of [submit] and
    [acceptQuote] throw; no job is queued and no table but the ones of the login
    is changed. *)
Theorem sdk_requests_refused (token : option string) (p : Intents.IntentParams) (quoteId : string) (w : World) :
  (exists w' code msg, create_intent (client_request token (Intents.submit_body p)) w = (w', Fail code msg) /\
     only_login (w_db w) (w_jobs w) (state w')) /\
  (exists w' code msg, accept_quote quoteId (client_request token (JObj [])) w = (w', Fail code msg) /\
     only_login (w_db w) (w_jobs w) (state w')).
Proof.
  split; apply refused_at_login; (apply hoare_seq; [apply login_keeps, only_login_kept|intros uid]).
  - apply hoare_seq; [apply parse_keeps|intros body]. apply refused_bind. unfold idem. apply refused_bind. rewrite no_key.
    unfold parse. rewrite zod_plain by reflexivity. by apply hoare_fail.
  - apply refused_bind. unfold parse. rewrite zod_plain by reflexivity. by apply hoare_fail.
Qed.

End Refused.

(** ** Examples *)

#[global] Instance toy_sizes : NaclSizes toyNacl.
Proof.
  split.
  - intros m n pk sk c Hn [= <-]. by destruct n.
  - intros sk Hs Es. cbn in Es. by rewrite Es in Hs.
Qed.

Definition toy_base : string := "http://api".
Definition toy_fetch (h : list Intents.Call) (c : Intents.Call) : result Intents.Response :=
  match c with
  | Intents.Fetch "GET" _ _ _ => Ok {| Intents.status := 200; Intents.text := stringify (committee_json toy_nodes) |}
  | _ => Err "TypeError: fetch failed"
  end.
Definition toy_params (amount : Z) (from to : string) : Intents.PrivateIntentBuildParams :=
  {| Intents.b_amount7dp := amount; Intents.b_minOutput7dp := 1; Intents.b_noteCommitment := "0x1"; Intents.b_noteNullifier := "0x2";
     Intents.b_recipientCommitment := "0x3"; Intents.b_destinationAddress := "0xd"; Intents.b_inputAsset := from; Intents.b_outputAsset := to;
     Intents.b_expiryLedger := 100; Intents.b_policyId := None |}.
Definition toy_client (amount : Z) (from to : string) : User :=
  {| u_params := toy_params amount from to;
     u_random := {| Intents.r_amount := pad32 "p"; Intents.r_minOutput := pad32 "q"; Intents.r_destination := pad32 "r"; Intents.r_field := [2 ^ 255];
                    Intents.r_boxes := toy_rnd |};
     u_fetch := toy_fetch; u_apiBase := toy_base; u_token := Some toy_token; u_key := "idempotency-1";
     u_runtime := runtime_at 3000 legacy_env; u_world := toy_login.1 |}.
Definition toy_clients : list User := [toy_client 50 "USDC" "EURC"; toy_client 30 "EURC" "USDC"].

Lemma toy_client_ok amount from to : 0 <= amount < Shamir.P -> from <> "" -> to <> "" -> user_ok toy_nodes (toy_client amount from to).
Proof.
  intros Ha Hf Ht. split; [|split].
  - unfold params_ok. cbn. split_and!; done || lia.
  - unfold randomness_ok. cbn. split; [done|]. split; [apply toy_rnd_ok|done].
  - by intros h hdrs.
Qed.

Definition toy_answer (u : User) (payload : Intents.IntentParams) : World * outcome reply :=
  create_intent (RT := u_runtime u) (Zd := toy_zod) (C := Rfq.toyNode) (u_request u payload) (u_world u).
Definition toy_answered (u : User) : bool :=
  match u_built u with Ok (payload, _) => match (toy_answer u payload).2 with Done _ => true | _ => false end | Err _ => true end.

Lemma toy_accepted u : toy_answered u = true -> accepted (N := toyNacl) (Zd := toy_zod) (C := Rfq.toyNode) u.
Proof.
  unfold toy_answered. intros H payload b Hb. rewrite Hb in H. destruct (toy_answer u payload) as [w' [rep|c m]] eqn:E; [|done]. by exists w', rep.
Qed.


Lemma sdk_requests_refused_witness :
  exists w' code msg, accept_quote (RT := runtime_at 3000 legacy_env) (Zd := toy_zod) (C := Rfq.toyNode) "q1" (client_request (Some toy_token) (JObj [])) toy_login.1
    = (w', Fail code msg) /\ only_login (w_db toy_login.1) (w_jobs toy_login.1) (state w').
Proof.
  destruct (sdk_requests_refused (RT := runtime_at 3000 legacy_env) (Zd := toy_zod) (C := Rfq.toyNode) (Some toy_token)
    {| Intents.inputAsset := "USDC"; Intents.outputAsset := "EURC"; Intents.amountMode := "exact_in"; Intents.amount7dp := "0x1"; Intents.minOutput7dp := "0x2";
       Intents.expiryLedger := 9; Intents.noteCommitment := "0x3"; Intents.destination := "0x4"; Intents.policyId := None; Intents.noteNullifier := None;
       Intents.recipientCommitment := None; Intents.encryptedShares := None |} "q1" toy_login.1) as [_ H]. exact H.
Defined.
