(* ===== verification/RootAudit.v ===== *)
(** The root auditor (apps/root-auditor/src/audit.ts, run.ts) and what its
    findings do to the API.

    The auditor rebuilds the list of commitments from the pool's events,
    recomputes the root and compares it with the one on the chain.  The RPC
    server, the command line that hashes the tree and the read-only call of
    [get_root] answer through functions of the calls made so far; the tables are
    the ones of the API. *)

From S2P Require Import Prelude Effects Text Json Queue Sql Web Footprint Schemas Rfq Store Ids ShadeView Auth Cctp ApiVaults ApiRfq ApiMpc Api ApiSafety ApiProps.
Import Effects.
Local Open Scope string_scope.
Local Open Scope Z_scope.

Module Audit.

Record DepositLeaf := { leafIndex : Z; commitmentDecimal : string; commitmentHex : string }.

Inductive AuditSource := FromEvents | FromDb.
Inductive AuditStatus := OK | ROOT_MISMATCH_CRITICAL.

Record AuditResult := {
  poolContract : string; leafCount : Z; source : AuditSource; recomputedRootHex : string; onchainRootHex : string; status : AuditStatus; detail : string }.

(** What is read of an event: its topics as text; the number of fields of its
    data, when that is an array, its commitment, when that is a byte string, and
    its leaf index. *)
Record EventData := { fields : nat; commitment : option string; leaf_index : Z }.
Record Event := { topics : list string; value : option EventData }.

Inductive Query := StartLedger (ledger : Z) | Cursor (cursor : string).
Record Page := { events : list Event; cursor : option string }.

Inductive Call := GetLatestLedger | GetEvents (pool : string) (q : Query) | ComputeRoot (commitments : list string) | GetRoot (pool : string).

(** [byIndex] keeps what was read before an error. *)
Record World := { tables : Tables; calls : list Call; byIndex : jmap Z DepositLeaf }.
Definition M : Type -> Type := SE World.

Definition log_call (c : Call) (w : World) : World := {| tables := tables w; calls := (calls w ++ [c])%list; byIndex := byIndex w |}.
Definition set_index (m : jmap Z DepositLeaf) (w : World) : World := {| tables := tables w; calls := calls w; byIndex := m |}.
Definition set_tables (db : Tables) (w : World) : World := {| tables := db; calls := calls w; byIndex := byIndex w |}.

Definition EnvMap := list (string * string).
Definition env_get (env : EnvMap) (k : string) : string := default "" (jget k env).

(** [parseInt(s, 10)]; [None] is NaN. *)
Definition parse_int (s : string) : option Z :=
  let digits (s : string) := match (span_digits s).1 with EmptyString => None | ds => parse_digits ds 0 end in
  match trim_left s with
  | String "-" r => match digits r with Some z => Some (- z) | None => None end
  | String "+" r => digits r
  | r => digits r
  end.

Definition lookbacks (env : EnvMap) : list Z :=
  filter (fun z => 0 < z) (omap parse_int (split_on "," (default "9000,4000,2000" (jget "ROOT_AUDIT_LOOKBACKS" env)))).

Definition to_big (s : string) : result Z := match BigInt s with Some z => Ok z | None => Err ("SyntaxError: Cannot convert " +:+ s +:+ " to a BigInt") end.

Definition hex_leaf (index : Z) (hex : string) : result DepositLeaf :=
  let! z := to_big hex in Ok {| leafIndex := index; commitmentDecimal := toString z; commitmentHex := hex |}.

Section Auditor.
Variable getLatestLedger : list Call -> result Z.
Variable getEvents : list Call -> Query -> result Page.
Variable computeRoot : list Call -> list string -> result string.     (** what the command line prints *)
Variable getRoot : list Call -> result string.                        (** the value the contract returns *)
Variables (gitCommit run_id finding_id : string) (now : Z).

Definition ask {A} (c : Call) (f : list Call -> result A) : M A := fun w => (log_call c w, f (calls w)).

(** ** The leaves from the events *)

Definition read_event (ev : Event) : result (option DepositLeaf) :=
  if negb (bool_decide (default "undefined" (head (topics ev)) = "deposit")) then Ok None
  else match value ev with
       | None => Ok None
       | Some d =>
           if (fields d <? 7)%nat then Ok None
           else match commitment d with
                | None => Err "TypeError: The first argument must be a string or a buffer"
                | Some b => let! leaf := hex_leaf (leaf_index d) ("0x" +:+ hex_encode b) in Ok (Some leaf)
                end
       end.

Fixpoint read_events (evs : list Event) (got : nat) : M nat :=
  match evs with
  | [] => ret got
  | ev :: evs =>
      run! leaf := lift (read_event ev) in
      match leaf with
      | None => read_events evs got
      | Some l => fun w => read_events evs (S got) (set_index (jset (leafIndex l) l (byIndex w)) w)
      end
  end.

Definition given (c : option string) : option string := match c with Some EmptyString => None | c => c end.

Fixpoint read_pages (n : nat) (pool : string) (q : Query) (got : nat) : M nat :=
  match n with
  | O => ret got
  | S n =>
      run! resp := ask (GetEvents pool q) (fun h => getEvents h q) in
      run! got := read_events (events resp) got in
      match given (cursor resp), events resp with
      | None, _ | _, [] => ret got
      | Some c, _ => read_pages n pool (Cursor c) got
      end
  end.

(** The windows, from the largest; one that throws is skipped. *)
Fixpoint read_windows (backs : list Z) (pool : string) (sequence : Z) : M unit :=
  match backs with
  | [] => ret tt
  | back :: backs =>
      run! got := catch (run! n := read_pages 50 pool (StartLedger (Z.max 1 (sequence - back))) 0 in ret (Some n)) (fun _ => ret None) in
      match got with
      | Some (S _) => ret tt
      | _ => read_windows backs pool sequence
      end
  end.

Definition by_index (l : list DepositLeaf) : list DepositLeaf := js_sort (fun a b => leafIndex a <? leafIndex b) l.

Definition readDepositLeavesFromEvents (env : EnvMap) (pool : string) : M (list DepositLeaf) :=
  run! sequence := ask GetLatestLedger getLatestLedger in
  fun w => (run! _ := read_windows (lookbacks env) pool sequence in (fun w => (w, Ok (by_index (map snd (byIndex w)))))) (set_index [] w).

(** ** The comparison *)

Definition recomputeRoot (commitments : list string) : M string :=
  match commitments with
  | [] => ret ("0x" +:+ String.concat "" (repeat "00" 32))
  | _ => run! out := ask (ComputeRoot commitments) (fun h => computeRoot h commitments) in
         run! z := lift (to_big (trim out)) in
         ret ("0x" +:+ padStart64 (toString16 z))
  end.

Definition norm (h : string) : string := toLowerCase (toBytes32 h).

Definition compareRoots (pool : string) (leaves : list DepositLeaf) (onchain_root : string) (src : AuditSource) : M AuditResult :=
  let ordered := by_index leaves in
  let n := toString (Z.of_nat (length ordered)) in
  run! all := recomputeRoot (map commitmentDecimal ordered) in
  let cumulative := norm all in
  run! latestOnly := (match list.last ordered with
                      | Some l => run! r := recomputeRoot [commitmentDecimal l] in ret (norm r)
                      | None => ret cumulative
                      end) in
  let onchain := norm onchain_root in
  let is_all := bool_decide (onchain = cumulative) in
  let is_last := bool_decide (onchain = latestOnly) in
  let convention := if is_all then "cumulative" else if is_last then "per-deposit (latest leaf)" else "none" in
  ret {| poolContract := pool; leafCount := Z.of_nat (length ordered); source := src; recomputedRootHex := cumulative; onchainRootHex := onchain;
         status := if is_all || is_last then OK else ROOT_MISMATCH_CRITICAL;
         detail := if is_all || is_last then "on-chain root matches recomputed root (" +:+ convention +:+ ") over " +:+ n +:+ " leaf/leaves"
                   else "on-chain root " +:+ onchain +:+ " matches neither cumulative (" +:+ cumulative +:+ ") nor latest-leaf (" +:+ latestOnly +:+
                        ") recomputation over " +:+ n +:+ " leaves" |}.

(** ** One audit *)

Definition requireKeys (env : EnvMap) (keys : list string) : list string := filter (fun k => env_get env k = "") keys.

Definition readOnchainRoot (pool : string) : M string :=
  run! v := ask (GetRoot pool) getRoot in
  ret (toBytes32 (Cctp.clean v)).

Definition db_leaf (r : row) : result DepositLeaf :=
  match col "commitment" r, Number_value (col "leaf_index" r) with
  | JStr c, JNum i => hex_leaf i (toBytes32 c)
  | _, _ => Err "TypeError: not a commitment"
  end.

Definition readLeavesFromDb : M (list DepositLeaf) := fun w =>
  let rows := select "note_commitments" (fun r => negb (is_null (col "leaf_index" r))) (tables w) in
  (w, rmap db_leaf (order_asc "leaf_index" rows)).

Definition source_text (s : AuditSource) : string := match s with FromEvents => "events" | FromDb => "db" end.
Definition status_text (s : AuditStatus) : string := match s with OK => "OK" | ROOT_MISMATCH_CRITICAL => "ROOT_MISMATCH_CRITICAL" end.

Definition run_row (r : AuditResult) : row :=
  [("pool_contract", JStr (poolContract r)); ("leaf_count", JNum (leafCount r)); ("recomputed_root", JStr (recomputedRootHex r));
   ("onchain_root", JStr (onchainRootHex r)); ("source", JStr (source_text (source r))); ("status", JStr (status_text (status r)));
   ("git_commit", JStr gitCommit)].
Definition finding_row (r : AuditResult) : row :=
  [("run_id", JStr run_id); ("severity", JStr "CRITICAL"); ("code", JStr "ROOT_MISMATCH_CRITICAL"); ("detail", JStr (detail r));
   ("recomputed_root", JStr (recomputedRootHex r)); ("onchain_root", JStr (onchainRootHex r))].

Definition insert_into (t : string) (r : row) (id : string) : M unit := fun w =>
  match insert t r Raise id now (tables w) with (db, Ok _) => (set_tables db w, Ok tt) | (db, Err e) => (set_tables db w, Err e) end.

Definition persist (env : EnvMap) (r : AuditResult) : M unit :=
  if bool_decide (env_get env "DATABASE_URL" = "") then ret tt
  else
    run! _ := insert_into "root_audit_runs" (run_row r) run_id in
    match status r with OK => ret tt | ROOT_MISMATCH_CRITICAL => insert_into "root_audit_findings" (finding_row r) finding_id end.

Definition runAudit (env : EnvMap) : M AuditResult :=
  let missing := requireKeys env ["SHIELDED_POOL_CONTRACT"; "STELLAR_RELAYER_SECRET"] in
  if negb (bool_decide (missing = [])) then throw ("root-auditor missing env: " +:+ join ", " missing)
  else
    let pool := env_get env "SHIELDED_POOL_CONTRACT" in
    run! leaves := readDepositLeavesFromEvents env pool in
    run! read := (match leaves with
                  | [] => if bool_decide (env_get env "DATABASE_URL" = "") then ret (FromEvents, leaves)
                          else run! l := readLeavesFromDb in ret (FromDb, l)
                  | _ => ret (FromEvents, leaves)
                  end) in
    run! onchainRoot := readOnchainRoot pool in
    run! res := compareRoots pool read.2 onchainRoot read.1 in
    run! _ := persist env res in
    ret res.

(** The reply of [GET /v1/audit]. *)
Definition audit_endpoint (env : EnvMap) : World -> World * (Z * result AuditResult) := fun w =>
  match runAudit env w with
  | (w, Ok r) => (w, (match status r with OK => 200 | ROOT_MISMATCH_CRITICAL => 409 end, Ok r))
  | (w, Err e) => (w, (500, Err e))
  end.

End Auditor.

(** ** What is read *)

Definition leaf_of (ev : Event) : option DepositLeaf := match read_event ev with Ok o => o | Err _ => None end.
Definition readable (ev : Event) : Prop := exists o, read_event ev = Ok o.

(** The deposits of a log, in its order. *)
Definition deposits (evs : list Event) : list DepositLeaf := omap leaf_of evs.
Definition indexed (ds : list DepositLeaf) (m : jmap Z DepositLeaf) : jmap Z DepositLeaf := fold_left (fun m l => jset (leafIndex l) l m) ds m.

Lemma deposits_app a b : deposits (a ++ b) = (deposits a ++ deposits b)%list.
Proof. apply omap_app. Qed.

Lemma read_events_ok evs got w : Forall readable evs ->
  read_events evs got w = (set_index (indexed (deposits evs) (byIndex w)) w, Ok (got + length (deposits evs))%nat).
Proof.
  intros Hr. revert got w. induction Hr as [|ev evs [o Ho] _ IH]; intros got w; cbn [read_events].
  - cbn. rewrite Nat.add_0_r. by destruct w.
  - unfold bindM, lift. rewrite Ho. assert (deposits (ev :: evs) = match o with Some l => l :: deposits evs | None => deposits evs end) as ->.
    { unfold deposits. cbn. unfold leaf_of at 1. by rewrite Ho. }
    destruct o as [l|]; [|apply IH]. rewrite IH. cbn [set_index byIndex tables calls indexed fold_left length]. by rewrite Nat.add_succ_r.
Qed.

(** An RPC server that answers a query with the pages of a log: each page names
    the cursor of the next one, and after the last come empty pages. *)
Definition page (pages : list (list Event)) (cur : nat -> string) (i : nat) : Page := {| events := default [] (pages !! i); cursor := Some (cur i) |}.
Record serves (ge : list Call -> Query -> result Page) (start : Z) (pages : list (list Event)) (cur : nat -> string) : Prop := {
  sv_start : forall h, ge h (StartLedger start) = Ok (page pages cur 0);
  sv_next : forall h i, ge h (Cursor (cur i)) = Ok (page pages cur (S i));
  sv_cursors : forall i, cur i <> "";
  sv_pages : Forall (fun p => p <> []) pages
}.

(** Only the first [n] pages of the log are read. *)
Lemma read_pages_ok ge start pages cur n pool q i got w : serves ge start pages cur -> Forall (Forall readable) pages ->
  (forall h, ge h q = Ok (page pages cur i)) ->
  let ds := deposits (concat (take n (drop i pages))) in
  exists cs, read_pages ge n pool q got w = (set_index (indexed ds (byIndex w)) {| tables := tables w; calls := cs; byIndex := byIndex w |}, Ok (got + length ds)%nat).
Proof.
  intros Hs Hr. revert q i got w. induction n as [|n IH]; intros q i got w Hq ds.
  { exists (calls w). cbn. rewrite Nat.add_0_r. by destruct w. }
  cbn [read_pages]. unfold bindM at 1, ask. rewrite Hq. unfold bindM at 1. cbn [events cursor page]. destruct (pages !! i) as [p|] eqn:Hp; cbn [default].
  - pose proof (Forall_lookup_1 _ _ _ _ Hr Hp) as Hpr. rewrite read_events_ok by done. pose proof (Forall_lookup_1 _ _ _ _ (sv_pages _ _ _ _ Hs) Hp) as Hne.
    assert (given (Some (cur i)) = Some (cur i)) as -> by (unfold given; pose proof (sv_cursors _ _ _ _ Hs i); by destruct (cur i)).
    assert (ds = (deposits p ++ deposits (concat (take n (drop (S i) pages))))%list) as -> by (unfold ds; rewrite (drop_S _ _ _ Hp); apply deposits_app).
    destruct p as [|e p]; [done|]. change (id (e :: p)) with (e :: p). set (w1 := set_index _ _).
    destruct (IH (Cursor (cur i)) (S i) (got + length (deposits (e :: p)))%nat w1) as [cs E]; [intros h; apply (sv_next _ _ _ _ Hs)|].
    exists cs. cbn beta iota. rewrite E. unfold w1. cbn [tables byIndex set_index log_call]. unfold indexed. by rewrite fold_left_app, length_app, Nat.add_assoc.
  - rewrite read_events_ok by constructor. cbn [deposits omap list_omap]. exists (calls w ++ [GetEvents pool q])%list.
    unfold ds. rewrite drop_ge by (by apply lookup_ge_None). rewrite take_nil. by destruct (given _).
Qed.

Lemma indexed_nodup ds : NoDup (map leafIndex ds) -> map snd (indexed ds []) = ds.
Proof.
  intros Hd. assert (indexed ds [] = map (fun l => (leafIndex l, l)) ds) as ->.
  { unfold indexed. transitivity (fold_left (fun m kv => jset kv.1 kv.2 m) (map (fun l => (leafIndex l, l)) ds) []); [|].
    - clear. generalize (@nil (Z * DepositLeaf)). induction ds as [|l ds IH]; intros m; [done|]. apply IH.
    - apply (jset_all_fresh _ []). cbn [app]. rewrite <- list_fmap_compose. exact Hd. }
  rewrite map_map. by rewrite map_id.
Qed.

Lemma by_index_perm l : by_index l ≡ₚ l.
Proof. apply js_sort_perm. Qed.

Lemma by_index_sorted l : StronglySorted (fun a b => leafIndex a <= leafIndex b) (by_index l).
Proof.
  eapply StronglySorted_weaken; [|apply js_sort_sorted].
  - intros a b Hn. unfold nlt in Hn. apply Z.ltb_ge in Hn. exact Hn.
  - intros a b. rewrite Z.ltb_lt, Z.ltb_ge. lia.
  - intros a b c. rewrite !Z.ltb_ge. lia.
Qed.

(** What one complete window gives: the deposits of the first fifty pages. *)
Lemma window_leaves gl ge env pool sequence back backs pages cur w :
  (forall h, gl h = Ok sequence) -> lookbacks env = back :: backs -> serves ge (Z.max 1 (sequence - back)) pages cur -> Forall (Forall readable) pages ->
  let ds := deposits (concat (take 50 pages)) in
  NoDup (map leafIndex ds) -> ds <> [] ->
  exists w', readDepositLeavesFromEvents gl ge env pool w = (w', Ok (by_index ds)) /\ tables w' = tables w.
Proof.
  intros Hgl Hb Hs Hr ds Hnd Hne. unfold readDepositLeavesFromEvents, bindM at 1, ask at 1. rewrite Hgl, Hb. cbn [read_windows].
  unfold bindM at 1. unfold bindM at 1. unfold catch, bindM at 1. set (w0 := set_index [] _).
  destruct (read_pages_ok ge _ pages cur 50 pool (StartLedger (Z.max 1 (sequence - back))) 0 0 w0 Hs Hr (sv_start _ _ _ _ Hs)) as [cs E].
  rewrite drop_0 in E. fold ds in E. rewrite E. cbn [Nat.add]. destruct (length ds) as [|k] eqn:El; [by destruct ds|].
  change (byIndex w0) with (@nil (Z * DepositLeaf)). eexists. cbn -[by_index indexed map]. rewrite (indexed_nodup ds Hnd). by split.
Qed.

(** C22: the auditor sees every deposit: from an RPC server whose first window
    holds the pool's log in at most fifty pages, it reads exactly the deposit
    events, one leaf per event, ordered by leaf index, and touches no table. *)
Theorem audit_reads_all_deposits gl ge env pool sequence back backs pages cur w :
  (forall h, gl h = Ok sequence) -> lookbacks env = back :: backs -> serves ge (Z.max 1 (sequence - back)) pages cur -> Forall (Forall readable) pages ->
  (length pages <= 50)%nat -> NoDup (map leafIndex (deposits (concat pages))) -> deposits (concat pages) <> [] ->
  exists w' leaves, readDepositLeavesFromEvents gl ge env pool w = (w', Ok leaves) /\ leaves ≡ₚ deposits (concat pages) /\
    StronglySorted (fun a b => leafIndex a <= leafIndex b) leaves /\ tables w' = tables w.
Proof.
  intros Hgl Hb Hs Hr Hl Hnd Hne. assert (take 50 pages = pages) as Et by (apply take_ge; lia).
  destruct (window_leaves gl ge env pool sequence back backs pages cur w Hgl Hb Hs Hr) as (w' & E & Ht); rewrite ?Et; [done..|].
  rewrite Et in E. exists w', (by_index (deposits (concat pages))). split_and!; [done|apply by_index_perm|apply by_index_sorted|done].
Qed.

(** ** The verdict *)

Definition root_text (z : Z) : string := "0x" +:+ padStart64 (toString16 z).

Lemma lower_hex d : 0 <= d < 16 -> lower_char (hex_char d) = hex_char d.
Proof.
  intros Hd. assert (d = 0 \/ d = 1 \/ d = 2 \/ d = 3 \/ d = 4 \/ d = 5 \/ d = 6 \/ d = 7 \/ d = 8 \/ d = 9 \/ d = 10 \/ d = 11 \/ d = 12 \/ d = 13 \/ d = 14 \/ d = 15) as H by lia.
  by repeat destruct H as [->|H]; [..|subst d].
Qed.

Lemma lower_hex_digits fuel n acc : toLowerCase acc = acc -> toLowerCase (hex_digits fuel n acc) = hex_digits fuel n acc.
Proof.
  revert n acc. induction fuel as [|fuel IH]; intros n acc Ha; [done|]. cbn [hex_digits].
  assert (toLowerCase (String (hex_char (n mod 16)) acc) = String (hex_char (n mod 16)) acc) as E.
  { cbn [toLowerCase]. rewrite Ha, lower_hex; [done|]. apply Z.mod_pos_bound. lia. }
  destruct (n / 16 =? 0); [done|by apply IH].
Qed.

Lemma lower_app a b : toLowerCase (a +:+ b) = toLowerCase a +:+ toLowerCase b.
Proof. induction a as [|c a IH]; [done|]. rewrite !sapp_cons. cbn [toLowerCase]. by rewrite sapp_cons, IH. Qed.

Lemma norm_root z : norm (root_text z) = root_text z.
Proof.
  unfold norm, root_text. change (toBytes32 ("0x" +:+ padStart64 (toString16 z))) with ("0x" +:+ padStart64 (toString16 z)).
  rewrite lower_0x. f_equal. unfold padStart64. rewrite lower_app. f_equal; [|by apply lower_hex_digits].
  by induction (64 - _)%nat as [|n IH]; [|cbn; rewrite IH].
Qed.

(** The command line prints the root of a non-empty list as a number. *)
Definition hashes (cr : list Call -> list string -> result string) (root_of : list string -> Z) : Prop :=
  forall h cs, cs <> [] -> exists out, cr h cs = Ok out /\ to_big (trim out) = Ok (root_of cs).

Lemma recompute_ok cr root_of cs w : hashes cr root_of -> cs <> [] ->
  recomputeRoot cr cs w = (log_call (ComputeRoot cs) w, Ok (root_text (root_of cs))).
Proof.
  intros Hh Hne. unfold recomputeRoot. destruct cs as [|c cs]; [done|]. unfold bindM at 1, ask. destruct (Hh (calls w) (c :: cs) Hne) as (out & -> & Ho).
  unfold bindM, lift. by rewrite Ho.
Qed.

(** The two roots an honest registrar may have stored. *)
Definition honest_roots (root_of : list string -> Z) (ordered : list DepositLeaf) : list string :=
  root_text (root_of (map commitmentDecimal ordered)) :: match list.last ordered with Some l => [root_text (root_of [commitmentDecimal l])] | None => [] end.

Lemma compare_ok cr root_of pool leaves onchain src w : hashes cr root_of -> leaves <> [] ->
  exists w' r, compareRoots cr pool leaves onchain src w = (w', Ok r) /\ tables w' = tables w /\ leafCount r = Z.of_nat (length leaves) /\
    (status r = OK <-> norm onchain ∈ honest_roots root_of (by_index leaves)).
Proof.
  intros Hh Hne. unfold compareRoots. pose proof (js_sort_length (fun a b => leafIndex a <? leafIndex b) leaves) as Hlen. fold (by_index leaves) in Hlen.
  set (o := by_index leaves) in *. assert (o <> []) as Ho by (intros E; rewrite E in Hlen; by destruct leaves).
  destruct (list.last o) as [l|] eqn:El; [|by apply last_None in El].
  unfold bindM at 1. rewrite (recompute_ok cr root_of) by (done || by destruct o). unfold bindM at 1. unfold bindM at 1.
  rewrite (recompute_ok cr root_of) by done. unfold ret at 1. rewrite !norm_root. do 2 eexists. split; [reflexivity|]. cbn [tables log_call leafCount status].
  split; [done|]. split; [by rewrite Hlen|]. unfold honest_roots. rewrite El. split.
  - destruct (bool_decide_reflect (norm onchain = root_text (root_of (map commitmentDecimal o)))) as [->|_]; [by left|].
    destruct (bool_decide_reflect (norm onchain = root_text (root_of [commitmentDecimal l]))) as [->|_]; [by right; left|done].
  - intros Hin. repeat case_bool_decide; cbn [orb]; try done. rewrite !elem_of_cons in Hin. destruct Hin as [?|[?|[]%not_elem_of_nil]]; done.
Qed.

(** ** The record *)

Lemma insert_raise t T r id now db : jget t catalogue = Some T -> unknown_column T r = false -> nulls_ok T (complete_row T id now r) = true ->
  conflicts (uniques T) (complete_row T id now r) (rows_of t db) = false -> fks_ok db T (complete_row T id now r) = true ->
  insert t r Raise id now db = (jset t (rows_of t db ++ [complete_row T id now r])%list db, Ok (Some (complete_row T id now r))).
Proof. intros HT Hu Hn Hc Hf. unfold insert. rewrite HT, Hu, Hn, Hc. cbn [negb]. unfold append. by rewrite Hf. Qed.

Definition fresh (t k id : string) (db : Tables) : Prop := forall r, r ∈ rows_of t db -> col k r <> JStr id.

Lemma fresh_no_conflict t k id r db : fresh t k id db -> col k r = JStr id -> conflicts [[k]] r (rows_of t db) = false.
Proof.
  intros Hf Hr. unfold conflicts. cbn [existsb]. rewrite orb_false_r. apply not_true_is_false. intros (s & Hs & He)%existsb_exists.
  apply list_elem_of_In in Hs. apply (Hf s Hs). unfold same_on in He. cbn in He. rewrite andb_true_r, Hr in He.
  destruct (col k s); try done. by apply bool_decide_eq_true in He as ->.
Qed.

Definition persisted (gc rid fid : string) (now : Z) (r : AuditResult) (db db' : Tables) : Prop :=
  (forall t, t <> "root_audit_runs" -> t <> "root_audit_findings" -> rows_of t db' = rows_of t db) /\
  match status r with
  | OK => rows_of "root_audit_findings" db' = rows_of "root_audit_findings" db
  | ROOT_MISMATCH_CRITICAL => critical db'
  end.

Lemma runs_inserted gc rid now r db : fresh "root_audit_runs" "run_id" rid db ->
  exists new, insert "root_audit_runs" (run_row gc r) Raise rid now db = (jset "root_audit_runs" (rows_of "root_audit_runs" db ++ [new])%list db, Ok (Some new)) /\
    col "run_id" new = JStr rid.
Proof.
  intros Hf. eexists. split; [apply insert_raise|]; [reflexivity|reflexivity|reflexivity| |reflexivity|reflexivity].
  by apply (fresh_no_conflict _ "run_id" rid).
Qed.

Lemma finding_inserted rid fid now r db run : fresh "root_audit_findings" "id" fid db -> run ∈ rows_of "root_audit_runs" db -> col "run_id" run = JStr rid ->
  exists new, insert "root_audit_findings" (finding_row rid r) Raise fid now db =
      (jset "root_audit_findings" (rows_of "root_audit_findings" db ++ [new])%list db, Ok (Some new)) /\ col "code" new = JStr "ROOT_MISMATCH_CRITICAL".
Proof.
  intros Hf Hrun Hid. eexists. split; [apply insert_raise|]; [reflexivity|reflexivity|reflexivity| | |reflexivity].
  - by apply (fresh_no_conflict _ "id" fid).
  - unfold fks_ok, fk_ok. cbn. rewrite andb_true_r. apply existsb_exists. exists run. split; [by apply list_elem_of_In|]. rewrite Hid. by apply bool_decide_eq_true.
Qed.

Lemma persist_ok gc rid fid now env r w : env_get env "DATABASE_URL" <> "" ->
  fresh "root_audit_runs" "run_id" rid (tables w) -> fresh "root_audit_findings" "id" fid (tables w) ->
  exists w', persist gc rid fid now env r w = (w', Ok tt) /\ persisted gc rid fid now r (tables w) (tables w').
Proof.
  intros Hdb Hf1 Hf2. unfold persist. rewrite bool_decide_false by done. unfold bindM, insert_into.
  destruct (runs_inserted gc rid now r (tables w) Hf1) as (run & -> & Hid). destruct (status r) eqn:Est.
  - eexists. split; [reflexivity|]. cbn. unfold persisted. rewrite Est. split; [intros; by rewrite rows_of_jset_ne|by rewrite rows_of_jset_ne].
  - cbn [tables set_tables]. set (db1 := jset _ _ _).
    assert (fresh "root_audit_findings" "id" fid db1) as Hf2' by (unfold fresh, db1; by rewrite rows_of_jset_ne).
    assert (run ∈ rows_of "root_audit_runs" db1) as Hrun by (unfold db1; rewrite rows_of_jset_eq; apply elem_of_app; right; by left).
    destruct (finding_inserted rid fid now r db1 run Hf2' Hrun Hid) as (new & -> & Hc). eexists. split; [reflexivity|].
    cbn [tables set_tables]. unfold persisted. rewrite Est. split; [intros; unfold db1; by rewrite !rows_of_jset_ne|].
    exists new. rewrite rows_of_jset_eq. split; [apply elem_of_app; right; by left|done].
Qed.

Lemma by_index_perm_eq ds l : NoDup (map leafIndex ds) -> l ≡ₚ ds -> by_index l = by_index ds.
Proof.
  intros Hd Hp. apply js_sort_perm_invariant; [| | |done].
  - intros a b. rewrite Z.ltb_lt, Z.ltb_ge. lia.
  - intros a b c. rewrite !Z.ltb_ge. lia.
  - intros x y Hx Hy. rewrite !Z.ltb_ge. intros H1 H2. rewrite Hp in Hx, Hy.
    apply list_elem_of_lookup in Hx as [i Hi]. apply list_elem_of_lookup in Hy as [j Hj].
    assert (i = j) as ->; [|congruence]. eapply (NoDup_lookup _ _ _ (leafIndex x) Hd); [by rewrite list_lookup_fmap, Hi|].
    rewrite list_lookup_fmap, Hj. cbn. f_equal. lia.
Qed.

(** What the services show the auditor: the log of the pool with the deposits
    [ds], a tool that hashes commitments to [root_of], and the value [v] of the
    contract's root. *)
Record observed (gl : list Call -> result Z) ge cr (gr : list Call -> result string) (env : EnvMap) (root_of : list string -> Z) (ds : list DepositLeaf) (v : string) : Prop := {
  ob_log : exists sequence back backs pages cur, (forall h, gl h = Ok sequence) /\ lookbacks env = back :: backs /\
    serves ge (Z.max 1 (sequence - back)) pages cur /\ Forall (Forall readable) pages /\ (length pages <= 50)%nat /\ deposits (concat pages) = ds;
  ob_unique : NoDup (map leafIndex ds);
  ob_some : ds <> [];
  ob_hash : hashes cr root_of;
  ob_root : forall h, gr h = Ok v;
  ob_keys : requireKeys env ["SHIELDED_POOL_CONTRACT"; "STELLAR_RELAYER_SECRET"] = [];
  ob_db : env_get env "DATABASE_URL" <> ""
}.

Definition fresh_ids (rid fid : string) (db : Tables) : Prop :=
  fresh "root_audit_runs" "run_id" rid db /\ fresh "root_audit_findings" "id" fid db.

Lemma audit_run gl ge cr gr gc rid fid now env root_of ds v w :
  observed gl ge cr gr env root_of ds v -> fresh_ids rid fid (tables w) ->
  exists w' r, runAudit gl ge cr gr gc rid fid now env w = (w', Ok r) /\ leafCount r = Z.of_nat (length ds) /\
    (status r = OK <-> norm (toBytes32 (Cctp.clean v)) ∈ honest_roots root_of (by_index ds)) /\ persisted gc rid fid now r (tables w) (tables w').
Proof.
  intros [(sequence & back & backs & pages & cur & Hgl & Hb & Hs & Hr & Hl & <-) Hu Hne Hh Hroot Hk Hdb] [Hf1 Hf2]. set (ds := deposits _) in *.
  unfold runAudit. rewrite Hk. cbn [negb]. rewrite bool_decide_true by done. cbn [negb]. assert (take 50 pages = pages) as Et by (apply take_ge; lia).
  destruct (window_leaves gl ge env (env_get env "SHIELDED_POOL_CONTRACT") sequence back backs pages cur w Hgl Hb Hs Hr) as (w1 & E1 & T1); rewrite ?Et; [done..|].
  rewrite Et in E1. fold ds in E1. unfold bindM at 1. rewrite E1. pose proof (by_index_perm ds) as Hp. destruct (by_index ds) as [|l o] eqn:Eo; [apply Permutation_nil_l in Hp; done|].
  unfold bindM at 1, ret at 1. cbn [fst snd]. rewrite <- Eo in *. unfold bindM at 1, readOnchainRoot. unfold bindM at 1, ask. rewrite Hroot. unfold ret at 1.
  unfold bindM at 1. destruct (compare_ok cr root_of (env_get env "SHIELDED_POOL_CONTRACT") (by_index ds) (toBytes32 (Cctp.clean v)) FromEvents
    (log_call (GetRoot (env_get env "SHIELDED_POOL_CONTRACT")) w1) Hh) as (w2 & r & E2 & T2 & Hc & Hst); [by rewrite Eo|].
  rewrite E2. cbn [tables log_call] in T2. unfold bindM at 1.
  destruct (persist_ok gc rid fid now env r w2) as (w3 & E3 & Hper); rewrite ?T2, ?T1; [done..|]. rewrite E3. exists w3, r. split; [done|].
  rewrite T2, T1 in Hper. split_and!; [by rewrite Hc, Hp| |done].
  rewrite Hst. by rewrite (by_index_perm_eq ds (by_index ds) Hu (by_index_perm ds)).
Qed.

(** An audit that sees the whole log ends with a verdict: OK exactly when the
    root on the chain is the root of all deposits in order, or of the latest one
    alone; the run is recorded, a finding is recorded exactly when the root is
    neither, and no other table is touched. *)
Theorem audit_verdict gl ge cr gr gc rid fid now env root_of ds v w :
  observed gl ge cr gr env root_of ds v -> fresh_ids rid fid (tables w) ->
  exists w' r, runAudit gl ge cr gr gc rid fid now env w = (w', Ok r) /\ leafCount r = Z.of_nat (length ds) /\
    (status r = OK <-> norm (toBytes32 (Cctp.clean v)) ∈ honest_roots root_of (by_index ds)) /\ persisted gc rid fid now r (tables w) (tables w').
Proof. apply audit_run. Qed.

(** ** What a finding does to the API *)

Section Gate.
Context {Zd : Zod} {C : NodeCrypto} {N : Committee.Nacl} {L : Collation} {W : WalletLib} {E : Es256} {CL : ChainLib} {ZL : ZodLaws Zd}.
Variable poseidon_hash : list Z -> Z.

Lemma critical_stays P v v' : (forall o, P o -> table o <> "root_audit_findings") -> rtc (ApiSafety.step poseidon_hash P) v v' ->
  critical (w_db v) -> critical (w_db v').
Proof.
  intros HP. apply ApiSafety.steps_keep. intros o id n s Ho (f & Hf & Hc). exists f. split; [|done]. rewrite exec_frame; [done|].
  destruct Ho as [Ho|Ho]; [|by apply HP]. intros Ht. destruct o as [t r oc|t cond sets|t cond|q t p k]; cbn in Ht; [subst t..|done]; cbn in Ho.
  - destruct Ho as [Ho _]. revert Ho. apply (bool_decide_unpack _). by vm_compute.
  - destruct Ho as [Ho _]. revert Ho. apply (bool_decide_unpack _). by vm_compute.
  - revert Ho. apply (bool_decide_unpack _). by vm_compute.
Qed.

End Gate.

End Audit.

(** ** Examples *)

Import Api ApiSafety.

Definition toy_event (i : Z) (c : string) : Audit.Event :=
  {| Audit.topics := ["deposit"; "3"]; Audit.value := Some {| Audit.fields := 8; Audit.commitment := Some c; Audit.leaf_index := i |} |}.
Definition toy_pages : list (list Audit.Event) := [[toy_event 0 "ab"; {| Audit.topics := ["withdraw"]; Audit.value := None |}]; [toy_event 1 "cd"]].
Definition toy_cursor (i : nat) : string := "c" +:+ toString (Z.of_nat i).
Definition toy_events (h : list Audit.Call) (q : Audit.Query) : result Audit.Page :=
  match q with
  | Audit.StartLedger _ => Ok (Audit.page toy_pages toy_cursor 0)
  | Audit.Cursor c => match BigInt (bytes_drop 1 c) with Some z => Ok (Audit.page toy_pages toy_cursor (S (Z.to_nat z))) | None => Err "bad cursor" end
  end.
Definition toy_root (cs : list string) : Z := Z.of_nat (length cs) + 5.
Definition toy_tool (h : list Audit.Call) (cs : list string) : result string := Ok (toString (toy_root cs)).
Definition toy_env : Audit.EnvMap := [("SHIELDED_POOL_CONTRACT", "CPOOL"); ("STELLAR_RELAYER_SECRET", "S"); ("DATABASE_URL", "postgres://")].
Definition toy_deposits : list Audit.DepositLeaf := Audit.deposits (concat toy_pages).
Definition toy_audit_world : Audit.World := {| Audit.tables := w_db ApiSafety.toy_login.1; Audit.calls := []; Audit.byIndex := [] |}.
Definition toy_ledger (h : list Audit.Call) : result Z := Ok 10000.
Definition toy_chain_root (h : list Audit.Call) : result string := Ok "0x99".

Lemma toy_serves : Audit.serves toy_events (Z.max 1 (10000 - 9000)) toy_pages toy_cursor.
Proof.
  split; [done| |done|by repeat constructor]. intros h i. unfold toy_events, toy_cursor.
  change (bytes_drop 1 ("c" +:+ toString (Z.of_nat i))) with (toString (Z.of_nat i)). by rewrite BigInt_toString, Nat2Z.id.
Qed.

Lemma toy_readable : Forall (Forall Audit.readable) toy_pages.
Proof. repeat constructor; by eexists. Qed.

Lemma toy_observed : Audit.observed toy_ledger toy_events toy_tool toy_chain_root toy_env toy_root toy_deposits "0x99".
Proof.
  split.
  - exists 10000, 9000, [4000; 2000], toy_pages, toy_cursor. split_and!; [done|done|apply toy_serves|apply toy_readable|cbn; lia|done].
  - vm_compute. repeat constructor; set_solver.
  - done.
  - intros h cs _. exists (toString (toy_root cs)). split; [done|]. unfold Audit.to_big.
    assert (trim (toString (toy_root cs)) = toString (toy_root cs)) as ->; [|by rewrite BigInt_toString].
    apply trim_id, digits_no_ws. unfold toString, toy_root. destruct (Z.ltb_spec (Z.of_nat (length cs) + 5) 0); [lia|]. apply dec_nonneg_spec. lia.
  - done.
  - done.
  - done.
Qed.

Lemma toy_fresh : Audit.fresh_ids "run-1" "finding-1" (Audit.tables toy_audit_world).
Proof. split; intros r Hr; vm_compute in Hr; by apply not_elem_of_nil in Hr. Qed.

Lemma audit_reads_all_deposits_witness :
  exists w' leaves, Audit.readDepositLeavesFromEvents toy_ledger toy_events toy_env "CPOOL" toy_audit_world = (w', Ok leaves) /\ leaves ≡ₚ toy_deposits.
Proof.
  destruct (Audit.audit_reads_all_deposits toy_ledger toy_events toy_env "CPOOL" 10000 9000 [4000; 2000] toy_pages toy_cursor toy_audit_world)
    as (w' & leaves & E & Hp & _); [done|reflexivity|apply toy_serves|apply toy_readable|cbn; lia|vm_compute; repeat constructor; set_solver|done|].
  exists w', leaves. by split.
Defined.

Lemma audit_verdict_witness :
  exists w' r, Audit.runAudit toy_ledger toy_events toy_tool toy_chain_root "abc" "run-1" "finding-1" 7 toy_env toy_audit_world = (w', Ok r) /\ Audit.leafCount r = 2.
Proof.
  destruct (Audit.audit_verdict toy_ledger toy_events toy_tool toy_chain_root "abc" "run-1" "finding-1" 7 toy_env toy_root toy_deposits "0x99" toy_audit_world
    toy_observed toy_fresh) as (w' & r & E & Hl & _). exists w', r. split; [exact E|exact Hl].
Defined.

Definition api_after (w : Audit.World) : Web.World := {| w_db := Audit.tables w; w_jobs := w_jobs toy_login.1; w_calls := []; w_next := 50 |}.

