(* ===== verification/WebPages.v ===== *)
(** The pages of the web application that spend and shield notes
    (frontend/lib/api.ts, token.ts, privy-wallets.ts, vault-hooks.ts, the
    handlers of frontend/app/(app)/deposit/page.tsx and move/page.tsx) and what
    the API server answers them.

    A handler works on the state React keeps for its page and on the log of
    its calls to the API, the wallets and the chain; [answer] replies to a call
    from the calls made before.  Amounts passed to a wallet as bigints are
    numbers.  An [ApiError] is thrown as the text the pages show for it. *)

From S2P Require Import Prelude Effects Text Json Vault Stellar Browser Committee Schemas Api Client.
Local Open Scope string_scope.
Local Open Scope Z_scope.

Module WebPages.

Inductive Call :=
| Token                                                      (** the getter of Privy's access token *)
| Uuid
| Http (method url : string) (headers : list (string * string)) (body : option string)
| Wallet (method : string) (args : list json)                (** the EVM wallet and viem's clients *)
| Freighter (o : Browser.WithdrawOpts)                       (** [freighterWithdraw] *)
| Sleep (ms : Z)
| Refresh (key : string).                                    (** [qc.invalidateQueries] *)

Definition fld (k : string) (v : json) : json := default JNull (prop k v).
(** [String(v.k)] *)
Definition txt (k : string) (v : json) : string := match prop k v with Some x => to_primitive x | None => "undefined" end.
(** [v ?? d] *)
Definition orelse (v d : json) : json := match v with JNull => d | _ => v end.

Fixpoint drop_dashes (s : string) : string :=
  match s with EmptyString => "" | String c s => if Ascii.eqb c "-" then drop_dashes s else String c (drop_dashes s) end.

Definition safeJson (t : string) : json := match JSON_parse t with Some v => v | None => JStr t end.

(** What a page shows for a refused request: [data?.error ?? res.statusText]. *)
Definition api_error (data : json) (statusText : string) : string :=
  match fld "error" data with JNull => statusText | e => to_primitive e end.

(** ** The page and its effects *)

Inductive StepStatus := idle | running | done | failed.
Record Step := { label : string; st : StepStatus; detail : option string; tx : option string }.

(** The state hooks of a page; [zk] is the object of the proof panel. *)
Record Page := { busy : bool; steps : list Step; jobId : option string; error : option string; zk : list (string * json);
                 doneTx : option json; signStatus : option string; statuses : list string }.

Definition W : Type := Page * list Call.
Definition M : Type -> Type := SE W.

Section Pages.
Variable answer : list Call -> Call -> result json.
Variable BASE : string.

Definition call (c : Call) : M json := fun w => ((w.1, (w.2 ++ [c])%list), answer w.2 c).
Definition upd (f : Page -> Page) : M unit := fun w => ((f w.1, w.2), Ok tt).

Definition set_busy (b : bool) (p : Page) : Page :=
  {| busy := b; steps := steps p; jobId := jobId p; error := error p; zk := zk p; doneTx := doneTx p; signStatus := signStatus p; statuses := statuses p |}.
Definition set_steps (l : list Step) (p : Page) : Page :=
  {| busy := busy p; steps := l; jobId := jobId p; error := error p; zk := zk p; doneTx := doneTx p; signStatus := signStatus p; statuses := statuses p |}.
Definition set_job (j : option string) (p : Page) : Page :=
  {| busy := busy p; steps := steps p; jobId := j; error := error p; zk := zk p; doneTx := doneTx p; signStatus := signStatus p; statuses := statuses p |}.
Definition set_error (e : option string) (p : Page) : Page :=
  {| busy := busy p; steps := steps p; jobId := jobId p; error := e; zk := zk p; doneTx := doneTx p; signStatus := signStatus p; statuses := statuses p |}.
Definition set_zk (z : list (string * json)) (p : Page) : Page :=
  {| busy := busy p; steps := steps p; jobId := jobId p; error := error p; zk := z; doneTx := doneTx p; signStatus := signStatus p; statuses := statuses p |}.
Definition set_done (d : option json) (p : Page) : Page :=
  {| busy := busy p; steps := steps p; jobId := jobId p; error := error p; zk := zk p; doneTx := d; signStatus := signStatus p; statuses := statuses p |}.
Definition set_sign (s : option string) (p : Page) : Page :=
  {| busy := busy p; steps := steps p; jobId := jobId p; error := error p; zk := zk p; doneTx := doneTx p; signStatus := s; statuses := statuses p |}.
Definition set_statuses (l : list string) (p : Page) : Page :=
  {| busy := busy p; steps := steps p; jobId := jobId p; error := error p; zk := zk p; doneTx := doneTx p; signStatus := signStatus p; statuses := l |}.
(** [setZk((z) => ({ ...z, ...l }))] *)
Definition merge_zk (l : list (string * json)) (p : Page) : Page := set_zk (fold_left (fun m kv => jset kv.1 kv.2 m) l (zk p)) p.

(** [setStep(i, { status, ... })]; an absent field keeps its value. *)
Definition patch (s : StepStatus) (d t : option string) (x : Step) : Step :=
  {| label := label x; st := s; detail := match d with Some _ => d | None => detail x end; tx := match t with Some _ => t | None => tx x end |}.
Definition set_step (i : nat) (s : StepStatus) (d t : option string) (p : Page) : Page := set_steps (alter (patch s d t) i (steps p)) p.

(** ** The API client *)

Definition getAccessToken : M (option string) :=
  catch (run! t := call Token in ret match t with JStr s => Some s | _ => None end) (fun _ => ret None).

Definition newIdempotencyKey : M string := run! u := call Uuid in ret (drop_dashes (to_primitive u)).

Definition given (o : option string) : bool := match o with Some EmptyString | None => false | Some _ => true end.

Definition req (method path : string) (body : option json) (idempotencyKey : option string) (auth : bool) : M json :=
  run! token := (if auth then getAccessToken else ret None) in
  let headers :=
    (match body with Some _ => [("content-type", "application/json")] | None => [] end
     ++ (if given token then [("authorization", "Bearer " +:+ default "" token)] else [])
     ++ (if given idempotencyKey then [("idempotency-key", default "" idempotencyKey)] else []))%list in
  run! res := call (Http method (BASE +:+ path) headers (option_map stringify body)) in
  let text := txt "text" res in
  let data := if bool_decide (text = "") then JNull else safeJson text in
  if negb (truthy (fld "ok" res)) then throw (api_error data (txt "statusText" res)) else ret data.

Definition api_get (path : string) (auth : bool) : M json := req "GET" path None None auth.
Definition api_post (path : string) (body : option json) (idempotencyKey : option string) : M json := req "POST" path body idempotencyKey true.
Definition api_patch (path : string) (body : option json) : M json := req "PATCH" path body None true.
Definition api_del (path : string) : M json := req "DELETE" path None None true.

(** [try { body } catch (e) { handler(e) } finally { setBusy(false) }] *)
Definition guarded (body : M unit) (handler : string -> M unit) : M unit :=
  run! _ := catch body handler in upd (set_busy false).

Definition refresh : M unit := run! _ := call (Refresh "my-notes") in run! _ := call (Refresh "activity") in ret tt.

(** A property read of a job's result: [job.result?.k]. *)
Definition result_field (k : string) (job : json) : json := fld k (fld "result" job).
Definition job_status (job : json) : string := match fld "status" job with JStr s => s | _ => "" end.
(** [v ? String(v) : undefined] as an object field *)
Definition text_if (k : string) (v : json) : list (string * json) := [(k, if truthy v then JStr (to_primitive v) else JNull)].
(** [String(v ?? "")], [undefined] counting as absent *)
Definition text_or_empty (v : json) : string := match v with JNull => "" | _ => to_primitive v end.

(** [v.k], a thrown error when [v] is null or missing *)
Definition member (k : string) (v : json) : result json :=
  match v with JNull => Err ("TypeError: Cannot read properties of null (reading '" +:+ k +:+ "')") | _ => Ok (fld k v) end.
(** A text on which a string method is called. *)
Definition as_text (v : json) : result string := match v with JStr s => Ok s | _ => Err "TypeError: not a function" end.

Definition running_step (i : nat) (d : option string) : M unit := upd (set_step i running d None).
Definition done_step (i : nat) (d t : option string) : M unit := upd (set_step i done d t).

(** ** Deposits (deposit/page.tsx) *)

Definition BURN_6DP : string := "505000".
Definition POLICY : string := "shade:default-testnet-policy:v1".

(** Digits become a bigint. *)
Definition coerce (a : json) : json :=
  match a with
  | JStr s => if negb (bool_decide (s = "")) && str_forall is_digit s then match BigInt s with Some z => JNum z | None => a end else a
  | _ => a
  end.

Definition deposit_plan : list Step :=
  map (fun l => {| label := l; st := idle; detail := None; tx := None |})
    ["Generate private note (server-assisted coinutils)"; "Prepare CCTP burn"; "Approve USDC (MetaMask)"; "Burn on Arbitrum (MetaMask)";
     "Shield on Stellar + ZK proof (backend)"].

(** A contract write as the API described it, and the wait for its receipt. *)
Definition write_request (name : string) (req gas : json) : M json :=
  run! to := lift (member "to" req) in
  run! args := lift (member "args" req) in
  match args with
  | JArr l =>
      run! hash := call (Wallet "writeContract" [JObj [("address", to); ("abi", fld "abi" req); ("functionName", JStr name);
                                                       ("args", JArr (map coerce l))]; gas]) in
      run! _ := call (Wallet "waitForTransactionReceipt" [hash]) in
      ret hash
  | _ => throw "TypeError: args.map is not a function"
  end.

Definition doubled (v : json) : result json := match v with JNum z => Ok (JNum (z * 2)) | _ => Err "TypeError: Cannot mix BigInt and other types" end.

(** Up to [n] looks at the relayer job, two seconds apart; nothing happens when
    they run out. *)
Fixpoint deposit_poll (n : nat) (job_id : string) : M unit :=
  match n with
  | O => ret tt
  | S n =>
      run! _ := call (Sleep 2000) in
      run! job := api_get ("/v1/jobs/" +:+ job_id) true in
      if bool_decide (job_status job = "ready") then
        let t := text_or_empty (result_field "receiveDepositTxHash" job) in
        run! _ := done_step 4 (Some ("note active · leaf " +:+ txt "leafIndex" (fld "result" job))) None in
        run! _ := upd (merge_zk ([("verifiedOnChain", JBool true); ("txHash", JStr t)]
                         ++ text_if "proofHex" (result_field "zkProof" job) ++ text_if "publicHex" (result_field "zkPublicSignals" job))%list) in
        refresh
      else if bool_decide (job_status job = "failed")
      then throw (match fld "error" job with JNull => "relayer job failed" | e => to_primitive e end)
      else deposit_poll n job_id
  end.

Definition deposit_body (sha256Hex : string -> string) (vault wallet : string) : M unit :=
  run! _ := running_step 0 None in
  run! coin := api_post "/v1/notes/coin" None None in
  run! commitment := lift (member "commitment" coin) in
  run! c := lift (as_text commitment) in
  run! _ := done_step 0 (Some (bytes_take 10 c +:+ "…")) None in
  run! _ := upd (merge_zk [("publicSignals", JArr [JObj [("label", JStr "commitment"); ("value", commitment)]])]) in
  run! _ := running_step 1 None in
  let policyHex := "0x" +:+ bytes_take 64 (sha256Hex POLICY) in
  run! key := newIdempotencyKey in
  run! prep := api_post "/v1/deposits/prepare"
    (Some (JObj [("amount_usdc_6dp", JStr BURN_6DP); ("source_chain", JStr "arbitrum-sepolia"); ("source_wallet_address", JStr wallet);
                 ("vault_id", JStr vault); ("commitment", commitment); ("encrypted_note_payload_hash", commitment); ("policy_id", JStr policyHex)]))
    (Some key) in
  run! deposit_id := lift (member "deposit_id" prep) in
  run! id := lift (as_text deposit_id) in
  run! _ := done_step 1 (Some (bytes_take 12 id)) None in
  run! _ := call (Wallet "switchChain" [JNum 421614]) in
  run! _ := call (Wallet "getEthereumProvider" []) in
  run! fee := call (Wallet "estimateFeesPerGas" []) in
  run! maxFee := lift (doubled (fld "maxFeePerGas" fee)) in
  let gas := JObj [("maxFeePerGas", maxFee); ("maxPriorityFeePerGas", fld "maxPriorityFeePerGas" fee)] in
  run! _ := running_step 2 (Some "confirm in MetaMask") in
  run! approveHash := write_request "approve" (fld "approval_tx_request" prep) gas in
  run! _ := done_step 2 None (Some (to_primitive approveHash)) in
  run! _ := running_step 3 (Some "confirm in MetaMask") in
  run! burnHash := write_request "depositForBurnWithHook" (fld "burn_tx_request" prep) gas in
  run! _ := done_step 3 None (Some (to_primitive burnHash)) in
  run! _ := running_step 4 None in
  run! sub := api_post ("/v1/deposits/" +:+ id +:+ "/burn-submitted")
    (Some (JObj [("burn_tx_hash", burnHash); ("source_chain", JStr "arbitrum-sepolia"); ("source_wallet_address", JStr wallet)])) None in
  run! job := lift (member "job_id" sub) in
  run! _ := upd (set_job (Some (to_primitive job))) in
  deposit_poll 240 (to_primitive job).

Definition fail_running (l : list Step) : list Step :=
  map (fun s => match st s with running => {| label := label s; st := failed; detail := detail s; tx := tx s |} | _ => s end) l.

Definition deposit_failed (e : string) : M unit :=
  run! _ := upd (set_error (Some e)) in upd (fun p => set_steps (fail_running (steps p)) p).

(** [run] of the page; [None] for a missing vault, user or wallet. *)
Definition deposit_run (sha256Hex : string -> string) (verifier : json) (vault user wallet : option string) : M unit :=
  match vault, wallet with
  | Some v, Some w =>
      if given user then
        run! _ := upd (set_busy true) in
        run! _ := upd (set_error None) in
        run! _ := upd (set_job None) in
        run! _ := upd (set_zk [("circuit", JStr "deposit_note_mint"); ("verifier", verifier)]) in
        run! _ := upd (set_steps deposit_plan) in
        guarded (deposit_body sha256Hex v w) deposit_failed
      else ret tt
  | _, _ => ret tt
  end.

(** ** Withdrawals and trades (move/page.tsx) *)

(** Up to [n] looks at the proof job. *)
Fixpoint withdraw_poll (n : nat) (job_id : string) : M (option Browser.WithdrawOpts) :=
  match n with
  | O => ret None
  | S n =>
      run! _ := call (Sleep 2000) in
      run! job := api_get ("/v1/jobs/" +:+ job_id) true in
      if bool_decide (job_status job = "ready") then
        let r := fld "result" job in
        let or_else a b := match fld a r with JNull => txt b r | v => to_primitive v end in
        let o := {| Browser.w_pool := txt "pool" r; Browser.recipient := txt "recipient" r;
                    Browser.proofHex := or_else "proofHex" "zkProof"; Browser.publicHex := or_else "publicHex" "zkPublicSignals" |} in
        run! _ := upd (merge_zk [("proving", JBool false); ("proofHex", JStr (Browser.proofHex o)); ("publicHex", JStr (Browser.publicHex o))]) in
        ret (Some o)
      else if bool_decide (job_status job = "failed")
      then throw (match fld "error" job with JNull => "withdraw prepare failed" | e => to_primitive e end)
      else withdraw_poll n job_id
  end.

Definition withdraw_body (commitment : string) : M unit :=
  run! res := api_post "/v1/withdrawals/assist" (Some (JObj [("commitment", JStr commitment); ("prepare", JBool true)])) None in
  run! job := lift (member "job_id" res) in
  run! _ := upd (set_job (Some (to_primitive job))) in
  run! prep := withdraw_poll 120 (to_primitive job) in
  match prep with
  | None => throw "withdraw prepare timed out"
  | Some o =>
      run! t := call (Freighter o) in
      run! _ := upd (set_sign (Some "recording")) in
      run! _ := api_post "/v1/withdrawals/mark-spent" (Some (JObj [("commitment", JStr commitment); ("tx_hash", t)])) None in
      run! _ := upd (set_done (Some t)) in
      run! _ := upd (set_sign None) in
      run! _ := upd (merge_zk [("proving", JBool false); ("verifiedOnChain", JBool true); ("txHash", t); ("nullifier", JStr commitment)]) in
      refresh
  end.

Definition withdraw_failed (e : string) : M unit :=
  run! _ := upd (set_error (Some e)) in
  run! _ := upd (merge_zk [("proving", JBool false)]) in
  upd (set_sign None).

Definition withdraw_run (verifier : json) (commitment : option string) : M unit :=
  if given commitment then
    let c := default "" commitment in
    run! _ := upd (fun p => set_sign None (set_done None (set_job None (set_error None (set_busy true p))))) in
    run! _ := upd (set_zk [("circuit", JStr "withdraw_public"); ("verifier", verifier); ("proving", JBool true);
                           ("publicSignals", JArr [JObj [("label", JStr "note"); ("value", JStr c)]])]) in
    guarded (withdraw_body c) withdraw_failed
  else ret tt.

Definition trade_signals (c committee : string) : json :=
  JArr (map (fun kv => JObj [("label", JStr kv.1); ("value", JStr kv.2)]) [("intent", c); ("output", "XLM"); ("committee", committee)]).

(** The events' statuses followed by the job's. *)
Definition job_statuses (job : json) : list string :=
  (match fld "events" job with JArr l => map (fun e => txt "status" e) l | _ => [] end ++ [txt "status" job])%list.

(** [estimate] is the text of the amount shown before the trade. *)
Fixpoint trade_poll (n : nat) (commitment estimate job_id : string) : M unit :=
  match n with
  | O => ret tt
  | S n =>
      run! _ := call (Sleep 2000) in
      run! job := api_get ("/v1/jobs/" +:+ job_id) true in
      run! _ := upd (set_statuses (job_statuses job)) in
      if bool_decide (job_status job = "ready") then
        let t := text_or_empty (result_field "txHash" job) in
        let specpure := truthy (result_field "onChainCommitteeVerify" job) in
        let xlm := match result_field "outputXlm" job with JNull => estimate | v => to_primitive v end in
        run! _ := upd (set_done (Some (JObj [("tx", JStr t); ("xlm", JStr xlm); ("specpure", JBool specpure)]))) in
        run! _ := upd (merge_zk ([("circuit", JStr (if specpure then "mpc_priced_settlement" else "rfq_atomic_swap")); ("proving", JBool false);
                         ("verifiedOnChain", JBool true); ("txHash", JStr t);
                         ("nullifier", JStr (match result_field "nullifierA" job with JNull => commitment | v => to_primitive v end))]
                         ++ text_if "proofHex" (result_field "zkProof" job) ++ text_if "publicHex" (result_field "zkPublicSignals" job)
                         ++ [("publicSignals", trade_signals commitment (if specpure then "3-node · verified on-chain" else "3-node threshold"))])%list) in
        refresh
      else if bool_decide (job_status job = "failed")
      then throw (match fld "error" job with JNull => "trade failed" | e => to_primitive e end)
      else trade_poll n commitment estimate job_id
  end.

Definition trade_body (commitment estimate : string) : M unit :=
  run! res := api_post "/v1/trade" (Some (JObj [("commitment", JStr commitment); ("private", JBool true)])) None in
  run! job := lift (member "job_id" res) in
  run! _ := upd (set_job (Some (to_primitive job))) in
  trade_poll 150 commitment estimate (to_primitive job).

Definition trade_failed (e : string) : M unit :=
  run! _ := upd (set_error (Some e)) in upd (merge_zk [("proving", JBool false)]).

Definition trade_run (verifier : json) (estimate : string) (commitment : option string) : M unit :=
  if given commitment then
    let c := default "" commitment in
    run! _ := upd (fun p => set_statuses ["queued"] (set_done None (set_job None (set_error None (set_busy true p))))) in
    run! _ := upd (set_zk [("circuit", JStr "mpc committee settlement"); ("verifier", verifier); ("proving", JBool true);
                           ("publicSignals", trade_signals c "3-node threshold")]) in
    guarded (trade_body c estimate) trade_failed
  else ret tt.

End Pages.

(** ** The stages of a trade *)

Inductive StageState := StageDone | StageActive | StageIdle.

Definition STAGES : list (string * list string) :=
  [("intent", ["queued"]); ("match", ["committee_matching"; "quoting"; "pinning_committee"]); ("zk", ["proving"]); ("settle", ["submitting"; "ready"])].

Definition reached (l : list string) (i : nat) : bool :=
  existsb (fun m => existsb (fun s => includes m s) l) (default [] (snd <$> STAGES !! i)).

(** [STAGES.reduce(...)]: the last stage reached, -1 for none. *)
Definition furthest (l : list string) : Z :=
  fold_left (fun acc i => if reached l i then Z.of_nat i else acc) (seq 0 (length STAGES)) (-1).

Definition stageState (i : nat) (l : list string) (done : bool) : StageState :=
  if done then StageDone
  else if reached l i then (if Z.of_nat i <? furthest l then StageDone else StageActive)
  else StageIdle.

(** ** Wallets and vaults *)

Record LinkedAccount := { a_type : option string; a_address : option string; chainType : option string; walletClientType : option string;
                          walletClient : option string; a_id : option string }.
Record SyncWallet := { wallet_type : string; wallet_source : string; chain : string; address : string; privy_wallet_id : option string }.

Definition wallet_of (a : LinkedAccount) : option SyncWallet :=
  if bool_decide (a_type a = Some "wallet") && given (a_address a) then
    let isEvm := bool_decide (default "ethereum" (chainType a) = "ethereum") in
    let client := match walletClientType a with Some c => Some c | None => walletClient a end in
    Some {| wallet_type := if isEvm then "EVM" else "STELLAR";
            wallet_source := if bool_decide (client = Some "privy") then "privy_embedded" else "external";
            chain := if isEvm then "arbitrum-sepolia" else "stellar-testnet"; address := default "" (a_address a); privy_wallet_id := a_id a |}
  else None.

Definition wallet_key (w : SyncWallet) : string := wallet_type w +:+ ":" +:+ toLowerCase (address w).

(** The filter with its set of keys seen. *)
Fixpoint dedupe (seen : list string) (l : list SyncWallet) : list SyncWallet :=
  match l with
  | [] => []
  | w :: l => if bool_decide (wallet_key w ∈ seen) then dedupe seen l else w :: dedupe (wallet_key w :: seen) l
  end.

Definition walletsFromPrivyUser (user : option (list LinkedAccount)) : list SyncWallet :=
  match user with None => [] | Some accounts => dedupe [] (omap wallet_of accounts) end.

Definition sync_json (w : SyncWallet) : json :=
  JObj ([("wallet_type", JStr (wallet_type w)); ("wallet_source", JStr (wallet_source w)); ("chain", JStr (chain w)); ("address", JStr (address w))]
        ++ match privy_wallet_id w with Some i => [("privy_wallet_id", JStr i)] | None => [] end).
(** The body of [useSyncWallets]. *)
Definition sync_body (l : list SyncWallet) : json := JObj [("wallets", JArr (map sync_json l))].

Record VaultSummary := { vs_vault_id : string; backup_status : string; recovery_policy_status : string }.
Definition isDepositReady (v : option VaultSummary) : bool :=
  match v with
  | Some v => bool_decide (backup_status v = "verified") &&
              (bool_decide (recovery_policy_status v = "sufficient") || bool_decide (recovery_policy_status v = "strong"))
  | None => false
  end.

(** ** What every handler does to its page *)

Section Effects.
Variable answer : list Call -> Call -> result json.
Variable BASE : string.

(** Computations that leave the page alone. *)
Definition quiet {A} (m : M A) : Prop := forall w, (m w).1.1 = w.1.

Lemma quiet_ret {A} (a : A) : quiet (ret a : M A).
Proof. done. Qed.
Lemma quiet_throw {A} e : quiet (throw e : M A).
Proof. done. Qed.
Lemma quiet_lift {A} (r : result A) : quiet (lift r : M A).
Proof. done. Qed.
Lemma quiet_call c : quiet (call answer c).
Proof. done. Qed.
Lemma quiet_bind {A B} (m : M A) (k : A -> M B) : quiet m -> (forall a, quiet (k a)) -> quiet (bindM m k).
Proof. intros Hm Hk w. unfold bindM. specialize (Hm w). destruct (m w) as [w1 [a|e]]; cbn in *; [by rewrite Hk|done]. Qed.
Lemma quiet_catch {A} (m : M A) d : quiet m -> (forall e, quiet (d e)) -> quiet (catch m d).
Proof. intros Hm Hd w. unfold catch. specialize (Hm w). destruct (m w) as [w1 [a|e]]; cbn in *; [done|by rewrite Hd]. Qed.

Create HintDb quiet.
#[local] Hint Resolve quiet_ret quiet_throw quiet_lift quiet_call quiet_bind quiet_catch : quiet.

Lemma quiet_token : quiet (getAccessToken answer).
Proof. unfold getAccessToken. auto 10 with quiet. Qed.

Lemma quiet_req method path body key auth : quiet (req answer BASE method path body key auth).
Proof.
  unfold req. apply quiet_bind; [destruct auth; [apply quiet_token|auto with quiet]|]. intros t. apply quiet_bind; [auto with quiet|].
  intros res. destruct (negb _); auto with quiet.
Qed.

Lemma quiet_write name r gas : quiet (write_request answer name r gas).
Proof.
  unfold write_request. apply quiet_bind; [auto with quiet|]. intros to. apply quiet_bind; [auto with quiet|]. intros args.
  destruct args; auto 10 with quiet.
Qed.

Lemma quiet_refresh : quiet (refresh answer).
Proof. unfold refresh. auto 10 with quiet. Qed.

Lemma quiet_key : quiet (newIdempotencyKey answer).
Proof. unfold newIdempotencyKey. auto 10 with quiet. Qed.

(** A quiet step of a run that succeeded. *)
Lemma after_quiet {A B} (m : M A) (k : A -> M B) w w' b : quiet m -> bindM m k w = (w', Ok b) ->
  exists a w1, k a w1 = (w', Ok b) /\ w1.1 = w.1.
Proof. intros Hq H. apply bindM_Ok in H as (a & w1 & Hm & H). exists a, w1. split; [done|]. specialize (Hq w). by rewrite Hm in Hq. Qed.

Lemma after_upd {B} f (k : unit -> M B) w w' b : bindM (upd f) k w = (w', Ok b) -> exists w1, k tt w1 = (w', Ok b) /\ w1.1 = f w.1.
Proof. intros H. by exists (f w.1, w.2). Qed.

(** ** Deposits *)

Definition sts (p : Page) : list StepStatus := map st (steps p).

Lemma sts_set_step i s d t p : sts (set_step i s d t p) = alter (fun _ => s) i (sts p).
Proof.
  unfold sts, set_step. cbn [steps set_steps]. generalize (steps p) as l. clear p. intros l. revert l.
  induction i as [|i IH]; intros [|x l]; try done. cbn. f_equal. apply IH.
Qed.

Definition shown (p : Page) : list StepStatus * option string * bool := (sts p, error p, busy p).

Lemma shown_set_step i s d t p : shown (set_step i s d t p) = (alter (fun _ => s) i (sts p), error p, busy p).
Proof. unfold shown. by rewrite sts_set_step. Qed.

(** The statuses after a successful deposit; the last look may have come too early. *)
Definition deposited (l : list StepStatus) : Prop := l = [done; done; done; done; done] \/ l = [done; done; done; done; running].

Lemma poll_shown n id w w' : shown w.1 = ([done; done; done; done; running], None, true) -> deposit_poll answer BASE n id w = (w', Ok tt) ->
  deposited (sts w'.1) /\ error w'.1 = None.
Proof.
  revert w. induction n as [|n IH]; intros w Hs H.
  - injection H as <-. injection Hs as -> -> _. split; [by right|done].
  - cbn [deposit_poll] in H. apply after_quiet in H as (x & w1 & H & E1); [|apply quiet_call].
    apply after_quiet in H as (job & w2 & H & E2); [|apply quiet_req]. rewrite <- E2 in E1. clear E2.
    destruct (bool_decide (job_status job = "ready")).
    + apply after_upd in H as (w3 & H & E3). apply after_upd in H as (w4 & H & E4). pose proof (quiet_refresh w4) as Eq. rewrite H in Eq. cbn in Eq.
      rewrite Eq, E4. unfold merge_zk, sts. cbn [steps set_zk error]. fold (sts w3.1). rewrite E3, sts_set_step, E1.
      injection Hs as Ha Hb _. cbn [error set_step set_steps]. rewrite Ha, Hb. split; [by left|done].
    + destruct (bool_decide (job_status job = "failed")); [done|]. apply (IH w2); [by rewrite E1|done].
Qed.

Lemma shown_same p q r : shown p = r -> q = p -> shown q = r.
Proof. by intros <- ->. Qed.
Lemma shown_step i s d t p q l e b : shown p = (l, e, b) -> q = set_step i s d t p -> shown q = (alter (fun _ => s) i l, e, b).
Proof. intros H ->. rewrite shown_set_step. by injection H as -> -> ->. Qed.
Lemma shown_zk l p q r : shown p = r -> q = merge_zk l p -> shown q = r.
Proof. by intros <- ->. Qed.
Lemma shown_job j p q r : shown p = r -> q = set_job j p -> shown q = r.
Proof. by intros <- ->. Qed.

(** One step of a run that succeeded, and what the page shows after it. *)
Ltac follow H Hs :=
  lazymatch type of H with
  | bindM _ _ _ = _ =>
      let E := fresh "E" in
      first [ apply after_quiet in H as (? & ? & H & E); [|first [apply quiet_call|apply quiet_req|apply quiet_key|apply quiet_write|apply quiet_lift]]
            | apply after_upd in H as (? & H & E) ];
      first [ apply (shown_same _ _ _ Hs) in E | apply (shown_step _ _ _ _ _ _ _ _ _ Hs) in E | apply (shown_zk _ _ _ _ Hs) in E
            | apply (shown_job _ _ _ _ Hs) in E ];
      clear Hs; rename E into Hs; cbv beta zeta in H
  end.

(** What a deposit that went through shows. *)
Lemma deposit_body_shown sha v w u u' : shown u.1 = ([idle; idle; idle; idle; idle], None, true) ->
  deposit_body answer BASE sha v w u = (u', Ok tt) -> deposited (sts u'.1) /\ error u'.1 = None.
Proof.
  intros Hs H. unfold deposit_body, running_step, done_step in H. repeat follow H Hs. by apply poll_shown in H.
Qed.

Lemma fail_running_none l : running ∉ map st (fail_running l).
Proof.
  unfold fail_running. rewrite map_map. intros (x & Hx & _)%list_elem_of_In%in_map_iff. revert Hx. by destruct (st x) eqn:E; cbn; rewrite ?E.
Qed.

Lemma given_Some (s : string) : s <> "" -> given (Some s) = true.
Proof. by destruct s. Qed.

(** ** Requests the API does not know *)

Lemma token_outcome w : exists t, getAccessToken answer w = ((w.1, (w.2 ++ [Token])%list), Ok t).
Proof.
  unfold getAccessToken, catch, bindM, call. destruct (answer w.2 Token) as [[| | |s| |]|e]; by eexists.
Qed.

(** Fastify's answer to an unknown route. *)
Definition not_found (msg : string) : json :=
  JObj [("message", JStr msg); ("error", JStr "Not Found"); ("statusCode", JNum 404)].
Definition refusal (msg : string) : json :=
  JObj [("ok", JBool false); ("status", JNum 404); ("statusText", JStr "Not Found"); ("text", JStr (stringify (not_found msg)))].

(** The server at [BASE] refuses what its table of routes does not list. *)
Definition serves_api : Prop := forall h method path headers body, Api.route_of method path = None ->
  exists msg, answer h (Http method (BASE +:+ path) headers body) = Ok (refusal msg).

Lemma post_refused path body key w : serves_api -> Api.route_of "POST" path = None ->
  exists headers, api_post answer BASE path body key w =
    ((w.1, (w.2 ++ [Token; Http "POST" (BASE +:+ path) headers (option_map stringify body)])%list), Err "Not Found").
Proof.
  intros Hs Hr. unfold api_post, req. destruct (token_outcome w) as [t Ht]. unfold bindM at 1. rewrite Ht. unfold bindM, call. cbn [fst snd].
  set (hs := ((match body with Some _ => _ | None => _ end ++ _ ++ _)%list : list (string * string))).
  destruct (Hs (w.2 ++ [Token])%list "POST" path hs (option_map stringify body) Hr) as [msg ->]. exists hs.
  change (txt "text" (refusal msg)) with (stringify (not_found msg)). rewrite bool_decide_false by done.
  assert (safeJson (stringify (not_found msg)) = not_found msg) as ->.
  { unfold safeJson. rewrite JSON_parse_stringify; [done|]. split; [apply (bool_decide_unpack _); by vm_compute|done]. }
  cbn. by rewrite <- app_assoc.
Qed.

(** A handler that stopped at its first request: the page shows the refusal,
    and nothing was called but the token getter and the API. *)
Definition refused_at (path : string) (w : W) (r : W * result unit) : Prop :=
  error r.1.1 = Some "Not Found" /\ busy r.1.1 = false /\
  exists headers body, r.1.2 = (w.2 ++ [Token; Http "POST" (BASE +:+ path) headers body])%list.

Lemma deposit_refused sha verifier v u wallet w : serves_api -> u <> "" ->
  refused_at "/v1/notes/coin" w (deposit_run answer BASE sha verifier (Some v) (Some u) (Some wallet) w).
Proof.
  intros Hs Hu. unfold deposit_run. rewrite given_Some by done. unfold guarded, catch, deposit_body, running_step, upd, bindM. cbn [fst snd].
  match goal with |- context [api_post _ _ _ _ _ ?x] => destruct (post_refused "/v1/notes/coin" None None x Hs ltac:(by vm_compute)) as [hs ->] end.
  split; [done|]. split; [done|]. by eexists _, _.
Qed.

Lemma withdraw_refused verifier c w : serves_api -> c <> "" ->
  refused_at "/v1/withdrawals/assist" w (withdraw_run answer BASE verifier (Some c) w).
Proof.
  intros Hs Hc. unfold withdraw_run. rewrite given_Some by done. unfold guarded, catch, withdraw_body, upd, bindM. cbn [fst snd default].
  match goal with |- context [api_post _ _ ?p ?b _ ?x] => destruct (post_refused p b None x Hs ltac:(by vm_compute)) as [hs ->] end.
  split; [done|]. split; [done|]. by eexists _, _.
Qed.

Lemma trade_refused verifier estimate c w : serves_api -> c <> "" ->
  refused_at "/v1/trade" w (trade_run answer BASE verifier estimate (Some c) w).
Proof.
  intros Hs Hc. unfold trade_run. rewrite given_Some by done. unfold guarded, catch, trade_body, upd, bindM. cbn [fst snd default].
  match goal with |- context [api_post _ _ ?p ?b _ ?x] => destruct (post_refused p b None x Hs ltac:(by vm_compute)) as [hs ->] end.
  split; [done|]. split; [done|]. by eexists _, _.
Qed.

End Effects.

(** ** The wallets sent to the API *)

Lemma dedupe_spec seen l :
  NoDup (map wallet_key (dedupe seen l)) /\ (forall w, w ∈ dedupe seen l -> w ∈ l /\ wallet_key w ∉ seen) /\
  (forall w, w ∈ l -> wallet_key w ∈ seen \/ wallet_key w ∈ map wallet_key (dedupe seen l)).
Proof.
  revert seen. induction l as [|x l IH]; intros seen; cbn [dedupe].
  { split_and!; [constructor|..]; intros w H; by apply elem_of_nil in H. }
  case_bool_decide as Hx.
  - destruct (IH seen) as (A & B & D). split_and!; [done| |].
    + intros w Hw. destruct (B w Hw). split; [by right|done].
    + intros w [->|Hw]%elem_of_cons; [by left|by apply D].
  - destruct (IH (wallet_key x :: seen)) as (A & B & D). cbn [map]. split_and!.
    + apply list.NoDup_cons. split; [|done]. intros (w & E & Hw)%elem_of_map_iff. destruct (B w Hw) as [_ Hn]. apply Hn. rewrite E. by left.
    + intros w [->|Hw]%elem_of_cons; [split; [by left|done]|]. destruct (B w Hw) as [? Hn]. split; [by right|]. intros ?. apply Hn. by right.
    + intros w [->|Hw]%elem_of_cons; [right; by left|]. destruct (D w Hw) as [[->|?]%elem_of_cons|?]; [right; by left|by left|right; by right].
Qed.

(** The address checks of the API, on the address the browser has. *)
Definition account_ok (w : SyncWallet) : Prop :=
  chain w <> "" /\ address w <> "" /\ wallet_type w ∈ ["EVM"; "STELLAR"] /\ wallet_source w ∈ ["privy_embedded"; "external"] /\
  (if bool_decide (wallet_type w = "EVM") then hex0x 40 (address w) else stellar_address (address w)) = true.

Lemma wallet_of_ok a w : wallet_of a = Some w ->
  chain w <> "" /\ address w <> "" /\ wallet_type w ∈ ["EVM"; "STELLAR"] /\ wallet_source w ∈ ["privy_embedded"; "external"].
Proof.
  unfold wallet_of. destruct (bool_decide _ && given (a_address a)) eqn:E; [|done]. apply andb_prop in E as [_ Hg]. intros [= <-].
  cbn [chain address wallet_type wallet_source].
  split_and!; [by destruct (bool_decide (default _ _ = _))|by destruct (a_address a) as [[]|]|
    destruct (bool_decide (default _ _ = _)); set_solver|destruct (bool_decide (_ = Some "privy")); set_solver].
Qed.

Lemma sync_wallet_accepted w : account_ok w ->
  zod_ref (ZObject [("wallet_type", ZEnum ["EVM"; "STELLAR"]);
                    ("wallet_source", ZOptional (ZEnum ["privy_embedded"; "external"; "freighter"; "legacy"])); ("chain", str1); ("address", str1);
                    ("privy_wallet_id", ZOptional (ZString []))]) (Some (sync_json w)) = Some (Some (sync_json w)).
Proof.
  intros (Hc & Ha & Ht & Hs & _). destruct w as [ty src ch ad i]. cbn [chain address wallet_type wallet_source privy_wallet_id] in *.
  unfold sync_json. cbn [chain address wallet_type wallet_source privy_wallet_id]. destruct ch as [|c0 ch]; [done|]. destruct ad as [|c1 ad]; [done|].
  repeat (apply elem_of_cons in Ht as [->|Ht]); try (by apply elem_of_nil in Ht);
    repeat (apply elem_of_cons in Hs as [->|Hs]); try (by apply elem_of_nil in Hs); by destruct i.
Qed.

Lemma array_accepted s l : l <> [] -> Forall (fun x => zod_ref s (Some x) = Some (Some x)) l ->
  zod_ref (ZArray s (Some 1%nat) None) (Some (JArr l)) = Some (Some (JArr l)).
Proof.
  intros Hne H. cbn [zod_ref check_bound]. destruct l as [|x0 l0]; [done|]. cbn [length Nat.leb andb].
  revert H. generalize (x0 :: l0). clear. intros l H.
  replace (map _ l) with (map Some l); [by rewrite all_some_map_id|]. induction H as [|x l Hx _ IH]; [done|]. cbn [map]. by rewrite IH, Hx.
Qed.

Lemma refine_accepted s p x : zod_ref s (Some x) = Some (Some x) -> p x = true -> zod_ref (ZRefine s p) (Some x) = Some (Some x).
Proof. intros E Hp. change (zod_ref (ZRefine s p) (Some x)) with (match zod_ref s (Some x) with Some (Some x) => if p x then Some (Some x) else None | _ => None end). by rewrite E, Hp. Qed.

(** ** The stages of a trade *)

Lemma furthest_spec l : match furthest l with
  | -1 => forall i, (i < 4)%nat -> reached l i = false
  | k => (0 <= k < 4) /\ reached l (Z.to_nat k) = true /\ forall i, (i < 4)%nat -> reached l i = true -> Z.of_nat i <= k
  end.
Proof.
  unfold furthest. cbn [length STAGES seq fold_left].
  destruct (reached l 0) eqn:E0, (reached l 1) eqn:E1, (reached l 2) eqn:E2, (reached l 3) eqn:E3; cbn;
    repeat split; try lia; try done; intros i Hi; (destruct i as [|[|[|[|]]]]; [..|lia]); intros; try lia; congruence.
Qed.

(** ** Examples *)

(** An API without the flows' routes: every request is refused. *)
Definition toy_refusing (h : list Call) (c : Call) : result json :=
  match c with Http _ _ _ _ => Ok (refusal "Route not found") | Token => Ok (JStr "token") | _ => Ok JNull end.

(** An API that answers everything, with the job ready at once. *)
Definition toy_accepting (h : list Call) (c : Call) : result json :=
  match c with
  | Http _ _ _ _ => Ok (JObj [("ok", JBool true); ("text", JStr (stringify (JObj
      [("commitment", JStr "0xabc"); ("deposit_id", JStr "dep-1"); ("job_id", JStr "job-1"); ("status", JStr "ready");
       ("approval_tx_request", JObj [("to", JStr "0x1"); ("args", JArr [JStr "5"])]);
       ("burn_tx_request", JObj [("to", JStr "0x2"); ("args", JArr [])])])))])
  | Wallet "estimateFeesPerGas" _ => Ok (JObj [("maxFeePerGas", JNum 7)])
  | Wallet "writeContract" _ => Ok (JStr "0xhash")
  | _ => Ok (JStr "x")
  end.

Definition blank : Page :=
  {| busy := false; steps := []; jobId := None; error := None; zk := []; doneTx := None; signStatus := None; statuses := [] |}.
Definition toy_sha (s : string) : string := s.

Definition toy_accounts : list LinkedAccount :=
  let a t d c w i := {| a_type := t; a_address := d; chainType := c; walletClientType := w; walletClient := None; a_id := i |} in
  [a (Some "email") None None None None; a (Some "wallet") (Some "0xAb00000000000000000000000000000000000000") None (Some "privy") (Some "w1");
   a (Some "wallet") (Some "0xab00000000000000000000000000000000000000") (Some "ethereum") (Some "metamask") None].

(** ** Properties *)

(** C30: the spending pages are dead ends.  Against a server that refuses the
    routes missing from the API's table, as Fastify does, shielding, withdrawing
    and trading all stop at their first request: the page shows "Not Found", is
    no longer busy, and neither the wallet nor the chain was ever asked. *)
Theorem web_flows_unrouted (answer : list Call -> Call -> result json) (BASE : string) (sha : string -> string) (verifier : json)
    (estimate v u wallet c : string) (w : W) :
  serves_api answer BASE -> u <> "" -> c <> "" ->
  refused_at BASE "/v1/notes/coin" w (deposit_run answer BASE sha verifier (Some v) (Some u) (Some wallet) w) /\
  refused_at BASE "/v1/withdrawals/assist" w (withdraw_run answer BASE verifier (Some c) w) /\
  refused_at BASE "/v1/trade" w (trade_run answer BASE verifier estimate (Some c) w).
Proof. intros Hs Hu Hc. split_and!; [by apply deposit_refused|by apply withdraw_refused|by apply trade_refused]. Qed.

(** C31: the deposit page settles.  Whatever the API, the wallets and the chain
    answer, a deposit leaves the page idle; after an error no step is shown as
    running; without one every step is done, except possibly the last, whose
    job may not have been ready at any of the looks. *)
Theorem deposit_page_settles (answer : list Call -> Call -> result json) (BASE : string) (sha : string -> string) (verifier : json)
    (v u wallet : string) (w : W) :
  u <> "" ->
  let p := (deposit_run answer BASE sha verifier (Some v) (Some u) (Some wallet) w).1.1 in
  busy p = false /\ match error p with Some _ => running ∉ sts p | None => deposited (sts p) end.
Proof.
  intros Hu. unfold deposit_run. rewrite given_Some by done. unfold guarded, deposit_failed, catch, upd, bindM. cbn [fst snd].
  match goal with |- context [deposit_body _ _ _ _ _ ?x] => set (w0 := x) end.
  pose proof (fun u' => deposit_body_shown answer BASE sha v wallet w0 u' eq_refl) as Hok.
  destruct (deposit_body answer BASE sha v wallet w0) as [w1 [[]|e]].
  - destruct (Hok w1 eq_refl) as [Hd He]. cbn. rewrite He. by split.
  - split; [done|]. apply fail_running_none.
Qed.

(** The wallets handed to the API.  They are the user's linked wallets,
    one for each kind and address up to case, none is lost, and a list of
    well-formed addresses is accepted by the API as it is. *)
Theorem synced_wallets_faithful (accounts : list LinkedAccount) :
  let l := walletsFromPrivyUser (Some accounts) in
  NoDup (map wallet_key l) /\ (forall w, w ∈ l -> exists a, a ∈ accounts /\ wallet_of a = Some w) /\
  (forall a w, a ∈ accounts -> wallet_of a = Some w -> wallet_key w ∈ map wallet_key l) /\
  (l <> [] -> Forall (fun w => (if bool_decide (wallet_type w = "EVM") then hex0x 40 (address w) else stellar_address (address w)) = true) l ->
   zod_ref syncPrivyWalletsSchema (Some (sync_body l)) = Some (Some (sync_body l))).
Proof.
  intros l. destruct (dedupe_spec [] (omap wallet_of accounts)) as (A & B & D). fold l in A, B, D.
  assert (forall w, w ∈ l -> exists a, a ∈ accounts /\ wallet_of a = Some w) as Hin.
  { intros w Hw. by destruct (B w Hw) as [(a & Ha & E)%list_elem_of_omap _]; exists a. }
  split_and!; [done|done| |].
  - intros a w Ha E. destruct (D w) as [H|H]; [apply list_elem_of_omap; by exists a|by apply elem_of_nil in H|done].
  - intros Hne Hok. unfold syncPrivyWalletsSchema, sync_body. apply object_accepted; [|by apply (bool_decide_unpack _); vm_compute].
    apply accepts_present; [|apply accepts_nil]. apply array_accepted; [by destruct l|]. apply Forall_map, list.Forall_forall. intros w Hw.
    destruct (Hin w Hw) as (a & _ & E). destruct (wallet_of_ok a w E) as (? & ? & ? & ?). rewrite list.Forall_forall in Hok.
    specialize (Hok w Hw). apply refine_accepted; [apply sync_wallet_accepted; by split_and!|exact Hok].
Qed.

(** The stages of a trade in progress: all before the last one reached are done
    or untouched, that one alone is active. *)
Lemma one_active_stage (l : list string) (i : nat) : (i < 4)%nat ->
  stageState i l false = StageActive <-> Z.of_nat i = furthest l.
Proof.
  intros Hi. unfold stageState. pose proof (furthest_spec l) as H. destruct (reached l i) eqn:E.
  - destruct (Z.ltb_spec (Z.of_nat i) (furthest l)) as [Hlt|Hge]; [split; [done|lia]|]. split; [intros _|done].
    destruct (furthest l) as [|k|k]; [destruct H as (_ & _ & H); specialize (H i Hi E); lia|destruct H as (_ & _ & H); specialize (H i Hi E); lia|].
    destruct k; try (destruct H; lia). by rewrite H in E.
  - split; [done|]. intros Ef. destruct (furthest l) as [|k|k]; [| |lia]; destruct H as (_ & H & _); rewrite <- Ef, Nat2Z.id in H; congruence.
Qed.

Lemma web_flows_unrouted_witness :
  refused_at "http://api" "/v1/notes/coin" (blank, []) (deposit_run toy_refusing "http://api" toy_sha JNull (Some "v") (Some "u") (Some "0x1") (blank, [])) /\
  refused_at "http://api" "/v1/withdrawals/assist" (blank, []) (withdraw_run toy_refusing "http://api" JNull (Some "c") (blank, [])) /\
  refused_at "http://api" "/v1/trade" (blank, []) (trade_run toy_refusing "http://api" JNull "0.5" (Some "c") (blank, [])).
Proof.
  apply (web_flows_unrouted toy_refusing "http://api" toy_sha JNull "0.5" "v" "u" "0x1" "c" (blank, [])); [|done|done].
  intros h method path headers body _. by exists "Route not found".
Defined.

Lemma deposit_page_settles_witness :
  let p := (deposit_run toy_accepting "http://api" toy_sha JNull (Some "v") (Some "u") (Some "0x1") (blank, [])).1.1 in
  error p = None /\ sts p = [done; done; done; done; done] /\
  (busy p = false /\ match error p with Some _ => running ∉ sts p | None => deposited (sts p) end).
Proof.
  split; [vm_compute; reflexivity|]. split; [vm_compute; reflexivity|].
  apply (deposit_page_settles toy_accepting "http://api" toy_sha JNull "v" "u" "0x1" (blank, [])). done.
Defined.

End WebPages.
