(* ===== verification/Evm.v ===== *)
(** What the Arc contracts (contracts/arc/src) share: machine words with
    Solidity's checked arithmetic, the context of a call, the code outside the
    repository they call, the registry of spent nullifiers
    (NullifierRegistry.sol) and the committee threshold (CommitteeRegistry.sol).

    A revert is [Err] with the name of the error; a reverted transaction leaves
    no trace, so an operation returns its new state only when it succeeds. *)

From S2P Require Import Prelude Text Committee.
Local Open Scope string_scope.
Local Open Scope Z_scope.

Definition Address := Z.

(** ** Words *)

Definition u256 (x : Z) : Prop := 0 <= x < 2 ^ 256.

(** The explicit conversions [int256(x)] and [uint32(x)] wrap around. *)
Definition int256 (x : Z) : Z := (x + 2 ^ 255) mod 2 ^ 256 - 2 ^ 255.
Definition uint32 (x : Z) : Z := x mod 2 ^ 32.

(** Arithmetic reverts on overflow. *)
Definition checked (lo hi x : Z) : result Z :=
  if (lo <=? x) && (x <? hi) then Ok x else Err "Panic(0x11)".
Definition ucheck : Z -> result Z := checked 0 (2 ^ 256).
Definition icheck : Z -> result Z := checked (- 2 ^ 255) (2 ^ 255).

Lemma ucheck_Ok x y : ucheck x = Ok y <-> x = y /\ u256 x.
Proof.
  unfold ucheck, checked, u256. destruct (Z.leb_spec 0 x), (Z.ltb_spec x (2 ^ 256)); cbn;
    (split; [intros [= ->]; lia|intros [-> ?]]); done || lia.
Qed.
Lemma icheck_Ok x y : icheck x = Ok y <-> x = y /\ - 2 ^ 255 <= x < 2 ^ 255.
Proof.
  unfold icheck, checked. destruct (Z.leb_spec (- 2 ^ 255) x), (Z.ltb_spec x (2 ^ 255)); cbn;
    (split; [intros [= ->]; lia|intros [-> ?]]); done || lia.
Qed.
Lemma int256_id x : - 2 ^ 255 <= x < 2 ^ 255 -> int256 x = x.
Proof. intros Hx. unfold int256. rewrite Z.mod_small; lia. Qed.

(** ** Inverting successful operations *)

Lemma guard_Ok {A} (b : bool) m (k : result A) x : (if b then Err m else k) = Ok x <-> b = false /\ k = Ok x.
Proof. destruct b; naive_solver. Qed.

(** Peel the guards and the bound calls off a successful operation. *)
Ltac peel H :=
  repeat (cbv zeta in H; match type of H with
  | (if _ then Err _ else _) = Ok _ => apply guard_Ok in H as [? H]
  | rbind _ _ = Ok _ => let E := fresh "E" in apply rbind_Ok in H as (? & E & H); peel E
  | (match ?r with (_, _) => _ end) = Ok _ => destruct r
  | Ok _ = Ok _ => injection H as H; subst
  end).

(** ** Calldata *)

(** [pub[k]] of a fixed-size calldata array. *)
Definition pub_at (pub : list Z) (k : nat) : Z := default 0 (pub !! k).

(** The bytes of [abi.encodePacked] for a word of [n] bytes. *)
Fixpoint bytesBE (n : nat) (x : Z) : list Z :=
  match n with O => [] | S n => (x / 2 ^ (8 * Z.of_nat n)) mod 256 :: bytesBE n x end.

(** ** The caller *)

(** Role membership is OpenZeppelin's AccessControl: the context says which
    roles the sender holds. *)
Record Ctx := { sender : Address; block_number : Z; hasRole : string -> bool }.

Notation "'only_role' r 'of' c 'in' k" := (if negb (hasRole c r) then Err "AccessControlUnauthorizedAccount" else k)
  (at level 10, r at level 100, c at level 100, k at level 200) : shade_scope.
Notation "'when_not_paused' p 'in' k" := (if (p : bool) then Err "EnforcedPause" else k)
  (at level 10, p at level 100, k at level 200) : shade_scope.

(** ** Code outside the repository *)

(** A call of [depositForBurn]. *)
Record BurnCall := {
  bc_amount : Z; bc_destinationDomain : Z; bc_mintRecipient : Z; bc_burnToken : Address;
  bc_destinationCaller : Z; bc_maxFee : Z; bc_minFinalityThreshold : Z }.

(** ERC-20 tokens (through SafeERC20) and Circle's TokenMessenger, over one
    state of all balances and allowances. *)
Class Erc20 := {
  Tokens : Type;
  balanceOf : Tokens -> Address -> Address -> Z;                         (** token, owner *)
  safeTransfer : Tokens -> Address -> Address -> Address -> Z -> result Tokens;  (** token, from, to *)
  forceApprove : Tokens -> Address -> Address -> Address -> Z -> result Tokens;  (** token, owner, spender *)
  depositForBurn : Tokens -> Address -> Address -> BurnCall -> result Tokens     (** messenger, caller *)
}.

(** A transfer or a burn touches only its own token, and takes no more than its
    amount from its sender; an approval changes no balance. *)
Class Erc20Laws (E : Erc20) : Prop := {
  transfer_other : forall t tok from to amt t' tok' who,
    safeTransfer t tok from to amt = Ok t' -> tok' <> tok -> balanceOf t' tok' who = balanceOf t tok' who;
  approve_balance : forall t tok owner sp amt t' tok' who,
    forceApprove t tok owner sp amt = Ok t' -> balanceOf t' tok' who = balanceOf t tok' who;
  burn_other : forall t m caller b t' tok' who,
    depositForBurn t m caller b = Ok t' -> tok' <> bc_burnToken b -> balanceOf t' tok' who = balanceOf t tok' who;
  transfer_takes : forall t tok from to amt t',
    safeTransfer t tok from to amt = Ok t' -> 0 <= amt -> balanceOf t tok from - amt <= balanceOf t' tok from;
  burn_takes : forall t m caller b t',
    depositForBurn t m caller b = Ok t' -> 0 <= bc_amount b ->
    balanceOf t (bc_burnToken b) caller - bc_amount b <= balanceOf t' (bc_burnToken b) caller
}.

(** The verifier contracts (generated by snarkjs, one address per circuit), the
    Ed25519 verifier contract and the SHA-256 precompile.  The call of an
    address without code reverts. *)
Class Precompiles := {
  Groth16Proof : Type;
  verifyProof : Address -> Groth16Proof -> list Z -> result bool;
  ed25519_verify : Address -> Z -> list Z -> string -> result bool;
  sha256_word : list Z -> Z
}.

Section Hashes.
Context {PC : Precompiles}.

(** [_hashToField], [_hashToFieldU] and [_addressHash]. *)
Definition hashToField (h : Z) : Z := Z.shiftr (sha256_word (bytesBE 32 h)) 8.
Definition addressHash (a : Address) : Z := Z.shiftr (sha256_word (bytesBE 20 a)) 8.
End Hashes.

(** ** NullifierRegistry.sol *)

Module NullifierRegistry.

Inductive RegistryEvent :=
| NullifierSpent (spender : Address) (nullifier : Z)
| AuthorizedSpenderSet (spender : Address) (allowed : bool).

Record Registry := { authorized : gset Address; spent : gset Z; rpaused : bool; rlog : list RegistryEvent }.

Definition newRegistry : Registry := {| authorized := ∅; spent := ∅; rpaused := false; rlog := [] |}.

Definition setAuthorizedSpender (c : Ctx) (spender : Address) (allowed : bool) (r : Registry) : result Registry :=
  only_role "ADMIN_ROLE" of c in
  Ok {| authorized := if allowed then {[spender]} ∪ authorized r else authorized r ∖ {[spender]};
        spent := spent r; rpaused := rpaused r; rlog := (rlog r ++ [AuthorizedSpenderSet spender allowed])%list |}.

Definition isSpent (r : Registry) (n : Z) : bool := bool_decide (n ∈ spent r).

Definition spend (caller : Address) (n : Z) (r : Registry) : result Registry :=
  when_not_paused rpaused r in
  throw_if negb (bool_decide (caller ∈ authorized r)) with "UnauthorizedSpender" in
  throw_if isSpent r n with "NullifierAlreadySpent" in
  Ok {| authorized := authorized r; spent := {[n]} ∪ spent r; rpaused := rpaused r;
        rlog := (rlog r ++ [NullifierSpent caller n])%list |}.

Definition pause (c : Ctx) (r : Registry) : result Registry :=
  only_role "ADMIN_ROLE" of c in when_not_paused rpaused r in
  Ok {| authorized := authorized r; spent := spent r; rpaused := true; rlog := rlog r |}.

Definition unpause (c : Ctx) (r : Registry) : result Registry :=
  only_role "ADMIN_ROLE" of c in
  throw_if negb (rpaused r) with "ExpectedPause" in
  Ok {| authorized := authorized r; spent := spent r; rpaused := false; rlog := rlog r |}.

Lemma spend_Ok caller n r r' : spend caller n r = Ok r' <->
  rpaused r = false /\ caller ∈ authorized r /\ n ∉ spent r /\
  r' = {| authorized := authorized r; spent := {[n]} ∪ spent r; rpaused := rpaused r;
        rlog := (rlog r ++ [NullifierSpent caller n])%list |}.
Proof.
  unfold spend, isSpent. destruct (rpaused r); [naive_solver|]. do 2 case_bool_decide; cbn [negb]; naive_solver.
Qed.

End NullifierRegistry.

(** ** CommitteeRegistry.sol *)

Module CommitteeLib.
Section CommitteeLib.
Context {PC : Precompiles}.

Fixpoint verify_signers (committee : list Z) (ed25519 : Address) (msgBytes : list Z)
    (signerPubkeys : list Z) (signatures : list string) (seen : list Z) : result nat :=
  match signerPubkeys with
  | [] => Ok O
  | pk :: pks =>
      throw_if negb (bool_decide (pk ∈ committee)) with "MpcUnknownSigner" in
      throw_if bool_decide (pk ∈ seen) with "MpcDuplicateSigner" in
      match signatures with
      | [] => Err "Panic(0x32)"
      | sg :: sgs =>
          let! ok := ed25519_verify ed25519 pk msgBytes sg in
          throw_if negb ok with "MpcSignatureInvalid" in
          let! n := verify_signers committee ed25519 msgBytes pks sgs (seen ++ [pk])%list in
          Ok (S n)
      end
  end.

(** [2 * n + 2] of a list length does not overflow. *)
Definition verifyThreshold (committee : list Z) (ed25519 : Address) (batchHash : Z)
    (signerPubkeys : list Z) (signatures : list string) : result unit :=
  let n := length committee in
  throw_if Nat.eqb n 0 with "CommitteeNotInitialized" in
  let threshold := ((n * 2 + 2) / 3)%nat in
  throw_if Nat.ltb (length signerPubkeys) threshold || Nat.ltb (length signatures) threshold with "MpcThreshold" in
  let! verified := verify_signers committee ed25519 (bytesBE 32 batchHash) signerPubkeys signatures [] in
  throw_if Nat.ltb verified threshold with "MpcThreshold" in
  Ok tt.

End CommitteeLib.
End CommitteeLib.
