(* ===== verification/ArcPool.v ===== *)
(** The shielded pool on Arc (contracts/arc/src/ShieldedPool.sol).

    The state of all contracts is one [World]: the pool with its tree, the
    nullifier registry, the escrow of the payment channels ([ArcEscrow]), the
    tokens and the log of events.  Every external function is a definition over
    the world with the checks in the order of the source. *)

From S2P Require Import Prelude Text Merkle Evm.
Local Open Scope string_scope.
Local Open Scope Z_scope.

(** ** State *)

(** One verifier contract per circuit. *)
Inductive Circuit := CWithdraw | CTransfer | CDeposit | CMpc | CPriced | COpen | CSettle.
#[global] Instance Circuit_eq_dec : EqDecision Circuit.
Proof. solve_decision. Defined.

Record Pool := {
  tree : Frontier;
  poolId : Z; chainId : Z;
  pverifier : Circuit -> Address;
  associationRoot : Z; associationRootVersion : Z;
  assetToken : gmap Z Address;
  noteSupplyOf : gmap Z Z;
  committee : list Z;
  ed25519Verifier : Address;
  authorizedSolver : gset Z;
  cctpOutboundDomain : Z; tokenMessenger : Address; usdcToken : Address;
  depositUsed : gset Z;
  authorizedStreamContract : gset Address;
  ppaused : bool
}.

Record Channel := {
  payerAx : Z; payerAy : Z; cap : Z; expiry : Z; reclaimCommitment : Z; ch_assetId : Z; opened : bool; consumed : bool }.

Record Escrow := {
  everifier : Circuit -> Address; challengeWindow : Z; channels : gmap Z Channel; epaused : bool }.

Inductive Event :=
| EvDeposit (sourceDomain cctpNonce assetId amount commitment : Z) (leafIndex : nat) (newRoot : Z)
| EvWithdraw (to : Address) (nullifierHash net relayerFee : Z)
| EvTransfer (nullifierHash outputCommitment : Z) (leafIndex : nat) (newRoot : Z)
| EvMpcSettled (batchHash nullifierA nullifierB outputCommitmentA outputCommitmentB newRoot : Z)
| EvRfqSettled (quoteHash : Z) (toSolver : Address) (nullifierHash credit : Z)
| EvCctpExit (destinationDomain : Z) (to : Address) (nullifierHash amount : Z)
| EvAssetRegistered (assetId : Z) (token : Address)
| EvAssociationRootSet (root version : Z)
| EvCommitteeSet (size : Z)
| EvStreamContractSet (streamContract : Address) (allowed : bool)
| EvChannelOpened (channelId cap expiry changeCommitment : Z)
| EvChannelSettled (channelId cumulative payeeCommitment refundCommitment : Z)
| EvChannelReclaimed (channelId cap reclaimCommitment : Z).

(** The addresses of the two contracts. *)
Class Deployed := { poolAddr : Address; escrowAddr : Address }.

Record World `{Erc20} := {
  pool : Pool; registry : NullifierRegistry.Registry; escrow : Escrow; tokens : Tokens; logs : list Event }.

Definition set_pool `{Erc20} (p : Pool) (w : World) : World :=
  {| pool := p; registry := registry w; escrow := escrow w; tokens := tokens w; logs := logs w |}.
Definition set_registry `{Erc20} (r : NullifierRegistry.Registry) (w : World) : World :=
  {| pool := pool w; registry := r; escrow := escrow w; tokens := tokens w; logs := logs w |}.
Definition set_escrow `{Erc20} (e : Escrow) (w : World) : World :=
  {| pool := pool w; registry := registry w; escrow := e; tokens := tokens w; logs := logs w |}.
Definition set_tokens `{Erc20} (t : Tokens) (w : World) : World :=
  {| pool := pool w; registry := registry w; escrow := escrow w; tokens := t; logs := logs w |}.
Definition emit `{Erc20} (e : Event) (w : World) : World :=
  {| pool := pool w; registry := registry w; escrow := escrow w; tokens := tokens w; logs := (logs w ++ [e])%list |}.

(** Updates of the pool's storage, one per group of slots. *)
Definition set_tree (t : Frontier) (p : Pool) : Pool :=
  {| tree := t; poolId := poolId p; chainId := chainId p; pverifier := pverifier p; associationRoot := associationRoot p;
     associationRootVersion := associationRootVersion p; assetToken := assetToken p; noteSupplyOf := noteSupplyOf p;
     committee := committee p; ed25519Verifier := ed25519Verifier p; authorizedSolver := authorizedSolver p;
     cctpOutboundDomain := cctpOutboundDomain p; tokenMessenger := tokenMessenger p; usdcToken := usdcToken p;
     depositUsed := depositUsed p; authorizedStreamContract := authorizedStreamContract p; ppaused := ppaused p |}.
Definition set_assets (tok : gmap Z Address) (sup : gmap Z Z) (p : Pool) : Pool :=
  {| tree := tree p; poolId := poolId p; chainId := chainId p; pverifier := pverifier p; associationRoot := associationRoot p;
     associationRootVersion := associationRootVersion p; assetToken := tok; noteSupplyOf := sup;
     committee := committee p; ed25519Verifier := ed25519Verifier p; authorizedSolver := authorizedSolver p;
     cctpOutboundDomain := cctpOutboundDomain p; tokenMessenger := tokenMessenger p; usdcToken := usdcToken p;
     depositUsed := depositUsed p; authorizedStreamContract := authorizedStreamContract p; ppaused := ppaused p |}.
Definition set_association (root version : Z) (p : Pool) : Pool :=
  {| tree := tree p; poolId := poolId p; chainId := chainId p; pverifier := pverifier p; associationRoot := root;
     associationRootVersion := version; assetToken := assetToken p; noteSupplyOf := noteSupplyOf p;
     committee := committee p; ed25519Verifier := ed25519Verifier p; authorizedSolver := authorizedSolver p;
     cctpOutboundDomain := cctpOutboundDomain p; tokenMessenger := tokenMessenger p; usdcToken := usdcToken p;
     depositUsed := depositUsed p; authorizedStreamContract := authorizedStreamContract p; ppaused := ppaused p |}.
Definition set_guards (used : gset Z) (streams : gset Address) (pause : bool) (p : Pool) : Pool :=
  {| tree := tree p; poolId := poolId p; chainId := chainId p; pverifier := pverifier p; associationRoot := associationRoot p;
     associationRootVersion := associationRootVersion p; assetToken := assetToken p; noteSupplyOf := noteSupplyOf p;
     committee := committee p; ed25519Verifier := ed25519Verifier p; authorizedSolver := authorizedSolver p;
     cctpOutboundDomain := cctpOutboundDomain p; tokenMessenger := tokenMessenger p; usdcToken := usdcToken p;
     depositUsed := used; authorizedStreamContract := streams; ppaused := pause |}.
Definition set_config (vf : Circuit -> Address) (com : list Z) (ed : Address) (sol : gset Z) (dom : Z) (msgr usdc : Address)
    (p : Pool) : Pool :=
  {| tree := tree p; poolId := poolId p; chainId := chainId p; pverifier := vf; associationRoot := associationRoot p;
     associationRootVersion := associationRootVersion p; assetToken := assetToken p; noteSupplyOf := noteSupplyOf p;
     committee := com; ed25519Verifier := ed; authorizedSolver := sol;
     cctpOutboundDomain := dom; tokenMessenger := msgr; usdcToken := usdc;
     depositUsed := depositUsed p; authorizedStreamContract := authorizedStreamContract p; ppaused := ppaused p |}.

Definition OP_WITHDRAW_PUBLIC : Z := 1.
Definition OP_WITHDRAW_CCTP : Z := 2.
Definition OP_RFQ_SETTLEMENT : Z := 3.
Definition OP_DEPOSIT_NOTE_MINT : Z := 4.

Module ShieldedPool.
Section ShieldedPool.
Context {HP : Poseidon} {ER : Erc20} {PC : Precompiles} {DP : Deployed}.

(** ** Internal helpers *)

Definition getAssetToken (p : Pool) (assetId : Z) : result Address :=
  let t := default 0 (assetToken p !! assetId) in
  throw_if t =? 0 with "UnknownAsset" in Ok t.

Definition noteSupply (p : Pool) (assetId : Z) : Z := default 0 (noteSupplyOf p !! assetId).

Definition vaultBalance (w : World) (assetId : Z) : result Z :=
  let! t := getAssetToken (pool w) assetId in Ok (balanceOf (tokens w) t poolAddr).

Definition proofOfReserves (w : World) (assetId : Z) : result (Z * Z) :=
  let! b := vaultBalance w assetId in Ok (noteSupply (pool w) assetId, b).

Definition adjustNoteSupply (assetId delta : Z) (w : World) : result World :=
  let p := pool w in
  throw_if default 0 (assetToken p !! assetId) =? 0 with "UnknownAsset" in
  let! next := icheck (noteSupply p assetId + delta) in
  throw_if next <? 0 with "SupplyUnderflow" in
  let! balance := vaultBalance w assetId in
  throw_if next >? balance with "ReserveBroken" in
  Ok (set_pool (set_assets (assetToken p) (<[assetId := next]> (noteSupplyOf p)) p) w).

Definition checkDomainCompliance (p : Pool) (assocIn poolIn chainIn : Z) : result unit :=
  throw_if negb (poolIn =? poolId p) || negb (chainIn =? chainId p) with "WrongDomain" in
  throw_if negb (assocIn =? associationRoot p) with "WrongAssociation" in
  Ok tt.

Definition insert_leaf (leaf : Z) (w : World) : result (World * nat) :=
  let! r := insert (tree (pool w)) leaf in
  Ok (set_pool (set_tree r.1 (pool w)) w, r.2).

Definition check_proof (v : Address) (pf : Groth16Proof) (pub : list Z) (msg : string) : result unit :=
  let! ok := verifyProof v pf pub in
  throw_if negb ok with msg in Ok tt.

Definition spend_nullifier (caller : Address) (n : Z) (w : World) : result World :=
  let! r := NullifierRegistry.spend caller n (registry w) in Ok (set_registry r w).

(** ** Deposit *)

Definition receiveDeposit (c : Ctx) (sourceDomain cctpNonce : Z) (token : Address)
    (amount commitment encryptedNotePayloadHash policyId : Z) (pf : Groth16Proof) (pub : list Z)
    (w : World) : result World :=
  let p := pool w in
  when_not_paused ppaused p in
  only_role "REGISTRAR_ROLE" of c in
  throw_if amount =? 0 with "BadAmount" in
  throw_if bool_decide (cctpNonce ∈ depositUsed p) with "DuplicateDeposit" in
  throw_if negb (pub_at pub 0 =? commitment) with "WrongCommitment" in
  throw_if negb (int256 (pub_at pub 1) =? OP_DEPOSIT_NOTE_MINT) with "WrongOperation" in
  throw_if negb (pub_at pub 2 =? sourceDomain) with "WrongDepositField" in
  throw_if negb (pub_at pub 7 =? amount) with "WrongDepositField" in
  throw_if pub_at pub 5 =? 0 with "WrongDepositField" in
  throw_if pub_at pub 6 =? 0 with "WrongDepositField" in
  let! scaled := ucheck (pub_at pub 6 * 10) in
  throw_if scaled <? amount with "WrongDepositField" in
  throw_if negb (hashToField cctpNonce =? pub_at pub 4) with "WrongDepositField" in
  throw_if negb (hashToField encryptedNotePayloadHash =? pub_at pub 10) with "WrongDepositField" in
  throw_if negb (hashToField policyId =? pub_at pub 11) with "WrongDepositField" in
  throw_if negb (addressHash token =? pub_at pub 8) with "WrongDepositField" in
  throw_if negb (addressHash poolAddr =? pub_at pub 9) with "WrongDepositField" in
  throw_if negb (pub_at pub 12 =? poolId p) || negb (pub_at pub 13 =? chainId p) with "WrongDomain" in
  let! _ := check_proof (pverifier p CDeposit) pf pub "ProofInvalid" in
  let! r := insert_leaf commitment w in
  let '(w, leafIndex) := r in
  let p := pool w in
  let w := set_pool (set_guards ({[cctpNonce]} ∪ depositUsed p) (authorizedStreamContract p) (ppaused p) p) w in
  let! w := adjustNoteSupply (pub_at pub 8) (int256 amount) w in
  Ok (emit (EvDeposit sourceDomain cctpNonce (pub_at pub 8) amount commitment leafIndex (getRoot (tree (pool w)))) w).

(** ** Withdrawals *)

(** [-int256(x)] reverts on the least integer. *)
Definition neg_int256 (x : Z) : result Z := icheck (- int256 x).

(** Paying out of the pool: the balance check and the transfer. *)
Definition pay_out (assetId : Z) (to : Address) (amount : Z) (w : World) : result World :=
  let! token := getAssetToken (pool w) assetId in
  throw_if balanceOf (tokens w) token poolAddr <? amount with "InsufficientBalance" in
  let! t := safeTransfer (tokens w) token poolAddr to amount in
  Ok (set_tokens t w).

Definition withdraw (c : Ctx) (to : Address) (pf : Groth16Proof) (pub : list Z) (w : World) : result World :=
  let p := pool w in
  when_not_paused ppaused p in
  let nullifierHash := pub_at pub 0 in
  let withdrawnValue := pub_at pub 2 in
  let relayerFee := pub_at pub 4 in
  throw_if negb (int256 (pub_at pub 1) =? OP_WITHDRAW_PUBLIC) with "WrongOperation" in
  throw_if (withdrawnValue =? 0) || (relayerFee >? withdrawnValue) with "BadAmount" in
  throw_if block_number c >? pub_at pub 5 with "Expired" in
  throw_if negb (pub_at pub 3 =? addressHash to) with "WrongRecipient" in
  let! _ := checkDomainCompliance p (pub_at pub 7) (pub_at pub 8) (pub_at pub 9) in
  throw_if negb (isKnownRoot (tree p) (pub_at pub 6)) with "UnknownRoot" in
  let! _ := check_proof (pverifier p CWithdraw) pf pub "ProofInvalid" in
  let! w := spend_nullifier poolAddr nullifierHash w in
  let! net := ucheck (withdrawnValue - relayerFee) in
  let! w := pay_out (pub_at pub 17) to net w in
  let! delta := neg_int256 withdrawnValue in
  let! w := adjustNoteSupply (pub_at pub 17) delta w in
  Ok (emit (EvWithdraw to nullifierHash net relayerFee) w).

(** ** Private transfer *)

Definition privateTransferSettle (c : Ctx) (pf : Groth16Proof) (pub : list Z) (w : World) : result World :=
  let p := pool w in
  when_not_paused ppaused p in
  only_role "REGISTRAR_ROLE" of c in
  throw_if negb (pub_at pub 4 =? associationRoot p) with "WrongAssociation" in
  throw_if negb (pub_at pub 5 =? poolId p) || negb (pub_at pub 6 =? chainId p) with "WrongDomain" in
  throw_if negb (isKnownRoot (tree p) (pub_at pub 3)) with "UnknownRoot" in
  let! _ := check_proof (pverifier p CTransfer) pf pub "ProofInvalid" in
  let! w := spend_nullifier poolAddr (pub_at pub 0) w in
  let! r := insert_leaf (pub_at pub 1) w in
  let '(w, leafIndex) := r in
  Ok (emit (EvTransfer (pub_at pub 0) (pub_at pub 1) leafIndex (getRoot (tree (pool w)))) w).

(** ** RFQ settlement *)

Definition rfqSettle (c : Ctx) (toSolver : Address) (quoteHash intentHash fillReceiptHash solverPubkey : Z)
    (solverSig : string) (pf : Groth16Proof) (pub : list Z) (w : World) : result World :=
  let p := pool w in
  when_not_paused ppaused p in
  throw_if negb (bool_decide (solverPubkey ∈ authorizedSolver p)) with "UnauthorizedSolver" in
  let! ok := ed25519_verify (ed25519Verifier p) solverPubkey (bytesBE 32 quoteHash) solverSig in
  throw_if negb ok with "SolverSigInvalid" in
  throw_if negb (int256 (pub_at pub 1) =? OP_RFQ_SETTLEMENT) with "WrongOperation" in
  let credit := pub_at pub 2 in
  throw_if (credit =? 0) || (pub_at pub 4 >? credit) with "BadAmount" in
  throw_if block_number c >? pub_at pub 5 with "Expired" in
  throw_if negb (hashToField quoteHash =? pub_at pub 10) with "WrongQuote" in
  throw_if negb (hashToField intentHash =? pub_at pub 11) with "WrongIntent" in
  throw_if negb (hashToField fillReceiptHash =? pub_at pub 12) with "WrongFillReceipt" in
  let! _ := checkDomainCompliance p (pub_at pub 7) (pub_at pub 8) (pub_at pub 9) in
  throw_if negb (isKnownRoot (tree p) (pub_at pub 6)) with "UnknownRoot" in
  let! _ := check_proof (pverifier p CWithdraw) pf pub "ProofInvalid" in
  let! w := spend_nullifier poolAddr (pub_at pub 0) w in
  let! w := pay_out (pub_at pub 17) toSolver credit w in
  let! delta := neg_int256 credit in
  let! w := adjustNoteSupply (pub_at pub 17) delta w in
  Ok (emit (EvRfqSettled quoteHash toSolver (pub_at pub 0) credit) w).

(** ** Withdrawal over CCTP *)

Definition withdrawCctp (c : Ctx) (to : Address) (destinationRecipient maxFee minFinalityThreshold : Z)
    (pf : Groth16Proof) (pub : list Z) (w : World) : result World :=
  let p := pool w in
  when_not_paused ppaused p in
  let amount := pub_at pub 2 in
  throw_if amount =? 0 with "BadAmount" in
  throw_if negb (int256 (pub_at pub 1) =? OP_WITHDRAW_CCTP) with "WrongOperation" in
  throw_if negb (pub_at pub 17 =? addressHash (usdcToken p)) with "UnknownAsset" in
  throw_if block_number c >? pub_at pub 5 with "Expired" in
  throw_if negb (uint32 (pub_at pub 13) =? cctpOutboundDomain p) with "UnsupportedDomain" in
  throw_if negb (pub_at pub 13 =? cctpOutboundDomain p) with "WrongDestDomain" in
  throw_if negb (pub_at pub 14 =? destinationRecipient) with "WrongDestRecipient" in
  throw_if negb (pub_at pub 15 =? maxFee) with "WrongMaxFee" in
  throw_if negb (pub_at pub 16 =? minFinalityThreshold) with "WrongFinality" in
  let! _ := checkDomainCompliance p (pub_at pub 7) (pub_at pub 8) (pub_at pub 9) in
  throw_if negb (isKnownRoot (tree p) (pub_at pub 6)) with "UnknownRoot" in
  let! _ := check_proof (pverifier p CWithdraw) pf pub "ProofInvalid" in
  let! w := spend_nullifier poolAddr (pub_at pub 0) w in
  let! pullAmount := ucheck (amount + maxFee) in
  let! t := forceApprove (tokens w) (usdcToken p) poolAddr (tokenMessenger p) pullAmount in
  let! t := depositForBurn t (tokenMessenger p) poolAddr
    {| bc_amount := amount; bc_destinationDomain := cctpOutboundDomain p; bc_mintRecipient := destinationRecipient;
       bc_burnToken := usdcToken p; bc_destinationCaller := 0; bc_maxFee := maxFee;
       bc_minFinalityThreshold := minFinalityThreshold |} in
  let w := set_tokens t w in
  let! delta := neg_int256 amount in
  let! w := adjustNoteSupply (pub_at pub 17) delta w in
  Ok (emit (EvCctpExit (cctpOutboundDomain p) to (pub_at pub 0) amount) w).

(** ** Committee matches *)

(** What follows the proof in both settlements: the two nullifiers and the two
    output notes. *)
Definition swap_notes (batchHash : Z) (pub : list Z) (w : World) : result World :=
  let! w := spend_nullifier poolAddr (pub_at pub 0) w in
  let! w := spend_nullifier poolAddr (pub_at pub 1) w in
  let! r := insert_leaf (pub_at pub 2) w in
  let! r := insert_leaf (pub_at pub 3) r.1 in
  let w := r.1 in
  Ok (emit (EvMpcSettled batchHash (pub_at pub 0) (pub_at pub 1) (pub_at pub 2) (pub_at pub 3)
              (getRoot (tree (pool w)))) w).

Definition mpcSettle (c : Ctx) (batchHash : Z) (signerPubkeys : list Z) (signatures : list string)
    (pf : Groth16Proof) (pub : list Z) (w : World) : result World :=
  let p := pool w in
  when_not_paused ppaused p in
  let! _ := CommitteeLib.verifyThreshold (committee p) (ed25519Verifier p) batchHash signerPubkeys signatures in
  let! _ := check_proof (pverifier p CMpc) pf pub "MpcProofInvalid" in
  throw_if negb (isKnownRoot (tree p) (pub_at pub 4)) with "UnknownRoot" in
  throw_if (associationRoot p =? 0) || negb (pub_at pub 5 =? associationRoot p) with "WrongAssociation" in
  throw_if negb (pub_at pub 6 =? hashToField batchHash) with "MpcSignalMismatch" in
  throw_if negb (pub_at pub 7 =? poolId p) || negb (pub_at pub 8 =? chainId p) with "WrongDomain" in
  throw_if block_number c >? pub_at pub 10 with "Expired" in
  swap_notes batchHash pub w.

Definition mpcSettlePriced (c : Ctx) (batchHash : Z) (signerPubkeys : list Z) (signatures : list string)
    (pf : Groth16Proof) (pub : list Z) (w : World) : result World :=
  let p := pool w in
  when_not_paused ppaused p in
  let! _ := CommitteeLib.verifyThreshold (committee p) (ed25519Verifier p) batchHash signerPubkeys signatures in
  let! _ := check_proof (pverifier p CPriced) pf pub "MpcProofInvalid" in
  throw_if negb (isKnownRoot (tree p) (pub_at pub 4)) with "UnknownRoot" in
  throw_if (associationRoot p =? 0) || negb (pub_at pub 5 =? associationRoot p) with "WrongAssociation" in
  throw_if negb (pub_at pub 6 =? hashToField batchHash) with "MpcSignalMismatch" in
  throw_if negb (pub_at pub 7 =? poolId p) || negb (pub_at pub 8 =? chainId p) with "WrongDomain" in
  throw_if block_number c >? pub_at pub 9 with "Expired" in
  throw_if pub_at pub 10 =? pub_at pub 12 with "NotCrossAsset" in
  swap_notes batchHash pub w.

(** ** Channel notes *)

Definition streamInsert (caller : Address) (assetId commitment supplyDelta : Z) (w : World) : result World :=
  when_not_paused ppaused (pool w) in
  throw_if negb (bool_decide (caller ∈ authorizedStreamContract (pool w))) with "UnauthorizedStreamContract" in
  let! w := (if supplyDelta =? 0 then Ok w else adjustNoteSupply assetId supplyDelta w) in
  let! r := insert_leaf commitment w in
  Ok r.1.

(** ** Administration *)

Definition registerAsset (c : Ctx) (assetId : Z) (token : Address) (w : World) : result World :=
  only_role "ADMIN_ROLE" of c in
  let p := pool w in
  throw_if negb (default 0 (assetToken p !! assetId) =? 0) with "AssetAlreadyRegistered" in
  Ok (emit (EvAssetRegistered assetId token)
        (set_pool (set_assets (<[assetId := token]> (assetToken p)) (<[assetId := 0]> (noteSupplyOf p)) p) w)).

Definition setAssociationRoot (c : Ctx) (root : Z) (w : World) : result World :=
  only_role "ADMIN_ROLE" of c in
  let! version := ucheck (associationRootVersion (pool w) + 1) in
  Ok (emit (EvAssociationRootSet root version) (set_pool (set_association root version (pool w)) w)).

(** The settings: committee, Ed25519 verifier, solvers, CCTP, verifiers. *)
Definition with_config (c : Ctx) (vf : Circuit -> Address) (com : list Z) (ed : Address) (sol : gset Z) (dom : Z)
    (msgr usdc : Address) (w : World) : result World :=
  only_role "ADMIN_ROLE" of c in
  Ok (set_pool (set_config vf com ed sol dom msgr usdc (pool w)) w).

Definition setCommittee (c : Ctx) (pubkeys : list Z) (w : World) : result World :=
  let p := pool w in
  let! w := with_config c (pverifier p) pubkeys (ed25519Verifier p) (authorizedSolver p) (cctpOutboundDomain p)
              (tokenMessenger p) (usdcToken p) w in
  Ok (emit (EvCommitteeSet (Z.of_nat (length pubkeys))) w).

Definition setEd25519Verifier (c : Ctx) (v : Address) (w : World) : result World :=
  let p := pool w in
  with_config c (pverifier p) (committee p) v (authorizedSolver p) (cctpOutboundDomain p) (tokenMessenger p) (usdcToken p) w.

Definition setAuthorizedSolver (c : Ctx) (pk : Z) (allowed : bool) (w : World) : result World :=
  let p := pool w in
  with_config c (pverifier p) (committee p) (ed25519Verifier p)
    (if allowed then {[pk]} ∪ authorizedSolver p else authorizedSolver p ∖ {[pk]})
    (cctpOutboundDomain p) (tokenMessenger p) (usdcToken p) w.

Definition setCctpConfig (c : Ctx) (messenger usdc : Address) (outboundDomain : Z) (w : World) : result World :=
  let p := pool w in
  with_config c (pverifier p) (committee p) (ed25519Verifier p) (authorizedSolver p) outboundDomain messenger usdc w.

(** [setWithdrawVerifier] and its four siblings. *)
Definition setVerifier (c : Ctx) (k : Circuit) (v : Address) (w : World) : result World :=
  let p := pool w in
  with_config c (fun k' => if decide (k' = k) then v else pverifier p k') (committee p) (ed25519Verifier p)
    (authorizedSolver p) (cctpOutboundDomain p) (tokenMessenger p) (usdcToken p) w.

Definition setAuthorizedStreamContract (c : Ctx) (a : Address) (allowed : bool) (w : World) : result World :=
  only_role "ADMIN_ROLE" of c in
  let p := pool w in
  Ok (emit (EvStreamContractSet a allowed)
        (set_pool (set_guards (depositUsed p)
           (if allowed then {[a]} ∪ authorizedStreamContract p else authorizedStreamContract p ∖ {[a]}) (ppaused p) p) w)).

Definition pause (c : Ctx) (w : World) : result World :=
  only_role "ADMIN_ROLE" of c in
  let p := pool w in
  when_not_paused ppaused p in
  Ok (set_pool (set_guards (depositUsed p) (authorizedStreamContract p) true p) w).

Definition unpause (c : Ctx) (w : World) : result World :=
  only_role "ADMIN_ROLE" of c in
  let p := pool w in
  throw_if negb (ppaused p) with "ExpectedPause" in
  Ok (set_pool (set_guards (depositUsed p) (authorizedStreamContract p) false p) w).

End ShieldedPool.
End ShieldedPool.
