(* ===== verification/ArcEscrow.v ===== *)
(** Payment channels on Arc (contracts/arc/src/StreamEscrow.sol), and the
    transactions of the whole deployment.

    A transaction is one external call with its context; [run] executes a list
    of them, dropping the ones that revert.  Between calls the outside world may
    change the tokens. *)

From S2P Require Import Prelude Text Merkle Evm ArcPool.
Local Open Scope string_scope.
Local Open Scope Z_scope.

Module StreamEscrow.
Section StreamEscrow.
Context {HP : Poseidon} {ER : Erc20} {PC : Precompiles} {DP : Deployed}.

Definition set_channels (m : gmap Z Channel) (e : Escrow) : Escrow :=
  {| everifier := everifier e; challengeWindow := challengeWindow e; channels := m; epaused := epaused e |}.

Definition put_channel (id : Z) (ch : Channel) (w : World) : World :=
  set_escrow (set_channels (<[id := ch]> (channels (escrow w))) (escrow w)) w.

(** A missing entry of the mapping reads as the zero channel. *)
Definition zero_channel : Channel :=
  {| payerAx := 0; payerAy := 0; cap := 0; expiry := 0; reclaimCommitment := 0; ch_assetId := 0;
     opened := false; consumed := false |}.
Definition getChannel (e : Escrow) (id : Z) : Channel := default zero_channel (channels e !! id).

Definition consume (ch : Channel) : Channel :=
  {| payerAx := payerAx ch; payerAy := payerAy ch; cap := cap ch; expiry := expiry ch;
     reclaimCommitment := reclaimCommitment ch; ch_assetId := ch_assetId ch; opened := opened ch; consumed := true |}.

(** [open]; [open_] because the name is taken by Rocq's sections. *)
Definition open_ (c : Ctx) (pf : Groth16Proof) (pub : list Z) (w : World) : result World :=
  let e := escrow w in
  let p := pool w in
  when_not_paused epaused e in
  let channelId := pub_at pub 7 in
  throw_if opened (getChannel e channelId) with "ChannelAlreadyOpen" in
  throw_if negb (pub_at pub 5 =? poolId p) || negb (pub_at pub 6 =? chainId p) with "WrongDomain" in
  throw_if negb (pub_at pub 4 =? associationRoot p) with "WrongAssociation" in
  throw_if negb (isKnownRoot (tree p) (pub_at pub 3)) with "UnknownRoot" in
  let! _ := ShieldedPool.check_proof (everifier e COpen) pf pub "ProofInvalid" in
  let! w := ShieldedPool.spend_nullifier escrowAddr (pub_at pub 0) w in
  let cp := pub_at pub 10 in
  let asset := pub_at pub 12 in
  let w := put_channel channelId
    {| payerAx := pub_at pub 8; payerAy := pub_at pub 9; cap := cp; expiry := pub_at pub 11;
       reclaimCommitment := pub_at pub 2; ch_assetId := asset; opened := true; consumed := false |} w in
  let! delta := ShieldedPool.neg_int256 cp in
  let! w := ShieldedPool.streamInsert escrowAddr asset (pub_at pub 1) delta w in
  Ok (emit (EvChannelOpened channelId cp (pub_at pub 11) (pub_at pub 1)) w).

Definition settle_one (pf : Groth16Proof) (pub : list Z) (w : World) : result World :=
  let e := escrow w in
  let p := pool w in
  let channelId := pub_at pub 5 in
  let ch := getChannel e channelId in
  throw_if negb (opened ch) with "ChannelNotOpen" in
  throw_if consumed ch with "ChannelConsumed" in
  throw_if negb (pub_at pub 6 =? payerAx ch) || negb (pub_at pub 7 =? payerAy ch) || negb (pub_at pub 8 =? cap ch)
           || negb (pub_at pub 10 =? ch_assetId ch) with "ChannelParamMismatch" in
  throw_if negb (pub_at pub 3 =? poolId p) || negb (pub_at pub 4 =? chainId p) with "WrongDomain" in
  throw_if negb (pub_at pub 2 =? associationRoot p) with "WrongAssociation" in
  let! _ := ShieldedPool.check_proof (everifier e CSettle) pf pub "ProofInvalid" in
  let w := put_channel channelId (consume ch) w in
  let cumulative := pub_at pub 9 in
  let! w := ShieldedPool.streamInsert escrowAddr (ch_assetId ch) (pub_at pub 0) (int256 cumulative) w in
  let! refund := ucheck (cap ch - cumulative) in
  let! w := ShieldedPool.streamInsert escrowAddr (ch_assetId ch) (pub_at pub 1) (int256 refund) w in
  Ok (emit (EvChannelSettled channelId cumulative (pub_at pub 0) (pub_at pub 1)) w).

Definition settle (c : Ctx) (pf : Groth16Proof) (pub : list Z) (w : World) : result World :=
  when_not_paused epaused (escrow w) in settle_one pf pub w.

Fixpoint settle_all (l : list (Groth16Proof * list Z)) (w : World) : result World :=
  match l with [] => Ok w | x :: l => let! w := settle_one x.1 x.2 w in settle_all l w end.

Definition settleBatch (c : Ctx) (proofs : list Groth16Proof) (pubs : list (list Z)) (w : World) : result World :=
  when_not_paused epaused (escrow w) in
  throw_if negb (Nat.eqb (length proofs) (length pubs)) with "length mismatch" in
  settle_all (zip proofs pubs) w.

Definition reclaim (c : Ctx) (channelId : Z) (w : World) : result World :=
  when_not_paused epaused (escrow w) in
  let ch := getChannel (escrow w) channelId in
  throw_if negb (opened ch) with "ChannelNotOpen" in
  throw_if consumed ch with "ChannelConsumed" in
  let! limit := ucheck (expiry ch + challengeWindow (escrow w)) in
  throw_if block_number c <=? limit with "NotYetReclaimable" in
  let w := put_channel channelId (consume ch) w in
  let! w := ShieldedPool.streamInsert escrowAddr (ch_assetId ch) (reclaimCommitment ch) (int256 (cap ch)) w in
  Ok (emit (EvChannelReclaimed channelId (cap ch) (reclaimCommitment ch)) w).

Definition set_flags (vf : Circuit -> Address) (paused : bool) (e : Escrow) : Escrow :=
  {| everifier := vf; challengeWindow := challengeWindow e; channels := channels e; epaused := paused |}.

(** [setOpenVerifier] and [setSettleVerifier]. *)
Definition setVerifier (c : Ctx) (k : Circuit) (v : Address) (w : World) : result World :=
  only_role "ADMIN_ROLE" of c in
  let e := escrow w in
  Ok (set_escrow (set_flags (fun k' => if decide (k' = k) then v else everifier e k') (epaused e) e) w).

Definition pause (c : Ctx) (w : World) : result World :=
  only_role "ADMIN_ROLE" of c in
  when_not_paused epaused (escrow w) in
  Ok (set_escrow (set_flags (everifier (escrow w)) true (escrow w)) w).

Definition unpause (c : Ctx) (w : World) : result World :=
  only_role "ADMIN_ROLE" of c in
  throw_if negb (epaused (escrow w)) with "ExpectedPause" in
  Ok (set_escrow (set_flags (everifier (escrow w)) false (escrow w)) w).

End StreamEscrow.
End StreamEscrow.

(** ** Transactions *)

Section Transactions.
Context {HP : Poseidon} {ER : Erc20} {PC : Precompiles} {DP : Deployed}.

(** The external functions with their arguments. *)
Inductive Call :=
| ReceiveDeposit (sourceDomain cctpNonce : Z) (token : Address) (amount commitment payloadHash policyId : Z)
    (pf : Groth16Proof) (pub : list Z)
| Withdraw (to : Address) (pf : Groth16Proof) (pub : list Z)
| PrivateTransferSettle (pf : Groth16Proof) (pub : list Z)
| RfqSettle (toSolver : Address) (quoteHash intentHash fillReceiptHash solverPubkey : Z) (solverSig : string)
    (pf : Groth16Proof) (pub : list Z)
| WithdrawCctp (to : Address) (destinationRecipient maxFee minFinalityThreshold : Z) (pf : Groth16Proof) (pub : list Z)
| MpcSettle (batchHash : Z) (signerPubkeys : list Z) (signatures : list string) (pf : Groth16Proof) (pub : list Z)
| MpcSettlePriced (batchHash : Z) (signerPubkeys : list Z) (signatures : list string) (pf : Groth16Proof) (pub : list Z)
| StreamInsert (assetId commitment supplyDelta : Z)
| RegisterAsset (assetId : Z) (token : Address)
| SetAssociationRoot (root : Z)
| SetCommittee (pubkeys : list Z)
| SetEd25519Verifier (v : Address)
| SetAuthorizedSolver (pk : Z) (allowed : bool)
| SetCctpConfig (messenger usdc : Address) (outboundDomain : Z)
| SetVerifier (k : Circuit) (v : Address)
| SetAuthorizedStreamContract (a : Address) (allowed : bool)
| PoolPause | PoolUnpause
| Open (pf : Groth16Proof) (pub : list Z)
| Settle (pf : Groth16Proof) (pub : list Z)
| SettleBatch (proofs : list Groth16Proof) (pubs : list (list Z))
| Reclaim (channelId : Z)
| EscrowSetVerifier (k : Circuit) (v : Address)
| EscrowPause | EscrowUnpause
| Spend (nullifier : Z)
| SetAuthorizedSpender (spender : Address) (allowed : bool)
| RegistryPause | RegistryUnpause.

Definition on_registry (f : NullifierRegistry.Registry -> result NullifierRegistry.Registry) (w : World) : result World :=
  let! r := f (registry w) in Ok (set_registry r w).

Definition exec (c : Ctx) (k : Call) : World -> result World :=
  match k with
  | ReceiveDeposit sd n t a cm ph pid pf pub => ShieldedPool.receiveDeposit c sd n t a cm ph pid pf pub
  | Withdraw to pf pub => ShieldedPool.withdraw c to pf pub
  | PrivateTransferSettle pf pub => ShieldedPool.privateTransferSettle c pf pub
  | RfqSettle to q i f pk sg pf pub => ShieldedPool.rfqSettle c to q i f pk sg pf pub
  | WithdrawCctp to r mf mt pf pub => ShieldedPool.withdrawCctp c to r mf mt pf pub
  | MpcSettle h pks sgs pf pub => ShieldedPool.mpcSettle c h pks sgs pf pub
  | MpcSettlePriced h pks sgs pf pub => ShieldedPool.mpcSettlePriced c h pks sgs pf pub
  | StreamInsert a cm d => ShieldedPool.streamInsert (sender c) a cm d
  | RegisterAsset a t => ShieldedPool.registerAsset c a t
  | SetAssociationRoot r => ShieldedPool.setAssociationRoot c r
  | SetCommittee pks => ShieldedPool.setCommittee c pks
  | SetEd25519Verifier v => ShieldedPool.setEd25519Verifier c v
  | SetAuthorizedSolver pk b => ShieldedPool.setAuthorizedSolver c pk b
  | SetCctpConfig m u d => ShieldedPool.setCctpConfig c m u d
  | SetVerifier k v => ShieldedPool.setVerifier c k v
  | SetAuthorizedStreamContract a b => ShieldedPool.setAuthorizedStreamContract c a b
  | PoolPause => ShieldedPool.pause c
  | PoolUnpause => ShieldedPool.unpause c
  | Open pf pub => StreamEscrow.open_ c pf pub
  | Settle pf pub => StreamEscrow.settle c pf pub
  | SettleBatch pfs pubs => StreamEscrow.settleBatch c pfs pubs
  | Reclaim id => StreamEscrow.reclaim c id
  | EscrowSetVerifier k v => StreamEscrow.setVerifier c k v
  | EscrowPause => StreamEscrow.pause c
  | EscrowUnpause => StreamEscrow.unpause c
  | Spend n => on_registry (NullifierRegistry.spend (sender c) n)
  | SetAuthorizedSpender a b => on_registry (NullifierRegistry.setAuthorizedSpender c a b)
  | RegistryPause => on_registry (NullifierRegistry.pause c)
  | RegistryUnpause => on_registry (NullifierRegistry.unpause c)
  end.

(** A step: a transaction, or anything that happens to the tokens outside. *)
Inductive Tx := TCall (c : Ctx) (k : Call) | TOutside (t : Tokens).

Definition apply_tx (x : Tx) (w : World) : World :=
  match x with
  | TCall c k => match exec c k w with Ok w' => w' | Err _ => w end
  | TOutside t => set_tokens t w
  end.

Fixpoint run (l : list Tx) (w : World) : World :=
  match l with [] => w | x :: l => run l (apply_tx x w) end.

(** The three constructors, at deployment. *)
Definition deploy (lv : nat) (pool_id chain_id window : Z) (t : Tokens) : result World :=
  let! fr := newFrontier lv in
  Ok {| pool := {| tree := fr; poolId := pool_id; chainId := chain_id; pverifier := fun _ => 0;
                   associationRoot := 0; associationRootVersion := 0; assetToken := ∅; noteSupplyOf := ∅;
                   committee := []; ed25519Verifier := 0; authorizedSolver := ∅; cctpOutboundDomain := 0;
                   tokenMessenger := 0; usdcToken := 0; depositUsed := ∅; authorizedStreamContract := ∅;
                   ppaused := false |};
        registry := NullifierRegistry.newRegistry;
        escrow := {| everifier := fun _ => 0; challengeWindow := window; channels := ∅; epaused := false |};
        tokens := t; logs := [] |}.

Lemma run_app l1 l2 w : run (l1 ++ l2) w = run l2 (run l1 w).
Proof. revert w. induction l1 as [|x l1 IH]; intros w; cbn; [done|apply IH]. Qed.

End Transactions.
