(* ===== verification/ArcLedger.v ===== *)
(** What a transaction does to the ledger of the Arc deployment: the nullifiers
    it spends, the notes it inserts, the change of the supplies and the channels,
    and the invariants that follow for every run. *)

From S2P Require Import Prelude Text Merkle Evm ArcPool ArcEscrow.
Local Open Scope string_scope.
Local Open Scope Z_scope.

Module ArcLedger.
Section ArcLedger.
Context {HP : Poseidon} {ER : Erc20} {PC : Precompiles} {DP : Deployed}.

(** ** The effect of a call *)

Definition settle_leaves (pub : list Z) : list Z := [pub_at pub 0; pub_at pub 1].

(** Nullifiers, in the order they are spent. *)
Definition nullifiers_of (k : Call) : list Z :=
  match k with
  | Withdraw _ _ pub | RfqSettle _ _ _ _ _ _ _ pub | WithdrawCctp _ _ _ _ _ pub
  | PrivateTransferSettle _ pub | Open _ pub => [pub_at pub 0]
  | MpcSettle _ _ _ _ pub | MpcSettlePriced _ _ _ _ pub => [pub_at pub 0; pub_at pub 1]
  | Spend n => [n]
  | _ => []
  end.

(** Leaves, in the order they are inserted. *)
Definition leaves_of (k : Call) (w : World) : list Z :=
  match k with
  | ReceiveDeposit _ _ _ _ cm _ _ _ _ => [cm]
  | PrivateTransferSettle _ pub | Open _ pub => [pub_at pub 1]
  | MpcSettle _ _ _ _ pub | MpcSettlePriced _ _ _ _ pub => [pub_at pub 2; pub_at pub 3]
  | StreamInsert _ cm _ => [cm]
  | Settle _ pub => settle_leaves pub
  | SettleBatch _ pubs => concat (map settle_leaves pubs)
  | Reclaim id => [reclaimCommitment (StreamEscrow.getChannel (escrow w) id)]
  | _ => []
  end.

(** The parts of a world a call of the ledger may change: everything else of the
    pool is configuration. *)
Definition spent_set (w : World) : gset Z := NullifierRegistry.spent (registry w).

(** [w'] is [w] after spending [ns] and inserting [ls]. *)
Definition moves (ns ls : list Z) (w w' : World) : Prop :=
  NoDup ns /\ (forall n, n ∈ ns -> n ∉ spent_set w) /\ spent_set w' = spent_set w ∪ list_to_set ns /\
  insert_all (tree (pool w)) ls = Ok (tree (pool w')).

Lemma insert_all_app t ls ls' t1 t2 :
  insert_all t ls = Ok t1 -> insert_all t1 ls' = Ok t2 -> insert_all t (ls ++ ls') = Ok t2.
Proof.
  revert t. induction ls as [|l ls IH]; intros t; cbn; [intros [= ->]; done|].
  destruct (insert t l) as [[t' i]|]; cbn; [apply IH|done].
Qed.

Lemma moves_nil w w' : spent_set w' = spent_set w -> tree (pool w') = tree (pool w) -> moves [] [] w w'.
Proof. intros E T. split_and!; [constructor|set_solver|rewrite E; set_solver|by rewrite T]. Qed.

Lemma moves_trans ns ls ns' ls' w w1 w2 :
  moves ns ls w w1 -> moves ns' ls' w1 w2 -> moves (ns ++ ns') (ls ++ ls') w w2.
Proof.
  intros (A & B & C & D) (A' & B' & C' & D'). split_and!.
  - apply list.NoDup_app. split_and!; [done| |done]. intros n Hn Hn'. apply (B' n Hn'). rewrite C. set_solver.
  - intros n [Hn|Hn]%elem_of_app; [by apply B|]. pose proof (B' n Hn) as H. rewrite C in H. set_solver.
  - rewrite C', C, list_to_set_app_L. set_solver.
  - by eapply insert_all_app.
Qed.

(** Only the tree and the registry matter. *)
Lemma moves_ext ns ls w w' w1 w1' :
  moves ns ls w w' -> spent_set w1 = spent_set w -> tree (pool w1) = tree (pool w) ->
  spent_set w1' = spent_set w' -> tree (pool w1') = tree (pool w') -> moves ns ls w1 w1'.
Proof. intros (A & B & C & D) E1 E2 E3 E4. split_and!; [done|by rewrite E1|by rewrite E3, E1|by rewrite E2, E4]. Qed.

(** ** Primitives *)

Lemma check_Ok v pf pub m u : ShieldedPool.check_proof v pf pub m = Ok u <-> verifyProof v pf pub = Ok true.
Proof.
  unfold ShieldedPool.check_proof. destruct (verifyProof v pf pub) as [[]|]; cbn; [by destruct u|done..].
Qed.

Lemma spend_nullifier_Ok caller n w w' : ShieldedPool.spend_nullifier caller n w = Ok w' ->
  moves [n] [] w w' /\ pool w' = pool w /\ escrow w' = escrow w /\ tokens w' = tokens w /\ logs w' = logs w.
Proof.
  unfold ShieldedPool.spend_nullifier. intros (r & Hs & [= <-])%rbind_Ok.
  apply NullifierRegistry.spend_Ok in Hs as (_ & _ & Hn & ->). split_and!; try done.
  split_and!; cbn; [apply NoDup_singleton|set_solver| |done]. unfold spent_set. cbn. set_solver.
Qed.

Lemma insert_leaf_Ok l w w' i : ShieldedPool.insert_leaf l w = Ok (w', i) ->
  insert (tree (pool w)) l = Ok (tree (pool w'), i) /\ w' = set_pool (set_tree (tree (pool w')) (pool w)) w.
Proof. unfold ShieldedPool.insert_leaf. intros ([t j] & E & [= <- <-])%rbind_Ok. by rewrite E. Qed.

Lemma insert_leaf_moves l w w' i : ShieldedPool.insert_leaf l w = Ok (w', i) -> moves [] [l] w w'.
Proof.
  intros (E & ->)%insert_leaf_Ok. split_and!; cbn; [constructor|set_solver| |by rewrite E].
  unfold spent_set. cbn. set_solver.
Qed.

Lemma getAssetToken_Ok p a t : ShieldedPool.getAssetToken p a = Ok t <->
  t = default 0 (assetToken p !! a) /\ t <> 0.
Proof. unfold ShieldedPool.getAssetToken. rewrite guard_Ok, Z.eqb_neq. naive_solver. Qed.

(** A supply that is adjusted stays between zero and the pool's balance. *)
Lemma adjust_Ok a d w w' : ShieldedPool.adjustNoteSupply a d w = Ok w' ->
  let p := pool w in let next := ShieldedPool.noteSupply p a + d in
  let t := default 0 (assetToken p !! a) in
  t <> 0 /\ 0 <= next <= balanceOf (tokens w) t poolAddr /\
  w' = set_pool (set_assets (assetToken p) (<[a := next]> (noteSupplyOf p)) p) w.
Proof.
  unfold ShieldedPool.adjustNoteSupply, ShieldedPool.vaultBalance. rewrite guard_Ok, Z.eqb_neq.
  intros (Ht & (next & (E & _)%icheck_Ok & [Hn H]%guard_Ok)%rbind_Ok). subst next.
  apply rbind_Ok in H as (b & (t & (-> & _)%getAssetToken_Ok & [= <-])%rbind_Ok & [Hb [= <-]]%guard_Ok).
  rewrite Z.gtb_ltb in Hb. breflect. cbn. by split_and!.
Qed.

Lemma pay_out_Ok a to amt w w' : ShieldedPool.pay_out a to amt w = Ok w' ->
  let tok := default 0 (assetToken (pool w) !! a) in
  tok <> 0 /\ amt <= balanceOf (tokens w) tok poolAddr /\
  exists t, safeTransfer (tokens w) tok poolAddr to amt = Ok t /\ w' = set_tokens t w.
Proof.
  unfold ShieldedPool.pay_out. intros (t & (-> & Ht)%getAssetToken_Ok & [Hb (t' & E & [= <-])%rbind_Ok]%guard_Ok)%rbind_Ok.
  breflect. split_and!; [done|done|]. by exists t'.
Qed.

Lemma streamInsert_Ok caller a l d w w' : ShieldedPool.streamInsert caller a l d w = Ok w' ->
  exists w1 i, (if d =? 0 then w1 = w else ShieldedPool.adjustNoteSupply a d w = Ok w1) /\
    ShieldedPool.insert_leaf l w1 = Ok (w', i) /\ caller ∈ authorizedStreamContract (pool w).
Proof.
  unfold ShieldedPool.streamInsert. intros (_ & [Hc (w1 & E & ([w2 i] & E2 & [= <-])%rbind_Ok)%rbind_Ok]%guard_Ok)%guard_Ok.
  breflect. exists w1, i. split_and!; [|done|done]. destruct (d =? 0); [by injection E|done].
Qed.

Lemma adjust_frame a d w w' : ShieldedPool.adjustNoteSupply a d w = Ok w' ->
  tree (pool w') = tree (pool w) /\ registry w' = registry w /\ escrow w' = escrow w.
Proof. intros (_ & _ & ->)%adjust_Ok. done. Qed.

Lemma streamInsert_moves caller a l d w w' :
  ShieldedPool.streamInsert caller a l d w = Ok w' -> moves [] [l] w w' /\ escrow w' = escrow w.
Proof.
  intros (w1 & i & E & Hi & _)%streamInsert_Ok.
  assert (tree (pool w1) = tree (pool w) /\ registry w1 = registry w /\ escrow w1 = escrow w) as (Et & Er & Ee).
  { destruct (d =? 0); [by subst|by eapply adjust_frame]. }
  split; [|apply insert_leaf_Ok in Hi as [_ ->]; done].
  eapply moves_ext; [by eapply insert_leaf_moves|try done..]; unfold spent_set; by rewrite Er.
Qed.

Lemma pay_out_frame a to amt w w' : ShieldedPool.pay_out a to amt w = Ok w' ->
  pool w' = pool w /\ registry w' = registry w /\ escrow w' = escrow w.
Proof. intros (_ & _ & t & _ & ->)%pay_out_Ok. done. Qed.

(** The tail of every exit: a nullifier, a payment, the supply. *)
Lemma exit_moves n w w1 w2 w3 w4 a to amt d :
  ShieldedPool.spend_nullifier poolAddr n w = Ok w1 -> ShieldedPool.pay_out a to amt w1 = Ok w2 ->
  ShieldedPool.adjustNoteSupply a d w2 = Ok w3 -> pool w4 = pool w3 -> registry w4 = registry w3 -> moves [n] [] w w4.
Proof.
  intros (Hm & _)%spend_nullifier_Ok (Ep & Er & _)%pay_out_frame (Et & Er' & _)%adjust_frame Hp Hr.
  eapply moves_ext; [exact Hm|done|done|unfold spent_set; congruence|congruence].
Qed.

Lemma swap_notes_moves h pub w w' : ShieldedPool.swap_notes h pub w = Ok w' ->
  moves [pub_at pub 0; pub_at pub 1] [pub_at pub 2; pub_at pub 3] w w'.
Proof.
  unfold ShieldedPool.swap_notes. intros H. apply rbind_Ok in H as (w1 & (H1 & _)%spend_nullifier_Ok & H).
  apply rbind_Ok in H as (w2 & (H2 & _)%spend_nullifier_Ok & H).
  apply rbind_Ok in H as ([w3 i] & H3%insert_leaf_moves & H). apply rbind_Ok in H as ([w4 j] & H4%insert_leaf_moves & H).
  injection H as <-.
  exact (moves_trans _ _ _ _ _ _ _ (moves_trans _ _ _ _ _ _ _ H1 H2) (moves_trans _ _ _ _ _ _ _ H3 H4)).
Qed.

Lemma settle_one_moves pf pub w w' : StreamEscrow.settle_one pf pub w = Ok w' -> moves [] (settle_leaves pub) w w'.
Proof.
  unfold StreamEscrow.settle_one. intros H. peel H.
  repeat match goal with H : ShieldedPool.streamInsert _ _ _ _ _ = Ok _ |- _ => apply streamInsert_moves in H as [H _] end.
  eapply (moves_trans [] [_] [] [_]); [|eapply moves_ext; [eassumption|done..]].
  eapply moves_ext; [eassumption|done..].
Qed.

Lemma settle_all_moves l w w' : StreamEscrow.settle_all l w = Ok w' -> moves [] (concat (map settle_leaves (l.*2))) w w'.
Proof.
  revert w. induction l as [|[pf pub] l IH]; intros w; cbn [StreamEscrow.settle_all map fmap list_fmap concat].
  { intros [= <-]. by apply moves_nil. }
  intros (w1 & H1%settle_one_moves & H2%IH)%rbind_Ok. exact (moves_trans [] _ [] _ _ _ _ H1 H2).
Qed.

Lemma on_registry_moves f w w' : on_registry f w = Ok w' ->
  (forall r r', f r = Ok r' -> NullifierRegistry.spent r' = NullifierRegistry.spent r) -> moves [] [] w w'.
Proof. unfold on_registry. intros (r & E & [= <-])%rbind_Ok Hf. apply moves_nil; [|done]. by apply Hf in E. Qed.

(** Every successful call spends its nullifiers, all fresh and distinct, and
    inserts its leaves. *)
Lemma exec_moves c k w w' : exec c k w = Ok w' -> moves (nullifiers_of k) (leaves_of k w) w w'.
Proof.
  destruct k; cbn [exec nullifiers_of leaves_of]; intros H;
    try (unfold ShieldedPool.setCommittee, ShieldedPool.setEd25519Verifier, ShieldedPool.setAuthorizedSolver,
           ShieldedPool.setCctpConfig, ShieldedPool.setVerifier, ShieldedPool.with_config, ShieldedPool.registerAsset,
           ShieldedPool.setAssociationRoot, ShieldedPool.setAuthorizedStreamContract, ShieldedPool.pause,
           ShieldedPool.unpause, StreamEscrow.setVerifier, StreamEscrow.pause, StreamEscrow.unpause in H;
         peel H; by apply moves_nil);
    try (eapply on_registry_moves; [exact H|]; intros r r' Hr;
         unfold NullifierRegistry.setAuthorizedSpender, NullifierRegistry.pause, NullifierRegistry.unpause in Hr;
         by peel Hr).
  - unfold ShieldedPool.receiveDeposit in H. peel H.
    match goal with H : ShieldedPool.insert_leaf _ _ = Ok _ |- _ => apply insert_leaf_moves in H end.
    match goal with H : ShieldedPool.adjustNoteSupply _ _ _ = Ok _ |- _ => apply adjust_frame in H as (Et & Er & _) end.
    eapply moves_ext; [eassumption|done|done|unfold spent_set; cbn; by rewrite Er|exact Et].
  - unfold ShieldedPool.withdraw in H. peel H. by eapply exit_moves.
  - unfold ShieldedPool.privateTransferSettle in H. peel H.
    match goal with H : ShieldedPool.insert_leaf _ _ = Ok _ |- _ => apply insert_leaf_moves in H end.
    match goal with H : ShieldedPool.spend_nullifier _ _ _ = Ok _ |- _ => apply spend_nullifier_Ok in H as (H & _) end.
    by eapply (moves_trans [_] [] [] [_]).
  - unfold ShieldedPool.rfqSettle in H. peel H. by eapply exit_moves.
  - unfold ShieldedPool.withdrawCctp in H. peel H.
    match goal with H : ShieldedPool.adjustNoteSupply _ _ _ = Ok _ |- _ => apply adjust_frame in H as (Et & Er & _) end.
    match goal with H : ShieldedPool.spend_nullifier _ _ _ = Ok _ |- _ => apply spend_nullifier_Ok in H as (H & _) end.
    eapply moves_ext; [eassumption|done|done|unfold spent_set; cbn; by rewrite Er|exact Et].
  - unfold ShieldedPool.mpcSettle in H. peel H. by eapply swap_notes_moves.
  - unfold ShieldedPool.mpcSettlePriced in H. peel H. by eapply swap_notes_moves.
  - by apply streamInsert_moves in H as [H _].
  - unfold StreamEscrow.open_ in H. peel H.
    match goal with H : ShieldedPool.streamInsert _ _ _ _ _ = Ok _ |- _ => apply streamInsert_moves in H as [H _] end.
    match goal with H : ShieldedPool.spend_nullifier _ _ _ = Ok _ |- _ => apply spend_nullifier_Ok in H as (H & _) end.
    eapply (moves_trans [_] [] [] [_]); [eassumption|]. by eapply moves_ext.
  - unfold StreamEscrow.settle in H. peel H. by eapply settle_one_moves.
  - unfold StreamEscrow.settleBatch in H. peel H. breflect. apply settle_all_moves in H. by rewrite snd_zip in H by lia.
  - unfold StreamEscrow.reclaim in H. peel H.
    match goal with H : ShieldedPool.streamInsert _ _ _ _ _ = Ok _ |- _ => apply streamInsert_moves in H as [H _] end.
    by eapply moves_ext.
  - unfold on_registry in H. peel H. apply NullifierRegistry.spend_Ok in E as (_ & _ & Hn & ->).
    split_and!; cbn; [apply NoDup_singleton|set_solver| |done]. unfold spent_set. cbn. set_solver.
Qed.

(** ** Runs *)

(** What a transaction contributes: nothing when it reverts. *)
Definition tx_nullifiers (x : Tx) (w : World) : list Z :=
  match x with TCall c k => if is_ok (exec c k w) then nullifiers_of k else [] | TOutside _ => [] end.
Definition tx_leaves (x : Tx) (w : World) : list Z :=
  match x with TCall c k => if is_ok (exec c k w) then leaves_of k w else [] | TOutside _ => [] end.

Fixpoint nullifiers_by (l : list Tx) (w : World) : list Z :=
  match l with [] => [] | x :: l => tx_nullifiers x w ++ nullifiers_by l (apply_tx x w) end.
Fixpoint leaves_by (l : list Tx) (w : World) : list Z :=
  match l with [] => [] | x :: l => tx_leaves x w ++ leaves_by l (apply_tx x w) end.

Lemma apply_moves x w : moves (tx_nullifiers x w) (tx_leaves x w) w (apply_tx x w).
Proof.
  destruct x as [c k|t]; cbn [tx_nullifiers tx_leaves apply_tx]; [|by apply moves_nil].
  destruct (exec c k w) as [w'|] eqn:E; cbn [is_ok]; [by eapply exec_moves|by apply moves_nil].
Qed.

Lemma run_moves l w : moves (nullifiers_by l w) (leaves_by l w) w (run l w).
Proof.
  revert w. induction l as [|x l IH]; intros w; cbn; [by apply moves_nil|].
  eapply moves_trans; [apply apply_moves|apply IH].
Qed.

(** *** The roots of the tree *)

(** The roots of all prefixes, the newest first. *)
Fixpoint prefix_roots (lv : nat) (leaves : list Z) (n : nat) : list Z :=
  node (leaf_fn (take n leaves)) lv 0 :: match n with O => [] | S n => prefix_roots lv leaves n end.

Lemma prefix_roots_app lv ls ls' n : (n <= length ls)%nat -> prefix_roots lv (ls ++ ls') n = prefix_roots lv ls n.
Proof.
  induction n as [|n IH]; intros Hn; cbn [prefix_roots]; rewrite take_app_le by lia; [done|]. by rewrite IH by lia.
Qed.

Lemma prefix_roots_elem lv ls n r : r ∈ prefix_roots lv ls n <->
  exists m, (m <= n)%nat /\ r = node (leaf_fn (take m ls)) lv 0.
Proof.
  induction n as [|n IH]; cbn [prefix_roots].
  - rewrite list_elem_of_singleton. split; [intros ->; by exists O|]. intros (m & Hm & ->). by replace m with O by lia.
  - rewrite elem_of_cons, IH. split.
    + intros [->|(m & Hm & ->)]; eexists; (split; [|reflexivity]); lia.
    + intros (m & Hm & ->). destruct (decide (m = S n)) as [->|]; [by left|right]. exists m. split; [lia|done].
Qed.

Definition tree_of (lv : nat) (ls : list Z) (t : Frontier) : Prop :=
  frontier_for lv ls t /\ roots t = prefix_roots lv ls (length ls) /\ (length ls <= 2 ^ lv)%nat /\
  Forall (fun l => l < SNARK_SCALAR_FIELD) ls.

Lemma insert_Ok_inv lv ls t l t' i : tree_of lv ls t -> insert t l = Ok (t', i) ->
  tree_of lv (ls ++ [l]) t' /\ i = length ls.
Proof.
  intros (Hf & Hr & Hlen & Hall) E. assert (l < SNARK_SCALAR_FIELD /\ (length ls < 2 ^ lv)%nat) as [Hl Hlt].
  { destruct Hf as (Elv & _ & En & _). unfold insert in E. rewrite Elv, En in E. rewrite !guard_Ok, Z.geb_leb in E.
    destruct E as (E1 & E2 & _). breflect. split; [done|lia]. }
  destruct (insert_step lv ls t l Hf Hlt Hl) as (t2 & E2 & Hf2 & Hr2). rewrite E in E2. injection E2 as <- ->.
  split; [|done]. split_and!; [done| |rewrite length_app; cbn; lia|by apply Forall_app_2; [|constructor]].
  rewrite Hr2, Hr, length_app. cbn [length]. rewrite Nat.add_1_r. cbn [prefix_roots].
  rewrite prefix_roots_app by done. rewrite take_ge by (rewrite length_app; cbn; lia). done.
Qed.

Lemma insert_all_tree lv ls new t t' : tree_of lv ls t -> insert_all t new = Ok t' -> tree_of lv (ls ++ new) t'.
Proof.
  revert ls t. induction new as [|l new IH]; intros ls t Ht; cbn [insert_all]; [intros [= <-]; by rewrite app_nil_r|].
  intros ([t1 i] & E & H)%rbind_Ok. destruct (insert_Ok_inv _ _ _ _ _ _ Ht E) as [H1 _].
  specialize (IH _ _ H1 H). by rewrite <- app_assoc in IH.
Qed.

Lemma new_tree lv t : newFrontier lv = Ok t -> tree_of lv [] t.
Proof.
  intros E. assert (0 < lv < 32)%nat as Hlv.
  { unfold newFrontier in E. apply guard_Ok in E as [E _]. breflect. lia. }
  destruct (newFrontier_spec lv Hlv) as (t2 & E2 & Hf). rewrite E in E2. injection E2 as <-.
  split_and!; [done| |cbn; lia|constructor]. cbn [length prefix_roots take firstn]. destruct Hf as (_ & _ & _ & _ & Hr).
  rewrite <- Hr. unfold newFrontier in E. apply guard_Ok in E as [_ E]. by injection E as <-.
Qed.

Lemma run_tree lv ls l w : tree_of lv ls (tree (pool w)) -> tree_of lv (ls ++ leaves_by l w) (tree (pool (run l w))).
Proof. intros Ht. destruct (run_moves l w) as (_ & _ & _ & H). by eapply insert_all_tree. Qed.

Lemma deploy_tree lv pid cid win t w0 : deploy lv pid cid win t = Ok w0 -> tree_of lv [] (tree (pool w0)).
Proof. intros (fr & E%new_tree & [= <-])%rbind_Ok. done. Qed.

End ArcLedger.
End ArcLedger.
