(* ===== verification/ArcSupply.v ===== *)
(** The supplies of the Arc pool: what is owed on notes and on open channels is
    what came in less what went out, it is covered by the pool's tokens, and a
    payer can always take back the cap of an expired channel. *)

From S2P Require Import Prelude Text Merkle Circuits Evm ArcPool ArcEscrow ArcLedger.
Local Open Scope string_scope.
Local Open Scope Z_scope.

(** The generated verifiers refuse a public signal outside the field
    ([checkField] of contracts/arc/src/verifiers); the zero address has no code. *)
Class VerifierLaws (PC : Precompiles) : Prop := {
  verified_in_field : forall v pf pub, verifyProof v pf pub = Ok true -> Forall in_field pub;
  zero_address : forall pf pub, verifyProof 0 pf pub <> Ok true
}.

(** Balances are unsigned. *)
Class BalanceLaws (ER : Erc20) : Prop := {
  balance_nonneg : forall t tok who, 0 <= balanceOf t tok who
}.

Module ArcSupply.
Import ArcLedger.

Section ArcSupply.
Context {HP : Poseidon} {ER : Erc20} {EL : Erc20Laws ER} {BL : BalanceLaws ER} {PC : Precompiles} {VL : VerifierLaws PC}
        {DP : Deployed}.

(** ** Flows *)

(** Amounts that enter and leave the supply of an asset from outside: channels
    only move it between notes and reserves. *)
Definition flows_of (k : Call) : list (Z * Z) :=
  match k with
  | ReceiveDeposit _ _ _ amount _ _ _ _ pub => [(pub_at pub 8, amount)]
  | Withdraw _ _ pub | RfqSettle _ _ _ _ _ _ _ pub | WithdrawCctp _ _ _ _ _ pub => [(pub_at pub 17, - pub_at pub 2)]
  | StreamInsert a _ d => [(a, d)]
  | _ => []
  end.

Definition tx_flows (x : Tx) (w : World) : list (Z * Z) :=
  match x with TCall c k => if is_ok (exec c k w) then flows_of k else [] | TOutside _ => [] end.
Fixpoint flows_by (l : list Tx) (w : World) : list (Z * Z) :=
  match l with [] => [] | x :: l => tx_flows x w ++ flows_by l (apply_tx x w) end.

(** The net amount of one asset. *)
Fixpoint flow (a : Z) (l : list (Z * Z)) : Z :=
  match l with [] => 0 | f :: l => (if f.1 =? a then f.2 else 0) + flow a l end.

Lemma flow_app a l l' : flow a (l ++ l') = flow a l + flow a l'.
Proof. induction l as [|f l IH]; cbn; [done|]. rewrite IH. lia. Qed.

(** ** Reserved caps *)

(** What a channel holds back of an asset. *)
Definition held (a : Z) (ch : Channel) : Z :=
  if opened ch && negb (consumed ch) && (ch_assetId ch =? a) then cap ch else 0.

Definition reserved (a : Z) (m : gmap Z Channel) : Z := map_fold (fun _ ch acc => held a ch + acc) 0 m.

Lemma reserved_insert_new a i ch m : m !! i = None -> reserved a (<[i := ch]> m) = held a ch + reserved a m.
Proof. intros Hi. unfold reserved. rewrite map_fold_insert_L; [done|intros; lia|done]. Qed.

Lemma reserved_delete a i ch m : reserved a (<[i := ch]> m) = held a ch + reserved a (delete i m).
Proof. rewrite <- insert_delete_eq. apply reserved_insert_new, lookup_delete_eq. Qed.

Lemma reserved_insert a i ch m :
  reserved a (<[i := ch]> m) = reserved a m + held a ch - held a (default StreamEscrow.zero_channel (m !! i)).
Proof.
  destruct (m !! i) as [old|] eqn:E; cbn [default].
  - rewrite reserved_delete. pose proof (reserved_delete a i old m) as H. rewrite (insert_id m i old E) in H.
    cbn [from_option id]. lia.
  - rewrite reserved_insert_new by done. cbn [from_option]. change (held a StreamEscrow.zero_channel) with 0. lia.
Qed.

Lemma reserved_nonneg a m : (forall i ch, m !! i = Some ch -> 0 <= cap ch) -> 0 <= reserved a m.
Proof.
  induction m as [|i ch m Hi IH] using map_ind; intros H; [done|]. rewrite reserved_insert_new by done.
  assert (0 <= held a ch). { unfold held. destruct (_ && _); [|done]. apply (H i). by simplify_map_eq. }
  assert (0 <= reserved a m); [|lia]. apply IH. intros j c Hj. apply (H j). by simplify_map_eq.
Qed.

Lemma reserved_le a m i ch : (forall i ch, m !! i = Some ch -> 0 <= cap ch) -> m !! i = Some ch -> held a ch <= reserved a m.
Proof.
  intros H Hi. pose proof (reserved_delete a i ch m) as E. rewrite (insert_id m i ch Hi) in E. rewrite E.
  assert (0 <= reserved a (delete i m)); [|lia]. apply reserved_nonneg. intros j c [_ Hj]%lookup_delete_Some. by eapply H.
Qed.

(** ** Well-formed worlds *)

Definition token_of (p : Pool) (a : Z) : Address := default 0 (assetToken p !! a).

(** An opened channel holds what a verified proof said; an unregistered asset has no supply. *)
Definition channel_ok (p : Pool) (ch : Channel) : Prop :=
  in_field (cap ch) /\ in_field (reclaimCommitment ch) /\ (cap ch <> 0 -> token_of p (ch_assetId ch) <> 0).

Definition wf (w : World) : Prop :=
  (forall a, token_of (pool w) a = 0 -> ShieldedPool.noteSupply (pool w) a = 0) /\
  (forall i ch, channels (escrow w) !! i = Some ch -> channel_ok (pool w) ch).

(** The amount owed: on notes and on open channels. *)
Definition owed (a : Z) (w : World) : Z := ShieldedPool.noteSupply (pool w) a + reserved a (channels (escrow w)).

Lemma field_int256 x : in_field x -> int256 x = x.
Proof. intros Hx. apply int256_id. unfold in_field in Hx. assert (BN254_FIELD_MODULUS < 2 ^ 255) by done. lia. Qed.

Lemma pub_field v pf pub k : verifyProof v pf pub = Ok true -> in_field (pub_at pub k).
Proof.
  intros Hv%verified_in_field. unfold pub_at. destruct (pub !! k) as [x|] eqn:E; cbn; [|done].
  rewrite list.Forall_forall in Hv. apply Hv. by eapply list_elem_of_lookup_2.
Qed.

Lemma neg_field x d : in_field x -> ShieldedPool.neg_int256 x = Ok d -> d = - x.
Proof. intros Hx. unfold ShieldedPool.neg_int256. rewrite (field_int256 _ Hx). by intros [<- _]%icheck_Ok. Qed.

(** ** The supply effect of a call *)

(** [w'] is [w] after the supplies of the assets [T] were adjusted; the tokens
    of [B] and of [T] are the only ones that moved. *)
Record supply_step (B : list Address) (T : list Z) (fl : list (Z * Z)) (w w' : World) : Prop := {
  ss_tokens : assetToken (pool w') = assetToken (pool w);
  ss_touched : forall a, a ∈ T -> token_of (pool w) a <> 0 /\
    0 <= ShieldedPool.noteSupply (pool w') a <= balanceOf (tokens w') (token_of (pool w) a) poolAddr;
  ss_frame : forall a, a ∉ T -> ShieldedPool.noteSupply (pool w') a = ShieldedPool.noteSupply (pool w) a;
  ss_balance : forall tok, tok ∉ B -> (forall a, a ∈ T -> token_of (pool w) a <> tok) ->
    balanceOf (tokens w') tok poolAddr = balanceOf (tokens w) tok poolAddr;
  ss_owed : forall a, owed a w' = owed a w + flow a fl;
  ss_channels : forall i ch, channels (escrow w') !! i = Some ch ->
    channels (escrow w) !! i = Some ch \/ channel_ok (pool w) ch
}.

Lemma supply_same fl w w' :
  assetToken (pool w') = assetToken (pool w) -> noteSupplyOf (pool w') = noteSupplyOf (pool w) ->
  channels (escrow w') = channels (escrow w) -> tokens w' = tokens w -> fl = [] -> supply_step [] [] fl w w'.
Proof.
  intros E1 E2 E3 E4 ->. unfold owed, ShieldedPool.noteSupply.
  split; unfold owed, ShieldedPool.noteSupply; rewrite ?E2, ?E3, ?E4; try done; [set_solver|intros; cbn; lia|by left].
Qed.

Lemma supply_wf B T fl w w' : wf w -> supply_step B T fl w w' -> wf w'.
Proof.
  intros [H1 H2] S. unfold wf, channel_ok, token_of. rewrite (ss_tokens _ _ _ _ _ S). split.
  - intros a Ha. destruct (decide (a ∈ T)) as [Hin|Hin]; [by apply (ss_touched _ _ _ _ _ S) in Hin as []|].
    rewrite (ss_frame _ _ _ _ _ S a Hin). by apply H1.
  - intros i ch Hch. apply (ss_channels _ _ _ _ _ S) in Hch as [Hch|Hch]; [by eapply H2|done].
Qed.

(** A second step that leaves the tokens alone. *)
Lemma supply_trans T T' fl fl' w w1 w2 :
  supply_step [] T fl w w1 -> supply_step [] T' fl' w1 w2 -> tokens w2 = tokens w1 -> supply_step [] (T ++ T') (fl ++ fl') w w2.
Proof.
  intros [A1 A2 A3 A4 A5 A6] [B1 B2 B3 B4 B5 B6] Et.
  assert (forall a, token_of (pool w1) a = token_of (pool w) a) as Htok by (intros a; unfold token_of; by rewrite A1).
  split.
  - by rewrite B1.
  - intros a Ha. destruct (decide (a ∈ T')) as [Hin|Hin]; [rewrite <- Htok; by apply B2|].
    apply elem_of_app in Ha as [Ha|Ha]; [|done]. rewrite B3, Et by done. by apply A2.
  - intros a Ha. rewrite elem_of_app in Ha. rewrite B3, A3 by tauto. done.
  - intros tok _ Ht. rewrite Et. apply A4; [set_solver|]. intros a Ha. apply Ht. by apply elem_of_app; left.
  - intros a. rewrite B5, A5, flow_app. lia.
  - intros i ch [Hch|Hch]%B6; [by apply A6|]. right. unfold channel_ok in *. by rewrite Htok in Hch.
Qed.

Lemma noteSupply_insert p a n b :
  ShieldedPool.noteSupply (set_assets (assetToken p) (<[a := n]> (noteSupplyOf p)) p) b =
  if a =? b then n else ShieldedPool.noteSupply p b.
Proof.
  unfold ShieldedPool.noteSupply. cbn. destruct (Z.eqb_spec a b) as [->|Hne]; [by rewrite lookup_insert_eq|].
  by rewrite lookup_insert_ne.
Qed.

(** One adjustment, whatever happened to the tokens of [B] before. *)
Lemma adjust_step a d w w0 w' B :
  pool w0 = pool w -> escrow w0 = escrow w ->
  (forall tok, tok ∉ B -> tok <> token_of (pool w) a -> balanceOf (tokens w0) tok poolAddr = balanceOf (tokens w) tok poolAddr) ->
  ShieldedPool.adjustNoteSupply a d w0 = Ok w' -> supply_step B [a] [(a, d)] w w'.
Proof.
  intros Ep Ee Ht (Htok & Hb & ->)%adjust_Ok. rewrite Ep in *. fold (token_of (pool w) a) in *. split; cbn.
  - done.
  - intros b ->%list_elem_of_singleton. rewrite noteSupply_insert, Z.eqb_refl. done.
  - intros b Hn. rewrite list_elem_of_singleton in Hn. rewrite noteSupply_insert.
    destruct (Z.eqb_spec a b); [by subst|done].
  - intros tok HB Hn. apply Ht; [done|]. intros ->. by apply (Hn a); [apply list_elem_of_singleton|].
  - intros b. unfold owed. cbn. rewrite noteSupply_insert, Ee. destruct (Z.eqb_spec a b); [subst; cbn|]; lia.
  - intros i ch. rewrite Ee. by left.
Qed.

Lemma supply_ext B T fl fl' w w' w1 w1' :
  supply_step B T fl w w' -> pool w1 = pool w -> escrow w1 = escrow w -> tokens w1 = tokens w ->
  assetToken (pool w1') = assetToken (pool w') -> noteSupplyOf (pool w1') = noteSupplyOf (pool w') ->
  escrow w1' = escrow w' -> tokens w1' = tokens w' -> (forall a, flow a fl = flow a fl') -> supply_step B T fl' w1 w1'.
Proof.
  intros [A1 A2 A3 A4 A5 A6] P E T0 P1 P2 E' T' F. unfold owed, ShieldedPool.noteSupply in *.
  split; unfold owed, ShieldedPool.noteSupply; rewrite ?P, ?E, ?T0, ?P1, ?P2, ?E', ?T'; try done.
  intros a. by rewrite <- F.
Qed.

Lemma insert_leaf_step l w w' i : ShieldedPool.insert_leaf l w = Ok (w', i) -> supply_step [] [] [] w w' /\ tokens w' = tokens w.
Proof. intros [_ ->]%insert_leaf_Ok. split; [by apply supply_same|done]. Qed.

Lemma streamInsert_step caller a l d w w' : ShieldedPool.streamInsert caller a l d w = Ok w' ->
  exists T, supply_step [] T [(a, d)] w w' /\ tokens w' = tokens w /\ (d <> 0 -> T = [a]).
Proof.
  intros (w1 & i & E & (S & Et)%insert_leaf_step & _)%streamInsert_Ok. destruct (Z.eqb_spec d 0) as [->|Hd].
  - subst w1. exists []. split_and!; [|done|done]. eapply supply_ext; [exact S|done..|]. intros b. cbn. by destruct (a =? b).
  - exists [a]. pose proof E as (_ & _ & Ew)%adjust_Ok. split_and!; [|rewrite Et, Ew; done|done].
    change [a] with ([a] ++ [])%list. change [(a, d)] with ([(a, d)] ++ [])%list. eapply supply_trans; [|exact S|exact Et].
    by eapply (adjust_step a d w w).
Qed.

(** *** Channels *)

Lemma put_channel_step id ch w a d :
  channel_ok (pool w) ch \/ channels (escrow w) !! id = Some ch ->
  (forall b, held b ch - held b (StreamEscrow.getChannel (escrow w) id) = if a =? b then d else 0) ->
  supply_step [] [] [(a, d)] w (StreamEscrow.put_channel id ch w).
Proof.
  intros Hch Hheld. split; try done; try set_solver.
  - intros b. unfold owed. cbn. rewrite reserved_insert. unfold StreamEscrow.getChannel in Hheld. specialize (Hheld b).
    cbn [fst snd]. lia.
  - intros i c. cbn. intros [[<- <-]|[_ H]]%lookup_insert_Some; [naive_solver|by left].
Qed.

(** Consuming a live channel gives its cap back. *)
Lemma consume_step id ch w :
  ch = StreamEscrow.getChannel (escrow w) id -> opened ch = true -> consumed ch = false -> channel_ok (pool w) ch ->
  supply_step [] [] [(ch_assetId ch, - cap ch)] w (StreamEscrow.put_channel id (StreamEscrow.consume ch) w).
Proof.
  intros Hch Ho Hc Hok. apply put_channel_step; [by left|]. intros b. rewrite <- Hch. unfold held. cbn.
  rewrite andb_false_r, Ho, Hc. cbn. destruct (ch_assetId ch =? b); lia.
Qed.

Lemma settle_one_step pf pub w w' : StreamEscrow.settle_one pf pub w = Ok w' -> wf w ->
  exists T, supply_step [] T [] w w' /\ tokens w' = tokens w.
Proof.
  unfold StreamEscrow.settle_one. intros H [_ Hwf]. peel H.
  set (id := pub_at pub 5) in *. set (ch := StreamEscrow.getChannel (escrow w) id) in *. breflect.
  match goal with H : ShieldedPool.check_proof _ _ _ _ = Ok _ |- _ => apply check_Ok in H as Hv end.
  pose proof (pub_field _ _ _ 9 Hv) as Hcum.
  assert (channels (escrow w) !! id = Some ch) as Hid.
  { unfold ch, StreamEscrow.getChannel in *. by destruct (channels (escrow w) !! id). }
  destruct (Hwf _ _ Hid) as (Hcap & Hrec & Htok).
  match goal with H : ucheck _ = Ok _ |- _ => apply ucheck_Ok in H as [<- Hr] end.
  assert (in_field (cap ch - pub_at pub 9)) as Href by (unfold in_field, u256 in *; lia).
  repeat match goal with H : ShieldedPool.streamInsert _ _ _ _ _ = Ok _ |- _ =>
    apply streamInsert_step in H as (? & ? & ? & _) end.
  rewrite (field_int256 _ Hcum), (field_int256 _ Href) in *.
  assert (supply_step [] [] [(ch_assetId ch, - cap ch)] w (StreamEscrow.put_channel id (StreamEscrow.consume ch) w)) as S0
    by (by apply consume_step).
  match goal with
  | S1 : supply_step _ ?T1 [(_, pub_at pub 9)] _ ?w1, S2 : supply_step _ ?T2 _ ?w1 ?w2 |- _ =>
      exists (([] ++ T1) ++ T2)%list; split; [|cbn in *; congruence];
      eapply supply_ext;
        [eapply supply_trans; [eapply supply_trans; [exact S0|exact S1|done]|exact S2|done]|done..|]
  end.
  intros b. cbn [app flow fst snd]. destruct (ch_assetId ch =? b); lia.
Qed.

Lemma settle_all_step l w w' : StreamEscrow.settle_all l w = Ok w' -> wf w ->
  exists T, supply_step [] T [] w w' /\ tokens w' = tokens w.
Proof.
  revert w. induction l as [|[pf pub] l IH]; intros w; cbn [StreamEscrow.settle_all].
  { intros [= <-] _. exists []. split; [by apply supply_same|done]. }
  intros (w1 & H1 & H2)%rbind_Ok Hwf. apply settle_one_step in H1 as (T1 & S1 & E1); [|done].
  destruct (IH w1 H2 (supply_wf _ _ _ _ _ Hwf S1)) as (T2 & S2 & E2).
  exists (T1 ++ T2)%list. split; [|congruence]. exact (supply_trans _ _ [] [] _ _ _ S1 S2 E2).
Qed.

Lemma open_step c pf pub w w' : StreamEscrow.open_ c pf pub w = Ok w' -> wf w -> exists T, supply_step [] T [] w w'.
Proof.
  unfold StreamEscrow.open_. intros H [_ Hwf]. peel H.
  match goal with H : ShieldedPool.check_proof _ _ _ _ = Ok _ |- _ => apply check_Ok in H as Hv end.
  pose proof (pub_field _ _ _ 10 Hv) as Hcap. pose proof (pub_field _ _ _ 2 Hv) as Hrec.
  match goal with H : ShieldedPool.neg_int256 _ = Ok _ |- _ => apply neg_field in H as ->; [|done] end.
  match goal with H : ShieldedPool.spend_nullifier _ _ _ = Ok ?w1 |- _ =>
    apply spend_nullifier_Ok in H as (_ & Ep & Ee & Et & _); rename w1 into wn end.
  match goal with H : ShieldedPool.streamInsert _ _ _ _ _ = Ok ?w2 |- _ =>
    apply streamInsert_step in H as (T & S & E' & HT); rename w2 into wi end.
  set (id := pub_at pub 7) in *.
  match type of S with supply_step _ _ _ (StreamEscrow.put_channel _ ?c _) _ => set (ch := c) in * end.
  assert (supply_step [] [] [(pub_at pub 12, pub_at pub 10)] wn (StreamEscrow.put_channel id ch wn)) as S0.
  { apply put_channel_step; [left|].
    - split_and!; [done|done|]. intros Hne. destruct (ss_touched _ _ _ _ _ S (ch_assetId ch)) as [Htok _]; [|done].
      rewrite HT; [by apply list_elem_of_singleton|]. cbn in *. lia.
    - intros b. rewrite Ee. unfold held. replace (opened (StreamEscrow.getChannel _ _)) with false by done. cbn.
      destruct (pub_at pub 12 =? b); lia. }
  assert (supply_step [] [] [] w wn) as S00 by (apply supply_same; by rewrite ?Ep, ?Ee, ?Et).
  exists (([] ++ []) ++ T)%list.
  eapply supply_ext; [eapply supply_trans; [eapply supply_trans; [exact S00|exact S0|done]|exact S|exact E']|done..|].
  intros b. cbn [app flow fst snd]. destruct (pub_at pub 12 =? b); lia.
Qed.

Lemma reclaim_step c id w w' : StreamEscrow.reclaim c id w = Ok w' -> wf w -> exists T, supply_step [] T [] w w'.
Proof.
  unfold StreamEscrow.reclaim. intros H [_ Hwf]. peel H. set (ch := StreamEscrow.getChannel (escrow w) id) in *. breflect.
  assert (channels (escrow w) !! id = Some ch) as Hid.
  { unfold ch, StreamEscrow.getChannel in *. by destruct (channels (escrow w) !! id). }
  destruct (Hwf _ _ Hid) as (Hcap & Hrec & Htok).
  match goal with H : ShieldedPool.streamInsert _ _ _ _ _ = Ok _ |- _ => apply streamInsert_step in H as (T & S & E' & _) end.
  rewrite (field_int256 _ Hcap) in S. exists ([] ++ T)%list.
  assert (supply_step [] [] [(ch_assetId ch, - cap ch)] w (StreamEscrow.put_channel id (StreamEscrow.consume ch) w)) as S0
    by (by apply consume_step).
  eapply supply_ext; [eapply supply_trans; [exact S0|exact S|exact E']|done..|].
  intros b. cbn [app flow fst snd]. destruct (ch_assetId ch =? b); lia.
Qed.

(** *** Exits *)

Lemma exit_step n w w1 w2 w3 w4 a to amt x d :
  ShieldedPool.spend_nullifier poolAddr n w = Ok w1 -> ShieldedPool.pay_out a to amt w1 = Ok w2 ->
  ShieldedPool.neg_int256 x = Ok d -> ShieldedPool.adjustNoteSupply a d w2 = Ok w3 -> in_field x ->
  pool w4 = pool w3 -> escrow w4 = escrow w3 -> tokens w4 = tokens w3 -> supply_step [] [a] [(a, - x)] w w4.
Proof.
  intros (_ & Ep & Ee & Et & _)%spend_nullifier_Ok (_ & _ & t & Ht & ->)%pay_out_Ok Hd Ha Hx Hp He Htk.
  apply neg_field in Hd as ->; [|done].
  eapply supply_ext; [eapply (adjust_step a (- x) w (set_tokens t w1) w3 []); [done|done| |exact Ha]|try done; congruence..].
  intros tok _ Hne. cbn. rewrite <- Et. rewrite Ep in Ht. by eapply transfer_other.
Qed.

(** A step that leaves supplies, channels and tokens alone. *)
Definition quiet_step (w w' : World) : Prop := supply_step [] [] [] w w' /\ tokens w' = tokens w.

Lemma quiet_trans w w1 w2 : quiet_step w w1 -> quiet_step w1 w2 -> quiet_step w w2.
Proof. intros [S E] [S' E']. split; [exact (supply_trans [] [] [] [] _ _ _ S S' E')|congruence]. Qed.

Lemma spend_quiet caller n w w' : ShieldedPool.spend_nullifier caller n w = Ok w' -> quiet_step w w'.
Proof. intros (_ & Ep & Ee & Et & _)%spend_nullifier_Ok. split; [apply supply_same; by rewrite ?Ep, ?Ee, ?Et|done]. Qed.

Lemma swap_notes_step h pub w w' : ShieldedPool.swap_notes h pub w = Ok w' -> quiet_step w w'.
Proof.
  unfold ShieldedPool.swap_notes. intros H. peel H.
  repeat match goal with
  | H : ShieldedPool.spend_nullifier _ _ _ = Ok _ |- _ => apply spend_quiet in H
  | H : ShieldedPool.insert_leaf _ ?w = Ok ?r |- _ => destruct r as [? ?]; apply insert_leaf_step in H
  end.
  do 4 (eapply quiet_trans; [eassumption|]). split; [by apply supply_same|done].
Qed.

(** Tokens burned for another chain. *)
Definition burnt_of (k : Call) (w : World) : list Address :=
  match k with WithdrawCctp _ _ _ _ _ _ => [usdcToken (pool w)] | _ => [] end.

Definition cctp_asset (k : Call) : option Z :=
  match k with WithdrawCctp _ _ _ _ _ pub => Some (pub_at pub 17) | _ => None end.

Definition is_register (k : Call) : bool := match k with RegisterAsset _ _ => true | _ => false end.

Lemma deposit_step c sd n t amount cm ph pid pf pub w w' :
  ShieldedPool.receiveDeposit c sd n t amount cm ph pid pf pub w = Ok w' ->
  supply_step [] [pub_at pub 8] [(pub_at pub 8, amount)] w w' /\ in_field amount.
Proof.
  unfold ShieldedPool.receiveDeposit. intros H. peel H. breflect.
  match goal with H : ShieldedPool.check_proof _ _ _ _ = Ok _ |- _ => apply check_Ok in H as Hv end.
  assert (in_field amount) as Ham.
  { match goal with H : pub_at pub 7 = amount |- _ => rewrite <- H end. by eapply pub_field. }
  split; [|done]. rewrite (field_int256 _ Ham) in *.
  match goal with H : ShieldedPool.insert_leaf _ _ = Ok (?w1, _) |- _ =>
    apply insert_leaf_Ok in H as [_ Ew]; rename w1 into wi end.
  match goal with H : ShieldedPool.adjustNoteSupply _ _ ?w0 = Ok ?w1 |- _ =>
    pose proof H as (_ & _ & Ew1)%adjust_Ok; apply (adjust_step _ _ w0 w0 w1 []) in H as S; [|done..] end.
  change [pub_at pub 8] with ([] ++ [pub_at pub 8])%list.
  eapply supply_ext; [eapply (supply_trans [] [pub_at pub 8] []); [|exact S|]|done..].
  - rewrite Ew. by apply supply_same.
  - by rewrite Ew1.
Qed.

Lemma cctp_step c to r mf mt pf pub w w' : ShieldedPool.withdrawCctp c to r mf mt pf pub w = Ok w' ->
  supply_step [usdcToken (pool w)] [pub_at pub 17] [(pub_at pub 17, - pub_at pub 2)] w w'.
Proof.
  unfold ShieldedPool.withdrawCctp. intros H. peel H.
  match goal with H : ShieldedPool.check_proof _ _ _ _ = Ok _ |- _ => apply check_Ok in H as Hv end.
  match goal with H : ShieldedPool.neg_int256 _ = Ok _ |- _ => apply neg_field in H as ->; [|by eapply pub_field] end.
  match goal with H : ShieldedPool.spend_nullifier _ _ _ = Ok _ |- _ =>
    apply spend_nullifier_Ok in H as (_ & Ep & Ee & Et & _) end.
  match goal with H : ShieldedPool.adjustNoteSupply _ _ ?w0 = Ok ?w1 |- _ =>
    eapply supply_ext; [eapply (adjust_step _ _ w w0 w1); [done|done| |exact H]|done..] end.
  intros tok HB _. cbn. rewrite <- Et.
  match goal with H : depositForBurn _ _ _ _ = Ok _ |- _ => eapply burn_other in H as ->; [|cbn; set_solver] end.
  by eapply approve_balance.
Qed.

(** Every call but the registration of an asset is such a step. *)
Lemma exec_step c k w w' : exec c k w = Ok w' -> wf w -> is_register k = false ->
  exists T, supply_step (burnt_of k w) T (flows_of k) w w' /\
            (forall a, cctp_asset k = Some a -> a ∈ T).
Proof.
  destruct k; cbn [exec burnt_of flows_of is_register cctp_asset]; intros H Hwf Hk; try done;
    try (unfold ShieldedPool.setCommittee, ShieldedPool.setEd25519Verifier, ShieldedPool.setAuthorizedSolver,
           ShieldedPool.setCctpConfig, ShieldedPool.setVerifier, ShieldedPool.with_config,
           ShieldedPool.setAssociationRoot, ShieldedPool.setAuthorizedStreamContract, ShieldedPool.pause,
           ShieldedPool.unpause, StreamEscrow.setVerifier, StreamEscrow.pause, StreamEscrow.unpause, on_registry in H;
         peel H; exists []; split; [by apply supply_same|done]).
  - apply deposit_step in H as [S _]. eexists. by split.
  - unfold ShieldedPool.withdraw in H. peel H. eexists. split; [|done]. eapply exit_step; try done.
    match goal with H : ShieldedPool.check_proof _ _ _ _ = Ok _ |- _ => apply check_Ok in H; by eapply pub_field end.
  - unfold ShieldedPool.privateTransferSettle in H. peel H. exists [].
    match goal with H : ShieldedPool.spend_nullifier _ _ _ = Ok _ |- _ => apply spend_quiet in H as Hq1 end.
    match goal with H : ShieldedPool.insert_leaf _ _ = Ok _ |- _ => apply insert_leaf_step in H as Hq2 end.
    split; [|done]. by eapply supply_ext; [apply (quiet_trans _ _ _ Hq1 Hq2)|..].
  - unfold ShieldedPool.rfqSettle in H. peel H. eexists. split; [|done]. eapply exit_step; try done.
    match goal with H : ShieldedPool.check_proof _ _ _ _ = Ok _ |- _ => apply check_Ok in H; by eapply pub_field end.
  - eexists. split; [by eapply cctp_step|]. intros a [= <-]. by apply list_elem_of_singleton.
  - unfold ShieldedPool.mpcSettle in H. peel H. exists []. split; [|done]. by eapply swap_notes_step.
  - unfold ShieldedPool.mpcSettlePriced in H. peel H. exists []. split; [|done]. by eapply swap_notes_step.
  - apply streamInsert_step in H as (T & S & _). exists T. by split.
  - apply open_step in H as (T & S); [|done]. exists T. by split.
  - unfold StreamEscrow.settle in H. peel H. apply settle_one_step in H as (T & S & _); [|done]. exists T. by split.
  - unfold StreamEscrow.settleBatch in H. peel H. apply settle_all_step in H as (T & S & _); [|done]. exists T. by split.
  - apply reclaim_step in H as (T & S); [|done]. exists T. by split.
Qed.

(** Registering an asset changes no amount. *)
Lemma register_step c a t w w' : ShieldedPool.registerAsset c a t w = Ok w' -> wf w ->
  token_of (pool w) a = 0 /\ (forall b, token_of (pool w') b = if a =? b then t else token_of (pool w) b) /\
  (forall b, ShieldedPool.noteSupply (pool w') b = ShieldedPool.noteSupply (pool w) b) /\
  escrow w' = escrow w /\ tokens w' = tokens w.
Proof.
  unfold ShieldedPool.registerAsset. intros H [Hs _]. peel H. breflect. split_and!; try done.
  - intros b. unfold token_of. cbn. destruct (Z.eqb_spec a b) as [->|]; [by rewrite lookup_insert_eq|by rewrite lookup_insert_ne].
  - intros b. rewrite <- (Hs a) by done. cbn. unfold ShieldedPool.noteSupply at 1. cbn.
    destruct (decide (a = b)) as [->|]; [by rewrite lookup_insert_eq|by rewrite lookup_insert_ne].
Qed.

Lemma exec_owed c k w w' : exec c k w = Ok w' -> wf w -> wf w' /\ forall a, owed a w' = owed a w + flow a (flows_of k).
Proof.
  intros H Hwf. destruct (is_register k) eqn:Ek.
  - destruct k; try done. apply register_step in H as (H0 & Ht & Hs & He & _); [|done]. unfold wf, owed, channel_ok. rewrite He.
    split; [split|].
    + intros a. rewrite Hs, Ht. destruct (Z.eqb_spec assetId a) as [<-|]; [intros _|]; by apply Hwf.
    + intros i ch Hch. destruct Hwf as [_ Hc]. destruct (Hc i ch Hch) as (A & B & C). split_and!; [done|done|]. intros Hne.
      rewrite Ht. destruct (Z.eqb_spec assetId (ch_assetId ch)) as [->|]; [by apply C in Hne|by apply C].
    + intros a. rewrite Hs. cbn. lia.
  - destruct (exec_step c k w w' H Hwf Ek) as (T & S & _). split; [by eapply supply_wf|]. apply (ss_owed _ _ _ _ _ S).
Qed.

Lemma apply_owed x w : wf w -> wf (apply_tx x w) /\ forall a, owed a (apply_tx x w) = owed a w + flow a (tx_flows x w).
Proof.
  intros Hwf. destruct x as [c k|t]; cbn [apply_tx tx_flows]; [|split; [done|intros a; cbn; unfold owed; cbn; lia]].
  destruct (exec c k w) eqn:E; cbn [is_ok]; [by eapply exec_owed|]. split; [done|]. intros a. cbn. lia.
Qed.

Lemma run_owed l w : wf w -> wf (run l w) /\ forall a, owed a (run l w) = owed a w + flow a (flows_by l w).
Proof.
  revert w. induction l as [|x l IH]; intros w Hwf; cbn [run flows_by]; [split; [done|intros a; cbn; lia]|].
  destruct (apply_owed x w Hwf) as [Hw Ho]. destruct (IH _ Hw) as [Hw' Ho']. split; [done|].
  intros a. rewrite Ho', Ho, flow_app. lia.
Qed.

Lemma deploy_wf lv pid cid win t w0 : deploy lv pid cid win t = Ok w0 -> wf w0 /\ forall a, owed a w0 = 0.
Proof. intros (fr & _ & [= <-])%rbind_Ok. split; [split; [done|]|done]. intros i ch; cbn. by rewrite lookup_empty. Qed.

(** ** Cover *)

Definition vault (w : World) (a : Z) : Z := balanceOf (tokens w) (token_of (pool w) a) poolAddr.

(** Every supply is covered by the tokens the pool holds. *)
Definition covered (w : World) : Prop :=
  forall a, token_of (pool w) a <> 0 -> 0 <= ShieldedPool.noteSupply (pool w) a <= vault w a.

(** One asset per token. *)
Definition distinct (w : World) : Prop :=
  forall a b, token_of (pool w) a <> 0 -> token_of (pool w) a = token_of (pool w) b -> a = b.

(** What the operators and the outside world are relied on for: nobody but the
    pool moves its tokens, a token is registered once, and the asset of CCTP
    exits is the one they burn. *)
Definition fair (x : Tx) (w : World) : Prop :=
  match x with
  | TOutside t => forall tok, balanceOf (tokens w) tok poolAddr <= balanceOf t tok poolAddr
  | TCall _ (RegisterAsset _ t) => forall b, token_of (pool w) b = t -> t = 0
  | TCall _ (WithdrawCctp _ _ _ _ _ pub) => token_of (pool w) (pub_at pub 17) = usdcToken (pool w)
  | _ => True
  end.

(** A deposit, or an insertion from outside, adds no more than is there. *)
Definition funded (x : Tx) (w : World) : Prop :=
  match x with
  | TCall _ (ReceiveDeposit _ _ _ amount _ _ _ _ pub) => owed (pub_at pub 8) w + amount <= vault w (pub_at pub 8)
  | TCall _ (StreamInsert a _ d) => owed a w + d <= vault w a
  | _ => True
  end.

Fixpoint along (P : Tx -> World -> Prop) (l : list Tx) (w : World) : Prop :=
  match l with [] => True | x :: l => P x w /\ along P l (apply_tx x w) end.

Lemma along_inv (P : Tx -> World -> Prop) (I : World -> Prop) l w :
  (forall x w, I w -> P x w -> I (apply_tx x w)) -> I w -> along P l w -> I (run l w).
Proof.
  intros Hs. revert w. induction l as [|x l IH]; intros w Hi; cbn; [done|]. intros [Hp Ha]. apply IH; [by apply Hs|done].
Qed.

Lemma register_fair c a t w w' :
  exec c (RegisterAsset a t) w = Ok w' -> wf w -> distinct w -> fair (TCall c (RegisterAsset a t)) w -> distinct w'.
Proof.
  intros H Hwf Hd Hf. apply register_step in H as (H0 & Ht & _); [|done]. intros x y. rewrite !Ht. cbn in Hf.
  destruct (Z.eqb_spec a x) as [<-|Hx], (Z.eqb_spec a y) as [<-|Hy]; try done; try apply Hd; intros Hn E.
  - exfalso. by apply Hn, (Hf y).
  - exfalso. apply Hn. rewrite E. by apply (Hf x).
Qed.

(** A touched asset is covered again; the tokens of the others did not move. *)
Lemma step_vault k w w' T a :
  supply_step (burnt_of k w) T (flows_of k) w w' -> (forall a, cctp_asset k = Some a -> a ∈ T) ->
  (forall c, fair (TCall c k) w) -> distinct w -> token_of (pool w) a <> 0 -> a ∉ T -> vault w' a = vault w a.
Proof.
  intros S HT Hf Hd Ha Hn. unfold vault, token_of. rewrite (ss_tokens _ _ _ _ _ S). fold (token_of (pool w) a).
  apply (ss_balance _ _ _ _ _ S).
  - destruct k; cbn [burnt_of]; try apply not_elem_of_nil. rewrite list_elem_of_singleton. intros E.
    pose proof (Hf {| sender := 0; block_number := 0; hasRole := fun _ => true |}) as Hf'. cbn in Hf'.
    rewrite <- Hf' in E. apply Hd in E; [|done]. subst. by apply Hn, HT.
  - intros b Hb E. apply Hn. symmetry in E. apply Hd in E; [by subst|done].
Qed.

Lemma fair_ctx c c' k w : fair (TCall c k) w -> fair (TCall c' k) w.
Proof. by destruct k. Qed.

Definition sound (w : World) : Prop := wf w /\ distinct w /\ covered w.

Lemma apply_sound x w : sound w -> fair x w -> sound (apply_tx x w).
Proof.
  intros (Hwf & Hd & Hc) Hf. split; [by apply apply_owed|]. destruct x as [c k|t]; cbn [apply_tx].
  2:{ split; [done|]. intros a Ha. specialize (Hc a Ha). unfold vault in *. cbn in *. specialize (Hf (token_of (pool w) a)). lia. }
  destruct (exec c k w) as [w'|] eqn:E; [|done]. destruct (is_register k) eqn:Ek.
  - destruct k; try done. split; [by eapply register_fair|]. pose proof E as E'.
    apply register_step in E' as (H0 & Ht & Hs & _ & Htk); [|done]. intros a. unfold vault. rewrite Hs, Ht, Htk.
    destruct (Z.eqb_spec assetId a) as [<-|]; [|apply Hc]. intros _. destruct Hwf as [Hz _]. rewrite Hz by done.
    split; [done|apply balance_nonneg].
  - destruct (exec_step c k w w' E Hwf Ek) as (T & S & HT). unfold distinct, token_of. rewrite (ss_tokens _ _ _ _ _ S).
    split; [done|]. intros a. unfold token_of. rewrite (ss_tokens _ _ _ _ _ S). fold (token_of (pool w) a). intros Ha.
    destruct (decide (a ∈ T)) as [Hin|Hn].
    + apply (ss_touched _ _ _ _ _ S) in Hin as [_ Hb]. unfold vault, token_of. by rewrite (ss_tokens _ _ _ _ _ S).
    + rewrite (ss_frame _ _ _ _ _ S a Hn), (step_vault k w w' T a S HT) by (done || (intros c'; by eapply fair_ctx)). by apply Hc.
Qed.

Lemma deploy_sound lv pid cid win t w0 : deploy lv pid cid win t = Ok w0 -> sound w0.
Proof.
  intros H. split; [by eapply deploy_wf|]. apply rbind_Ok in H as (fr & _ & [= <-]).
  split; [intros a b|intros a]; unfold token_of; cbn; by rewrite lookup_empty.
Qed.

(** ** Cover of the reserves *)

(** What a call pays out of the pool at most. *)
Definition paid_of (k : Call) (w : World) (tok : Address) : Z :=
  match k with
  | Withdraw _ _ pub | RfqSettle _ _ _ _ _ _ _ pub => if token_of (pool w) (pub_at pub 17) =? tok then pub_at pub 2 else 0
  | WithdrawCctp _ _ _ _ _ pub => if usdcToken (pool w) =? tok then pub_at pub 2 else 0
  | _ => 0
  end.

Lemma pay_out_paid n w w1 w2 w3 w4 a to amt d x tok :
  ShieldedPool.spend_nullifier poolAddr n w = Ok w1 -> ShieldedPool.pay_out a to amt w1 = Ok w2 ->
  ShieldedPool.adjustNoteSupply a d w2 = Ok w3 -> tokens w4 = tokens w3 -> 0 <= amt <= x ->
  balanceOf (tokens w) tok poolAddr - (if token_of (pool w) a =? tok then x else 0) <= balanceOf (tokens w4) tok poolAddr.
Proof.
  intros (_ & Ep & _ & Et & _)%spend_nullifier_Ok (_ & _ & t & Ht & ->)%pay_out_Ok (_ & _ & ->)%adjust_Ok -> Hx. cbn.
  rewrite Ep, Et in Ht. fold (token_of (pool w) a) in Ht. destruct (Z.eqb_spec (token_of (pool w) a) tok) as [<-|Hne].
  - apply transfer_takes in Ht; lia.
  - rewrite (transfer_other _ _ _ _ _ _ tok poolAddr Ht) by congruence. lia.
Qed.

Lemma cctp_paid c to r mf mt pf pub w w' tok : ShieldedPool.withdrawCctp c to r mf mt pf pub w = Ok w' ->
  balanceOf (tokens w) tok poolAddr - (if usdcToken (pool w) =? tok then pub_at pub 2 else 0) <= balanceOf (tokens w') tok poolAddr.
Proof.
  unfold ShieldedPool.withdrawCctp. intros H. peel H.
  match goal with H : ShieldedPool.check_proof _ _ _ _ = Ok _ |- _ => apply check_Ok in H as Hv end.
  match goal with H : ShieldedPool.spend_nullifier _ _ _ = Ok _ |- _ => apply spend_nullifier_Ok in H as (_ & _ & _ & <- & _) end.
  match goal with H : ShieldedPool.adjustNoteSupply _ _ _ = Ok _ |- _ => apply adjust_Ok in H as (_ & _ & ->) end. cbn.
  match goal with H : forceApprove _ _ _ _ _ = Ok _ |- _ => rewrite <- (approve_balance _ _ _ _ _ _ tok poolAddr H) end.
  match goal with H : depositForBurn _ _ _ _ = Ok _ |- _ => rename H into Hb end.
  destruct (Z.eqb_spec (usdcToken (pool w)) tok) as [<-|Hne].
  - apply burn_takes in Hb; cbn in Hb; [lia|]. by eapply (pub_field _ _ _ 2).
  - rewrite (burn_other _ _ _ _ _ tok poolAddr Hb) by (cbn; congruence). lia.
Qed.

Lemma pays_nothing k w w' tok : tokens w' = tokens w -> (forall t, paid_of k w t = 0) ->
  balanceOf (tokens w) tok poolAddr - paid_of k w tok <= balanceOf (tokens w') tok poolAddr.
Proof. intros -> ->. lia. Qed.

Lemma exec_paid c k w w' tok : exec c k w = Ok w' -> wf w ->
  balanceOf (tokens w) tok poolAddr - paid_of k w tok <= balanceOf (tokens w') tok poolAddr.
Proof.
  destruct k; cbn [exec]; intros H Hwf;
    try (unfold ShieldedPool.setCommittee, ShieldedPool.setEd25519Verifier, ShieldedPool.setAuthorizedSolver,
           ShieldedPool.setCctpConfig, ShieldedPool.setVerifier, ShieldedPool.with_config, ShieldedPool.registerAsset,
           ShieldedPool.setAssociationRoot, ShieldedPool.setAuthorizedStreamContract, ShieldedPool.pause,
           ShieldedPool.unpause, StreamEscrow.setVerifier, StreamEscrow.pause, StreamEscrow.unpause, on_registry in H;
         peel H; by apply pays_nothing).
  - apply pays_nothing; [|done]. unfold ShieldedPool.receiveDeposit in H. peel H.
    match goal with H : ShieldedPool.insert_leaf _ _ = Ok _ |- _ => apply insert_leaf_step in H as [_ <-] end.
    match goal with H : ShieldedPool.adjustNoteSupply _ _ _ = Ok _ |- _ => by apply adjust_Ok in H as (_ & _ & ->) end.
  - unfold ShieldedPool.withdraw in H. peel H. eapply (pay_out_paid _ w _ _ _ _ _ _ _ _ (pub_at pub 2)); try done.
    match goal with H : ucheck _ = Ok _ |- _ => apply ucheck_Ok in H as [<- Hu] end.
    match goal with H : ShieldedPool.check_proof _ _ _ _ = Ok _ |- _ => apply check_Ok in H as Hv end.
    pose proof (pub_field _ _ _ 4 Hv) as Hf. unfold in_field, u256 in *. lia.
  - apply pays_nothing; [|done]. unfold ShieldedPool.privateTransferSettle in H. peel H.
    match goal with H : ShieldedPool.spend_nullifier _ _ _ = Ok _ |- _ => apply spend_quiet in H as [_ <-] end.
    match goal with H : ShieldedPool.insert_leaf _ _ = Ok _ |- _ => by apply insert_leaf_step in H as [_ <-] end.
  - unfold ShieldedPool.rfqSettle in H. peel H. eapply (pay_out_paid _ w _ _ _ _ _ _ _ _ (pub_at pub 2)); try done.
    match goal with H : ShieldedPool.check_proof _ _ _ _ = Ok _ |- _ => apply check_Ok in H as Hv end.
    pose proof (pub_field _ _ _ 2 Hv) as Hf. unfold in_field in *. lia.
  - by eapply cctp_paid.
  - apply pays_nothing; [|done]. unfold ShieldedPool.mpcSettle in H. peel H. by apply swap_notes_step in H as [_ <-].
  - apply pays_nothing; [|done]. unfold ShieldedPool.mpcSettlePriced in H. peel H. by apply swap_notes_step in H as [_ <-].
  - apply pays_nothing; [|done]. by apply streamInsert_step in H as (_ & _ & <- & _).
  - apply pays_nothing; [|done]. unfold StreamEscrow.open_ in H. peel H.
    match goal with H : ShieldedPool.spend_nullifier _ _ _ = Ok _ |- _ => apply spend_quiet in H as [_ <-] end.
    match goal with H : ShieldedPool.streamInsert _ _ _ _ _ = Ok _ |- _ => apply streamInsert_step in H as (_ & _ & Hk & _); exact Hk end.
  - apply pays_nothing; [|done]. unfold StreamEscrow.settle in H. peel H. by apply settle_one_step in H as (_ & _ & <-).
  - apply pays_nothing; [|done]. unfold StreamEscrow.settleBatch in H. peel H. by apply settle_all_step in H as (_ & _ & <-).
  - apply pays_nothing; [|done]. unfold StreamEscrow.reclaim in H. peel H.
    match goal with H : ShieldedPool.streamInsert _ _ _ _ _ = Ok _ |- _ => apply streamInsert_step in H as (_ & _ & Hk & _); exact Hk end.
Qed.

(** Notes and reserves together are covered. *)
Definition backed (w : World) : Prop := sound w /\ forall a, token_of (pool w) a <> 0 -> owed a w <= vault w a.

(** What a call pays is never more than what it takes off the owed amount. *)
Lemma paid_flow k w a : (forall c, fair (TCall c k) w) -> (forall c, funded (TCall c k) w) -> distinct w ->
  token_of (pool w) a <> 0 -> owed a w <= vault w a ->
  owed a w + flow a (flows_of k) <= vault w a - paid_of k w (token_of (pool w) a).
Proof.
  intros Hf Hfu Hd Ha Hb. set (c0 := {| sender := 0; block_number := 0; hasRole := fun _ => true |}).
  specialize (Hf c0). specialize (Hfu c0).
  assert (forall b x, (if b =? a then x else 0) + 0 = if token_of (pool w) b =? token_of (pool w) a then x else 0) as Hsame.
  { intros b x. destruct (Z.eqb_spec b a) as [->|Hne]; [rewrite Z.eqb_refl; lia|].
    destruct (Z.eqb_spec (token_of (pool w) b) (token_of (pool w) a)) as [E|]; [|done]. symmetry in E. by apply Hd in E. }
  destruct k; cbn [flows_of flow paid_of fst snd fair funded] in *; try lia.
  - destruct (Z.eqb_spec (pub_at pub 8) a) as [<-|]; lia.
  - rewrite Hsame. destruct (_ =? _); lia.
  - rewrite Hsame. destruct (_ =? _); lia.
  - rewrite <- Hf, Hsame. destruct (_ =? _); lia.
  - destruct (Z.eqb_spec assetId a) as [<-|]; lia.
Qed.

Lemma funded_ctx c c' k w : funded (TCall c k) w -> funded (TCall c' k) w.
Proof. by destruct k. Qed.

Lemma exec_tokens_of c k w w' a : exec c k w = Ok w' -> wf w -> token_of (pool w) a <> 0 -> token_of (pool w') a = token_of (pool w) a.
Proof.
  intros E Hwf Ha. destruct (is_register k) eqn:Ek.
  - destruct k; try done. apply register_step in E as (H0 & Ht & _); [|done]. rewrite Ht. destruct (Z.eqb_spec assetId a); [by subst|done].
  - destruct (exec_step c k w w' E Hwf Ek) as (T & S & _). unfold token_of. by rewrite (ss_tokens _ _ _ _ _ S).
Qed.

Lemma reserved_zero a m : (forall i ch, m !! i = Some ch -> held a ch = 0) -> reserved a m = 0.
Proof.
  induction m as [|i ch m Hi IH] using map_ind; intros H; [done|]. rewrite reserved_insert_new by done.
  rewrite (H i ch) by (by rewrite lookup_insert_eq). rewrite IH; [done|]. intros j c Hj. apply (H j). by simplify_map_eq.
Qed.

Lemma reserved_unregistered w a : wf w -> token_of (pool w) a = 0 -> reserved a (channels (escrow w)) = 0.
Proof.
  intros [_ Hc] Ha. apply reserved_zero. intros i ch Hch. destruct (Hc i ch Hch) as (_ & _ & Hne). unfold held.
  destruct (_ && _) eqn:E; [|done]. breflect. subst. destruct (Z.eq_dec (cap ch) 0); [done|]. exfalso. by apply Hne.
Qed.

Lemma apply_backed x w : backed w -> fair x w /\ funded x w -> backed (apply_tx x w).
Proof.
  intros [Hs Hb] [Hf Hfu]. split; [by apply apply_sound|]. destruct Hs as (Hwf & Hd & _). destruct x as [c k|t]; cbn [apply_tx].
  2:{ intros a Ha. specialize (Hb a Ha). unfold vault, owed in *. cbn in *. specialize (Hf (token_of (pool w) a)). lia. }
  destruct (exec c k w) as [w'|] eqn:E; [|done]. intros a Ha.
  assert (token_of (pool w) a <> 0 -> owed a w' <= vault w' a) as Hreg.
  { intros Ha'. destruct (exec_owed c k w w' E Hwf) as [_ ->]. unfold vault at 1. rewrite (exec_tokens_of c k w w' a E Hwf Ha').
    etransitivity; [|by eapply exec_paid]. apply paid_flow; try done; auto. }
  destruct (Z.eq_dec (token_of (pool w) a) 0) as [H0|]; [|by apply Hreg].
  destruct (is_register k) eqn:Ek.
  - destruct k; try done. pose proof E as E'. apply register_step in E' as (_ & Ht & Hn & He & Htk); [|done].
    unfold owed. rewrite He, Hn, (reserved_unregistered w a Hwf H0), (proj1 Hwf a H0). apply balance_nonneg.
  - destruct (exec_step c k w w' E Hwf Ek) as (T & S & _). exfalso. apply Ha. unfold token_of. by rewrite (ss_tokens _ _ _ _ _ S).
Qed.

Lemma deploy_backed lv pid cid win t w0 : deploy lv pid cid win t = Ok w0 -> backed w0.
Proof.
  intros H. split; [by eapply deploy_sound|]. apply rbind_Ok in H as (fr & _ & [= <-]).
  intros a. unfold token_of. cbn. by rewrite lookup_empty.
Qed.

(** ** Closing a channel *)

Definition has_room (n : nat) (w : World) : Prop := (nextLeafIndex (tree (pool w)) + n <= 2 ^ flevels (tree (pool w)))%nat.

Lemma insert_leaf_room l w : l < SNARK_SCALAR_FIELD -> has_room 1 w ->
  exists t i, insert (tree (pool w)) l = Ok (t, i) /\
    ShieldedPool.insert_leaf l w = Ok (set_pool (set_tree t (pool w)) w, i) /\
    nextLeafIndex t = S (nextLeafIndex (tree (pool w))) /\ flevels t = flevels (tree (pool w)).
Proof.
  unfold has_room, ShieldedPool.insert_leaf, insert. intros Hl Hr. rewrite Z.geb_leb.
  destruct (Z.leb_spec SNARK_SCALAR_FIELD l); [lia|]. destruct (Nat.eqb_spec (nextLeafIndex (tree (pool w))) (2 ^ flevels (tree (pool w)))); [lia|].
  destruct (insert_loop _ _ _ _) as [fl r]. eexists _, _. cbn. split_and!; try reflexivity. cbn. lia.
Qed.

(** An adjustment within the vault succeeds. *)
Lemma adjust_succeeds a d w :
  token_of (pool w) a <> 0 -> 0 <= ShieldedPool.noteSupply (pool w) a + d <= vault w a ->
  ShieldedPool.noteSupply (pool w) a + d < 2 ^ 255 ->
  ShieldedPool.adjustNoteSupply a d w =
    Ok (set_pool (set_assets (assetToken (pool w)) (<[a := ShieldedPool.noteSupply (pool w) a + d]> (noteSupplyOf (pool w))) (pool w)) w).
Proof.
  intros Ht Hn Hv. unfold ShieldedPool.adjustNoteSupply, ShieldedPool.vaultBalance, ShieldedPool.getAssetToken.
  fold (token_of (pool w) a). rewrite (proj2 (Z.eqb_neq _ _) Ht).
  rewrite (proj2 (icheck_Ok _ (ShieldedPool.noteSupply (pool w) a + d))) by (split; [done|lia]). cbn [rbind].
  fold (vault w a). rewrite Z.gtb_ltb. destruct (Z.ltb_spec (ShieldedPool.noteSupply (pool w) a + d) 0); [lia|].
  by destruct (Z.ltb_spec (vault w a) (ShieldedPool.noteSupply (pool w) a + d)); [lia|].
Qed.

(** An insertion for a channel that adds [d] within the vault succeeds. *)
Lemma streamInsert_succeeds a l d w :
  ppaused (pool w) = false -> escrowAddr ∈ authorizedStreamContract (pool w) -> l < SNARK_SCALAR_FIELD -> has_room 1 w ->
  (d <> 0 -> token_of (pool w) a <> 0 /\ 0 <= ShieldedPool.noteSupply (pool w) a + d <= vault w a /\ vault w a < 2 ^ 255) ->
  exists w', ShieldedPool.streamInsert escrowAddr a l d w = Ok w' /\ moves [] [l] w w' /\ pool w' = set_tree (tree (pool w'))
    (if d =? 0 then pool w else set_assets (assetToken (pool w)) (<[a := ShieldedPool.noteSupply (pool w) a + d]> (noteSupplyOf (pool w))) (pool w)) /\
    escrow w' = escrow w /\ tokens w' = tokens w /\
    nextLeafIndex (tree (pool w')) = S (nextLeafIndex (tree (pool w))) /\ flevels (tree (pool w')) = flevels (tree (pool w)).
Proof.
  intros Hp Ha Hl Hr Hd. unfold ShieldedPool.streamInsert. rewrite Hp, bool_decide_true by done. cbn [negb].
  destruct (Z.eqb_spec d 0) as [->|Hne]; cbn [rbind].
  - destruct (insert_leaf_room l w Hl Hr) as (t & i & Ei & E & Hn & Hf). rewrite E. cbn [rbind fst]. eexists. split; [reflexivity|].
    split; [by eapply insert_leaf_moves|]. by cbn.
  - destruct (Hd Hne) as (Ht & Hs & Hv). rewrite (adjust_succeeds a d w Ht Hs ltac:(lia)). cbn [rbind].
    set (w1 := set_pool _ w). destruct (insert_leaf_room l w1 Hl Hr) as (t & i & Ei & E & Hn & Hf). rewrite E. cbn [rbind fst].
    eexists. split; [reflexivity|]. split; [|by cbn]. eapply moves_ext; [by eapply insert_leaf_moves|done..].
Qed.

(** The contracts are running and know each other, and the vault of an asset
    is below the range of its supply counter. *)
Definition running (w : World) (a : Z) : Prop :=
  ppaused (pool w) = false /\ epaused (escrow w) = false /\ escrowAddr ∈ authorizedStreamContract (pool w) /\
  vault w a < 2 ^ 255.

Definition live (w : World) (id : Z) (ch : Channel) : Prop :=
  channels (escrow w) !! id = Some ch /\ opened ch = true /\ consumed ch = false.

Lemma live_reserve w id ch : backed w -> live w id ch ->
  channel_ok (pool w) ch /\
  (cap ch <> 0 -> token_of (pool w) (ch_assetId ch) <> 0 /\ 0 <= ShieldedPool.noteSupply (pool w) (ch_assetId ch) /\
                  ShieldedPool.noteSupply (pool w) (ch_assetId ch) + cap ch <= vault w (ch_assetId ch)).
Proof.
  intros [(Hwf & _ & Hcov) Hb] (Hch & Ho & Hc). pose proof (proj2 Hwf _ _ Hch) as Hok. split; [done|]. intros Hne.
  destruct Hok as (_ & _ & Ht). specialize (Ht Hne). split_and!; [done|by apply Hcov|].
  assert (forall i c, channels (escrow w) !! i = Some c -> 0 <= cap c) as Hpos by (intros i c Hi; by apply (proj2 Hwf) in Hi as ([? _] & _)).
  pose proof (reserved_le (ch_assetId ch) _ _ _ Hpos Hch) as Hr. unfold held in Hr. rewrite Ho, Hc, Z.eqb_refl in Hr. cbn in Hr.
  specialize (Hb _ Ht). unfold owed in Hb. lia.
Qed.

Lemma getChannel_live w id ch : live w id ch -> StreamEscrow.getChannel (escrow w) id = ch.
Proof. intros (Hch & _). unfold StreamEscrow.getChannel. by rewrite Hch. Qed.

Lemma noteSupply_set p a n t : ShieldedPool.noteSupply (set_tree t (set_assets (assetToken p) (<[a := n]> (noteSupplyOf p)) p)) a = n.
Proof. unfold ShieldedPool.noteSupply. cbn. by rewrite lookup_insert_eq. Qed.

(** The supply after an insertion for a channel. *)
Lemma inserted_supply p p' a d t :
  p' = set_tree t (if d =? 0 then p else set_assets (assetToken p) (<[a := ShieldedPool.noteSupply p a + d]> (noteSupplyOf p)) p) ->
  ShieldedPool.noteSupply p' a = ShieldedPool.noteSupply p a + d /\ assetToken p' = assetToken p /\ ppaused p' = ppaused p /\
  authorizedStreamContract p' = authorizedStreamContract p.
Proof.
  intros ->. destruct (Z.eqb_spec d 0) as [->|]; [cbn; split_and!; try done; unfold ShieldedPool.noteSupply; cbn; lia|].
  rewrite noteSupply_set. by cbn.
Qed.

Lemma field_leaf x : in_field x -> x < SNARK_SCALAR_FIELD.
Proof. by intros [_ H]. Qed.

(** The notes of a closed channel are in the tree, its cap is in the supply. *)
Definition closed_with (ls : list Z) (id : Z) (ch : Channel) (w w' : World) : Prop :=
  moves [] ls w w' /\ consumed (StreamEscrow.getChannel (escrow w') id) = true /\
  ShieldedPool.noteSupply (pool w') (ch_assetId ch) = ShieldedPool.noteSupply (pool w) (ch_assetId ch) + cap ch /\
  tokens w' = tokens w.

Lemma getChannel_put id ch w : StreamEscrow.getChannel (escrow (StreamEscrow.put_channel id ch w)) id = ch.
Proof. unfold StreamEscrow.getChannel. cbn. by rewrite lookup_insert_eq. Qed.

Lemma reclaim_ok c w id ch :
  backed w -> live w id ch -> running w (ch_assetId ch) -> has_room 1 w ->
  expiry ch + challengeWindow (escrow w) < block_number c -> u256 (expiry ch + challengeWindow (escrow w)) ->
  exists w', exec c (Reclaim id) w = Ok w' /\ closed_with [reclaimCommitment ch] id ch w w'.
Proof.
  intros Hb Hl (Hp & He & Ha & Hv) Hr Hblk Hu. destruct (live_reserve _ _ _ Hb Hl) as ((Hcap & Hrec & _) & Hres).
  cbn [exec]. unfold StreamEscrow.reclaim. rewrite He, (getChannel_live _ _ _ Hl). destruct Hl as (_ & -> & ->). cbn [negb].
  rewrite (proj2 (ucheck_Ok _ _) (conj eq_refl Hu)). cbn [rbind]. destruct (Z.leb_spec (block_number c) (expiry ch + challengeWindow (escrow w))); [lia|].
  rewrite (field_int256 _ Hcap). set (w1 := StreamEscrow.put_channel id _ w).
  destruct (streamInsert_succeeds (ch_assetId ch) (reclaimCommitment ch) (cap ch) w1) as (w' & E & Hm & Ep & Ee & Et & _);
    [done|done|by apply field_leaf|done| |].
  { intros Hne. destruct (Hres Hne) as (? & ? & ?). unfold in_field in Hcap. split_and!; try done; cbn; unfold vault in *; cbn; lia. }
  rewrite E. cbn [rbind]. eexists. split; [reflexivity|]. apply inserted_supply in Ep as (Hs & _). split_and!.
  - by eapply moves_ext.
  - cbn. rewrite Ee. unfold w1. by rewrite getChannel_put.
  - cbn. by rewrite Hs.
  - cbn. by rewrite Et.
Qed.

(** The claims of a settlement for a channel. *)
Definition settles (w : World) (id : Z) (ch : Channel) (pf : Groth16Proof) (pub : list Z) : Prop :=
  verifyProof (everifier (escrow w) CSettle) pf pub = Ok true /\
  pub_at pub 2 = associationRoot (pool w) /\ pub_at pub 3 = poolId (pool w) /\ pub_at pub 4 = chainId (pool w) /\
  pub_at pub 5 = id /\ pub_at pub 6 = payerAx ch /\ pub_at pub 7 = payerAy ch /\ pub_at pub 8 = cap ch /\
  pub_at pub 10 = ch_assetId ch /\ pub_at pub 9 <= cap ch.

Lemma settle_ok c w id ch pf pub :
  backed w -> live w id ch -> running w (ch_assetId ch) -> has_room 2 w -> settles w id ch pf pub ->
  exists w', exec c (Settle pf pub) w = Ok w' /\ closed_with [pub_at pub 0; pub_at pub 1] id ch w w'.
Proof.
  intros Hb Hl (Hp & He & Ha & Hv) Hr (Hver & Has & Hpid & Hcid & Hid & Hax & Hay & Hcp & Haid & Hle).
  destruct (live_reserve _ _ _ Hb Hl) as ((Hcap & _ & _) & Hres).
  pose proof (pub_field _ _ _ 9 Hver) as Hcum. assert (in_field (cap ch - pub_at pub 9)) as Href by (unfold in_field in *; lia).
  cbn [exec]. unfold StreamEscrow.settle, StreamEscrow.settle_one. rewrite He, Hid, (getChannel_live _ _ _ Hl).
  destruct Hl as (_ & -> & ->). cbn [negb]. rewrite Hax, Hay, Hcp, Haid, Hpid, Hcid, Has, !Z.eqb_refl. cbn [negb orb].
  unfold ShieldedPool.check_proof. rewrite Hver. cbn [rbind negb].
  rewrite (field_int256 _ Hcum). set (w1 := StreamEscrow.put_channel id _ w).
  assert (0 <= pub_at pub 9 /\ 0 <= cap ch - pub_at pub 9) as [H0 H1] by (split; [apply Hcum|lia]).
  destruct (streamInsert_succeeds (ch_assetId ch) (pub_at pub 0) (pub_at pub 9) w1) as (w2 & E & Hm & Ep & Ee & Et & Hn & Hf);
    [done|done|by apply field_leaf, (pub_field _ _ _ 0 Hver)|unfold has_room in *; cbn; lia| |].
  { intros Hne. destruct Hres as (? & ? & ?); [lia|]. split_and!; try done; cbn; unfold vault in *; cbn; lia. }
  rewrite E. cbn [rbind]. apply inserted_supply in Ep as (Hs & Htk & Hpp & Hau).
  rewrite (proj2 (ucheck_Ok _ (cap ch - pub_at pub 9))) by (split; [done|unfold u256, in_field in *; assert (BN254_FIELD_MODULUS < 2 ^ 256) by done; lia]).
  cbn [rbind]. rewrite (field_int256 _ Href).
  destruct (streamInsert_succeeds (ch_assetId ch) (pub_at pub 1) (cap ch - pub_at pub 9) w2) as (w3 & E3 & Hm3 & Ep3 & Ee3 & Et3 & _);
    [by rewrite Hpp|by rewrite Hau|by apply field_leaf, (pub_field _ _ _ 1 Hver)|unfold has_room in *; rewrite Hn, Hf; cbn; lia| |].
  { intros Hne. destruct Hres as (? & ? & ?); [lia|]. rewrite Hs. unfold vault, token_of in *. rewrite Htk, Et. cbn. split_and!; try done; lia. }
  rewrite E3. cbn [rbind]. eexists. split; [reflexivity|]. apply inserted_supply in Ep3 as (Hs3 & _). split_and!.
  - eapply (moves_trans [] [_] [] [_]); [|by eapply moves_ext]. by eapply moves_ext.
  - cbn. rewrite Ee3, Ee. unfold w1. by rewrite getChannel_put.
  - cbn. rewrite Hs3, Hs. cbn. lia.
  - cbn. by rewrite Et3, Et.
Qed.

End ArcSupply.
End ArcSupply.
