(* ===== verification/ArcNotes.v ===== *)
(** The notes behind the Arc ledger.

    A verified proof is backed by a witness of its circuit ([Circuits]).  From
    the witnesses of a run the notes it made and spent can be read off, and the
    value of the unspent ones is compared with the supply the pool keeps. *)

From S2P Require Import Prelude Text Json Streams Merkle Circuits Proving Evm ArcPool ArcEscrow ArcLedger ArcSupply.
Local Open Scope string_scope.
Local Open Scope Z_scope.

(** The witness behind a proof: the knowledge extractor of Groth16. *)
Class Extractor (PC : Precompiles) := extract : Circuit -> Groth16Proof -> list Z -> input.

Module ArcNotes.
Import ArcLedger ArcSupply.

Record Note := { n_asset : Z; n_value : Z; n_label : Z; n_nullifier : Z; n_secret : Z }.

Section Notes.
Context {HP : Poseidon} {CL : Circomlib} {CLL : CircomlibLaws CL} {ED : Eddsa}.

Definition commit (n : Note) : Z := commitment_of (n_asset n) (n_value n) (n_label n) (n_nullifier n) (n_secret n).
Definition nf (pid cid : Z) (n : Note) : Z := poseidonHash [n_nullifier n; pid; cid].

(** The note of an input object under the given signal names. *)
Definition note_of (i : input) (a v l n s : string) : Note :=
  {| n_asset := sig i a; n_value := sig i v; n_label := sig i l; n_nullifier := sig i n; n_secret := sig i s |}.

(** A spent note with its place in the tree. *)
Record Spend := { s_note : Note; s_index : Z; s_siblings : list Z }.

Definition spend_of (i : input) (a v l n s idx sibs : string) : Spend :=
  {| s_note := note_of i a v l n s; s_index := sig i idx; s_siblings := sigs i sibs |}.

(** ** The circuits *)

Definition satisfied (c : Circuit) (i : input) : bool :=
  match c with
  | CWithdraw => Circuits.Withdraw i | CTransfer => Circuits.PrivateTransfer i | CDeposit => Circuits.DepositNoteMint i
  | CMpc => Circuits.MpcSettlement i | CPriced => Circuits.MpcPricedSettlement i
  | COpen => Circuits.StreamOpen i | CSettle => Circuits.StreamSettle i
  end.

Definition spends (c : Circuit) (i : input) : list Spend :=
  match c with
  | CWithdraw => [spend_of i "assetId" "value" "label" "nullifier" "secret" "stateIndex" "stateSiblings"]
  | CTransfer => [spend_of i "inputAssetId" "inValue" "inLabel" "inNullifier" "inSecret" "stateIndex" "stateSiblings"]
  | COpen => [spend_of i "assetId" "inValue" "inLabel" "inNullifier" "inSecret" "stateIndex" "stateSiblings"]
  | CMpc => [spend_of i "assetId" "valueA" "labelA" "nullifierA" "secretA" "stateIndexA" "stateSiblingsA";
             spend_of i "assetId" "valueB" "labelB" "nullifierB" "secretB" "stateIndexB" "stateSiblingsB"]
  | CPriced => [spend_of i "inputAssetA" "matchedAmountA" "labelA" "nullifierA" "secretA" "stateIndexA" "stateSiblingsA";
                spend_of i "inputAssetB" "matchedAmountB" "labelB" "nullifierB" "secretB" "stateIndexB" "stateSiblingsB"]
  | CDeposit | CSettle => []
  end.

Definition change_note (i : input) : Note :=
  {| n_asset := sig i "assetId"; n_value := fmod (sig i "inValue" - sig i "cap"); n_label := sig i "changeLabel";
     n_nullifier := sig i "changeNullifier"; n_secret := sig i "changeSecret" |}.
Definition reclaim_note (i : input) : Note := note_of i "assetId" "cap" "reclaimLabel" "reclaimNullifier" "reclaimSecret".
Definition refund_note (i : input) : Note :=
  {| n_asset := sig i "assetId"; n_value := fmod (sig i "cap" - sig i "cumulative"); n_label := sig i "refundLabel";
     n_nullifier := sig i "refundNullifier"; n_secret := sig i "refundSecret" |}.

(** The notes whose commitments a circuit makes public for insertion. *)
Definition makes (c : Circuit) (i : input) : list Note :=
  match c with
  | CWithdraw => []
  | CTransfer => [note_of i "outputAssetId" "outValue" "outLabel" "outNullifier" "outSecret"]
  | CDeposit => [note_of i "assetIdHash" "value" "label" "nullifier" "secret"]
  | CMpc => [note_of i "assetId" "outValueA" "outLabelA" "outNullifierA" "outSecretA";
             note_of i "assetId" "outValueB" "outLabelB" "outNullifierB" "outSecretB"]
  | CPriced => [note_of i "outputAssetA" "matchedAmountB" "outLabelA" "outNullifierA" "outSecretA";
                note_of i "outputAssetB" "matchedAmountA" "outLabelB" "outNullifierB" "outSecretB"]
  | COpen => [change_note i]
  | CSettle => [note_of i "assetId" "cumulative" "payeeLabel" "payeeNullifier" "payeeSecret"; refund_note i]
  end.

(** The public inputs in the order of the circuits' [main] components. *)
Definition withdraw_main : list string :=
  ["operationType"; "withdrawnValue"; "recipientHash"; "relayerFee"; "deadlineLedger"; "stateRoot";
   "associationRoot"; "poolId"; "chainId"; "quoteHash"; "intentHash"; "fillReceiptHash"; "destinationDomain";
   "destinationRecipient"; "maxFee"; "minFinalityThreshold"; "assetId"].
Definition transfer_main : list string :=
  ["outputCommitment"; "feePublic"; "stateRoot"; "associationRoot"; "poolId"; "chainId"; "inputAssetId"; "outputAssetId"].
Definition deposit_main : list string :=
  ["operationType"; "sourceDomain"; "destinationDomain"; "cctpNonceHash"; "burnTxHashHash"; "amount6dp";
   "amount7dp"; "assetIdHash"; "recipientPool"; "encryptedNotePayloadHash"; "policyIdHash"; "poolId"; "chainId"].
Definition mpc_main : list string :=
  ["stateRoot"; "associationRoot"; "batchHash"; "poolId"; "chainId"; "matchedAmount7dp"; "deadlineLedger"; "assetId"].
Definition priced_main : list string :=
  ["stateRoot"; "associationRoot"; "batchHash"; "poolId"; "chainId"; "deadlineLedger"; "inputAssetA";
   "outputAssetA"; "inputAssetB"; "outputAssetB"; "matchedAmountA"; "matchedAmountB"; "priceScaled"; "priceScale";
   "minOutputA"; "minOutputB"].
Definition open_main : list string :=
  ["changeCommitment"; "reclaimCommitment"; "stateRoot"; "associationRoot"; "poolId"; "chainId"; "channelId";
   "payerAx"; "payerAy"; "cap"; "expiry"; "assetId"].
Definition settle_main : list string :=
  ["associationRoot"; "poolId"; "chainId"; "channelId"; "payerAx"; "payerAy"; "cap"; "cumulative"; "assetId"].

Definition public_inputs (c : Circuit) : list string :=
  match c with
  | CWithdraw => withdraw_main | CTransfer => transfer_main | CDeposit => deposit_main | CMpc => mpc_main
  | CPriced => priced_main | COpen => open_main | CSettle => settle_main
  end.

(** The public outputs come first: nullifiers, then output commitments; the
    transfer and the opening take their commitments as inputs. *)
Definition public_outputs (c : Circuit) (i : input) : list Z :=
  let pid := sig i "poolId" in let cid := sig i "chainId" in
  match c with
  | CTransfer | COpen => map (fun s => nf pid cid (s_note s)) (spends c i)
  | _ => map (fun s => nf pid cid (s_note s)) (spends c i) ++ map commit (makes c i)
  end.

Definition public_signals (c : Circuit) (i : input) : list Z := public_outputs c i ++ map (sig i) (public_inputs c).

(** ** What a satisfied circuit says of its notes *)

Definition placed (i : input) (s : Spend) : Prop :=
  member_of 12 (commit (s_note s)) (s_index s) (s_siblings s) (sig i "stateRoot") = true.

Lemma spends_placed c i : satisfied c i = true -> Forall (placed i) (spends c i).
Proof.
  destruct c; cbn [satisfied spends]; intros H; try constructor; try constructor; try constructor;
    unfold Circuits.Withdraw, Circuits.PrivateTransfer, Circuits.MpcSettlement, Circuits.MpcPricedSettlement,
      Circuits.StreamOpen in H; rewrite !andb_true_iff in H; unfold placed; cbn; tauto.
Qed.

Definition value_of (a : Z) (ns : list Note) : Z :=
  foldr (fun n acc => (if n_asset n =? a then n_value n else 0) + acc) 0 ns.

Lemma value_app a l l' : value_of a (l ++ l') = value_of a l + value_of a l'.
Proof. unfold value_of. induction l as [|n l IH]; cbn; [done|]. rewrite IH. lia. Qed.

(** What a circuit takes in for an asset besides notes, and gives out. *)
Definition circuit_flow (a : Z) (c : Circuit) (i : input) : Z :=
  match c with
  | CDeposit => if sig i "assetIdHash" =? a then sig i "amount7dp" else 0
  | CWithdraw => - (if sig i "assetId" =? a then sig i "withdrawnValue" else 0)
  | COpen => - (if sig i "assetId" =? a then sig i "cap" else 0)
  | CSettle => if sig i "assetId" =? a then sig i "cap" else 0
  | _ => 0
  end.

(** No circuit but the same-asset settlement makes value. *)
Lemma circuit_conserves a c i : satisfied c i = true -> c <> CMpc ->
  value_of a (makes c i) <= value_of a (map s_note (spends c i)) + circuit_flow a c i.
Proof.
  intros H Hc. destruct c; cbn [satisfied makes spends map s_note spend_of note_of value_of foldr n_asset n_value circuit_flow
    change_note refund_note] in *; try done.
  - apply withdraw_sound in H as [H1 H2]. destruct (_ =? a); lia.
  - pose proof (transfer_sound i H) as (H1 & H2 & H3). unfold Circuits.PrivateTransfer in H. rewrite !andb_true_iff in H.
    destruct H as (((((((_ & H) & _) & _) & _) & _) & _) & _). apply Z.eqb_eq in H. rewrite H. destruct (_ =? a); lia.
  - unfold Circuits.DepositNoteMint in H. rewrite !andb_true_iff in H. destruct H as ((_ & H1) & H2).
    apply num2bits_bound in H2; [|apply sig_range]. apply num2bits_sub in H1 as [H1 _]; [|apply sig_range|done].
    destruct (_ =? a); lia.
  - unfold Circuits.MpcPricedSettlement in H. rewrite !andb_true_iff in H.
    destruct H as (((((((((((_ & H1) & H2) & _) & _) & _) & _) & _) & _) & _) & _) & _). apply Z.eqb_eq in H1, H2. rewrite H1, H2. lia.
  - unfold Circuits.StreamOpen in H. rewrite !andb_true_iff in H. destruct H as ((((_ & H1) & H2) & _) & _).
    apply num2bits_bound in H2; [|apply sig_range]. apply num2bits_sub in H1 as [H1 ->]; [|apply sig_range|done].
    destruct (_ =? a); lia.
  - apply settle_sound in H as [H1 ->]. destruct (_ =? a); lia.
Qed.

Lemma makes_nonneg c i : Forall (fun n => 0 <= n_value n) (makes c i).
Proof.
  assert (forall k, 0 <= sig i k) as Hs by (intros k; apply sig_range).
  destruct c; repeat constructor; cbn; try apply Hs; apply fmod_range.
Qed.

Lemma open_commitments i : satisfied COpen i = true ->
  sig i "changeCommitment" = commit (change_note i) /\ sig i "reclaimCommitment" = commit (reclaim_note i).
Proof.
  cbn [satisfied]. unfold Circuits.StreamOpen. rewrite !andb_true_iff. intros ((_ & H1) & H2).
  apply Z.eqb_eq in H1, H2. done.
Qed.

Lemma transfer_commitment i : satisfied CTransfer i = true ->
  sig i "outputCommitment" = commit (note_of i "outputAssetId" "outValue" "outLabel" "outNullifier" "outSecret").
Proof.
  cbn [satisfied]. unfold Circuits.PrivateTransfer. rewrite !andb_true_iff. intros (((((_ & H) & _) & _) & _) & _). by apply Z.eqb_eq in H.
Qed.

(** ** Hash inputs without collisions *)

Definition free (Q : list (list Z)) : Prop :=
  (forall x y, x ∈ Q -> y ∈ Q -> poseidonHash x = poseidonHash y -> x = y) /\ (forall x, x ∈ Q -> poseidonHash x <> 0).

Definition note_queries (n : Note) : list (list Z) :=
  [[poseidonHash [n_asset n; n_value n; n_label n]; poseidonHash [n_nullifier n; n_secret n]];
   [n_asset n; n_value n; n_label n]; [n_nullifier n; n_secret n]].

Lemma commit_binds Q n n' : free Q -> note_queries n ⊆ Q -> note_queries n' ⊆ Q -> commit n = commit n' -> n = n'.
Proof.
  intros [Hf _] H H' E. unfold commit, commitment_of in E. unfold note_queries in *. apply Hf in E; [|set_solver..].
  injection E as E1 E2. apply Hf in E1, E2; [|set_solver..]. destruct n, n'. cbn in *. by simplify_eq.
Qed.

Lemma commit_nonzero Q n : free Q -> note_queries n ⊆ Q -> commit n <> 0.
Proof. intros [_ H0] H. unfold commit, commitment_of. apply H0. unfold note_queries in H. set_solver. Qed.

(** Inputs hashed along an inclusion path, and in a whole tree. *)
Fixpoint path_queries (leaf index : Z) (siblings : list Z) : list (list Z) :=
  match siblings with
  | [] => []
  | s :: siblings =>
      let q := if Z.odd index then [s; leaf] else [leaf; s] in q :: path_queries (poseidonHash q) (index / 2) siblings
  end.

Fixpoint tree_queries (f : nat -> Z) (d i : nat) : list (list Z) :=
  match d with
  | O => []
  | S d => [node f d (2 * i); node f d (2 * i + 1)] :: tree_queries f d (2 * i) ++ tree_queries f d (2 * i + 1)
  end.

Lemma tree_queries_elem f d i k j : (k < d)%nat -> (j / 2 ^ (d - S k) = i)%nat ->
  [node f k (2 * j); node f k (2 * j + 1)] ∈ tree_queries f d i.
Proof.
  revert i. induction d as [|d IH]; intros i Hk Hj; [lia|]. cbn [tree_queries]. destruct (decide (k = d)) as [->|Hne].
  - rewrite Nat.sub_diag, Nat.pow_0_r, Nat.div_1_r in Hj. subst. left.
  - right. replace (S d - S k)%nat with (S (d - S k)) in Hj by lia.
    rewrite Nat.pow_succ_r', Nat.mul_comm, <- Nat.Div0.div_div in Hj. set (q := (j / 2 ^ (d - S k))%nat) in *.
    apply elem_of_app. destruct (parity q) as (h & [[Hq _]|[Hq _]]); [left|right]; apply IH; try lia; fold q; subst i; clearbody q; subst q;
      rewrite ?half_double, ?half_double1; lia.
Qed.

(** A path that ends in the root of a tree starts at the leaf of its index. *)
Lemma path_binds Q f d x idx sibs k : free Q -> path_queries x idx sibs ⊆ Q -> tree_queries f d 0 ⊆ Q ->
  (k + length sibs = d)%nat -> 0 <= idx -> (Z.to_nat idx < 2 ^ length sibs)%nat ->
  circuit_path x idx sibs = node f d 0 -> x = node f k (Z.to_nat idx).
Proof.
  intros Hf. revert x idx k. induction sibs as [|s sibs IH]; intros x idx k Hp Ht Hd H0 Hlt E.
  { cbn in *. rewrite Nat.add_0_r in Hd. subst. by replace (Z.to_nat idx) with O by lia. }
  cbn [circuit_path path_queries length] in *.
  assert (hash2 x s = poseidonHash [x; s] /\ hash2 s x = poseidonHash [s; x]) as [Eh1 Eh2] by done.
  assert (Z.to_nat (idx / 2) = (Z.to_nat idx / 2)%nat) as Ehalf by (rewrite Z2Nat.inj_div by lia; done).
  set (q := if Z.odd idx then [s; x] else [x; s]) in *.
  assert ((if Z.odd idx then hash2 s x else hash2 x s) = poseidonHash q) as Eq by (unfold q; by destruct (Z.odd idx)).
  rewrite Eq in E. specialize (IH (poseidonHash q) (idx / 2) (S k)).
  assert (Z.to_nat idx / 2 < 2 ^ length sibs)%nat as Hhalf by (rewrite Nat.pow_succ_r' in Hlt; apply Nat.Div0.div_lt_upper_bound; lia).
  specialize (IH ltac:(set_solver) Ht ltac:(lia) ltac:(apply Z.div_pos; lia) ltac:(by rewrite Ehalf) E).
  rewrite Ehalf in IH. cbn [node] in IH. unfold hash2 in IH.
  assert ([node f k (2 * (Z.to_nat idx / 2)); node f k (2 * (Z.to_nat idx / 2) + 1)] ∈ Q) as Hin.
  { apply Ht. apply tree_queries_elem; [lia|]. replace (d - S k)%nat with (length sibs) by lia. by apply Nat.div_small. }
  apply (proj1 Hf) in IH; [|set_solver|done]. destruct (parity (Z.to_nat idx)) as (h & [[Hi He]|[Hi He]]).
  - assert (Z.odd idx = false) as Ho by (rewrite <- (Z2Nat.id idx), Hi by lia; rewrite Nat2Z.inj_mul, Z.odd_mul; done).
    unfold q in IH. rewrite Ho in IH. assert (x = node f k (2 * (Z.to_nat idx / 2))) as -> by congruence. by rewrite Hi, half_double.
  - assert (Z.odd idx = true) as Ho by (rewrite <- (Z2Nat.id idx), Hi by lia; rewrite Nat2Z.inj_add, Nat2Z.inj_mul, Z.odd_add, Z.odd_mul; done).
    unfold q in IH. rewrite Ho in IH. assert (x = node f k (2 * (Z.to_nat idx / 2) + 1)) as -> by congruence. by rewrite Hi, half_double1.
Qed.

(** All trees the pool ever had. *)
Definition history_queries (leaves : list Z) : list (list Z) :=
  concat (map (fun m => tree_queries (leaf_fn (take m leaves)) 12 0) (List.seq 0 (S (length leaves)))).

(** What was proved to be in a known tree is a leaf. *)
Lemma known_leaf Q leaves t x idx sibs r :
  free Q -> tree_of 12 leaves t -> isKnownRoot t r = true -> member_of 12 x idx sibs r = true -> in_field idx -> x <> 0 ->
  path_queries x idx sibs ⊆ Q -> history_queries leaves ⊆ Q -> leaves !! Z.to_nat idx = Some x.
Proof.
  intros Hf (_ & Hr & _) Hk Hm Hidx Hx Hp Hh. unfold isKnownRoot in Hk. breflect. rewrite Hr in *.
  match goal with H : r ∈ _ |- _ => apply prefix_roots_elem in H as (m & Hmle & ->) end.
  unfold member_of in Hm. breflect. assert (idx < 2 ^ 12) as Hi by (apply Num2Bits_spec; [lia|done|done]).
  assert (x = node (leaf_fn (take m leaves)) 0 (Z.to_nat idx)) as E.
  { eapply (path_binds Q _ 12); try done.
    - intros q Hq. apply Hh. unfold history_queries. apply list_elem_of_In, in_concat.
      exists (tree_queries (leaf_fn (take m leaves)) 12 0). split; [|by apply list_elem_of_In].
      apply in_map_iff. exists m. split; [done|]. apply in_seq. lia.
    - apply Hidx.
    - match goal with H : length sibs = _ |- _ => rewrite H end. change (2 ^ 12)%nat with (Z.to_nat (2 ^ 12)). destruct Hidx. lia. }
  cbn [node] in E. unfold leaf_fn in E. destruct (take m leaves !! Z.to_nat idx) as [y|] eqn:El; cbn in E; [|done]. subst y.
  apply lookup_take_Some in El. tauto.
Qed.

(** ** Unspent value *)

Section Unspent.
Context (pid cid : Z).

Fixpoint unspent (S : gset Z) (a : Z) (g : list Note) : Z :=
  match g with
  | [] => 0
  | n :: g => (if (n_asset n =? a) && negb (bool_decide (nf pid cid n ∈ S)) then n_value n else 0) + unspent S a g
  end.

Lemma unspent_app S a g g' : unspent S a (g ++ g') = unspent S a g + unspent S a g'.
Proof. induction g as [|n g IH]; cbn [unspent app]; [done|]. rewrite IH. lia. Qed.

Lemma unspent_value S a g : Forall (fun n => 0 <= n_value n) g -> unspent S a g <= value_of a g.
Proof.
  induction 1 as [|n g Hn _ IH]; [done|]. unfold value_of in *. cbn [unspent foldr].
  destruct (n_asset n =? a), (bool_decide _); cbn; lia.
Qed.

Lemma unspent_mono S S' a g : Forall (fun n => 0 <= n_value n) g -> S ⊆ S' -> unspent S' a g <= unspent S a g.
Proof.
  intros Hg HS. induction Hg as [|n g Hn _ IH]; cbn [unspent]; [done|]. destruct (n_asset n =? a); cbn [andb]; [|lia].
  do 2 case_bool_decide; cbn; try lia. set_solver.
Qed.

Lemma unspent_spend S a g n : Forall (fun n => 0 <= n_value n) g -> n ∈ g -> nf pid cid n ∉ S ->
  unspent ({[nf pid cid n]} ∪ S) a g + (if n_asset n =? a then n_value n else 0) <= unspent S a g.
Proof.
  intros Hg Hn HS. induction Hg as [|m g Hm Hg IH]; [by apply not_elem_of_nil in Hn|]. cbn [unspent].
  apply elem_of_cons in Hn as [->|Hn].
  - rewrite (bool_decide_true (nf pid cid m ∈ _)), (bool_decide_false (nf pid cid m ∈ S)) by set_solver.
    rewrite andb_false_r, andb_true_r. pose proof (unspent_mono S ({[nf pid cid m]} ∪ S) a g Hg ltac:(set_solver)). lia.
  - specialize (IH Hn). destruct (n_asset m =? a); cbn [andb]; [|lia].
    destruct (bool_decide (nf pid cid m ∈ S)) eqn:Em; breflect.
    + rewrite (bool_decide_true (nf pid cid m ∈ _)) by set_solver. cbn. lia.
    + case_bool_decide; cbn; lia.
Qed.

Lemma unspent_nonneg S a g : Forall (fun n => 0 <= n_value n) g -> 0 <= unspent S a g.
Proof. induction 1 as [|n g Hn _ IH]; cbn [unspent]; [done|]. destruct (_ && _); lia. Qed.

Lemma unspent_elem S g n : Forall (fun n => 0 <= n_value n) g -> n ∈ g -> nf pid cid n ∉ S ->
  n_value n <= unspent S (n_asset n) g.
Proof.
  intros Hg Hn HS. pose proof (unspent_spend S (n_asset n) g n Hg Hn HS) as H. rewrite Z.eqb_refl in H.
  pose proof (unspent_nonneg ({[nf pid cid n]} ∪ S) (n_asset n) g Hg). lia.
Qed.

Lemma unspent_spends S a g ns : Forall (fun n => 0 <= n_value n) g -> Forall (fun n => n ∈ g) ns ->
  NoDup (map (nf pid cid) ns) -> (forall x, x ∈ map (nf pid cid) ns -> x ∉ S) ->
  unspent (S ∪ list_to_set (map (nf pid cid) ns)) a g + value_of a ns <= unspent S a g.
Proof.
  intros Hg. revert S. induction ns as [|n ns IH]; intros S Hns Hnd HS; cbn [map list_to_set].
  { rewrite union_empty_r_L. unfold value_of. cbn. lia. }
  inversion Hns as [|? ? Hn Hns']; subst. cbn [map] in Hnd. apply list.NoDup_cons in Hnd as [Hnn Hnd]. unfold value_of. cbn [foldr].
  fold (value_of a ns). pose proof (unspent_spend S a g n Hg Hn ltac:(apply HS; left)).
  specialize (IH ({[nf pid cid n]} ∪ S) Hns' Hnd).
  replace (S ∪ ({[nf pid cid n]} ∪ list_to_set (map (nf pid cid) ns))) with ({[nf pid cid n]} ∪ S ∪ list_to_set (map (nf pid cid) ns)) by set_solver.
  assert (forall x, x ∈ map (nf pid cid) ns -> x ∉ {[nf pid cid n]} ∪ S) as Hx.
  { intros x Hx. apply not_elem_of_union. split; [|apply HS; by right]. rewrite elem_of_singleton. by intros ->. }
  specialize (IH Hx). lia.
Qed.
End Unspent.

(** ** Proofs of the calls *)

Section Runs.
Context {ER : Erc20} {EL : Erc20Laws ER} {BL : BalanceLaws ER} {PC : Precompiles} {VL : VerifierLaws PC} {XT : Extractor PC}
        {DP : Deployed}.

(** A verifier contract accepts only what has a witness with these signals. *)
Definition genuine (c : Circuit) (v : Address) : Prop :=
  forall pf pub, verifyProof v pf pub = Ok true ->
    satisfied c (extract c pf pub) = true /\ public_signals c (extract c pf pub) = pub.

Definition verifier_for (w : World) (c : Circuit) : Address :=
  match c with COpen | CSettle => everifier (escrow w) c | _ => pverifier (pool w) c end.

Definition proof_in (k : Call) : option (Circuit * Groth16Proof * list Z) :=
  match k with
  | ReceiveDeposit _ _ _ _ _ _ _ pf pub => Some (CDeposit, pf, pub)
  | Withdraw _ pf pub | RfqSettle _ _ _ _ _ _ pf pub | WithdrawCctp _ _ _ _ pf pub => Some (CWithdraw, pf, pub)
  | PrivateTransferSettle pf pub => Some (CTransfer, pf, pub)
  | MpcSettle _ _ _ pf pub => Some (CMpc, pf, pub)
  | MpcSettlePriced _ _ _ pf pub => Some (CPriced, pf, pub)
  | Open pf pub => Some (COpen, pf, pub)
  | _ => None
  end.

(** Where the signals of a circuit carry the state root and the domain. *)
Definition root_at (c : Circuit) : option nat :=
  match c with CWithdraw => Some 6%nat | CTransfer | COpen => Some 3%nat | CMpc | CPriced => Some 4%nat | CDeposit | CSettle => None end.
Definition domain_at (c : Circuit) : nat :=
  match c with CWithdraw => 8 | CTransfer | COpen => 5 | CMpc | CPriced => 7 | CDeposit => 12 | CSettle => 3 end.

Lemma public_root c i r : root_at c = Some r -> pub_at (public_signals c i) r = sig i "stateRoot".
Proof. by destruct c; intros [= <-]. Qed.
Lemma public_domain c i : pub_at (public_signals c i) (domain_at c) = sig i "poolId" /\
  pub_at (public_signals c i) (S (domain_at c)) = sig i "chainId".
Proof. by destruct c. Qed.

Lemma domain_Ok p a x y u : ShieldedPool.checkDomainCompliance p a x y = Ok u -> x = poolId p /\ y = chainId p.
Proof. unfold ShieldedPool.checkDomainCompliance. intros [H _]%guard_Ok. breflect. done. Qed.

(** A call succeeds only with a proof its verifier accepts, for this pool, over
    a root the tree had. *)
Lemma exec_proved c k w w' cc pf pub : exec c k w = Ok w' -> proof_in k = Some (cc, pf, pub) ->
  verifyProof (verifier_for w cc) pf pub = Ok true /\
  pub_at pub (domain_at cc) = poolId (pool w) /\ pub_at pub (S (domain_at cc)) = chainId (pool w) /\
  (forall r, root_at cc = Some r -> isKnownRoot (tree (pool w)) (pub_at pub r) = true).
Proof.
  intros H Hk. destruct k; cbn [proof_in] in Hk; simplify_eq; cbn [exec verifier_for domain_at root_at] in *;
    unfold ShieldedPool.receiveDeposit, ShieldedPool.withdraw, ShieldedPool.rfqSettle, ShieldedPool.withdrawCctp,
      ShieldedPool.privateTransferSettle, ShieldedPool.mpcSettle, ShieldedPool.mpcSettlePriced, StreamEscrow.open_ in H;
    peel H;
    repeat match goal with
    | H : ShieldedPool.check_proof _ _ _ _ = Ok _ |- _ => apply check_Ok in H
    | H : ShieldedPool.checkDomainCompliance _ _ _ _ = Ok _ |- _ => apply domain_Ok in H as [? ?]
    end; breflect; split_and!; try done; intros r [= <-]; done.
Qed.

(** The witness of a call: its nullifiers and leaves are those of the notes. *)
Lemma call_notes c k w w' cc pf pub : exec c k w = Ok w' -> proof_in k = Some (cc, pf, pub) -> genuine cc (verifier_for w cc) ->
  let i := extract cc pf pub in
  satisfied cc i = true /\ public_signals cc i = pub /\
  nullifiers_of k = map (nf (poolId (pool w)) (chainId (pool w))) (map s_note (spends cc i)) /\
  leaves_of k w = map commit (makes cc i).
Proof.
  intros H Hk Hg i. destruct (exec_proved _ _ _ _ _ _ _ H Hk) as (Hv & Hp & Hc & _). destruct (Hg pf pub Hv) as [Hs Hpub].
  fold i in Hs, Hpub. split_and!; [done|done|..].
  - rewrite <- Hpub in Hp, Hc. destruct (public_domain cc i) as [Ep Ec]. rewrite Ep in Hp. rewrite Ec in Hc. rewrite <- Hp, <- Hc.
    destruct k; cbn [proof_in] in Hk; simplify_eq; cbn [nullifiers_of]; try rewrite <- Hpub; reflexivity.
  - destruct k; cbn [proof_in] in Hk; simplify_eq; cbn [leaves_of].
    + assert (commitment = pub_at pub 0) as ->.
      { cbn [exec] in H. unfold ShieldedPool.receiveDeposit in H. peel H. by breflect. }
      rewrite <- Hpub. reflexivity.
    + done.
    + rewrite <- Hpub. change (pub_at _ 1) with (sig i "outputCommitment"). by rewrite (transfer_commitment i Hs).
    + done.
    + done.
    + rewrite <- Hpub. reflexivity.
    + rewrite <- Hpub. reflexivity.
    + rewrite <- Hpub. change (pub_at _ 1) with (sig i "changeCommitment"). by rewrite (proj1 (open_commitments i Hs)).
Qed.

(** ** What stays the same *)

Definition cfg (w : World) := (poolId (pool w), chainId (pool w), pverifier (pool w), authorizedStreamContract (pool w), everifier (escrow w)).
Definition same (w w' : World) : Prop := cfg w' = cfg w /\ channels (escrow w') = channels (escrow w).

Lemma same_trans w w1 w2 : same w w1 -> same w1 w2 -> same w w2.
Proof. intros [A B] [C D]. split; congruence. Qed.

Lemma spend_same caller n w w' : ShieldedPool.spend_nullifier caller n w = Ok w' -> same w w'.
Proof. intros (_ & Ep & Ee & _)%spend_nullifier_Ok. split; unfold cfg; by rewrite ?Ep, ?Ee. Qed.
Lemma insert_same l w w' i : ShieldedPool.insert_leaf l w = Ok (w', i) -> same w w'.
Proof. intros [_ ->]%insert_leaf_Ok. done. Qed.
Lemma adjust_same a d w w' : ShieldedPool.adjustNoteSupply a d w = Ok w' -> same w w'.
Proof. intros (_ & _ & ->)%adjust_Ok. done. Qed.
Lemma pay_same a to amt w w' : ShieldedPool.pay_out a to amt w = Ok w' -> same w w'.
Proof. intros (_ & _ & t & _ & ->)%pay_out_Ok. done. Qed.
Lemma stream_same caller a l d w w' : ShieldedPool.streamInsert caller a l d w = Ok w' -> same w w'.
Proof.
  intros (w1 & i & E & Hi & _)%streamInsert_Ok. apply insert_same in Hi. destruct (d =? 0); [by subst|].
  apply adjust_same in E. by eapply same_trans.
Qed.
Lemma swap_same h pub w w' : ShieldedPool.swap_notes h pub w = Ok w' -> same w w'.
Proof.
  unfold ShieldedPool.swap_notes. intros H. peel H.
  repeat match goal with
  | H : ShieldedPool.spend_nullifier _ _ _ = Ok _ |- _ => apply spend_same in H
  | H : ShieldedPool.insert_leaf _ ?w = Ok ?r |- _ => destruct r as [? ?]; apply insert_same in H
  end.
  do 4 (eapply same_trans; [eassumption|]). done.
Qed.

(** A call that is not about channels, nor sets a verifier or a stream contract. *)
Definition plain (k : Call) : bool :=
  match k with
  | Open _ _ | Settle _ _ | SettleBatch _ _ | Reclaim _ | SetVerifier _ _ | EscrowSetVerifier _ _
  | SetAuthorizedStreamContract _ _ => false
  | _ => true
  end.

Lemma exec_same c k w w' : exec c k w = Ok w' -> plain k = true -> same w w'.
Proof.
  destruct k; cbn [exec plain]; intros H Hk; try done;
    try (unfold ShieldedPool.setCommittee, ShieldedPool.setEd25519Verifier, ShieldedPool.setAuthorizedSolver,
           ShieldedPool.setCctpConfig, ShieldedPool.with_config, ShieldedPool.registerAsset, ShieldedPool.setAssociationRoot,
           ShieldedPool.pause, ShieldedPool.unpause, StreamEscrow.pause, StreamEscrow.unpause, on_registry in H; by peel H);
    unfold ShieldedPool.receiveDeposit, ShieldedPool.withdraw, ShieldedPool.rfqSettle, ShieldedPool.withdrawCctp,
      ShieldedPool.privateTransferSettle, ShieldedPool.mpcSettle, ShieldedPool.mpcSettlePriced in H; peel H;
    repeat match goal with
    | H : ShieldedPool.spend_nullifier _ _ _ = Ok _ |- _ => apply spend_same in H
    | H : ShieldedPool.insert_leaf _ _ = Ok _ |- _ => apply insert_same in H
    | H : ShieldedPool.adjustNoteSupply _ _ _ = Ok _ |- _ => apply adjust_same in H
    | H : ShieldedPool.pay_out _ _ _ _ = Ok _ |- _ => apply pay_same in H
    | H : ShieldedPool.swap_notes _ _ _ = Ok _ |- _ => apply swap_same in H
    | H : ShieldedPool.streamInsert _ _ _ _ _ = Ok _ |- _ => apply stream_same in H
    end;
    repeat (eassumption || (eapply same_trans; [eassumption|])); done.
Qed.

(** *** Channels *)

Lemma open_channels c pf pub w w' : StreamEscrow.open_ c pf pub w = Ok w' ->
  let id := pub_at pub 7 in
  opened (StreamEscrow.getChannel (escrow w) id) = false /\ cfg w' = cfg w /\
  channels (escrow w') = <[id :=
    {| payerAx := pub_at pub 8; payerAy := pub_at pub 9; cap := pub_at pub 10; expiry := pub_at pub 11;
       reclaimCommitment := pub_at pub 2; ch_assetId := pub_at pub 12; opened := true; consumed := false |}]> (channels (escrow w)).
Proof.
  unfold StreamEscrow.open_. intros H. peel H.
  match goal with H : ShieldedPool.spend_nullifier _ _ _ = Ok _ |- _ => apply spend_same in H as [Ha1 Ha2] end.
  match goal with H : ShieldedPool.streamInsert _ _ _ _ _ = Ok _ |- _ => apply stream_same in H as [Hb1 Hb2] end.
  split_and!; [done|by etransitivity; [exact Hb1|]|]. etransitivity; [exact Hb2|]. cbn. by rewrite Ha2.
Qed.

Definition closes (id : Z) (w w' : World) : Prop :=
  let ch := StreamEscrow.getChannel (escrow w) id in
  live w id ch /\ cfg w' = cfg w /\ channels (escrow w') = <[id := StreamEscrow.consume ch]> (channels (escrow w)).

Lemma opened_live w id : opened (StreamEscrow.getChannel (escrow w) id) = true -> consumed (StreamEscrow.getChannel (escrow w) id) = false ->
  live w id (StreamEscrow.getChannel (escrow w) id).
Proof. unfold live, StreamEscrow.getChannel. destruct (channels (escrow w) !! id); done. Qed.

Lemma settle_one_closes pf pub w w' : StreamEscrow.settle_one pf pub w = Ok w' ->
  let ch := StreamEscrow.getChannel (escrow w) (pub_at pub 5) in
  closes (pub_at pub 5) w w' /\ pub_at pub 8 = cap ch /\ pub_at pub 10 = ch_assetId ch /\
  verifyProof (everifier (escrow w) CSettle) pf pub = Ok true.
Proof.
  unfold StreamEscrow.settle_one. intros H. peel H.
  repeat match goal with H : ShieldedPool.streamInsert _ _ _ _ _ = Ok _ |- _ => apply stream_same in H as [? ?] end.
  match goal with H : ShieldedPool.check_proof _ _ _ _ = Ok _ |- _ => apply check_Ok in H end.
  breflect. split_and!; try done. split_and!; [by apply opened_live|..].
  - etransitivity; [eassumption|]. etransitivity; [eassumption|]. done.
  - etransitivity; [eassumption|]. etransitivity; [eassumption|]. done.
Qed.

Lemma reclaim_closes c id w w' : StreamEscrow.reclaim c id w = Ok w' -> closes id w w'.
Proof.
  unfold StreamEscrow.reclaim. intros H. peel H.
  match goal with H : ShieldedPool.streamInsert _ _ _ _ _ = Ok _ |- _ => apply stream_same in H as [? ?] end.
  breflect. split_and!; [by apply opened_live|..]; (etransitivity; [eassumption|]); done.
Qed.

Lemma reserved_open a m id ch : opened (default StreamEscrow.zero_channel (m !! id)) = false ->
  opened ch = true -> consumed ch = false ->
  reserved a (<[id := ch]> m) = reserved a m + if ch_assetId ch =? a then cap ch else 0.
Proof. intros H Ho Hc. rewrite reserved_insert. unfold held. rewrite Ho, Hc, H. cbn. destruct (_ =? a); lia. Qed.

Lemma reserved_close a w w' id : closes id w w' ->
  let ch := StreamEscrow.getChannel (escrow w) id in
  reserved a (channels (escrow w')) = reserved a (channels (escrow w)) - if ch_assetId ch =? a then cap ch else 0.
Proof.
  intros ((Hl & Ho & Hc) & _ & ->). rewrite reserved_insert, Hl. unfold held. cbn. rewrite andb_false_r. cbn.
  rewrite Ho, Hc. cbn. destruct (_ =? a); lia.
Qed.

(** ** The ledger of notes *)

(** The note behind every leaf, and behind the reclaim commitment of a channel. *)
Record Ledger := { minted : list Note; reclaims : gmap Z Note }.

Definition made (k : Call) (L : Ledger) : list Note :=
  match k with
  | Settle pf pub => makes CSettle (extract CSettle pf pub)
  | SettleBatch pfs pubs => concat (map (fun x => makes CSettle (extract CSettle x.1 x.2)) (zip pfs pubs))
  | Reclaim id => match reclaims L !! id with Some n => [n] | None => [] end
  | _ => match proof_in k with Some (cc, pf, pub) => makes cc (extract cc pf pub) | None => [] end
  end.

Definition track_call (k : Call) (L : Ledger) : Ledger :=
  {| minted := minted L ++ made k L;
     reclaims := match k with
                 | Open pf pub => <[pub_at pub 7 := reclaim_note (extract COpen pf pub)]> (reclaims L)
                 | _ => reclaims L
                 end |}.

Definition track (x : Tx) (w : World) (L : Ledger) : Ledger :=
  match x with TCall c k => if is_ok (exec c k w) then track_call k L else L | TOutside _ => L end.

Fixpoint ledger_by (l : list Tx) (w : World) (L : Ledger) : Ledger :=
  match l with [] => L | x :: l => ledger_by l (apply_tx x w) (track x w L) end.

(** The hash inputs that bind what a call spends: its notes and paths, and the
    notes and trees so far. *)
Definition spend_queries (s : Spend) : list (list Z) :=
  note_queries (s_note s) ++ path_queries (commit (s_note s)) (s_index s) (s_siblings s).

Definition ledger_queries (g : list Note) : list (list Z) :=
  concat (map note_queries g) ++ history_queries (map commit g).

Definition call_queries (k : Call) (L : Ledger) : list (list Z) :=
  match proof_in k with
  | Some (cc, pf, pub) => concat (map spend_queries (spends cc (extract cc pf pub))) ++ ledger_queries (minted L)
  | None => []
  end.

Fixpoint queries_by (l : list Tx) (w : World) (L : Ledger) : list (list Z) :=
  match l with
  | [] => []
  | x :: l => (match x with TCall c k => if is_ok (exec c k w) then call_queries k L else [] | TOutside _ => [] end)
              ++ queries_by l (apply_tx x w) (track x w L)
  end.

(** What the operators are relied on for: verifiers of the circuits, the escrow
    as the only source of channel notes.  The same-asset settlement is left out:
    its circuit does not bound what it makes. *)
Definition honest (x : Tx) : Prop :=
  match x with
  | TCall _ (SetVerifier c v) | TCall _ (EscrowSetVerifier c v) => genuine c v
  | TCall _ (SetAuthorizedStreamContract a true) => a = escrowAddr
  | TCall c (StreamInsert _ _ _) => sender c <> escrowAddr
  | TCall _ (MpcSettle _ _ _ _ _) => False
  | _ => True
  end.

Definition unspent_of (w : World) (a : Z) (g : list Note) : Z := unspent (poolId (pool w)) (chainId (pool w)) (spent_set w) a g.

(** The reclaim note of a live channel is worth its cap. *)
Definition reclaimable (w : World) (L : Ledger) : Prop :=
  forall id ch, live w id ch -> exists n, reclaims L !! id = Some n /\ commit n = reclaimCommitment ch /\
    n_asset n = ch_assetId ch /\ n_value n = cap ch.

Record ledger_ok (w : World) (L : Ledger) : Prop := {
  lo_tree : tree_of 12 (map commit (minted L)) (tree (pool w));
  lo_nonneg : Forall (fun n => 0 <= n_value n) (minted L);
  lo_sum : forall a, unspent_of w a (minted L) + reserved a (channels (escrow w)) <= owed a w;
  lo_reclaim : reclaimable w L;
  lo_wf : wf w;
  lo_genuine : forall c, genuine c (pverifier (pool w) c) /\ genuine c (everifier (escrow w) c);
  lo_auth : authorizedStreamContract (pool w) ⊆ {[escrowAddr]}
}.

Lemma verifier_genuine w L c : ledger_ok w L -> genuine c (verifier_for w c).
Proof. intros H. destruct (lo_genuine _ _ H c). by destruct c. Qed.

(** One step of the ledger: [drop] of value is spent, the notes [mk] are made. *)
Lemma ledger_step w w' L L' ns mk (drop : Z -> Z) :
  ledger_ok w L -> moves ns (map commit mk) w w' -> minted L' = (minted L ++ mk)%list -> Forall (fun n => 0 <= n_value n) mk ->
  poolId (pool w') = poolId (pool w) -> chainId (pool w') = chainId (pool w) ->
  (forall a, unspent_of w' a (minted L) + drop a <= unspent_of w a (minted L)) ->
  (forall a, value_of a mk + reserved a (channels (escrow w')) + owed a w <= drop a + reserved a (channels (escrow w)) + owed a w') ->
  wf w' -> reclaimable w' L' ->
  (forall c, genuine c (pverifier (pool w') c) /\ genuine c (everifier (escrow w') c)) ->
  authorizedStreamContract (pool w') ⊆ {[escrowAddr]} -> ledger_ok w' L'.
Proof.
  intros H (_ & _ & _ & Ht) Eg Hmk Ep Ec Hdrop Hsum Hwf Hr Hg Ha. split; try done.
  - rewrite Eg, map_app. eapply insert_all_tree; [apply (lo_tree _ _ H)|exact Ht].
  - rewrite Eg. apply Forall_app_2; [apply (lo_nonneg _ _ H)|done].
  - intros a. rewrite Eg. unfold unspent_of. rewrite unspent_app, Ep, Ec.
    pose proof (unspent_value (poolId (pool w)) (chainId (pool w)) (spent_set w') a mk Hmk).
    pose proof (lo_sum _ _ H a). specialize (Hdrop a). specialize (Hsum a). unfold unspent_of in *. rewrite Ep, Ec in Hdrop. lia.
Qed.

Lemma unspent_kept ns ls w w' a g : moves ns ls w w' -> poolId (pool w') = poolId (pool w) -> chainId (pool w') = chainId (pool w) ->
  Forall (fun n => 0 <= n_value n) g -> unspent_of w' a g + 0 <= unspent_of w a g.
Proof.
  intros (_ & _ & E & _) Ep Ec Hg. unfold unspent_of. rewrite Ep, Ec. rewrite Z.add_0_r. apply unspent_mono; [done|]. rewrite E. set_solver.
Qed.

Lemma cfg_fields w w' : cfg w' = cfg w ->
  poolId (pool w') = poolId (pool w) /\ chainId (pool w') = chainId (pool w) /\ pverifier (pool w') = pverifier (pool w) /\
  authorizedStreamContract (pool w') = authorizedStreamContract (pool w) /\ everifier (escrow w') = everifier (escrow w).
Proof. unfold cfg. intros E. by simplify_eq. Qed.

(** *** Closing channels *)

Lemma live_close w w' id i ch : closes id w w' -> live w' i ch -> i <> id /\ live w i ch.
Proof.
  intros (_ & _ & E) (Hch & Ho & Hc). rewrite E in Hch. apply lookup_insert_Some in Hch as [[-> <-]|[Hne Hch]]; [done|].
  split; [done|]. by split_and!.
Qed.

Lemma close_step w w' L id mk : ledger_ok w L -> closes id w w' -> moves [] (map commit mk) w w' ->
  Forall (fun n => 0 <= n_value n) mk -> wf w' -> (forall a, owed a w' = owed a w) ->
  (forall a, let ch := StreamEscrow.getChannel (escrow w) id in value_of a mk <= if ch_assetId ch =? a then cap ch else 0) ->
  ledger_ok w' {| minted := minted L ++ mk; reclaims := reclaims L |}.
Proof.
  intros H Hc Hm Hmk Hwf Ho Hv. pose proof Hc as (_ & E & _). apply cfg_fields in E as (Ep & Ec & Ev & Ea & Ee).
  eapply (ledger_step w w' L _ [] mk (fun _ => 0)); try done.
  - intros a. eapply unspent_kept; try done. apply (lo_nonneg _ _ H).
  - intros a. rewrite (reserved_close a w w' id Hc), Ho. specialize (Hv a). cbn in *. lia.
  - intros i ch Hl. destruct (live_close _ _ _ _ _ Hc Hl) as [_ Hl']. by apply (lo_reclaim _ _ H).
  - rewrite Ev, Ee. apply (lo_genuine _ _ H).
  - rewrite Ea. apply (lo_auth _ _ H).
Qed.

Lemma settle_one_ledger pf pub w w' L : ledger_ok w L -> StreamEscrow.settle_one pf pub w = Ok w' ->
  ledger_ok w' {| minted := minted L ++ makes CSettle (extract CSettle pf pub); reclaims := reclaims L |}.
Proof.
  intros H E. destruct (settle_one_closes _ _ _ _ E) as (Hc & Hcap & Has & Hv).
  destruct (proj2 (lo_genuine _ _ H CSettle) pf pub Hv) as [Hs Hpub]. set (i := extract CSettle pf pub) in *.
  pose proof (settle_one_moves _ _ _ _ E) as Hm. destruct (settle_one_step _ _ _ _ E (lo_wf _ _ H)) as (T & S & _).
  eapply close_step; try done.
  - unfold settle_leaves in Hm. rewrite <- Hpub in Hm. exact Hm.
  - apply makes_nonneg.
  - eapply supply_wf; [apply (lo_wf _ _ H)|exact S].
  - intros a. rewrite (ss_owed _ _ _ _ _ S a). cbn. lia.
  - intros a. cbn zeta. rewrite <- Hcap, <- Has, <- Hpub. pose proof (circuit_conserves a CSettle i Hs ltac:(done)) as Hcons.
    cbn [spends map value_of foldr circuit_flow] in Hcons. exact Hcons.
Qed.

Lemma settle_all_ledger l w w' L : ledger_ok w L -> StreamEscrow.settle_all l w = Ok w' ->
  ledger_ok w' {| minted := minted L ++ concat (map (fun x => makes CSettle (extract CSettle x.1 x.2)) l); reclaims := reclaims L |}.
Proof.
  revert w L. induction l as [|[pf pub] l IH]; intros w L H; cbn [StreamEscrow.settle_all map concat].
  { intros [= <-]. rewrite app_nil_r. by destruct L. }
  intros (w1 & E1 & E2)%rbind_Ok. pose proof (settle_one_ledger _ _ _ _ _ H E1) as H1. specialize (IH _ _ H1 E2). cbn in IH.
  by rewrite <- app_assoc in IH.
Qed.

Lemma reclaim_ledger c id w w' L : ledger_ok w L -> exec c (Reclaim id) w = Ok w' -> ledger_ok w' (track_call (Reclaim id) L).
Proof.
  intros H E. pose proof (reclaim_closes _ _ _ _ E) as Hc. pose proof (exec_moves _ _ _ _ E) as Hm.
  destruct (exec_owed _ _ _ _ E (lo_wf _ _ H)) as [Hwf Ho]. destruct Hc as (Hl & Hrest).
  destruct (lo_reclaim _ _ H _ _ Hl) as (n & Hn & Hcm & Has & Hcap). unfold track_call. cbn [made]. rewrite Hn.
  eapply (close_step w w' L id [n]); try done.
  - cbn [map]. by rewrite Hcm.
  - constructor; [|done]. rewrite Hcap. destruct Hl as (Hch & _). apply (proj2 (lo_wf _ _ H)) in Hch as ([? _] & _). done.
  - intros a. rewrite Ho. cbn. lia.
  - intros a. unfold value_of. cbn. rewrite Has, Hcap. destruct (_ =? a); lia.
Qed.

(** *** Calls with a proof *)

Lemma spends_index c i : Forall (fun s => in_field (s_index s)) (spends c i).
Proof. destruct c; repeat constructor; cbn; apply sig_range. Qed.

Lemma spends_root c i : spends c i <> [] -> exists r, root_at c = Some r.
Proof. destruct c; try done; by eexists. Qed.

Lemma concat_sub {A B} (f : A -> list B) l a Q : concat (map f l) ⊆ Q -> a ∈ l -> f a ⊆ Q.
Proof.
  intros H Ha x Hx. apply H. apply list_elem_of_In, in_concat. exists (f a). split; [apply in_map_iff; exists a|]; by rewrite <- ?list_elem_of_In.
Qed.

(** What a proof spends is in the ledger. *)
Lemma spends_minted c k w w' L Q cc pf pub : ledger_ok w L -> exec c k w = Ok w' -> proof_in k = Some (cc, pf, pub) ->
  free Q -> call_queries k L ⊆ Q -> Forall (fun n => n ∈ minted L) (map s_note (spends cc (extract cc pf pub))).
Proof.
  intros H E Hk Hf HQ. destruct (call_notes _ _ _ _ _ _ _ E Hk (verifier_genuine _ _ _ H)) as (Hs & Hpub & _ & _).
  unfold call_queries in HQ. rewrite Hk in HQ. set (i := extract cc pf pub) in *.
  assert (concat (map spend_queries (spends cc i)) ⊆ Q /\ concat (map note_queries (minted L)) ⊆ Q /\
          history_queries (map commit (minted L)) ⊆ Q) as (Q1 & Q2 & Q3).
  { unfold ledger_queries in HQ. by rewrite !list_subseteq_app_iff_l in HQ. }
  apply Forall_map. pose proof (spends_placed cc i Hs) as Hp. pose proof (spends_index cc i) as Hi.
  rewrite list.Forall_forall in *. intros s Hin. specialize (Hp s Hin). specialize (Hi s Hin).
  destruct (spends_root cc i) as [r Hr]; [by destruct (spends cc i); [apply not_elem_of_nil in Hin|]|].
  destruct (exec_proved _ _ _ _ _ _ _ E Hk) as (_ & _ & _ & Hroot). specialize (Hroot r Hr). rewrite <- Hpub, (public_root _ _ _ Hr) in Hroot.
  pose proof (concat_sub _ _ s Q Q1 Hin) as Qs. unfold spend_queries in Qs.
  apply list_subseteq_app_iff_l in Qs as [Qn Qp].
  assert (map commit (minted L) !! Z.to_nat (s_index s) = Some (commit (s_note s))) as Hl.
  { eapply known_leaf; try done; [apply (lo_tree _ _ H)|by eapply commit_nonzero]. }
  change (map commit (minted L)) with (commit <$> minted L) in Hl. apply list_lookup_fmap_Some in Hl as (n & En & Hn).
  apply list_elem_of_lookup_2 in Hn as Hn'. assert (s_note s = n) as ->; [|done].
  eapply commit_binds; try done. by eapply concat_sub.
Qed.

(** What a circuit lets in and out is what the call books. *)
Lemma call_flow a c k w w' cc pf pub : exec c k w = Ok w' -> proof_in k = Some (cc, pf, pub) ->
  public_signals cc (extract cc pf pub) = pub -> cc <> COpen ->
  circuit_flow a cc (extract cc pf pub) = flow a (flows_of k).
Proof.
  intros E Hk Hpub Hc. set (i := extract cc pf pub) in *.
  destruct k; cbn [proof_in] in Hk; simplify_eq; cbn [flows_of flow fst snd circuit_flow]; try done.
  - assert (amount = pub_at pub 7) as -> by (cbn [exec] in E; unfold ShieldedPool.receiveDeposit in E; peel E; by breflect).
    rewrite <- Hpub. change (pub_at _ 8) with (sig i "assetIdHash"). change (pub_at _ 7) with (sig i "amount7dp"). lia.
  - rewrite <- Hpub. change (pub_at _ 17) with (sig i "assetId"). change (pub_at _ 2) with (sig i "withdrawnValue"). destruct (_ =? a); lia.
  - rewrite <- Hpub. change (pub_at _ 17) with (sig i "assetId"). change (pub_at _ 2) with (sig i "withdrawnValue"). destruct (_ =? a); lia.
  - rewrite <- Hpub. change (pub_at _ 17) with (sig i "assetId"). change (pub_at _ 2) with (sig i "withdrawnValue"). destruct (_ =? a); lia.
Qed.

Lemma proved_made k L cc pf pub : proof_in k = Some (cc, pf, pub) -> made k L = makes cc (extract cc pf pub).
Proof. destruct k; cbn [proof_in made]; intros H; by simplify_eq. Qed.

Lemma spent_drop c k w w' L Q cc pf pub : ledger_ok w L -> exec c k w = Ok w' -> proof_in k = Some (cc, pf, pub) ->
  free Q -> call_queries k L ⊆ Q -> cfg w' = cfg w ->
  moves (nullifiers_of k) (map commit (makes cc (extract cc pf pub))) w w' /\
  forall a, unspent_of w' a (minted L) + value_of a (map s_note (spends cc (extract cc pf pub))) <= unspent_of w a (minted L).
Proof.
  intros H E Hk Hf HQ Hcfg. destruct (call_notes _ _ _ _ _ _ _ E Hk (verifier_genuine _ _ _ H)) as (_ & _ & En & El).
  pose proof (exec_moves _ _ _ _ E) as Hm. rewrite El in Hm. split; [done|]. intros a.
  apply cfg_fields in Hcfg as (Ep & Ec & _). destruct Hm as (Hnd & Hfresh & Hsp & _). unfold unspent_of. rewrite Ep, Ec, Hsp. rewrite En in *.
  apply unspent_spends; [apply (lo_nonneg _ _ H)|by eapply spends_minted|done|done].
Qed.

Lemma proved_ledger c k w w' L Q cc pf pub : ledger_ok w L -> exec c k w = Ok w' -> proof_in k = Some (cc, pf, pub) ->
  plain k = true -> cc <> CMpc -> free Q -> call_queries k L ⊆ Q -> ledger_ok w' (track_call k L).
Proof.
  intros H E Hk Hp Hc Hf HQ. destruct (exec_same _ _ _ _ E Hp) as [Hcfg Hch].
  destruct (spent_drop _ _ _ _ _ _ _ _ _ H E Hk Hf HQ Hcfg) as [Hm Hd].
  destruct (call_notes _ _ _ _ _ _ _ E Hk (verifier_genuine _ _ _ H)) as (Hs & Hpub & _).
  destruct (exec_owed _ _ _ _ E (lo_wf _ _ H)) as [Hwf Ho]. apply cfg_fields in Hcfg as (Ep & Ec & Ev & Ea & Ee).
  assert (cc <> COpen) as Hco by (intros ->; destruct k; done).
  eapply (ledger_step w w' L _ _ _ (fun a => value_of a (map s_note (spends cc (extract cc pf pub)))) H Hm); try done.
  - cbn. by rewrite (proved_made _ _ _ _ _ Hk).
  - apply makes_nonneg.
  - intros a. rewrite Hch, Ho, <- (call_flow a _ _ _ _ _ _ _ E Hk Hpub Hco).
    pose proof (circuit_conserves a cc _ Hs Hc). lia.
  - intros id ch (Hl & Hrest). rewrite Hch in Hl. destruct (lo_reclaim _ _ H id ch) as (n & Hn & Hprops); [by split|].
    exists n. split; [|done]. cbn. by destruct k.
  - rewrite Ev, Ee. apply (lo_genuine _ _ H).
  - rewrite Ea. apply (lo_auth _ _ H).
Qed.

Lemma open_ledger c pf pub w w' L Q : ledger_ok w L -> exec c (Open pf pub) w = Ok w' -> free Q ->
  call_queries (Open pf pub) L ⊆ Q -> ledger_ok w' (track_call (Open pf pub) L).
Proof.
  intros H E Hf HQ. destruct (open_channels _ _ _ _ _ E) as (Hnew & Hcfg & Hch).
  destruct (spent_drop _ _ _ _ _ _ _ _ _ H E eq_refl Hf HQ Hcfg) as [Hm Hd].
  destruct (call_notes _ _ _ _ _ _ _ E eq_refl (verifier_genuine _ _ _ H)) as (Hs & Hpub & _).
  destruct (exec_owed _ _ _ _ E (lo_wf _ _ H)) as [Hwf Ho]. apply cfg_fields in Hcfg as (Ep & Ec & Ev & Ea & Ee).
  set (i := extract COpen pf pub) in *.
  eapply (ledger_step w w' L _ _ _ (fun a => value_of a (map s_note (spends COpen i))) H Hm); try done.
  - apply makes_nonneg.
  - intros a. rewrite Hch, Ho, reserved_open by done. cbn [ch_assetId cap flows_of flow]. rewrite <- Hpub.
    change (pub_at _ 12) with (sig i "assetId"). change (pub_at _ 10) with (sig i "cap").
    pose proof (circuit_conserves a COpen i Hs ltac:(done)) as Hcons. cbn [circuit_flow] in Hcons. lia.
  - intros id ch (Hl & Hc & Hcs). rewrite Hch in Hl. unfold track_call. cbn [reclaims]. apply lookup_insert_Some in Hl as [[<- <-]|[Hne Hl]].
    + rewrite lookup_insert_eq. eexists. split; [reflexivity|]. cbn. fold i. rewrite <- Hpub.
      change (pub_at _ 2) with (sig i "reclaimCommitment"). by rewrite (proj2 (open_commitments i Hs)).
    + rewrite lookup_insert_ne by done. apply (lo_reclaim _ _ H id ch). by split_and!.
  - rewrite Ev, Ee. apply (lo_genuine _ _ H).
  - rewrite Ea. apply (lo_auth _ _ H).
Qed.

(** *** Calls without notes *)

Lemma quiet_ledger c k w w' L : ledger_ok w L -> exec c k w = Ok w' -> plain k = true ->
  leaves_of k w = [] -> flows_of k = [] -> track_call k L = L -> ledger_ok w' L.
Proof.
  intros H E Hp Hl Hfl Ht. destruct (exec_same _ _ _ _ E Hp) as [Hcfg Hch]. pose proof (exec_moves _ _ _ _ E) as Hm.
  destruct (exec_owed _ _ _ _ E (lo_wf _ _ H)) as [Hwf Ho]. apply cfg_fields in Hcfg as (Ep & Ec & Ev & Ea & Ee).
  rewrite Hl in Hm. eapply (ledger_step w w' L L _ [] (fun _ => 0) H Hm); try done.
  - by rewrite app_nil_r.
  - intros a. eapply unspent_kept; try done. apply (lo_nonneg _ _ H).
  - intros a. rewrite Hch, Ho, Hfl. unfold value_of. cbn. lia.
  - intros id ch (Hl' & Hrest). rewrite Hch in Hl'. apply (lo_reclaim _ _ H id ch). by split.
  - rewrite Ev, Ee. apply (lo_genuine _ _ H).
  - rewrite Ea. apply (lo_auth _ _ H).
Qed.

(** Changing the verifiers or the stream contracts. *)
Lemma admin_ledger w w' L : ledger_ok w L ->
  tree (pool w') = tree (pool w) -> poolId (pool w') = poolId (pool w) -> chainId (pool w') = chainId (pool w) ->
  registry w' = registry w -> channels (escrow w') = channels (escrow w) ->
  assetToken (pool w') = assetToken (pool w) -> noteSupplyOf (pool w') = noteSupplyOf (pool w) ->
  (forall c, genuine c (pverifier (pool w') c) /\ genuine c (everifier (escrow w') c)) ->
  authorizedStreamContract (pool w') ⊆ {[escrowAddr]} -> ledger_ok w' L.
Proof.
  intros [A B C D [F1 F2] G I] Et Ep Ec Er Ech Ea En Hg Hau.
  split; unfold unspent_of, spent_set, owed, ShieldedPool.noteSupply, reclaimable, live in *; rewrite ?Et, ?Ep, ?Ec, ?Er, ?Ech, ?En; try done.
  unfold wf, channel_ok, token_of, ShieldedPool.noteSupply in *. by rewrite Ech, Ea, En.
Qed.

Lemma exec_ledger c k w w' L Q : ledger_ok w L -> honest (TCall c k) -> exec c k w = Ok w' -> free Q ->
  call_queries k L ⊆ Q -> ledger_ok w' (track_call k L).
Proof.
  intros H Hh E Hf HQ.
  assert (track_call k L = L -> plain k = true -> leaves_of k w = [] -> flows_of k = [] -> ledger_ok w' (track_call k L)) as Hq
    by (intros Et; rewrite Et; intros; by eapply quiet_ledger).
  assert (forall cc pf pub, proof_in k = Some (cc, pf, pub) -> plain k = true -> cc <> CMpc -> ledger_ok w' (track_call k L)) as Hpv
    by (intros; by eapply proved_ledger).
  assert ({| minted := minted L ++ []; reclaims := reclaims L |} = L) as Enil by (rewrite app_nil_r; by destruct L).
  destruct k; try (by eapply Hpv); try (apply Hq; [exact Enil|done..]).
  - cbn [exec] in E. apply streamInsert_Ok in E as (_ & _ & _ & _ & Ha). apply (lo_auth _ _ H) in Ha. set_solver.
  - replace (track_call _ L) with L by (symmetry; exact Enil). cbn [exec] in E. unfold ShieldedPool.setVerifier, ShieldedPool.with_config in E. peel E.
    eapply admin_ledger; try done; [|apply (lo_auth _ _ H)]. intros c'. cbn. destruct (lo_genuine _ _ H c'). case_decide; [by subst|done].
  - replace (track_call _ L) with L by (symmetry; exact Enil). cbn [exec] in E. unfold ShieldedPool.setAuthorizedStreamContract in E. peel E.
    eapply admin_ledger; try done; [apply (lo_genuine _ _ H)|]. pose proof (lo_auth _ _ H). cbn. cbn in Hh. destruct allowed; [subst|]; set_solver.
  - by eapply open_ledger.
  - cbn [exec] in E. unfold StreamEscrow.settle in E. peel E. by eapply settle_one_ledger.
  - cbn [exec] in E. unfold StreamEscrow.settleBatch in E. peel E. by eapply settle_all_ledger.
  - by eapply reclaim_ledger.
  - replace (track_call _ L) with L by (symmetry; exact Enil). cbn [exec] in E. unfold StreamEscrow.setVerifier in E. peel E.
    eapply admin_ledger; try done; [|apply (lo_auth _ _ H)]. intros c'. cbn. destruct (lo_genuine _ _ H c'). case_decide; [by subst|done].
Qed.

(** The inserted leaves are the commitments of the notes made. *)
Lemma settle_one_made pf pub w w' L : ledger_ok w L -> StreamEscrow.settle_one pf pub w = Ok w' ->
  settle_leaves pub = map commit (makes CSettle (extract CSettle pf pub)).
Proof.
  intros H E. destruct (settle_one_closes _ _ _ _ E) as (_ & _ & _ & Hv).
  destruct (proj2 (lo_genuine _ _ H CSettle) pf pub Hv) as [_ Hpub].
  set (i := extract CSettle pf pub) in *. unfold settle_leaves. rewrite <- Hpub. reflexivity.
Qed.

Lemma settle_all_made l w w' L : ledger_ok w L -> StreamEscrow.settle_all l w = Ok w' ->
  concat (map settle_leaves (l.*2)) = map commit (concat (map (fun x => makes CSettle (extract CSettle x.1 x.2)) l)).
Proof.
  revert w L. induction l as [|[pf pub] l IH]; intros w L H; cbn [StreamEscrow.settle_all map fmap list_fmap concat]; [done|].
  intros (w1 & E1 & E2)%rbind_Ok. cbn [fst snd]. rewrite map_app, <- (settle_one_made pf pub w w1 L H E1). f_equal.
  eapply IH; [by eapply settle_one_ledger|exact E2].
Qed.

Lemma exec_made c k w w' L : ledger_ok w L -> honest (TCall c k) -> exec c k w = Ok w' -> leaves_of k w = map commit (made k L).
Proof.
  intros H Hh E.
  assert (forall cc pf pub, proof_in k = Some (cc, pf, pub) -> leaves_of k w = map commit (made k L)) as Hpv.
  { intros cc pf pub Hk. rewrite (proved_made _ _ _ _ _ Hk). by apply (call_notes _ _ _ _ _ _ _ E Hk (verifier_genuine _ _ _ H)). }
  destruct k; try (by eapply Hpv); try done.
  - cbn [exec] in E. apply streamInsert_Ok in E as (_ & _ & _ & _ & Ha). apply (lo_auth _ _ H) in Ha. set_solver.
  - cbn [exec] in E. unfold StreamEscrow.settle in E. peel E. by eapply settle_one_made.
  - cbn [exec] in E. unfold StreamEscrow.settleBatch in E. peel E. breflect. apply (settle_all_made _ _ _ _ H) in E.
    by rewrite snd_zip in E by lia.
  - apply reclaim_closes in E as (Hl & _). destruct (lo_reclaim _ _ H _ _ Hl) as (n & Hn & Hcm & _).
    cbn [leaves_of made]. rewrite Hn. cbn [map]. by rewrite Hcm.
Qed.

Lemma run_ledger l w L Q : ledger_ok w L -> Forall honest l -> free Q -> queries_by l w L ⊆ Q -> ledger_ok (run l w) (ledger_by l w L).
Proof.
  intros H Hh Hf. revert w L H. induction Hh as [|x l Hx Hl IH]; intros w L H; cbn [queries_by run ledger_by]; [done|].
  rewrite list_subseteq_app_iff_l. intros [HQ1 HQ2]. apply IH; [|done]. destruct x as [c k|t]; cbn [apply_tx track].
  - destruct (exec c k w) as [w'|] eqn:E; cbn [is_ok] in *; [by eapply exec_ledger|done].
  - destruct H as [A B C D F G I]. by split.
Qed.

Lemma run_made l w L Q : ledger_ok w L -> Forall honest l -> free Q -> queries_by l w L ⊆ Q ->
  map commit (minted (ledger_by l w L)) = (map commit (minted L) ++ leaves_by l w)%list.
Proof.
  intros H Hh Hf. revert w L H. induction Hh as [|x l Hx Hl IH]; intros w L H; cbn [queries_by leaves_by ledger_by]; [by rewrite app_nil_r|].
  rewrite list_subseteq_app_iff_l. intros [HQ1 HQ2].
  assert (ledger_ok (apply_tx x w) (track x w L)) as H1.
  { apply (run_ledger [x] w L Q); [done|by constructor|done|]. cbn [queries_by]. by rewrite app_nil_r. }
  rewrite (IH _ _ H1 HQ2), app_assoc. f_equal. destruct x as [c k|t]; cbn [track tx_leaves]; [|by rewrite app_nil_r].
  destruct (exec c k w) as [w'|] eqn:E; cbn [is_ok] in *; [|by rewrite app_nil_r].
  unfold track_call. cbn [minted]. by rewrite map_app, (exec_made _ _ _ _ _ H Hx E).
Qed.

Lemma deploy_ledger pid cid win t w0 : deploy 12 pid cid win t = Ok w0 -> ledger_ok w0 {| minted := []; reclaims := ∅ |}.
Proof.
  intros H. pose proof (deploy_tree _ _ _ _ _ _ H) as Ht. destruct (deploy_wf _ _ _ _ _ _ H) as [Hwf Ho].
  apply rbind_Ok in H as (fr & Hfr & [= <-]). split; try done.
  - intros id ch (Hl & _). cbn in Hl. by rewrite lookup_empty in Hl.
  - intros c. split; intros pf pub Hv; by apply zero_address in Hv.
Qed.

End Runs.
End Notes.
End ArcNotes.
