(* ===== verification/ArcFlow.v ===== *)
(** The TypeScript against the Arc contracts: a withdrawal built by the proof
    builders goes through, a committee batch that verifies off chain passes the
    threshold on chain, and the settlement of a quote pays whom its caller names. *)

From S2P Require Import Prelude Text Json Streams Merkle Circuits Coin Proving Committee Evm ArcPool ArcEscrow ArcLedger ArcSupply ArcNotes.
Local Open Scope string_scope.
Local Open Scope Z_scope.

Module ArcFlow.
Import ArcLedger ArcSupply ArcNotes.

(** ** Withdrawals *)

Section Withdrawal.
Context {HP : Poseidon} {PL : PoseidonLaws HP} {CL : Circomlib} {CLL : CircomlibLaws CL}.
Context {ER : Erc20} {EL : Erc20Laws ER} {PC : Precompiles} {DP : Deployed}.

(** The verifier accepts what the prover makes of a satisfied circuit. *)
Definition complete (c : Circuit) (v : Address) (prove : input -> Groth16Proof) {ED : Eddsa} : Prop :=
  forall i, satisfied c i = true -> verifyProof v (prove i) (public_signals c i) = Ok true.

Lemma prove_leaf_root_value leaves d i pf : (d <= 30)%nat -> (length leaves <= 2 ^ d)%nat ->
  prove_leaf leaves (Z.of_nat d) i = Ok pf -> pf.1 = node (leaf_fn leaves) d 0.
Proof.
  intros Hd Hl. unfold prove_leaf. rewrite (build_tree_spec d leaves Hd Hl). cbn [rbind].
  destruct (getMerkleProof _ i) as [pr|]; cbn [rbind root]; [|discriminate]. intros E. apply Ok_inj in E. subst pf. reflexivity.
Qed.

(** A root of the tree as it was is still known. *)
Lemma prefix_known ls t m r : tree_of 12 ls t -> (m <= length ls)%nat -> r = node (leaf_fn (take m ls)) 12 0 -> r <> 0 -> isKnownRoot t r = true.
Proof.
  intros (_ & Hr & _) Hm -> H0. unfold isKnownRoot. rewrite (proj2 (Z.eqb_neq _ _) H0). cbn [negb andb]. apply bool_decide_eq_true. rewrite Hr.
  apply prefix_roots_elem. by exists m.
Qed.

Lemma withdraw_signals_root p st assoc : sig (withdraw_signals p st assoc) "stateRoot" = fmod st.1.
Proof. by apply sig_str. Qed.

(** What the chain must say for the withdrawal [p] to [to]. *)
Record ready (c : Ctx) (w : World) (p : WithdrawInputBn254) (to : Address) (ls : list Z) (m : nat) : Prop := {
  rd_running : ppaused (pool w) = false /\ NullifierRegistry.rpaused (registry w) = false /\
               poolAddr ∈ NullifierRegistry.authorized (registry w);
  rd_leaves : (m <= length ls)%nat /\ w_stateLeaves p = take m ls;
  rd_root : node (leaf_fn (w_stateLeaves p)) 12 0 <> 0;
  rd_association : associationRoot (pool w) = node (leaf_fn (w_assocLabels p)) 2 0;
  rd_domain : w_poolId p = poolId (pool w) /\ w_chainId p = chainId (pool w) /\ in_field (w_poolId p) /\ in_field (w_chainId p);
  rd_binding : operationType (binding p) = OP_WITHDRAW_PUBLIC /\ recipientHash (binding p) = addressHash to /\
               in_field (addressHash to) /\ block_number c <= deadlineLedger (binding p) /\ in_field (deadlineLedger (binding p));
  rd_unspent : poseidonHash [nullifier (w_coin p); w_poolId p; w_chainId p] ∉ spent_set w
}.

Lemma withdraw_accepted c w p to ls m prove {ED : Eddsa} t' :
  coin_ok (w_coin p) -> 0 < withdrawnValue p <= value (w_coin p) -> 0 <= relayerFee (binding p) <= withdrawnValue p ->
  leaf_at (w_stateLeaves p) 12 (w_stateIndex p) (commitment (w_coin p)) ->
  leaf_at (w_assocLabels p) 2 (w_labelIndex p) (label (w_coin p)) ->
  tree_of 12 ls (tree (pool w)) -> ready c w p to ls m -> complete CWithdraw (pverifier (pool w) CWithdraw) prove ->
  let a := assetId (w_coin p) in let net := withdrawnValue p - relayerFee (binding p) in
  token_of (pool w) a <> 0 -> withdrawnValue p <= ShieldedPool.noteSupply (pool w) a <= vault w a -> vault w a < 2 ^ 255 ->
  safeTransfer (tokens w) (token_of (pool w) a) poolAddr to net = Ok t' ->
  exists i w', withdraw_input p = Ok i /\ exec c (Withdraw to (prove i) (public_signals CWithdraw i)) w = Ok w' /\
    tokens w' = t' /\ spent_set w' = {[poseidonHash [nullifier (w_coin p); w_poolId p; w_chainId p]]} ∪ spent_set w /\
    ShieldedPool.noteSupply (pool w') a = ShieldedPool.noteSupply (pool w) a - withdrawnValue p.
Proof.
  intros Hcoin Hw Hfee Hst Has Rt R Hcomp a net Htok Hsup Hv Htr.
  destruct (withdraw_complete p Hcoin Hfee ltac:(lia) Hst Has) as (i & Ei & Hi).
  destruct R as [(Rp & Rr & Ra) (Rm & Rl) Rroot Rassoc (Rpid & Rcid & Fpid & Fcid) (Rop & Rrec & Frec & Rdl & Fdl) Rn].
  exists i. pose proof (Hcomp i Hi) as Hver. pose proof Ei as Ei'. unfold withdraw_input in Ei'. peel Ei'.
  match goal with H : prove_leaf (w_stateLeaves p) _ _ = Ok ?x |- _ =>
    rename x into st; apply (prove_leaf_root_value _ 12) in H as Est; [|lia|apply Hst] end.
  match goal with H : prove_leaf (w_assocLabels p) _ _ = Ok ?x |- _ =>
    rename x into asc; apply (prove_leaf_root_value _ 2) in H as Eas; [|lia|apply Has] end.
  set (i := withdraw_signals p st asc) in *.
  assert (forall k z, in_field z -> jget k i = Some (dec z) -> sig i k = z) as Hsig by (intros; by apply sig_dec).
  assert (in_field st.1) as Fst by (rewrite Est; apply node_range; intros j; apply leaf_fn_range, Hst).
  assert (in_field asc.1) as Fas by (rewrite Eas; apply node_range; intros j; apply leaf_fn_range, Has).
  assert (0 <= value (w_coin p) < 2 ^ 128) as Hval by apply Hcoin.
  assert (in_field (withdrawnValue p)) as Fw by (apply small_field; lia).
  assert (in_field (relayerFee (binding p))) as Ff by (apply small_field; lia).
  set (pub := public_signals CWithdraw i) in *.
  assert (pub_at pub 0 = poseidonHash [nullifier (w_coin p); w_poolId p; w_chainId p]) as P0.
  { change (pub_at pub 0) with (poseidonHash [sig i "nullifier"; sig i "poolId"; sig i "chainId"]).
    rewrite (Hsig "nullifier" (nullifier (w_coin p))), (Hsig "poolId" (w_poolId p)), (Hsig "chainId" (w_chainId p)) by (done || apply Hcoin). done. }
  assert (pub_at pub 1 = 1) as P1 by (change (pub_at pub 1) with (sig i "operationType"); rewrite (Hsig "operationType" (operationType (binding p))); [by rewrite Rop|by rewrite Rop|done]).
  assert (pub_at pub 2 = withdrawnValue p) as P2 by (by apply (Hsig "withdrawnValue")).
  assert (pub_at pub 3 = addressHash to) as P3 by (rewrite <- Rrec; apply (Hsig "recipientHash"); [by rewrite Rrec|done]).
  assert (pub_at pub 4 = relayerFee (binding p)) as P4 by (by apply (Hsig "relayerFee")).
  assert (pub_at pub 5 = deadlineLedger (binding p)) as P5 by (by apply (Hsig "deadlineLedger")).
  assert (pub_at pub 6 = st.1) as P6 by (by apply (Hsig "stateRoot")).
  assert (pub_at pub 7 = asc.1) as P7 by (by apply (Hsig "associationRoot")).
  assert (pub_at pub 8 = w_poolId p) as P8 by (by apply (Hsig "poolId")).
  assert (pub_at pub 9 = w_chainId p) as P9 by (by apply (Hsig "chainId")).
  assert (pub_at pub 17 = a) as P17 by (apply (Hsig "assetId"); [apply Hcoin|done]).
  cbn [exec]. unfold ShieldedPool.withdraw. rewrite Rp, P0, P1, P2, P3, P4, P5, P6, P7, P8, P9, P17.
  change (int256 1) with 1. rewrite Z.eqb_refl. change (1 =? OP_WITHDRAW_PUBLIC) with true. cbn [negb].
  destruct (Z.eqb_spec (withdrawnValue p) 0); [lia|]. rewrite !Z.gtb_ltb.
  destruct (Z.ltb_spec (withdrawnValue p) (relayerFee (binding p))); [lia|]. cbn [orb].
  destruct (Z.ltb_spec (deadlineLedger (binding p)) (block_number c)); [lia|].
  unfold ShieldedPool.checkDomainCompliance. rewrite Rpid, Rcid, Rassoc, Eas, !Z.eqb_refl. cbn [negb orb rbind].
  rewrite (prefix_known ls _ m st.1) by (done || congruence). cbn [negb]. unfold ShieldedPool.check_proof. rewrite Hver. cbn [rbind negb].
  unfold ShieldedPool.spend_nullifier, NullifierRegistry.spend, NullifierRegistry.isSpent.
  rewrite Rr, (bool_decide_true (poolAddr ∈ _)) by done. rewrite Rpid, Rcid in Rn. rewrite bool_decide_false by exact Rn. cbn [negb rbind].
  rewrite (proj2 (ucheck_Ok _ net)) by (split; [done|unfold u256, net; assert (2 ^ 128 < 2 ^ 256) by done; lia]). cbn [rbind].
  unfold ShieldedPool.pay_out, ShieldedPool.getAssetToken. cbn [pool set_registry tokens]. fold (token_of (pool w) a).
  rewrite (proj2 (Z.eqb_neq _ _) Htok). cbn [rbind]. fold (vault w a). destruct (Z.ltb_spec (vault w a) net); [unfold net in *; lia|].
  rewrite Htr. cbn [rbind]. unfold ShieldedPool.neg_int256. rewrite (field_int256 _ Fw).
  rewrite (proj2 (icheck_Ok _ (- withdrawnValue p))) by (split; [done|assert (2 ^ 128 < 2 ^ 255) by done; lia]). cbn [rbind].
  match goal with |- context [ShieldedPool.adjustNoteSupply a _ ?w0] => set (w1 := w0) end.
  apply transfer_takes in Htr as Hbal; [|unfold net; lia].
  assert (vault w1 a = balanceOf t' (token_of (pool w) a) poolAddr) as Hv1 by done.
  assert (ShieldedPool.noteSupply (pool w1) a = ShieldedPool.noteSupply (pool w) a) as Hs1 by done.
  rewrite (adjust_succeeds a (- withdrawnValue p) w1); [|done|rewrite Hv1, Hs1; unfold vault, net in *; lia|rewrite Hs1; lia].
  cbn [rbind]. eexists. split_and!; try done.
  cbn. unfold ShieldedPool.noteSupply. cbn. by rewrite lookup_insert_eq.
Qed.

End Withdrawal.

(** ** The committee threshold *)

Section Threshold.
Context {PC : Precompiles} {N : Nacl}.

Lemma verify_signers_iff com ed msg pks sgs seen n :
  CommitteeLib.verify_signers com ed msg pks sgs seen = Ok n <->
  n = length pks /\ (length pks <= length sgs)%nat /\ Forall (fun pk => pk ∈ com /\ pk ∉ seen) pks /\ NoDup pks /\
  Forall (fun x => ed25519_verify ed x.1 msg x.2 = Ok true) (zip pks sgs).
Proof.
  revert sgs seen n. induction pks as [|pk pks IH]; intros sgs seen n; cbn [CommitteeLib.verify_signers length].
  { split; [intros [= <-]; split_and!; try constructor; lia|by intros (-> & _)]. }
  rewrite guard_Ok, guard_Ok. split.
  - intros (H1 & H2 & H). destruct sgs as [|sg sgs]; [done|]. peel H. breflect.
    match goal with H : CommitteeLib.verify_signers _ _ _ _ _ _ = Ok _ |- _ => apply IH in H as (-> & Hl & Hf & Hnd & Hz) end.
    rewrite list.Forall_forall in Hf. split_and!; [done|cbn; lia|..].
    + apply list.Forall_cons. split; [done|]. apply list.Forall_forall. intros y Hy. destruct (Hf y Hy). split; [done|]. set_solver.
    + apply list.NoDup_cons. split; [|done]. intros Hin. apply Hf in Hin as [_ Hin]. set_solver.
    + cbn [zip zip_with]. constructor; [|done]. cbn. congruence.
  - intros (-> & Hl & Hf & Hnd & Hz). destruct sgs as [|sg sgs]; [cbn in Hl; lia|]. cbn [zip zip_with] in Hz.
    apply list.Forall_cons in Hf as [[Hc Hs] Hf]. apply list.Forall_cons in Hz as [Hv Hz]. apply list.NoDup_cons in Hnd as [Hn Hnd].
    cbn in Hv. rewrite Hv. cbn [rbind negb]. split_and!; [by rewrite bool_decide_true|by rewrite bool_decide_false|].
    rewrite (proj2 (IH sgs (seen ++ [pk])%list (length pks))); [done|]. cbn in Hl. split_and!; [done|lia| |done|done].
    rewrite list.Forall_forall in *. intros x Hx. destruct (Hf x Hx). split; [done|]. rewrite not_elem_of_app, list_elem_of_singleton.
    split; [done|]. by intros ->.
Qed.

Lemma verifyThreshold_iff com ed bh pks sgs :
  CommitteeLib.verifyThreshold com ed bh pks sgs = Ok tt <->
  com <> [] /\ (ceil_two_thirds (length com) <= length pks)%nat /\
  exists n, CommitteeLib.verify_signers com ed (bytesBE 32 bh) pks sgs [] = Ok n.
Proof.
  unfold CommitteeLib.verifyThreshold. rewrite !guard_Ok, Nat.eqb_neq, orb_false_iff, !Nat.ltb_ge, rbind_Ok.
  assert ((length com * 2 + 2) / 3 = ceil_two_thirds (length com))%nat as -> by (unfold ceil_two_thirds; f_equal; lia).
  split.
  - intros (H0 & (H1 & H2) & n & H & _). split_and!; [by destruct com|done|by exists n].
  - intros (H0 & H1 & n & H). pose proof H as (-> & Hl & _)%verify_signers_iff. split_and!; [by destruct com|done|lia|].
    exists (length pks). split; [done|]. apply guard_Ok. split; [by apply Nat.ltb_ge|done].
Qed.

(** The keys of a batch as 32-byte words, and both Ed25519 verifiers on the
    batch hash. *)
Definition words_of (word : string -> Z) (batch : SignedMatchBatch) : list Z :=
  map (fun s => word (ns_signingPubkey s)) (signatures batch).

Lemma threshold_iff (word : string -> Z) ed bh (batch : SignedMatchBatch) (committee : list CommitteeNodeInfo) :
  (forall k k', k ∈ (map signingPubkey committee ++ map ns_signingPubkey (signatures batch))%list ->
                k' ∈ (map signingPubkey committee ++ map ns_signingPubkey (signatures batch))%list -> word k = word k' -> k = k') ->
  (forall s, s ∈ signatures batch ->
     ed25519_verify ed (word (ns_signingPubkey s)) (bytesBE 32 bh) (signature s) = verifyNodeSignature (batchId batch) (matches batch) s) ->
  CommitteeLib.verifyThreshold (map (fun n => word (signingPubkey n)) committee) ed bh (words_of word batch) (map signature (signatures batch)) = Ok tt <->
  committee <> [] /\ verifySignedBatch batch committee = Ok true.
Proof.
  intros Hinj Hag. rewrite verifyThreshold_iff, verifySignedBatch_iff. unfold accepted_batch, words_of. rewrite !length_map.
  assert (Hz : Forall (fun x => ed25519_verify ed x.1 (bytesBE 32 bh) x.2 = Ok true)
                 (zip (map (fun s => word (ns_signingPubkey s)) (signatures batch)) (map signature (signatures batch))) <->
               Forall (fun s => verifyNodeSignature (batchId batch) (matches batch) s = Ok true) (signatures batch)).
  { assert (forall l, (forall s, s ∈ l -> s ∈ signatures batch) ->
      Forall (fun x => ed25519_verify ed x.1 (bytesBE 32 bh) x.2 = Ok true) (zip (map (fun s => word (ns_signingPubkey s)) l) (map signature l)) <->
      Forall (fun s => verifyNodeSignature (batchId batch) (matches batch) s = Ok true) l) as Hl; [|by apply Hl].
    induction l as [|s l IH]; intros Hsub; cbn [map zip zip_with]; [by split; constructor|].
    rewrite !list.Forall_cons, IH by (intros; apply Hsub; by right). cbn. by rewrite Hag by (apply Hsub; left). }
  assert (Hin : forall k, k ∈ map ns_signingPubkey (signatures batch) ->
            word k ∈ map (fun n => word (signingPubkey n)) committee <-> k ∈ map signingPubkey committee).
  { intros k Hk. rewrite !elem_of_map_iff. split.
    - intros (n & E & Hn). exists n. split; [|done]. apply Hinj; [apply elem_of_app; left|by apply elem_of_app; right|done].
      apply elem_of_map_iff. by exists n.
    - intros (n & <- & Hn). by exists n. }
  assert (Hnd : NoDup (map (fun s => word (ns_signingPubkey s)) (signatures batch)) <-> NoDup (map ns_signingPubkey (signatures batch))).
  { assert (map (fun s => word (ns_signingPubkey s)) (signatures batch) = word <$> map ns_signingPubkey (signatures batch)) as ->
      by (change (fmap word) with (map word); by rewrite map_map).
    split; [apply NoDup_fmap_1|]. intros H. apply NoDup_fmap_2_strong; [|done]. intros x y Hx Hy. apply Hinj; apply elem_of_app; by right. }
  split.
  - intros (Hc & Hlen & n & (_ & _ & Hf & Hn & Hv)%verify_signers_iff). split; [by destruct committee|]. split_and!; [|by apply Hnd|done].
    apply Hz in Hv. rewrite list.Forall_forall in Hf. rewrite list.Forall_forall in Hv. apply list.Forall_forall. intros s Hs. split; [|by apply Hv]. apply Hin; [apply elem_of_map_iff; by exists s|].
    apply (Hf (word (ns_signingPubkey s))). apply elem_of_map_iff. by exists s.
  - intros (Hc & Hf & Hn & Hlen). split_and!; [by destruct committee|done|]. exists (length (signatures batch)). apply verify_signers_iff.
    rewrite !length_map. split_and!; [done|done| |by apply Hnd|].
    + apply list.Forall_forall. intros x (s & <- & Hs)%elem_of_map_iff. split; [|apply not_elem_of_nil]. rewrite list.Forall_forall in Hf.
      apply Hin; [apply elem_of_map_iff; by exists s|by apply Hf].
    + apply Hz. rewrite list.Forall_forall in Hf. apply list.Forall_forall. intros s Hs. by apply Hf.
Qed.

End Threshold.

(** ** Who is paid for a quote *)

Section Redirect.
Context {HP : Poseidon} {ER : Erc20} {EL : Erc20Laws ER} {PC : Precompiles} {DP : Deployed}.

(** An adjustment does not mind more tokens. *)
Lemma adjust_more_tokens a d t t' w w' : ShieldedPool.adjustNoteSupply a d (set_tokens t w) = Ok w' ->
  balanceOf t (token_of (pool w) a) poolAddr <= balanceOf t' (token_of (pool w) a) poolAddr ->
  ShieldedPool.adjustNoteSupply a d (set_tokens t' w) = Ok (set_tokens t' w').
Proof.
  unfold ShieldedPool.adjustNoteSupply, ShieldedPool.vaultBalance, ShieldedPool.getAssetToken. cbn [pool set_tokens tokens].
  fold (token_of (pool w) a). intros H Hb. peel H. rewrite Z.gtb_ltb in *. breflect.
  rewrite (proj2 (Z.eqb_neq _ _)) by done.
  match goal with H : icheck _ = Ok _ |- _ => rewrite H end. cbn [rbind].
  match goal with |- context [?n <? 0] => destruct (Z.ltb_spec n 0); [lia|] end.
  rewrite Z.gtb_ltb. match goal with |- context [?b <? ?n] => destruct (Z.ltb_spec b n); [lia|] end. done.
Qed.

(** Nothing in a settlement names the payee: whoever copies its arguments can
    put another address in its place. *)
Lemma rfq_redirect c to q ih fr pk sg pf pub w w' thief c' t' :
  exec c (RfqSettle to q ih fr pk sg pf pub) w = Ok w' -> block_number c' = block_number c ->
  let tok := token_of (pool w) (pub_at pub 17) in
  safeTransfer (tokens w) tok poolAddr thief (pub_at pub 2) = Ok t' ->
  balanceOf (tokens w') tok poolAddr <= balanceOf t' tok poolAddr ->
  exists w2, exec c' (RfqSettle thief q ih fr pk sg pf pub) w = Ok w2 /\ tokens w2 = t' /\ spent_set w2 = spent_set w' /\
    logs w2 = (logs w ++ [EvRfqSettled q thief (pub_at pub 0) (pub_at pub 2)])%list.
Proof.
  intros H Hblk tok Ht Hbal. cbn [exec] in *. unfold ShieldedPool.rfqSettle in *. peel H.
  match goal with H : ShieldedPool.pay_out _ _ _ _ = Ok _ |- _ => rename H into Hpay end.
  match goal with H : ShieldedPool.spend_nullifier _ _ _ = Ok ?x |- _ => rename H into Hsp, x into ws; pose proof Hsp as (Hm & Ep & Ee & Et & Elog)%spend_nullifier_Ok end.
  match goal with H : ShieldedPool.adjustNoteSupply _ _ _ = Ok ?x |- _ => rename H into Hadj, x into wa end.
  match goal with H : ShieldedPool.neg_int256 _ = Ok ?x |- _ => rename H into Hneg, x into d end.
  apply pay_out_Ok in Hpay as (Htok & Hb & t & Htr & Ews). rewrite Ep, Et in *. fold (token_of (pool w) (pub_at pub 17)) in *. fold tok in Htr, Hb, Htok.
  repeat match goal with H : ?b = false |- context [ ?b ] => rewrite H | H : ?e = Ok _ |- context [ ?e ] => rewrite H; cbn [rbind] end.
  rewrite Hblk, H5. unfold ShieldedPool.pay_out, ShieldedPool.getAssetToken. rewrite Ep, Et. fold (token_of (pool w) (pub_at pub 17)). fold tok.
  rewrite (proj2 (Z.eqb_neq _ _) Htok). cbn [rbind]. destruct (Z.ltb_spec (balanceOf (tokens w) tok poolAddr) (pub_at pub 2)); [lia|].
  rewrite Ht. cbn [rbind]. subst x3. pose proof Hadj as (_ & _ & Ewa)%adjust_Ok.
  assert (tokens wa = t) as Etk by (by rewrite Ewa). cbn [tokens emit] in Hbal. rewrite Etk in Hbal.
  rewrite (adjust_more_tokens _ _ _ t' _ _ Hadj) by (unfold token_of; rewrite Ep; done). cbn [rbind].
  eexists. split_and!; try done. cbn. by rewrite Ewa, <- Elog.
Qed.
End Redirect.
End ArcFlow.
