(* ===== verification/ArcProps.v ===== *)
(** The theorems about the Arc deployment, with a small deployment to run them on. *)

From S2P Require Import Prelude Text Json Streams Merkle Circuits Coin Proving Committee Evm ArcPool ArcEscrow ArcLedger ArcSupply ArcNotes ArcFlow.
Local Open Scope string_scope.
Local Open Scope Z_scope.

Import ArcLedger ArcSupply ArcNotes ArcFlow.

(** ** Concrete parameters for the examples *)

#[local] Existing Instance Proving.fieldPoseidon.
#[local] Existing Instance Proving.fieldPoseidon_laws.
#[local] Existing Instance Proving.plainCircomlib.
#[local] Existing Instance Proving.plainCircomlib_laws.

Definition toy_balance (t : gmap (Z * Z) N) (tok who : Z) : Z := Z.of_N (default 0%N (t !! (tok, who))).

Definition toy_move (t : gmap (Z * Z) N) (tok from to amt : Z) : result (gmap (Z * Z) N) :=
  throw_if (amt <? 0) || (toy_balance t tok from <? amt) with "ERC20InsufficientBalance" in
  let t := <[(tok, from) := Z.to_N (toy_balance t tok from - amt)]> t in
  Ok (<[(tok, to) := Z.to_N (toy_balance t tok to + amt)]> t).

#[local] Instance toyErc20 : Erc20 := {|
  Tokens := gmap (Z * Z) N;
  balanceOf := toy_balance;
  safeTransfer := toy_move;
  forceApprove := fun t _ _ _ _ => Ok t;
  depositForBurn := fun t m caller b => toy_move t (bc_burnToken b) caller 0 (bc_amount b) |}.

Lemma toy_move_other t tok from to amt t' tok' who :
  toy_move t tok from to amt = Ok t' -> tok' <> tok -> toy_balance t' tok' who = toy_balance t tok' who.
Proof.
  unfold toy_move. intros [_ E]%guard_Ok Hne. injection E as <-. unfold toy_balance.
  rewrite !lookup_insert_ne by congruence. done.
Qed.

Lemma toy_balance_insert t tok who x who' :
  toy_balance (<[(tok, who) := x]> t) tok who' = if who =? who' then Z.of_N x else toy_balance t tok who'.
Proof.
  unfold toy_balance. destruct (Z.eqb_spec who who') as [->|]; [by rewrite lookup_insert_eq|by rewrite lookup_insert_ne by congruence].
Qed.

Lemma toy_move_takes t tok from to amt t' : toy_move t tok from to amt = Ok t' -> 0 <= amt ->
  toy_balance t tok from - amt <= toy_balance t' tok from.
Proof.
  unfold toy_move. intros [Hg E]%guard_Ok H0. injection E as <-. breflect. rewrite !toy_balance_insert, Z.eqb_refl.
  destruct (Z.eqb_spec to from) as [->|]; [rewrite Z.eqb_refl|]; lia.
Qed.

#[local] Instance toyErc20_laws : Erc20Laws toyErc20.
Proof.
  split.
  - intros t tok from to amt t' tok' who. apply toy_move_other.
  - by intros t tok owner sp amt t' tok' who [= <-].
  - intros t m caller b t' tok' who. apply toy_move_other.
  - intros t tok from to amt t'. apply toy_move_takes.
  - intros t m caller b t'. apply toy_move_takes.
Qed.
#[local] Instance toyBalance_laws : BalanceLaws toyErc20.
Proof. split. intros t tok who. apply N2Z.is_nonneg. Qed.

(** Verifier contracts at the addresses one to seven; a proof is its witness. *)
Definition toy_circuit (v : Address) : option Circuit :=
  match v with 1 => Some CWithdraw | 2 => Some CTransfer | 3 => Some CDeposit | 4 => Some CMpc | 5 => Some CPriced
             | 6 => Some COpen | 7 => Some CSettle | _ => None end.

#[local] Instance toyPrecompiles : Precompiles := {|
  Groth16Proof := input;
  verifyProof := fun v pf pub =>
    match toy_circuit v with
    | Some c => Ok (satisfied c pf && bool_decide (public_signals c pf = pub))
    | None => Err "no code"
    end;
  ed25519_verify := fun _ pk msg sg => Ok (bool_decide (sg = "signed"));
  sha256_word := fun l => foldl (fun acc b => acc * 256 + b) 0 l |}.

Lemma toy_genuine c v pf pub : toy_circuit v = Some c -> verifyProof v pf pub = Ok true ->
  satisfied c pf = true /\ public_signals c pf = pub.
Proof. cbn. intros -> [= H]. breflect. done. Qed.

Lemma public_signals_field c i : Forall in_field (public_signals c i).
Proof.
  unfold public_signals. apply Forall_app_2; [|apply Forall_map, list.Forall_forall; intros k _; apply sig_range].
  destruct c; repeat constructor; apply poseidon_range.
Qed.

#[local] Instance toyVerifier_laws : VerifierLaws toyPrecompiles.
Proof.
  split; [|done]. intros v pf pub H. destruct (toy_circuit v) as [c|] eqn:E; [|by cbn in H; rewrite E in H].
  destruct (toy_genuine c v pf pub E H) as [_ <-]. apply public_signals_field.
Qed.

#[local] Instance toyExtractor : Extractor toyPrecompiles := fun _ pf _ => pf.
#[local] Instance toyDeployed : Deployed := {| poolAddr := 25600; escrowAddr := 25601 |}.

Definition ex_ctx (block : Z) : Ctx := {| sender := 7; block_number := block; hasRole := fun _ => true |}.
Definition ex_tokens : @Tokens toyErc20 := ({[(1280, 25600) := 500%N]} : gmap (Z * Z) N).

(** The deposit of the note [ex_in] (100 of asset 5, whose token is 1280). *)
Definition ex_binding : DepositBindingBn254 :=
  {| d_sourceDomain := 3; d_destinationDomain := 27; d_cctpNonceHash := 2; d_burnTxHashHash := 9; d_amount6dp := 10;
     d_amount7dp := 100; d_assetIdHash := 5; d_recipientPool := 100; d_encryptedNotePayloadHash := 3; d_policyIdHash := 4;
     d_poolId := 9; d_chainId := 10 |}.
Definition ex_deposit_input : input := match deposit_input ex_in ex_binding with Ok i => i | Err _ => [] end.
Definition ex_deposit : Call :=
  ReceiveDeposit 3 512 1280 100 (commitment ex_in) 768 1024 ex_deposit_input (public_signals CDeposit ex_deposit_input).

(** Sixty of it are withdrawn to the address 2560, with a fee of two. *)
Definition ex_withdrawal : WithdrawInputBn254 :=
  {| w_coin := ex_in; withdrawnValue := 60; w_stateLeaves := [commitment ex_in]; w_stateIndex := 0;
     w_assocLabels := ex_labels; w_labelIndex := 1; w_poolId := 9; w_chainId := 10;
     binding := {| operationType := 1; recipientHash := 10; relayerFee := 2; deadlineLedger := 50; quoteHash := None;
                   intentHash := None; fillReceiptHash := None; destinationDomain := None; destinationRecipient := None;
                   maxFee := None; minFinalityThreshold := None |} |}.
Definition ex_withdraw_input : input := match withdraw_input ex_withdrawal with Ok i => i | Err _ => [] end.
Definition ex_withdraw : Call := Withdraw 2560 ex_withdraw_input (public_signals CWithdraw ex_withdraw_input).

(** The root of the approved labels [ex_labels]. *)
Definition ex_association : Z := match buildMerkleTree ex_labels 2 with Ok t => root t | Err _ => 0 end.

Definition ex_setup : list Tx :=
  map (TCall (ex_ctx 1)) [SetAuthorizedSpender 25600 true; RegisterAsset 5 1280; SetVerifier CDeposit 3; SetVerifier CWithdraw 1;
                          SetAssociationRoot ex_association; ex_deposit].
Definition ex_run : list Tx := ex_setup ++ [TCall (ex_ctx 40) ex_withdraw; TCall (ex_ctx 41) ex_withdraw].

Definition ex_world : World := match deploy 12 9 10 5 ex_tokens with Ok w => w | Err _ => {| pool := {|
  tree := {| flevels := 0; filledSubtrees := []; fzeros := []; nextLeafIndex := 0; roots := [] |}; poolId := 0; chainId := 0;
  pverifier := fun _ => 0; associationRoot := 0; associationRootVersion := 0; assetToken := ∅; noteSupplyOf := ∅; committee := [];
  ed25519Verifier := 0; authorizedSolver := ∅; cctpOutboundDomain := 0; tokenMessenger := 0; usdcToken := 0; depositUsed := ∅;
  authorizedStreamContract := ∅; ppaused := false |}; registry := NullifierRegistry.newRegistry;
  escrow := {| everifier := fun _ => 0; challengeWindow := 0; channels := ∅; epaused := false |}; tokens := ∅; logs := [] |} end.

Lemma ex_world_deployed : deploy 12 9 10 5 ex_tokens = Ok ex_world.
Proof.
  assert (is_ok (deploy 12 9 10 5 ex_tokens) = true) as H by (vm_compute; reflexivity). unfold ex_world.
  by destruct (deploy 12 9 10 5 ex_tokens).
Qed.

Example ex_results : map (fun x => is_ok (exec (ex_ctx 40) x (run ex_setup ex_world))) [ex_withdraw] = [true] /\
  (length (nullifiers_by ex_run ex_world), length (leaves_by ex_run ex_world), ShieldedPool.noteSupply (pool (run ex_run ex_world)) 5) = (1%nat, 1%nat, 40).
Proof. vm_compute. split; reflexivity. Qed.

Definition ex_open_input : input :=
  match open_input {| so_inCoin := ex_in; so_stateLeaves := [commitment ex_in]; so_stateIndex := 0; so_assocLabels := ex_labels;
                      so_labelIndex := 1; so_channelId := 77; so_payerAx := 1; so_payerAy := 2; so_cap := 30; so_expiry := 20;
                      so_poolId := 9; so_chainId := 10 |} (ex_random "x") (ex_random "y") with
  | Ok r => r.1.1 | Err _ => [] end.

(** A channel with a cap of thirty, that expires at block twenty. *)
Definition ex_channel_run : list Tx :=
  map (TCall (ex_ctx 1)) [SetAuthorizedSpender 25600 true; SetAuthorizedSpender 25601 true; RegisterAsset 5 1280;
    SetVerifier CDeposit 3; EscrowSetVerifier COpen 6; SetAuthorizedStreamContract 25601 true;
    SetAssociationRoot ex_association; ex_deposit; Open ex_open_input (public_signals COpen ex_open_input)].

Definition ex_channel : Channel :=
  {| payerAx := 1; payerAy := 2; cap := 30; expiry := 20; reclaimCommitment := sig ex_open_input "reclaimCommitment";
     ch_assetId := 5; opened := true; consumed := false |}.

Ltac walk :=
  repeat match goal with
  | |- along _ [] _ => exact I
  | |- along _ (_ :: _) _ => split
  | |- along _ (map _ _) _ => cbn [map]
  | |- fair (TCall _ (RegisterAsset _ _)) _ => let b := fresh "b" in let H := fresh "H" in intros b H; vm_compute in H; discriminate H
  | |- fair _ _ => exact I
  | |- funded (TCall _ ex_deposit) _ => vm_compute; discriminate
  | |- funded _ _ => exact I
  | |- fair _ _ /\ funded _ _ => split
  end.

(** ** Nullifiers *)

(** C6: over any sequence of transactions from the deployment, through pool,
    escrow and direct calls, no nullifier is ever spent twice, and the registry
    holds exactly the nullifiers of the transactions that succeeded. *)
Theorem nullifiers_spent_once (HP : Poseidon) (ER : Erc20) (PC : Precompiles) (DP : Deployed)
    (lv : nat) (pid cid window : Z) (t : Tokens) (w0 : World) (l : list Tx) :
  deploy lv pid cid window t = Ok w0 ->
  NoDup (nullifiers_by l w0) /\ spent_set (run l w0) = list_to_set (nullifiers_by l w0).
Proof.
  intros Hd. assert (spent_set w0 = ∅) as H0 by (by apply rbind_Ok in Hd as (fr & _ & [= <-])).
  destruct (run_moves l w0) as (H & _ & E & _). split; [exact H|]. rewrite E, H0. set_solver.
Qed.

Lemma nullifiers_spent_once_witness :
  length (nullifiers_by ex_run ex_world) = 1%nat /\
  NoDup (nullifiers_by ex_run ex_world) /\ spent_set (run ex_run ex_world) = list_to_set (nullifiers_by ex_run ex_world).
Proof. split; [vm_compute; reflexivity|]. exact (nullifiers_spent_once _ _ _ _ 12 9 10 5 ex_tokens ex_world ex_run ex_world_deployed). Defined.

(** ** The tree *)

(** C9: whatever happens, the tree of the pool is the off-chain tree of
    merkle.ts over the inserted leaves: same count, same root; every root
    [buildMerkleTree] computes from a prefix of the leaves is known to the
    contract (unless it is zero), and the contract knows no other root. *)
Theorem pool_tree_is_offchain_tree (HP : Poseidon) (ER : Erc20) (PC : Precompiles) (DP : Deployed)
    (lv : nat) (pid cid window : Z) (t : Tokens) (w0 : World) (l : list Tx) :
  deploy lv pid cid window t = Ok w0 -> (lv <= 30)%nat ->
  let ls := leaves_by l w0 in
  let tr := tree (pool (run l w0)) in
  getLeafCount tr = length ls /\
  (exists mt, buildMerkleTree ls (Z.of_nat lv) = Ok mt /\ getRoot tr = root mt) /\
  (forall m, (m <= length ls)%nat -> exists mt, buildMerkleTree (take m ls) (Z.of_nat lv) = Ok mt /\
     (root mt <> 0 -> isKnownRoot tr (root mt) = true)) /\
  (forall r, isKnownRoot tr r = true -> exists m mt, (m <= length ls)%nat /\ buildMerkleTree (take m ls) (Z.of_nat lv) = Ok mt /\ root mt = r).
Proof.
  intros Hd Hlv ls tr. pose proof (run_tree lv [] l w0 (deploy_tree _ _ _ _ _ _ Hd)) as (Hf & Hr & Hlen & _). fold ls tr in Hf, Hr, Hlen.
  destruct Hf as (_ & _ & Hn & _ & Hroot). cbn [app] in *.
  assert (forall m, (m <= length ls)%nat -> exists mt, buildMerkleTree (take m ls) (Z.of_nat lv) = Ok mt /\ root mt = node (leaf_fn (take m ls)) lv 0) as Hb.
  { intros m Hm. rewrite build_tree_spec by (rewrite ?length_take; lia). by eexists. }
  split_and!; [exact Hn| | |].
  - destruct (Hb (length ls)) as (mt & E & Er); [done|]. rewrite firstn_all in *. exists mt. by rewrite Er.
  - intros m Hm. destruct (Hb m Hm) as (mt & E & Er). exists mt. split; [done|]. intros H0. unfold isKnownRoot.
    rewrite (proj2 (Z.eqb_neq _ _) H0). cbn [negb andb]. apply bool_decide_eq_true. rewrite Hr. apply prefix_roots_elem. by exists m.
  - intros r Hk. unfold isKnownRoot in Hk. apply andb_prop in Hk as [_ Hk]. apply bool_decide_eq_true in Hk. rewrite Hr in Hk.
    apply prefix_roots_elem in Hk as (m & Hm & ->). destruct (Hb m Hm) as (mt & E & Er). by exists m, mt.
Qed.

Lemma pool_tree_is_offchain_tree_witness :
  leaves_by ex_channel_run ex_world = [commitment ex_in; sig ex_open_input "changeCommitment"] /\
  exists mt, buildMerkleTree (leaves_by ex_channel_run ex_world) 12 = Ok mt /\ getRoot (tree (pool (run ex_channel_run ex_world))) = root mt.
Proof.
  split; [vm_compute; reflexivity|].
  exact (proj1 (proj2 (pool_tree_is_offchain_tree _ _ _ _ 12 9 10 5 ex_tokens ex_world ex_channel_run ex_world_deployed ltac:(lia)))).
Defined.

(** ** Supplies *)



(** ** Notes and money *)

(** Two different hash inputs with one hash, or an input that hashes to zero. *)
Definition hash_accident (HP : Poseidon) (Q : list (list Z)) : Prop :=
  (exists x y, x ∈ Q /\ y ∈ Q /\ x <> y /\ poseidonHash x = poseidonHash y) \/ (exists x, x ∈ Q /\ poseidonHash x = 0).

Lemma accident_or_free (HP : Poseidon) Q : hash_accident HP Q \/ free Q.
Proof.
  destruct (decide (Exists (fun x => Exists (fun y => x <> y /\ poseidonHash x = poseidonHash y) Q \/ poseidonHash x = 0) Q)) as [H|H].
  - left. apply list.Exists_exists in H as (x & Hx & [(y & Hy & Hne & E)%list.Exists_exists|E]); [left; by exists x, y|right; by exists x].
  - right. assert (forall x, x ∈ Q -> ~ (Exists (fun y => x <> y /\ poseidonHash x = poseidonHash y) Q \/ poseidonHash x = 0)) as Hn
      by (intros x Hx Hc; apply H, list.Exists_exists; by exists x).
    split; [|intros x Hx E; by apply (Hn x Hx); right]. intros x y Hx Hy E. destruct (decide (x = y)) as [|Hne]; [done|].
    exfalso. apply (Hn x Hx). left. apply list.Exists_exists. by exists y.
Qed.

(** A run without accidents: its leaves, its unspent notes, its supplies. *)
Lemma run_covered (HP : Poseidon) (CL : Circomlib) (CLL : CircomlibLaws CL) (ED : Eddsa) (ER : Erc20) (EL : Erc20Laws ER)
    (BL : BalanceLaws ER) (PC : Precompiles) (VL : VerifierLaws PC) (XT : Extractor PC) (DP : Deployed)
    (pid cid window : Z) (t : Tokens) (w0 : World) (l : list Tx) Q :
  deploy 12 pid cid window t = Ok w0 -> Forall honest l -> along fair l w0 ->
  let L := ledger_by l w0 {| minted := []; reclaims := ∅ |} in
  queries_by l w0 {| minted := []; reclaims := ∅ |} ⊆ Q -> free Q ->
  map commit (minted L) = leaves_by l w0 /\
  forall a, token_of (pool (run l w0)) a <> 0 ->
    unspent_of (run l w0) a (minted L) <= ShieldedPool.noteSupply (pool (run l w0)) a <= vault (run l w0) a.
Proof.
  intros Hd Hh Hf L HQ Hfree. pose proof (deploy_ledger _ _ _ _ _ Hd) as H0.
  assert (sound (run l w0)) as (_ & _ & Hc) by (eapply along_inv; [apply apply_sound|by eapply deploy_sound|exact Hf]).
  pose proof (run_ledger l w0 _ Q H0 Hh Hfree HQ) as Hl. split; [exact (run_made l w0 _ Q H0 Hh Hfree HQ)|].
  intros a Ha. pose proof (lo_sum _ _ Hl a) as Hs. unfold owed in Hs. fold L in Hs. destruct (Hc a Ha) as [_ Hb]. lia.
Qed.

(** C5: no transaction creates money.  Take any sequence of transactions in
    which the verifiers are those of the circuits, the escrow is the only
    stream contract, tokens are registered once and nobody moves the pool's
    tokens, and no same-asset committee settlement is run (its circuit does not
    bound what it makes).  Read the notes off the witnesses of the proofs.  Then
    their commitments are the inserted leaves, and for every asset the
    value of the unspent notes is at most the supply counter, which is at most
    the pool's balance - or the run exhibits a hash accident: two of the hash
    inputs it used collide, or one hashes to zero. *)
Theorem notes_covered (HP : Poseidon) (CL : Circomlib) (CLL : CircomlibLaws CL) (ED : Eddsa) (ER : Erc20) (EL : Erc20Laws ER)
    (BL : BalanceLaws ER) (PC : Precompiles) (VL : VerifierLaws PC) (XT : Extractor PC) (DP : Deployed)
    (pid cid window : Z) (t : Tokens) (w0 : World) (l : list Tx) :
  deploy 12 pid cid window t = Ok w0 -> Forall honest l -> along fair l w0 ->
  let L0 := {| minted := []; reclaims := ∅ |} in
  let w := run l w0 in
  let notes := minted (ledger_by l w0 L0) in
  hash_accident HP (queries_by l w0 L0) \/
  (map commit notes = leaves_by l w0 /\
   forall a, token_of (pool w) a <> 0 ->
     unspent_of w a notes <= ShieldedPool.noteSupply (pool w) a <= balanceOf (tokens w) (token_of (pool w) a) poolAddr).
Proof.
  intros Hd Hh Hf L0 w notes. destruct (accident_or_free HP (queries_by l w0 L0)) as [|Hfree]; [by left|right].
  by eapply run_covered.
Qed.

Lemma ex_honest_verifier c cc v : toy_circuit v = Some cc -> honest (TCall c (SetVerifier cc v)).
Proof. intros H pf pub. by apply toy_genuine. Qed.

Lemma notes_covered_witness :
  (unspent_of (run ex_run ex_world) 5 [{| n_asset := 5; n_value := 100; n_label := 77; n_nullifier := 7; n_secret := 8 |}] <= 100) /\
  let L0 := {| minted := []; reclaims := ∅ |} in
  let w := run ex_run ex_world in
  let notes := minted (ledger_by ex_run ex_world L0) in
  map n_value notes = [100] /\
  (hash_accident _ (queries_by ex_run ex_world L0) \/
   (map commit notes = leaves_by ex_run ex_world /\
    forall a, token_of (pool w) a <> 0 ->
      unspent_of w a notes <= ShieldedPool.noteSupply (pool w) a <= balanceOf (tokens w) (token_of (pool w) a) poolAddr)).
Proof.
  split; [vm_compute; discriminate|]. split; [vm_compute; reflexivity|].
  apply (notes_covered _ _ _ _ _ _ _ _ _ _ _ 9 10 5 ex_tokens ex_world ex_run ex_world_deployed).
  - unfold ex_run, ex_setup. cbn [map app].
    repeat (apply list.Forall_cons; split; [first [exact I | by apply ex_honest_verifier]|]). by apply list.Forall_nil.
  - unfold ex_run, ex_setup. cbn [map app]. walk.
Defined.

(** ** Channels *)

(** C8: a channel can always be closed.  After any fair sequence of
    transactions in which deposits are funded, take a live channel while the
    contracts run and the tree has room.  Once its expiry and the challenge
    window have passed, a reclaim succeeds; and whenever the payee has a proof
    for the channel with a cumulative amount within the cap, a settlement
    succeeds.  Either way the committed notes are inserted, the whole cap is
    back in the supply, and the channel is consumed. *)
Theorem open_channel_closes (HP : Poseidon) (ER : Erc20) (EL : Erc20Laws ER) (BL : BalanceLaws ER) (PC : Precompiles)
    (VL : VerifierLaws PC) (DP : Deployed) (lv : nat) (pid cid window : Z) (t : Tokens) (w0 : World) (l : list Tx)
    (c : Ctx) (id : Z) (ch : Channel) :
  deploy lv pid cid window t = Ok w0 -> along (fun x w => fair x w /\ funded x w) l w0 ->
  let w := run l w0 in
  live w id ch -> running w (ch_assetId ch) -> has_room 2 w ->
  (expiry ch + challengeWindow (escrow w) < block_number c -> u256 (expiry ch + challengeWindow (escrow w)) ->
     exists w', exec c (Reclaim id) w = Ok w' /\ closed_with [reclaimCommitment ch] id ch w w') /\
  (forall pf pub, settles w id ch pf pub ->
     exists w', exec c (Settle pf pub) w = Ok w' /\ closed_with [pub_at pub 0; pub_at pub 1] id ch w w').
Proof.
  intros Hd Ha w Hl Hr Hroom. assert (backed w) as Hb by (eapply along_inv; [apply apply_backed|by eapply deploy_backed|exact Ha]).
  split; [intros; apply reclaim_ok; try done; unfold has_room in *; lia|intros; by apply settle_ok].
Qed.

Lemma open_channel_closes_witness :
  let w := run ex_channel_run ex_world in
  live w 77 ex_channel /\
  exists w', exec (ex_ctx 26) (Reclaim 77) w = Ok w' /\ closed_with [reclaimCommitment ex_channel] 77 ex_channel w w'.
Proof.
  assert (live (run ex_channel_run ex_world) 77 ex_channel) as Hl by (split_and!; vm_compute; reflexivity). split; [exact Hl|].
  refine (proj1 (open_channel_closes Proving.fieldPoseidon toyErc20 toyErc20_laws toyBalance_laws toyPrecompiles toyVerifier_laws toyDeployed
    12 9 10 5 ex_tokens ex_world ex_channel_run (ex_ctx 26) 77 ex_channel ex_world_deployed _ Hl _ _) _ _).
  - unfold ex_channel_run; cbn [map]; walk.
  - split_and!; [vm_compute; reflexivity..| |vm_compute; reflexivity]. apply (bool_decide_eq_true_1 _). vm_compute. reflexivity.
  - vm_compute. lia.
  - vm_compute. reflexivity.
  - vm_compute. split; [discriminate|reflexivity].
Defined.

(** ** Withdrawals *)

(** The note of a coin of the TypeScript packages. *)
Definition coin_note (c : Bn254Coin) : Note :=
  {| n_asset := assetId c; n_value := value c; n_label := label c; n_nullifier := nullifier c; n_secret := secret c |}.

Lemma coin_commit (HP : Poseidon) c : coin_ok c -> commit (coin_note c) = commitment c.
Proof. by intros [-> _]. Qed.

(** A coin whose commitment is a leaf is the note behind that leaf, so its
    value is within the supply while it is unspent. *)
Lemma coin_within_supply (HP : Poseidon) (ER : Erc20) Q (w : World) notes (p : Bn254Coin) i :
  free Q -> note_queries (coin_note p) ⊆ Q -> concat (map note_queries notes) ⊆ Q -> Forall (fun n => 0 <= n_value n) notes ->
  coin_ok p -> map commit notes !! i = Some (commitment p) ->
  poseidonHash [nullifier p; poolId (pool w); chainId (pool w)] ∉ spent_set w -> value p <= unspent_of w (assetId p) notes.
Proof.
  intros Hf Hp Hn Hpos Hok Hi Hns. change (map commit notes) with (commit <$> notes) in Hi. apply list_lookup_fmap_Some in Hi as (n & E & Hl).
  apply list_elem_of_lookup_2 in Hl. assert (coin_note p = n) as <-.
  { eapply commit_binds; [exact Hf|exact Hp|by eapply concat_sub|]. rewrite coin_commit by done. done. }
  by apply (unspent_elem _ _ _ _ (coin_note p)).
Qed.

(** C4: an unspent note can always be withdrawn.  After any sequence of
    transactions as above, take a coin whose commitment is a leaf of the pool,
    with an approved label and an unspent nullifier.  Then, unless the hash
    inputs used show an accident, the withdrawal builder of the TypeScript
    packages makes an input for every amount up to the coin's value, and the
    contract accepts its proof: the supply and the pool's balance suffice, the
    nullifier is spent and the supply goes down by the amount. *)
Theorem unspent_note_withdrawable (HP : Poseidon) (PL : PoseidonLaws HP) (CL : Circomlib) (CLL : CircomlibLaws CL) (ED : Eddsa)
    (ER : Erc20) (EL : Erc20Laws ER) (BL : BalanceLaws ER) (PC : Precompiles) (VL : VerifierLaws PC) (XT : Extractor PC) (DP : Deployed)
    (pid cid window : Z) (t : Tokens) (w0 : World) (l : list Tx)
    (c : Ctx) (p : WithdrawInputBn254) (to : Address) (m : nat) (prove : input -> Groth16Proof) (t' : Tokens) :
  deploy 12 pid cid window t = Ok w0 -> Forall honest l -> along fair l w0 ->
  let L0 := {| minted := []; reclaims := ∅ |} in
  let w := run l w0 in
  let notes := minted (ledger_by l w0 L0) in
  let a := assetId (w_coin p) in
  coin_ok (w_coin p) -> 0 < withdrawnValue p <= value (w_coin p) -> 0 <= relayerFee (binding p) <= withdrawnValue p ->
  leaf_at (w_stateLeaves p) 12 (w_stateIndex p) (commitment (w_coin p)) ->
  leaf_at (w_assocLabels p) 2 (w_labelIndex p) (label (w_coin p)) ->
  ready c w p to (leaves_by l w0) m -> complete CWithdraw (pverifier (pool w) CWithdraw) prove ->
  token_of (pool w) a <> 0 -> vault w a < 2 ^ 255 ->
  safeTransfer (tokens w) (token_of (pool w) a) poolAddr to (withdrawnValue p - relayerFee (binding p)) = Ok t' ->
  hash_accident HP (note_queries (coin_note (w_coin p)) ++ concat (map note_queries notes) ++ queries_by l w0 L0) \/
  exists i w', withdraw_input p = Ok i /\ exec c (Withdraw to (prove i) (public_signals CWithdraw i)) w = Ok w' /\
    tokens w' = t' /\ spent_set w' = {[poseidonHash [nullifier (w_coin p); w_poolId p; w_chainId p]]} ∪ spent_set w /\
    ShieldedPool.noteSupply (pool w') a = ShieldedPool.noteSupply (pool w) a - withdrawnValue p.
Proof.
  intros Hd Hh Hf L0 w notes a Hok Hw Hfee Hst Has R Hcomp Htok Hv Htr.
  set (Q := (note_queries (coin_note (w_coin p)) ++ concat (map note_queries notes) ++ queries_by l w0 L0)%list).
  destruct (accident_or_free HP Q) as [|Hfree]; [by left|right].
  assert (note_queries (coin_note (w_coin p)) ⊆ Q /\ concat (map note_queries notes) ⊆ Q /\ queries_by l w0 L0 ⊆ Q) as (Q1 & Q2 & Q3)
    by (unfold Q; set_solver).
  destruct (run_covered HP CL CLL ED ER EL BL PC VL XT DP pid cid window t w0 l Q Hd Hh Hf Q3 Hfree) as [Hls Hc].
  pose proof (run_ledger l w0 _ Q (deploy_ledger _ _ _ _ _ Hd) Hh Hfree Q3) as Hl. fold L0 notes w in Hls, Hc, Hl.
  destruct (Hc a Htok) as [Hs Hb].
  pose proof (lo_tree _ _ Hl) as Ht. fold notes in Ht. rewrite Hls in Ht.
  apply (withdraw_accepted c w p to (leaves_by l w0) m prove t'); try done. split; [|done].
  assert (value (w_coin p) <= unspent_of w a notes); [|fold a; lia].
  destruct R as [_ (_ & Rl) _ _ (Rp & Rc & _) _ Rn]. rewrite Rp, Rc in Rn.
  destruct Hst as (Hat & _). rewrite Rl in Hat. unfold js_at in Hat. destruct (w_stateIndex p <? 0); [done|].
  apply (coin_within_supply HP ER Q w notes (w_coin p) (Z.to_nat (w_stateIndex p))); try done; [apply (lo_nonneg _ _ Hl)|].
  rewrite Hls. apply lookup_take_Some in Hat. apply Hat.
Qed.

(** The state for the withdrawal of [ex_withdrawal] to the address 2560. *)
Definition ex_pay (z : Z) : Tokens := match toy_move (tokens (run ex_setup ex_world)) 1280 25600 2560 z with Ok t => t | Err _ => ex_tokens end.

Lemma ex_honest : Forall honest ex_setup.
Proof.
  unfold ex_setup. cbn [map]. repeat (apply list.Forall_cons; split; [first [exact I | by apply ex_honest_verifier]|]). by apply list.Forall_nil.
Qed.
Lemma ex_fair : along fair ex_setup ex_world.
Proof. unfold ex_setup. cbn [map]. walk. Qed.

Lemma ex_ready : ready (ex_ctx 40) (run ex_setup ex_world) ex_withdrawal 2560 (leaves_by ex_setup ex_world) 1.
Proof.
  split.
  - split_and!; [vm_compute; reflexivity..|]. apply (bool_decide_eq_true_1 _). vm_compute. reflexivity.
  - split; [vm_compute; lia|vm_compute; reflexivity].
  - vm_compute. discriminate.
  - vm_compute. reflexivity.
  - split_and!; vm_compute; first [reflexivity | split; [discriminate|reflexivity]].
  - split_and!; [vm_compute; reflexivity..| | |]; vm_compute; first [discriminate | split; [discriminate|reflexivity]].
  - apply (bool_decide_eq_false_1 _). vm_compute. reflexivity.
Qed.

Lemma ex_leaf_one : leaf_at [commitment ex_in] 12 0 (commitment ex_in).
Proof. split_and!; [reflexivity|cbn; lia|]. repeat constructor; apply poseidon_range. Qed.

Lemma ex_complete v c : toy_circuit v = Some c -> complete c v (fun i => i).
Proof. intros H i Hi. cbn. rewrite H, Hi. by rewrite bool_decide_true. Qed.

Lemma unspent_note_withdrawable_witness :
  let L0 := {| minted := []; reclaims := ∅ |} in
  let w := run ex_setup ex_world in
  let notes := minted (ledger_by ex_setup ex_world L0) in
  map n_value notes = [100] /\
  (hash_accident _ (note_queries (coin_note ex_in) ++ concat (map note_queries notes) ++ queries_by ex_setup ex_world L0) \/
   exists i w', withdraw_input ex_withdrawal = Ok i /\ exec (ex_ctx 40) (Withdraw 2560 i (public_signals CWithdraw i)) w = Ok w' /\
     tokens w' = ex_pay 58 /\ spent_set w' = {[poseidonHash [nullifier ex_in; 9; 10]]} ∪ spent_set w /\
     ShieldedPool.noteSupply (pool w') 5 = ShieldedPool.noteSupply (pool w) 5 - 60).
Proof.
  split; [vm_compute; reflexivity|].
  refine (unspent_note_withdrawable Proving.fieldPoseidon Proving.fieldPoseidon_laws Proving.plainCircomlib Proving.plainCircomlib_laws _ toyErc20
    toyErc20_laws toyBalance_laws toyPrecompiles toyVerifier_laws toyExtractor toyDeployed 9 10 5 ex_tokens ex_world ex_setup
    (ex_ctx 40) ex_withdrawal 2560 1 (fun i => i) (ex_pay 58) ex_world_deployed
    ex_honest ex_fair (ex_ok 100 5 "a" _ _) _ _ ex_leaf_one ex_label ex_ready (ex_complete _ _ _) _ _ _).
  - split; [discriminate|reflexivity].
  - split; [discriminate|reflexivity].
  - vm_compute. split; [reflexivity|discriminate].
  - vm_compute. split; discriminate.
  - vm_compute. reflexivity.
  - vm_compute. discriminate.
  - vm_compute. reflexivity.
  - vm_compute. reflexivity.
Defined.

(** ** The settlement of a quote *)

(** C11: nothing in a settlement of a quote names who is paid: the address is in
    neither the proof nor the solver's signature.  Whoever sees a settlement
    that succeeds can send its arguments with another address instead; if the
    token's transfer to that address goes through and leaves the pool no poorer,
    the call succeeds, the credit goes there, and the note is spent. *)
Theorem rfq_credit_redirectable (HP : Poseidon) (ER : Erc20) (PC : Precompiles) (DP : Deployed) (c c' : Ctx) (to thief : Address)
    (q ih fr pk : Z) (sg : string) (pf : Groth16Proof) (pub : list Z) (w w' : World) (t' : Tokens) :
  exec c (RfqSettle to q ih fr pk sg pf pub) w = Ok w' -> block_number c' = block_number c ->
  let tok := token_of (pool w) (pub_at pub 17) in
  safeTransfer (tokens w) tok poolAddr thief (pub_at pub 2) = Ok t' ->
  balanceOf (tokens w') tok poolAddr <= balanceOf t' tok poolAddr ->
  exists w2, exec c' (RfqSettle thief q ih fr pk sg pf pub) w = Ok w2 /\ tokens w2 = t' /\ spent_set w2 = spent_set w' /\
    logs w2 = (logs w ++ [EvRfqSettled q thief (pub_at pub 0) (pub_at pub 2)])%list.
Proof. apply rfq_redirect. Qed.

Definition ex_rfq_input : input := match withdraw_input
  {| w_coin := ex_in; withdrawnValue := 60; w_stateLeaves := [commitment ex_in]; w_stateIndex := 0; w_assocLabels := ex_labels;
     w_labelIndex := 1; w_poolId := 9; w_chainId := 10;
     binding := {| operationType := 3; recipientHash := 0; relayerFee := 0; deadlineLedger := 50; quoteHash := Some 2;
                   intentHash := Some 3; fillReceiptHash := Some 4; destinationDomain := None; destinationRecipient := None;
                   maxFee := None; minFinalityThreshold := None |} |} with Ok i => i | Err _ => [] end.
Definition ex_rfq (to : Address) : Call :=
  RfqSettle to 512 768 1024 88 "signed" ex_rfq_input (public_signals CWithdraw ex_rfq_input).
Definition ex_rfq_world : World := run (ex_setup ++ [TCall (ex_ctx 1) (SetAuthorizedSolver 88 true)]) ex_world.
Definition ex_rfq_paid : World := match exec (ex_ctx 40) (ex_rfq 2560) ex_rfq_world with Ok w => w | Err _ => ex_world end.

Lemma rfq_credit_redirectable_witness :
  balanceOf (tokens ex_rfq_paid) 1280 2560 = 60 /\
  exists w2, exec {| sender := 666; block_number := 40; hasRole := fun _ => false |} (ex_rfq 666) ex_rfq_world = Ok w2 /\
    balanceOf (tokens w2) 1280 666 = 60.
Proof.
  split; [vm_compute; reflexivity|].
  assert (is_ok (exec (ex_ctx 40) (ex_rfq 2560) ex_rfq_world) = true) as H by (vm_compute; reflexivity).
  destruct (rfq_credit_redirectable Proving.fieldPoseidon toyErc20 toyPrecompiles toyDeployed (ex_ctx 40)
    {| sender := 666; block_number := 40; hasRole := fun _ => false |} 2560 666 512 768 1024 88 "signed"
    ex_rfq_input (public_signals CWithdraw ex_rfq_input) ex_rfq_world ex_rfq_paid
    (match toy_move (tokens ex_rfq_world) 1280 25600 666 60 with Ok t => t | Err _ => ex_tokens end)) as (w2 & E & Et & _).
  - unfold ex_rfq_paid. unfold ex_rfq in *. by destruct (exec _ _ _).
  - reflexivity.
  - vm_compute. reflexivity.
  - vm_compute. discriminate.
  - exists w2. split; [exact E|]. rewrite Et. vm_compute. reflexivity.
Defined.

(** ** The committee threshold *)

(** C10: the contract and [verifySignedBatch] accept the same batches.  Given
    distinct 32-byte words for the keys involved, and an Ed25519 contract that
    answers as the off-chain verifier does on the batch's signatures, the
    threshold check of the contract passes exactly when the committee is not
    empty and the TypeScript check accepts the batch. *)
Theorem threshold_agrees (PC : Precompiles) (N : Nacl) (word : string -> Z) (ed : Address) (bh : Z) (batch : SignedMatchBatch)
    (committee : list CommitteeNodeInfo) :
  let keys := (map signingPubkey committee ++ map ns_signingPubkey (signatures batch))%list in
  (forall k k', k ∈ keys -> k' ∈ keys -> word k = word k' -> k = k') ->
  (forall s, s ∈ signatures batch ->
     ed25519_verify ed (word (ns_signingPubkey s)) (bytesBE 32 bh) (signature s) = verifyNodeSignature (batchId batch) (matches batch) s) ->
  CommitteeLib.verifyThreshold (map (fun n => word (signingPubkey n)) committee) ed bh (words_of word batch) (map signature (signatures batch)) = Ok tt <->
  committee <> [] /\ verifySignedBatch batch committee = Ok true.
Proof. apply threshold_iff. Qed.

Definition toy_word (s : string) : Z := foldl (fun acc c => acc * 256 + Z.of_nat (Ascii.nat_of_ascii c)) 1 (String.list_ascii_of_string s).
Definition two_of_three : SignedMatchBatch := toy_batch "b1" [toy_node "1"; toy_node "2"].

(** An Ed25519 contract that answers as the off-chain verifier on one batch. *)
Definition batchPrecompiles (b : SignedMatchBatch) : Precompiles := {|
  Groth16Proof := input;
  verifyProof := fun _ _ _ => Ok false;
  ed25519_verify := fun _ pk _ sg =>
    match List.find (fun s => (toy_word (ns_signingPubkey s) =? pk) && String.eqb (signature s) sg) (signatures b) with
    | Some s => @verifyNodeSignature toyNacl (batchId b) (matches b) s | None => Ok false end;
  sha256_word := fun l => foldl (fun acc b => acc * 256 + b) 0 l |}.

Lemma threshold_agrees_witness :
  @CommitteeLib.verifyThreshold (batchPrecompiles two_of_three) (map (fun n => toy_word (signingPubkey n)) (map nodePublicInfo toy_nodes)) 1 7
    (words_of toy_word two_of_three) (map signature (signatures two_of_three)) = Ok tt.
Proof.
  apply (threshold_agrees (batchPrecompiles two_of_three) toyNacl toy_word 1 7 two_of_three (map nodePublicInfo toy_nodes)).
  - intros k k' Hk Hk'. apply list_elem_of_In in Hk, Hk'. vm_compute in Hk, Hk'.
    repeat destruct Hk as [<-|Hk]; try contradiction Hk; repeat destruct Hk' as [<-|Hk']; try contradiction Hk';
      vm_compute; first [reflexivity|discriminate].
  - intros s Hs. apply list_elem_of_In in Hs. vm_compute in Hs. repeat destruct Hs as [<-|Hs]; try contradiction Hs; vm_compute; reflexivity.
  - split; [discriminate|vm_compute; reflexivity].
Defined.
